(* ===== verification/_CoqProject ===== *)
-Q . S2P
Prelude.v
GoStrings.v
SessionKey.v
SummaryStore.v
GroupMessage.v
SessionState.v
History.v
Barrier.v
BotLoop.v
GroupCompact.v
Persist.v
Router.v
Secrets.v
RouterManager.v
Compactor.v
Sequence.v
Session.v
PublicReply.v
SessionManager.v
Normalize.v
Jsonl.v
Access.v
Risk.v
AuditLog.v
Watchdog.v
Controller.v
Brain.v
Catalog.v
Reflector.v
GroupBrain.v
GroupKeys.v
Members.v
Writer.v
Interact.v
Sticker.v
Agent.v
AgentRun.v
AgentSafety.v
Billing.v
EnvFile.v
Settings.v
Admin.v
