(* ===== verification/Prelude.v ===== *)
(** FrostAgent: a verification development of the agent's conversation core, of
    its model loop, of its long-term memory, of its security gate, of its model
    router, of its billing, of its settings and of its administrators' commands.

    FrostAgent is a chat agent in Go.  Platform adapters deliver messages; the
    engine ([internal/llm]) keeps a session per conversation, runs a language
    model with tools, compacts long histories in the background and distils
    memories ([internal/memory]); a security controller ([internal/security]) decides who may talk
    to it and what content may pass; a model router decides which model serves a
    workload.  Every file below models one part; names
    of definitions are those of the code, with a prefix where Go uses a
    receiver.

    * The parts

    - [Prelude] (this file): Go results, machine integers, times, lists, stable
      sorting, handles, the automation ([guards], [boolp]) and the hint base.
    - [GoStrings]: Go strings as bytes; the functions of [strings] and the
      decoding of runes.
    - [SessionKey] (memory/owner_type.go, memory/route_registry.go): canonical
      session keys, owners, aliases, routes.
    - [SummaryStore] (groupsummary/store.go): persistent group summaries with
      generations that refuse stale writes.  [Persist] (llm/group_compactor.go):
      the background workers that write them, retry and roll back.  [Compactor]
      (llm/group_compactor.go): when a compaction starts, and its phases.
    - [GroupMessage] (llm/session.go): group messages and their text form.
    - [SessionState] (llm/session.go): the data of a session, as the parts the
      operations touch (history, compaction, tasks, bots, lanes).
    - [History]: the private history and its compaction.  [Barrier]: the commit
      barriers of background workers, behind the class [CommitBarrier].
      [BotLoop]: the budget of bot-to-bot messages.  [GroupCompact]: the group
      buffer, staging, snapshots, rollback and distillation.  [Sequence]
      (llm/sequence.go, llm/inflight.go): the execution lanes of a sender.
      [Session]: runs, extractions, pending turns, [Clear] and [ResetSession].
      [PublicReply] (llm/public_replies.go): replies sent before the final
      answer.  [SessionManager]: the sessions of an instance.
    - [Router] (modelrouter/manager.go, types.go): configurations, how they are
      normalized and validated, and what a workload in a group resolves to.
      [Secrets] (modelrouter/api_key.go, windows_credential*.go): API keys, staged
      and applied with a publication or not at all.  [RouterManager]
      (modelrouter/manager.go): loading, drafts, publication.
    - [Normalize] (security/normalization.go): what undoes a disguise before
      inspection, over the code points of a string.
    - [Jsonl] (llm/group_compactor.go): group messages as the model sees them.
    - [Access] (security/access.go): principals, locks and strikes.
    - [Risk] (security/signals.go, security/classifier_llm.go): ratings, and the
      classifier that asks a language model.
    - [AuditLog] and [Watchdog] (security/watchdog.go): the audit trail, and the
      evaluation that rates a content and decides.
    - [Controller] (security/mode.go, security/controller.go,
      llm/security_gate.go): modes, the ingress gate and the engine's gate.
    - [Brain] (memory/models.go, store.go, reader.go, gateway.go, export.go):
      the memories of users in one file.  [Catalog] (memory/catalog.go): the
      index of topics that prompts show.  [Reflector] (memory/reflector.go): what
      a model's answer may do to them; merging itself ([reflect_brain] of
      [Brain]) is shared with groups.
    - [GroupBrain] (memory/group_store.go, grounding.go): the memories of a
      group, which know the messages they come from.  [GroupKeys]
      (memory/group_store.go): the directories of groups.  [Members]
      (memory/group_profile.go, group_store.go, reflector.go): profiles of
      members and the reflection of a group.  [Writer] (memory/writer.go,
      grounding.go): what is remembered of a conversation.
    - [Interact] (no code of its own): programs that ask their environment, as
      trees over the answers, their runs, and a rely-guarantee logic for them.
      [Sticker] (llm/sticker_activity.go, sticker_pair.go, proactive_sticker.go,
      internal/sticker): when an instance owes a sticker, and what of a tool's
      result is one.  [Agent] (llm/agent.go, inflight.go, tool_execution.go): the
      model loop, from a user's message to the final answer.  [AgentRun] and
      [AgentSafety]: what holds of all its runs.
    - [Billing] (internal/billing, llm/inflight.go, run_context.go): prices, the
      configuration of the billing client, and the ledger of a run with the
      workers that settle its calls.
    - [EnvFile] (instanceconfig/envfile.go): the settings file as statements, and
      how one is changed in place.  [Settings] (instanceconfig/config.go, batch.go):
      the stores of settings, over a file or a table of a database, and batches of
      changes over several stores.
    - [Admin] (admincmd/auth.go, command.go, bridge.go, executor.go, and the
      admin_command.go of both adapters): who is an administrator, how a command
      is cut out of a message, and what it does to the access store, the sessions
      and the summaries.

    The session parts work on one record of a session; operations that lock the
    session's mutex are functions on it, and what runs between two critical
    sections is a step of its own ([reset_begin] and [reset_end], [wait_over],
    the begin and finish of a bot-loop observation).  Concurrency is a step
    relation or an arbitrary interleaving of such operations: [do_event] of
    [Persist], [world_step] of [Compactor], which contains it and the operations
    of [GroupCompact], [turn_step] of [Sequence], the protocol of [Barrier], [run_ops] of [Session], [mgr_run] of
    [SessionManager], [history] of [RouterManager], [billing_run_] of [Billing].  The stores of the memory pass
    their file; a save meets its barrier through the class [CommitBarrier], and a
    reflection leaves room for what others do to the files while the model
    answers ([meanwhile]).  The security parts pass the access file and the audit
    file explicitly; [Watchdog] calls [Normalize], [Access], [Risk] and
    [AuditLog], [Controller] calls [Watchdog] and [Access], and [Admin] calls
    [Controller], [SessionManager], [History] and [SummaryStore].  The model loop
    meets all of them: whatever it asks of a session, of the watchdog, of a tool, of
    the billing service or of a platform is an event of [Agent], answered by an
    environment about which a theorem assumes what it names ([steady], [provider])
    and nothing else.

    * What the theorems show

    - Sessions: a reset leaves nothing in flight that could still write, and
      what a stale caller attempts afterwards changes nothing; turns of a lane
      run one at a time in arrival order, an interrupt cancels the older ones
      and inherits their transcript and ledger; at most one run is active;
      pending turns are handed on once, in order.
    - Compaction: one compaction runs per conversation, automatic ones keep their
      distance, a full batch is never forgotten, and what the model answers
      reaches the session and the disk; a commit replaces exactly the snapshot's
      messages; a stale, cancelled or repeated commit changes nothing; dropping a message rolls a
      summary back and revokes its distillations; buffers stay bounded.
    - Barriers: no write starts after an abort returned, and an abort returns.
    - Identity and persistence: aliases are one class, one session per
      conversation, a summary survives a restart, a failed write changes nothing.
    - Background persistence: a pending summary has exactly one worker and is
      written within seven of its steps once the disk works; a summary rolled
      back to nothing stays deleted; a summary queued while its worker leaves is
      forgotten (a defect of the code, with [older_summary_wins]).
    - Model routing: the manager always routes to an enabled model or says that
      the workload is disabled; a publication happens as a whole or not at all
      (but for [failed_publish_loses_credential], a defect of the code); a page
      publishes the routes it saved or nothing; the status of a secret is true;
      overrides concern their group only, in any order.
    - Security: inspection fails closed; only a user's own critical message is
      held against them; strikes lock by their specification; a locked principal
      gets through no gate; an attacker who repeats a payload is locked out, end
      to end; normalization terminates, uncovers nested escapes, leaves nothing
      hidden, and accuses no text for its typography; prompt text cannot leave
      its element, and no group message forges a record or leaves its frame; model answers are typed; the audit file is a bounded log.
    - Memory: a save happens as a whole, between the halves of its barrier, or
      not at all; whatever the model answers and others do meanwhile, a reflection
      ends and loses nothing, every merged memory is archived, and what was
      edited meanwhile stays; no member is renamed without a memory that is
      still there; a group remembers only what was said, once however often a
      message is read, and forgets it with the message (but for
      [withdrawal_misses_merged]); users are reminded of their own memories; an
      index of topics is one bounded line, a profile cannot leave its element,
      and every group has a directory of its own.
    - The model loop: no tool runs on arguments the watchdog did not see, no
      message is sent and no answer given that it did not let through; a canceled
      run does nothing more and ends silent; the model is only ever shown
      conversations whose calls are all answered; every call of the model is paid
      for by one reservation; the loop ends, within its limit; a turn the user did
      not start sends at most one plain reply to one message.
    - Billing: however workers and loop interleave, each call is settled or
      released once and the totals are those of the calls; a receipt waits for its
      calls; a price is exact, rounded up, as long as it fits ([overflow_is_free]:
      it is nothing where it does not).
    - Settings: an edit of the file changes one setting and keeps the text of the
      others; what a store answers is what the database says, whatever operations
      ran and failed; a batch over several stores happens as a whole or not at all;
      settings in a file survive a restart, and no file that could not be read is
      written over.
    - Commands: who is no administrator can do nothing by a command, and is told
      nothing; a command changes the access store for the one user it names, bans
      neither an administrator nor its caller, and touches no session but its own;
      the usage text is true for every prefix, and a target may be written as an
      identifier or as a mention ([stray_bytes]: a mention may not end in an
      ideographic space).

    * Bounds and fuel

    Times are nanoseconds since the zero time, as unbounded integers with the
    saturating difference of [time.Sub].  Sequence numbers and generations are
    [uint64] with wrap-around ([u64]); theorems that need a counter not to have
    wrapped say so.  Scanners recurse on fuel equal to the length of their
    input: every step consumes a byte or more ([rune_count_le],
    [find_all_fuel], [unescape_escaped]).  [passes] runs at most 3 passes, as
    the code does.  [settle_group_id] strips a prefix per step and needs as many
    steps as the identifier is long ([canonical_group_id_settled]); a reflection
    draws identifiers from a list until one is new, and ends if the list holds
    as many new ones as merges ([reflection_ends]).  The model loop iterates on
    fuel: the configured number of iterations, and four for stickers, are enough
    for it to have a result ([loop_ends]).  Prices are [int64] with wrap-around.

    * Parameters

    Tables of [unicode] ([UnicodeCase], [UnicodeTables], [UnicodePrint],
    [UnicodeLetter], [UnicodeDigit]), the order in which a map is visited ([MapOrder]), regular-expression
    replacement, SHA-256 ([Digest]), JSON codecs ([MessageJSON], [AgentJSON] among
    them), the parsing of numbers in settings ([ConfigParsing]), the dotenv library
    ([Dotenv]), the statements on the table of settings ([Database]), the dynamic type of an error, the file
    system's answers ([faults], [audit_env]), the clock and random numbers, and
    the language model are arguments; hypotheses about them are class laws with
    an instance ([UnicodeCaseLaws], [LowerLaws], [WincredLaws], [AuditCodec],
    [DigestLaws], [DotenvLaws], [DatabaseLaws], [FoldLaws]).  Error values are their texts,
    without the values [%q] would quote where a definition says so.

    * Not modelled

    - The SQL backends of the access, audit, summary and memory stores and of the
      model router (those of the settings are: [Database] with its laws): queries of a
      database that is not in the repository; the file backends, which promise
      the same, are modelled.
    - How a prompt is put together and pictures are described, token estimates and
      the HTTP clients of language models; tools, MCP, skills, the sandbox and the
      adapters but for their commands: they call network services and the parts above.  A tool is, to
      the model loop, an event with any result.  The adapters call [Done] without [Wait] only when a turn's context is already cancelled,
      which is why [Done] may be applied to any turn here.
    - Embeddings and retrieval by vectors, the manager of group stores, and the
      migration of old directories: an external service, and walks over
      directories.
    - Token usage, backup, instance management, the administration services and
      the log: further components, listed in the manifest. *)

From Stdlib Require Export ZArith Lia.
From stdpp Require Export sorting.
From stdpp Require Export base numbers option strings pretty gmap list.

(** * Notations *)

Declare Scope frost_scope.
Delimit Scope frost_scope with frost.

(** A Go [(T, error)] result. *)
Inductive res (E A : Type) : Type :=
  | Ok (a : A)
  | Err (e : E).
Arguments Ok {E A} a.
Arguments Err {E A} e.

Notation "'let!' x ':=' m 'in' k" :=
  (match m with Ok x => k | Err e => Err e end)
  (at level 10, x name, m at level 100, k at level 200) : frost_scope.

Lemma not_or_and (P Q : Prop) : ~ (P \/ Q) -> ~ P /\ ~ Q.
Proof. tauto. Qed.

(** * Maps *)

(** Go visits a map in any order, another one each time. *)
Class MapOrder := {
  range {A} : nat -> gmap string A -> list (string * A);
  range_perm {A} n (m : gmap string A) : range n m ≡ₚ map_to_list m;
}.

(** Maps visited in the order of their representation. *)
Definition list_order : MapOrder := {| range A _ m := map_to_list m; range_perm A _ m := reflexivity (map_to_list m) |}.

(** * Machine integers *)

Section machine_integers.
Local Open Scope Z_scope.

(** [uint64] and [int64] values are integers reduced to their width. *)
Definition u64_max : Z := 2 ^ 64.
Definition u64 (n : Z) : Z := n `mod` u64_max.
Definition u64_succ (n : Z) : Z := u64 (n + 1).
Definition i64 (n : Z) : Z := (n + 2 ^ 63) `mod` 2 ^ 64 - 2 ^ 63.

Definition is_u64 (n : Z) : Prop := 0 <= n < u64_max.

Lemma u64_succ_small n : 0 <= n -> n + 1 < u64_max -> u64_succ n = n + 1.
Proof. intros ??. unfold u64_succ, u64. apply Z.mod_small. lia. Qed.

Lemma u64_is_u64 n : is_u64 (u64 n).
Proof. unfold is_u64, u64, u64_max. apply Z.mod_pos_bound. lia. Qed.

(** Fewer than 2^64 increments change a counter. *)
Lemma u64_add_ne g n : is_u64 g -> 0 < n < u64_max -> u64 (g + n) <> g.
Proof.
  unfold is_u64, u64, u64_max. intros Hg Hn E.
  destruct (Z.lt_ge_cases (g + n) (2 ^ 64)).
  - rewrite Z.mod_small in E; lia.
  - rewrite Z.mod_eq in E by lia. nia.
Qed.

Lemma i64_small n : - 2 ^ 63 <= n < 2 ^ 63 -> i64 n = n.
Proof. intros ?. unfold i64. rewrite Z.mod_small; lia. Qed.

Lemma i64_range n : - 2 ^ 63 <= i64 n < 2 ^ 63.
Proof.
  unfold i64. pose proof (Z.mod_pos_bound (n + 2 ^ 63) (2 ^ 64)). lia.
Qed.
End machine_integers.

(** * Time

    A [time.Time] is the number of nanoseconds since the zero time, so that
    [IsZero] is a comparison with 0; [Sub] saturates at the [int64] bounds as
    the standard library documents. *)

Section time.
Local Open Scope Z_scope.

Definition time_is_zero (t : Z) : bool := t =? 0.
Definition time_after (t u : Z) : bool := u <? t.
Definition time_before (t u : Z) : bool := t <? u.
Definition time_sub (t u : Z) : Z := Z.max (- 2 ^ 63) (Z.min (2 ^ 63 - 1) (t - u)).

Definition second : Z := 10 ^ 9.
Definition minute : Z := 60 * second.
Definition hour : Z := 60 * minute.

Lemma time_sub_small t u : - 2 ^ 63 <= t - u < 2 ^ 63 -> time_sub t u = t - u.
Proof. unfold time_sub. lia. Qed.

Lemma time_sub_lt t u d :
  - 2 ^ 63 < d < 2 ^ 63 -> time_sub t u < d <-> t - u < d.
Proof. unfold time_sub. lia. Qed.
End time.

(** * Lists *)

(** [l[len(l)-n:]]: the last [n] elements. *)
Definition lastn {A} (n : nat) (l : list A) : list A := drop (length l - n) l.

(** Go's [append(l[:i], l[i+1:]...)] at the first index satisfying [p]. *)
Fixpoint remove_first {A} (p : A -> bool) (l : list A) : list A :=
  match l with
  | [] => []
  | x :: l => if p x then l else x :: remove_first p l
  end.

(** Index of the first element satisfying [p]. *)
Fixpoint find_index {A} (p : A -> bool) (l : list A) : option nat :=
  match l with
  | [] => None
  | x :: l => if p x then Some 0 else S <$> find_index p l
  end.

(** The longest prefix whose elements satisfy [p], and what follows it. *)
Fixpoint take_while {A} (p : A -> bool) (l : list A) : list A :=
  match l with
  | [] => []
  | x :: l => if p x then x :: take_while p l else []
  end.

Fixpoint drop_while {A} (p : A -> bool) (l : list A) : list A :=
  match l with
  | [] => []
  | x :: l => if p x then drop_while p l else x :: l
  end.

(** Membership as a boolean, Go's [slices.Contains]. *)
Definition contains `{EqDecision A} (x : A) (l : list A) : bool :=
  bool_decide (x ∈ l).

Lemma find_index_Some {A} (p : A -> bool) l i :
  find_index p l = Some i <->
  exists x, l !! i = Some x /\ p x = true /\ forall j y, j < i -> l !! j = Some y -> p y = false.
Proof.
  revert i; induction l as [|a l IH]; intros i; simpl.
  - split; [done|]. by intros (x & ? & _).
  - destruct (p a) eqn:Ha.
    + split.
      * intros [= <-]. exists a. repeat split; [done|]. lia.
      * intros (x & Hx & Hp & Hlt). destruct i as [|i]; [done|].
        specialize (Hlt 0 a ltac:(lia) eq_refl). congruence.
    + rewrite fmap_Some. setoid_rewrite IH. split.
      * intros (j & (x & ? & ? & Hlt) & ->). exists x. repeat split; [done..|].
        intros [|j'] y ? Hy; simplify_eq/=; [done|]. eapply Hlt; [|done]. lia.
      * intros (x & Hx & Hp & Hlt). destruct i as [|k]; simplify_eq/=; [congruence|].
        exists k. split; [|done]. exists x. repeat split; [done..|].
        intros j y ? Hy. apply (Hlt (S j)); [lia|done].
Qed.

Lemma find_index_None {A} (p : A -> bool) (l : list A) : find_index p l = None <-> forall x, x ∈ l -> p x = false.
Proof.
  induction l as [|x l IH]; cbn [find_index]; [split; [intros _ ? ?%elem_of_nil; done|done]|]. destruct (p x) eqn:E.
  - split; [done|]. intros Hall. specialize (Hall x). rewrite E in Hall. by specialize (Hall (list_elem_of_here _ _)).
  - destruct (find_index p l) as [j|]; cbn; split; try done.
    + intros Hall. destruct IH as [_ IH]. discriminate IH. intros y Hy. apply Hall. by right.
    + intros _ y [->|Hy]%elem_of_cons; [done|]. by apply IH.
Qed.

Section lists.
Context {A : Type}.
Implicit Types l : list A.

Lemma length_lastn n l : length (lastn n l) = Nat.min n (length l).
Proof. unfold lastn. rewrite length_drop. lia. Qed.

Lemma lastn_all n l : length l <= n -> lastn n l = l.
Proof. intros. unfold lastn. by replace (length l - n) with 0 by lia. Qed.

Lemma lastn_suffix n l : lastn n l `suffix_of` l.
Proof. exists (take (length l - n) l). symmetry. apply take_drop. Qed.

Lemma take_drop_while (p : A -> bool) l : take_while p l ++ drop_while p l = l.
Proof. induction l as [|x l IH]; simpl; [done|]. destruct (p x); simpl; congruence. Qed.

Lemma take_while_Forall (p : A -> bool) l : Forall (fun x => p x = true) (take_while p l).
Proof. induction l as [|x l IH]; simpl; [done|]. destruct (p x) eqn:?; auto. Qed.

Lemma drop_while_head (p : A -> bool) l x l' :
  drop_while p l = x :: l' -> p x = false.
Proof.
  induction l as [|y l IH]; simpl; [done|].
  destruct (p y) eqn:?; [done|]. by intros [= <- <-].
Qed.

Lemma remove_first_sublist (p : A -> bool) l : remove_first p l `sublist_of` l.
Proof.
  induction l as [|x l IH]; simpl; [done|].
  destruct (p x); [by apply sublist_cons|by apply sublist_skip].
Qed.

Lemma sublist_map {B} (f : A -> B) l k : l `sublist_of` k -> map f l `sublist_of` map f k.
Proof. induction 1; simpl; by constructor. Qed.

Lemma filter_id (P : A -> Prop) `{!forall x, Decision (P x)} l :
  Forall P l -> filter P l = l.
Proof.
  induction 1 as [|x l ? _ IH]; [done|]. rewrite filter_cons, decide_True by done.
  by rewrite IH.
Qed.

Lemma filter_elem_iff (P Q : A -> Prop) `{!forall x, Decision (P x), !forall x, Decision (Q x)} l :
  (forall x, x ∈ l -> P x <-> Q x) -> filter P l = filter Q l.
Proof.
  induction l as [|x l IH]; intros HPQ; [done|]. rewrite !filter_cons.
  assert (P x <-> Q x) by (apply HPQ; by left).
  rewrite IH by (intros y Hy; apply HPQ; by right). repeat case_decide; tauto || done.
Qed.

Lemma filter_none (P : A -> Prop) `{!forall x, Decision (P x)} l :
  Forall (fun x => ~ P x) l -> filter P l = [].
Proof.
  induction 1 as [|x l ? _ IH]; [done|]. by rewrite filter_cons, decide_False.
Qed.

(** On a list where at most one element satisfies [p], removing the first
    such element is filtering. *)
Lemma remove_first_filter (p : A -> bool) l :
  (forall x y, x ∈ l -> y ∈ l -> p x = true -> p y = true -> x = y) -> NoDup l ->
  remove_first p l = filter (fun x => p x = false) l.
Proof.
  induction l as [|x l IH]; simpl; intros Huniq Hnd; [done|].
  apply NoDup_cons in Hnd as [Hx Hnd]. rewrite filter_cons.
  destruct (p x) eqn:Hp; simpl.
  - symmetry. apply filter_id.
    apply Forall_forall. intros y Hy.
    destruct (p y) eqn:Hpy; [|done].
    assert (x = y) as -> by (apply Huniq; set_solver). done.
  - f_equal. apply IH; [|done].
    intros; apply Huniq; set_solver.
Qed.
End lists.

(** [sort.SliceStable]: insertion after the elements it does not precede. *)
Fixpoint insert_stable {A} (less : A -> A -> bool) (x : A) (l : list A) : list A :=
  match l with
  | [] => [x]
  | y :: l => if less x y then x :: y :: l else y :: insert_stable less x l
  end.

Definition sort_stable {A} (less : A -> A -> bool) (l : list A) : list A :=
  fold_left (fun acc x => insert_stable less x acc) l [].

Section sort_stable.
Context {A : Type} (less : A -> A -> bool).

Lemma insert_stable_perm x l : insert_stable less x l ≡ₚ x :: l.
Proof.
  induction l as [|y l IH]; simpl; [done|]. destruct (less x y); [done|].
  rewrite IH. apply Permutation_swap.
Qed.

Lemma sort_stable_perm l : sort_stable less l ≡ₚ l.
Proof.
  unfold sort_stable. enough (forall acc, fold_left (fun acc x => insert_stable less x acc) l acc ≡ₚ acc ++ l)
    as H by apply (H []).
  induction l as [|x l IH]; intros acc; simpl; [by rewrite app_nil_r|].
  rewrite IH, insert_stable_perm. apply Permutation_middle.
Qed.

(** No element is preceded by one it is less than. *)
Fixpoint ordered (l : list A) : Prop :=
  match l with
  | [] => True
  | x :: l => Forall (fun y => less y x = false) l /\ ordered l
  end.

Hypothesis less_asym : forall x y, less x y = true -> less y x = false.
Hypothesis less_trans : forall x y z, less y x = false -> less z y = false -> less z x = false.

Lemma insert_stable_ordered x l : ordered l -> ordered (insert_stable less x l).
Proof.
  induction l as [|y l IH]; simpl; intros H; [auto|]. destruct H as [Hy Hl].
  destruct (less x y) eqn:E; simpl.
  - split; [|auto]. constructor; [auto|].
    eapply Forall_impl; [exact Hy|]. intros z Hz. eauto.
  - split; [|auto]. rewrite insert_stable_perm. auto.
Qed.

Lemma sort_stable_ordered l : ordered (sort_stable less l).
Proof.
  unfold sort_stable. enough (forall acc, ordered acc ->
    ordered (fold_left (fun acc x => insert_stable less x acc) l acc)) as H by (by apply H).
  induction l as [|x l IH]; intros acc Hacc; simpl; [done|].
  by apply IH, insert_stable_ordered.
Qed.

(** Where unrelated elements are equal, the order is unique. *)
Lemma ordered_unique l1 l2 :
  ordered l1 -> ordered l2 -> l1 ≡ₚ l2 ->
  (forall x y, x ∈ l1 -> y ∈ l1 -> less x y = false -> less y x = false -> x = y) ->
  l1 = l2.
Proof.
  clear less_asym less_trans.
  revert l2; induction l1 as [|x l1 IH]; intros l2 H1 H2 Hp Htot.
  { symmetry. by apply Permutation_nil_r. }
  destruct l2 as [|y l2]; [by apply Permutation_nil_r in Hp|].
  simpl in H1, H2. destruct H1 as [Hx H1], H2 as [Hy H2].
  rewrite Forall_forall in Hx, Hy.
  assert (x = y) as ->.
  { assert (x ∈ y :: l2) as Hxin by (rewrite <- Hp; set_solver).
    assert (y ∈ x :: l1) as Hyin by (rewrite Hp; set_solver).
    apply elem_of_cons in Hxin as [|Hxin]; [done|].
    apply elem_of_cons in Hyin as [|Hyin]; [done|].
    apply Htot; [set_solver..| |]; auto. }
  f_equal. apply IH; [done..|by apply (inj (cons y))|].
  intros; apply Htot; set_solver.
Qed.
End sort_stable.

(** * Sorted sequences of handles

    Message and buffer handles are allocated from a counter; the lists that
    carry them are strictly increasing. *)

Section handles.
Local Open Scope Z_scope.

(** [handles lo l hi]: [l] is strictly increasing inside [(lo, hi]]. *)
Fixpoint handles (lo : Z) (l : list Z) (hi : Z) : Prop :=
  match l with
  | [] => lo <= hi
  | x :: l => lo < x /\ handles x l hi
  end.

Lemma handles_bounds lo l hi : handles lo l hi -> lo <= hi.
Proof. revert lo; induction l as [|x l IH]; simpl; [done|]. intros lo [? ?%IH]. lia. Qed.

Lemma handles_weaken lo l hi hi' : handles lo l hi -> hi <= hi' -> handles lo l hi'.
Proof. revert lo; induction l as [|x l IH]; simpl; [lia|]. intros lo [? ?] ?. eauto. Qed.

Lemma handles_lower lo lo' l hi : handles lo l hi -> lo' <= lo -> handles lo' l hi.
Proof. destruct l; simpl; intros; [lia|]. destruct H. split; [lia|done]. Qed.

Lemma handles_app lo l1 mid l2 hi :
  handles lo l1 mid -> handles mid l2 hi -> handles lo (l1 ++ l2) hi.
Proof.
  revert lo; induction l1 as [|x l1 IH]; simpl; intros lo.
  - intros ? ?. by eapply handles_lower.
  - intros [? ?] ?. eauto.
Qed.

Lemma handles_snoc lo l hi x : handles lo l hi -> hi < x -> handles lo (l ++ [x]) x.
Proof. intros. apply handles_app with hi; [done|]. simpl. lia. Qed.

Lemma handles_sublist lo l l' hi : l' `sublist_of` l -> handles lo l hi -> handles lo l' hi.
Proof.
  intros Hs. revert lo. induction Hs; simpl; intros lo Hl; [done| |].
  - destruct Hl. eauto.
  - destruct Hl. apply IHHs. eapply handles_lower; [done|lia].
Qed.

Lemma handles_elem lo l hi x : handles lo l hi -> x ∈ l -> lo < x <= hi.
Proof.
  revert lo; induction l as [|y l IH]; simpl; intros lo Hl Hx; [set_solver|].
  destruct Hl as [? Hl]. apply elem_of_cons in Hx as [->|Hx].
  - pose proof (handles_bounds _ _ _ Hl). lia.
  - specialize (IH _ Hl Hx). lia.
Qed.

Lemma handles_NoDup lo l hi : handles lo l hi -> NoDup l.
Proof.
  revert lo; induction l as [|y l IH]; simpl; intros lo Hl; [constructor|].
  destruct Hl as [? Hl]. constructor; [|by eapply IH].
  intros Hy. pose proof (handles_elem _ _ _ _ Hl Hy). lia.
Qed.

(** A strictly increasing list splits at a threshold. *)
Lemma handles_drop_while lo l hi t :
  handles lo l hi ->
  drop_while (fun x => x <=? t) l = filter (fun x => t < x) l.
Proof.
  revert lo; induction l as [|y l IH]; simpl; intros lo Hl; [done|].
  destruct Hl as [? Hl]. rewrite filter_cons.
  destruct (Z.leb_spec y t).
  - rewrite decide_False by lia. eauto.
  - rewrite decide_True by lia. f_equal. symmetry. apply filter_id.
    apply Forall_forall. intros x Hx. pose proof (handles_elem _ _ _ _ Hl Hx). lia.
Qed.
End handles.

(** [alloc n next]: [n] fresh handles from the counter [next], each obtained by
    a wrapping increment, and the counter after them. *)
Fixpoint alloc (n : nat) (next : Z) : list Z * Z :=
  match n with
  | O => ([], next)
  | S n =>
      let next := u64_succ next in
      let '(ids, last) := alloc n next in (next :: ids, last)
  end.

Section alloc.
Local Open Scope Z_scope.

Lemma alloc_length n next : length (alloc n next).1 = n.
Proof.
  revert next; induction n as [|n IH]; intros; simpl; [done|].
  specialize (IH (u64_succ next)). destruct (alloc n _); simpl in *. congruence.
Qed.

(** While the counter does not wrap, the handles are fresh and increasing. *)
Lemma alloc_handles n next :
  0 <= next -> next + Z.of_nat n < u64_max ->
  handles next (alloc n next).1 (alloc n next).2 /\ (alloc n next).2 = next + Z.of_nat n.
Proof.
  revert next; induction n as [|n IH]; intros next Hn Hb; simpl; [lia|].
  rewrite u64_succ_small by lia.
  specialize (IH (next + 1)). destruct (alloc n (next + 1)) as [ids last]; simpl in *.
  destruct IH as [? ->]; [lia..|]. split; [|lia]. split; [lia|done].
Qed.
End alloc.

(** * Automation *)

Create HintDb frost.
Create Rewrite HintDb frost.
#[export] Hint Rewrite @length_lastn @length_app @length_drop @length_take
  @length_fmap alloc_length : frost.
#[export] Hint Resolve handles_weaken handles_snoc handles_app : frost.

(** Case analysis on the guards of a handler. *)
Ltac guard_step :=
  match goal with
  | |- context [match ?x with _ => _ end] =>
      lazymatch x with context [match _ with _ => _ end] => fail | _ => destruct x eqn:? end
  end.
Ltac guards := repeat (simpl; guard_step); simpl in *.

Ltac guard_step_in H :=
  match type of H with
  | context [match ?x with _ => _ end] =>
      lazymatch x with context [match _ with _ => _ end] => fail | _ => destruct x eqn:? end
  end.
Ltac guards_in H := repeat (simpl in H; guard_step_in H); simpl in *.

(** Turn boolean tests in the context into propositions. *)
Ltac boolp :=
  repeat match goal with
  | H : (_ && _) = true |- _ => apply andb_true_iff in H as [??]
  | H : (_ || _) = false |- _ => apply orb_false_iff in H as [??]
  | H : negb _ = true |- _ => apply negb_true_iff in H
  | H : negb _ = false |- _ => apply negb_false_iff in H
  | H : Z.eqb _ _ = true |- _ => apply Z.eqb_eq in H
  | H : Z.eqb _ _ = false |- _ => apply Z.eqb_neq in H
  | H : Z.ltb _ _ = true |- _ => apply Z.ltb_lt in H
  | H : Z.ltb _ _ = false |- _ => apply Z.ltb_ge in H
  | H : Z.leb _ _ = true |- _ => apply Z.leb_le in H
  | H : Z.leb _ _ = false |- _ => apply Z.leb_gt in H
  | H : Nat.ltb _ _ = true |- _ => apply Nat.ltb_lt in H
  | H : Nat.ltb _ _ = false |- _ => apply Nat.ltb_ge in H
  | H : Nat.leb _ _ = true |- _ => apply Nat.leb_le in H
  | H : Nat.leb _ _ = false |- _ => apply Nat.leb_gt in H
  | H : bool_decide _ = true |- _ => apply bool_decide_eq_true in H
  | H : bool_decide _ = false |- _ => apply bool_decide_eq_false in H
  end.
