(* ===== verification/GoStrings.v ===== *)
(** Go strings.

    A Go string is a byte string, modelled by [string] (a list of 8-bit
    characters).  This file models the functions of Go's [strings] package the
    program uses: [TrimSpace], [HasPrefix], [CutPrefix], [Index], [Contains],
    [Cut], [FieldsFunc], [ToLower], [EqualFold], [Join] and the conversion to
    runes.  White space is Unicode white space in its UTF-8 encoding.  The case
    tables of the [unicode] package are not part of the repository: the
    functions that need them outside ASCII take them from the class
    [UnicodeCase]. *)

From S2P Require Import Prelude.
From Stdlib Require Import Ascii.

(** * Bytes *)

Definition to_bytes (s : string) : list ascii := Strings.String.list_ascii_of_string s.
Definition of_bytes (l : list ascii) : string := Strings.String.string_of_list_ascii l.

Definition byte_of (n : nat) : ascii := ascii_of_nat n.

Lemma of_to_bytes s : of_bytes (to_bytes s) = s.
Proof. apply Strings.String.string_of_list_ascii_of_string. Qed.

Lemma to_of_bytes l : to_bytes (of_bytes l) = l.
Proof. apply Strings.String.list_ascii_of_string_of_list_ascii. Qed.

Lemma to_bytes_app s t : to_bytes (s +:+ t) = to_bytes s ++ to_bytes t.
Proof. induction s as [|c s IH]; [done|]. exact (f_equal (cons c) IH). Qed.

Lemma of_bytes_app l k : of_bytes (l ++ k) = of_bytes l +:+ of_bytes k.
Proof. induction l as [|c l IH]; [done|]. exact (f_equal (String.String c) IH). Qed.

#[global] Instance to_bytes_inj : Inj (=) (=) to_bytes.
Proof. intros s t H. by rewrite <- (of_to_bytes s), <- (of_to_bytes t), H. Qed.

(** [len(s)], in bytes. *)
Definition slen (s : string) : nat := length (to_bytes s).

(** * The 256 bytes *)

Definition all_bytes : list ascii := map byte_of (seq 0 256).

Lemma all_bytes_elem b : b ∈ all_bytes.
Proof.
  apply list_elem_of_fmap. exists (nat_of_ascii b).
  split; [by rewrite <- (ascii_nat_embedding b) at 1|].
  apply elem_of_seq. pose proof (nat_ascii_bounded b). lia.
Qed.

(** A property of bytes that holds of all 256. *)
Lemma byte_forall (p : ascii -> bool) : forallb p all_bytes = true -> forall b, p b = true.
Proof. intros H b. rewrite forallb_forall in H. apply H, list_elem_of_In, all_bytes_elem. Qed.

(** * Prefixes *)

Fixpoint cut_prefix (p l : list ascii) : option (list ascii) :=
  match p, l with
  | [], _ => Some l
  | a :: p, b :: l => if Ascii.eqb a b then cut_prefix p l else None
  | _ :: _, [] => None
  end.

Lemma cut_prefix_Some p l r : cut_prefix p l = Some r <-> l = p ++ r.
Proof.
  revert l; induction p as [|a p IH]; intros [|b l]; simpl; try naive_solver.
  destruct (Ascii.eqb_spec a b) as [->|]; [rewrite IH|]; naive_solver.
Qed.

Lemma cut_prefix_app p r : cut_prefix p (p ++ r) = Some r.
Proof. by apply cut_prefix_Some. Qed.

(** [strings.CutPrefix]: the rest after the prefix, or [None]. *)
Definition CutPrefix (s p : string) : option string :=
  of_bytes <$> cut_prefix (to_bytes p) (to_bytes s).

Definition HasPrefix (s p : string) : bool :=
  match CutPrefix s p with Some _ => true | None => false end.

Lemma CutPrefix_Some s p r : CutPrefix s p = Some r <-> s = p +:+ r.
Proof.
  unfold CutPrefix. rewrite fmap_Some. split.
  - intros (l & Hl%cut_prefix_Some & ->). apply (inj to_bytes).
    by rewrite to_bytes_app, to_of_bytes.
  - intros ->. exists (to_bytes r). rewrite to_bytes_app, cut_prefix_app.
    by rewrite of_to_bytes.
Qed.

Lemma CutPrefix_app p r : CutPrefix (p +:+ r) p = Some r.
Proof. by apply CutPrefix_Some. Qed.

Lemma CutPrefix_None s p : CutPrefix s p = None <-> forall r, s <> p +:+ r.
Proof.
  destruct (CutPrefix s p) as [r|] eqn:E; split; try done.
  - intros H. apply CutPrefix_Some in E. by destruct (H r).
  - intros _ r ->. by rewrite CutPrefix_app in E.
Qed.

(** * White space *)

(** The UTF-8 encodings of the code points [unicode.IsSpace] accepts. *)
Definition space_encodings : list (list ascii) :=
  map (map byte_of)
    ([[9]; [10]; [11]; [12]; [13]; [32];
      [194; 133]; [194; 160]; [225; 154; 128]]
     ++ map (fun k => [226; 128; 128 + k]) (seq 0 11)
     ++ [[226; 128; 168]; [226; 128; 169]; [226; 128; 175]; [226; 129; 159];
         [227; 128; 128]]).

(** The first encoding of [encs] that starts [l], removed. *)
Fixpoint strip_one (encs : list (list ascii)) (l : list ascii) : option (list ascii) :=
  match encs with
  | [] => None
  | e :: encs => match cut_prefix e l with Some r => Some r | None => strip_one encs l end
  end.

Fixpoint strip (fuel : nat) (encs : list (list ascii)) (l : list ascii) : list ascii :=
  match fuel with
  | O => l
  | S fuel => match strip_one encs l with Some r => strip fuel encs r | None => l end
  end.

Definition trim_left (l : list ascii) : list ascii := strip (length l) space_encodings l.

(** [DecodeLastRune] finds the encoding that ends the string: its lead byte is
    the last byte that is not a continuation byte, so trimming on the right is
    trimming the reversed encodings off the reversed bytes. *)
Definition trim_right (l : list ascii) : list ascii :=
  rev (strip (length l) (map (@rev ascii) space_encodings) (rev l)).

Definition trim_bytes (l : list ascii) : list ascii := trim_right (trim_left l).

(** [strings.TrimSpace]. *)
Definition TrimSpace (s : string) : string := of_bytes (trim_bytes (to_bytes s)).

(** A byte string with no white space at either end. *)
Definition clean (encs : list (list ascii)) (l : list ascii) : Prop :=
  strip_one encs l = None.
Definition trimmed_bytes (l : list ascii) : Prop :=
  clean space_encodings l /\ clean (map (@rev ascii) space_encodings) (rev l).
Definition trimmed (s : string) : Prop := trimmed_bytes (to_bytes s).

Section trim.
Implicit Types (l r e : list ascii) (encs : list (list ascii)).

Lemma strip_one_Some encs l r :
  strip_one encs l = Some r -> exists e, e ∈ encs /\ l = e ++ r.
Proof.
  induction encs as [|e encs IH]; simpl; [done|].
  destruct (cut_prefix e l) eqn:E.
  - intros [= ->]. exists e. split; [set_solver|]. by apply cut_prefix_Some.
  - intros (e' & ? & ?)%IH. exists e'. set_solver.
Qed.

Lemma clean_spec encs l : clean encs l <-> forall e r, e ∈ encs -> l <> e ++ r.
Proof.
  unfold clean. induction encs as [|e encs IH]; simpl.
  - split; [intros _ e r; set_solver|done].
  - destruct (cut_prefix e l) as [r'|] eqn:E.
    + apply cut_prefix_Some in E. split; [done|]. intros H. exfalso. by apply (H e r'); [set_solver|].
    + rewrite IH. split.
      * intros H e' r [->|?]%elem_of_cons Hl; [|by apply (H e' r)].
        rewrite Hl, cut_prefix_app in E. done.
      * intros H e' r ?. apply H. set_solver.
Qed.

Lemma clean_prefix encs l r : clean encs (l ++ r) -> clean encs l.
Proof.
  rewrite !clean_spec. intros H e r' ? ->. apply (H e (r' ++ r)); [done|].
  by rewrite app_assoc.
Qed.

(** With as much fuel as bytes, stripping ends on a clean string. *)
Lemma strip_clean encs fuel l :
  (forall e, e ∈ encs -> e <> []) -> length l <= fuel -> clean encs (strip fuel encs l).
Proof.
  intros Hne. revert l; induction fuel as [|fuel IH]; intros l Hf; simpl.
  - apply nil_length_inv in Hf as -> || (destruct l; [|simpl in Hf; lia]).
    apply clean_spec. intros [|c e] r He; [by apply Hne in He|done].
  - destruct (strip_one encs l) as [r|] eqn:E; [|done].
    apply strip_one_Some in E as (e & He & ->). apply IH.
    apply Hne in He. destruct e; [done|]. simpl in Hf. rewrite length_app in Hf. lia.
Qed.

Lemma strip_clean_id encs fuel l : clean encs l -> strip fuel encs l = l.
Proof. intros H. destruct fuel; simpl; [done|]. by rewrite H. Qed.

Lemma strip_suffix encs fuel l : exists p, l = p ++ strip fuel encs l.
Proof.
  revert l; induction fuel as [|fuel IH]; intros l; simpl; [by exists []|].
  destruct (strip_one encs l) as [r|] eqn:E; [|by exists []].
  apply strip_one_Some in E as (e & _ & ->). destruct (IH r) as [p Hp].
  exists (e ++ p). rewrite <- app_assoc. by f_equal.
Qed.

Lemma space_encodings_nonempty e : e ∈ space_encodings -> e <> [].
Proof. intros He. assert (Forall (fun e => e <> []) space_encodings) as H
  by (vm_compute; repeat constructor; done).
  by apply (proj1 (Forall_forall _ _) H).
Qed.

Lemma rev_encodings_nonempty e : e ∈ map (@rev ascii) space_encodings -> e <> [].
Proof.
  intros He. assert (Forall (fun e => e <> []) (map (@rev ascii) space_encodings)) as H
    by (vm_compute; repeat constructor; done).
  by apply (proj1 (Forall_forall _ _) H).
Qed.

Lemma trim_bytes_trimmed l : trimmed_bytes (trim_bytes l).
Proof.
  unfold trim_bytes, trim_right, trim_left, trimmed_bytes. rewrite rev_involutive.
  set (m := strip (length l) space_encodings l). split.
  - assert (clean space_encodings m) as Hm
      by (apply strip_clean; [apply space_encodings_nonempty|lia]).
    destruct (strip_suffix (map (@rev ascii) space_encodings) (length m) (rev m)) as [p Hp].
    apply (clean_prefix _ _ (rev p)). rewrite <- rev_app_distr, <- Hp, rev_involutive. done.
  - apply strip_clean; [apply rev_encodings_nonempty|]. by rewrite length_rev.
Qed.

Lemma trim_bytes_id l : trimmed_bytes l -> trim_bytes l = l.
Proof.
  intros [H1 H2]. unfold trim_bytes, trim_right, trim_left.
  rewrite (strip_clean_id space_encodings) by done.
  rewrite (strip_clean_id (map (@rev ascii) _)) by done. apply rev_involutive.
Qed.
End trim.

Lemma TrimSpace_trimmed s : trimmed (TrimSpace s).
Proof. unfold trimmed, TrimSpace. rewrite to_of_bytes. apply trim_bytes_trimmed. Qed.

Lemma TrimSpace_id s : trimmed s -> TrimSpace s = s.
Proof. intros H. unfold TrimSpace. by rewrite trim_bytes_id, of_to_bytes. Qed.

Lemma TrimSpace_idemp s : TrimSpace (TrimSpace s) = TrimSpace s.
Proof. apply TrimSpace_id, TrimSpace_trimmed. Qed.

Lemma TrimSpace_nil : TrimSpace "" = "".
Proof. done. Qed.

(** * Trimming around ASCII bytes *)

Definition ascii_byte (c : ascii) : bool := (nat_of_ascii c <? 128)%nat.

Section trim_ascii.

(** A multi-byte white-space encoding has no ASCII byte. *)
Lemma encodings_shape e :
  e ∈ space_encodings -> (exists c, e = [c]) \/ Forall (fun c => ascii_byte c = false) e.
Proof.
  intros He. assert (forallb (fun e => (length e =? 1)%nat || forallb (fun c => negb (ascii_byte c)) e)
    space_encodings = true) as Hf by by vm_compute.
  rewrite forallb_forall in Hf. specialize (Hf e). rewrite <- list_elem_of_In in Hf.
  apply orb_true_iff in Hf as [Hl|Hl]; [left|right|done].
  - apply Nat.eqb_eq in Hl. destruct e as [|c [|]]; simpl in Hl; try lia. eauto.
  - apply Forall_forall. intros c Hc. rewrite forallb_forall in Hl.
    apply negb_true_iff, Hl. by apply list_elem_of_In.
Qed.

(** An ASCII byte after a clean non-empty string keeps it clean. *)
Lemma clean_app_ascii encs l c r :
  (forall e, e ∈ encs -> (exists c, e = [c]) \/ Forall (fun c => ascii_byte c = false) e) ->
  clean encs l -> l <> [] -> ascii_byte c = true -> clean encs (l ++ c :: r).
Proof.
  rewrite !clean_spec. intros Hshape Hl Hne Hc e r' He Heq.
  apply app_eq_inv in Heq as [(k & -> & Hk)|(k & -> & Hk)].
  - by apply (Hl e k).
  - destruct k as [|c' k].
    { apply (Hl l []); [|by rewrite app_nil_r]. by rewrite app_nil_r in He. }
    simplify_eq/=. apply Hshape in He as [[d He]|Hf].
    + destruct l as [|? [|]]; simplify_eq/=.
    + rewrite Forall_app, Forall_cons in Hf. destruct Hf as (_ & Hf & _). congruence.
Qed.

Lemma trimmed_between l1 c r1 l2 c' r2 m :
  l1 ++ c :: r1 = m -> l2 ++ c' :: r2 = m ->
  clean space_encodings l1 -> l1 <> [] -> ascii_byte c = true ->
  clean (map (@rev _) space_encodings) (rev r2) -> r2 <> [] -> ascii_byte c' = true ->
  trimmed_bytes m.
Proof.
  intros E1 E2 ??????. split.
  - rewrite <- E1. apply clean_app_ascii; [apply encodings_shape|done..].
  - rewrite <- E2, rev_app_distr. change (rev (c' :: r2)) with (rev r2 ++ [c']).
    rewrite <- app_assoc.
    apply clean_app_ascii; [|done| |done].
    + intros e He. apply list_elem_of_fmap in He as (e0 & -> & He0).
      apply encodings_shape in He0 as [[d ->]|Hf];
        [left; by exists d|right].
      rewrite Forall_forall in *. intros x. rewrite list_elem_of_In, <- in_rev, <- list_elem_of_In.
      apply Hf.
    + destruct r2; [done|]. simpl. by destruct (rev r2).
Qed.


Lemma strip_one_space l :
  strip_one space_encodings (" "%char :: l) = Some l /\
  strip_one (map (@rev ascii) space_encodings) (" "%char :: l) = Some l.
Proof. by vm_compute. Qed.

(** One space around a trimmed string is trimmed off. *)
Lemma TrimSpace_cons_space s : trimmed s -> TrimSpace (String.String " " s) = s.
Proof.
  intros [Hl Hr]. unfold TrimSpace, trim_bytes, trim_left, trim_right.
  change (to_bytes (String.String " " s)) with (" "%char :: to_bytes s).
  cbn [strip length]. rewrite (proj1 (strip_one_space _)).
  rewrite (strip_clean_id space_encodings), strip_clean_id by done.
  by rewrite rev_involutive, of_to_bytes.
Qed.

Lemma TrimSpace_snoc_byte c s :
  (forall l, strip_one (map (@rev ascii) space_encodings) (c :: l) = Some l) -> ascii_byte c = true ->
  trimmed s -> s <> "" -> TrimSpace (s +:+ of_bytes [c]) = s.
Proof.
  intros Hc Ha [Hl Hr] Hne. unfold TrimSpace, trim_bytes, trim_left, trim_right.
  rewrite to_bytes_app, to_of_bytes. rewrite (strip_clean_id space_encodings).
  - rewrite rev_app_distr. change (rev [c] ++ rev (to_bytes s)) with (c :: rev (to_bytes s)).
    rewrite length_app, Nat.add_comm. cbn [strip length Nat.add].
    rewrite Hc, strip_clean_id by done. by rewrite rev_involutive, of_to_bytes.
  - apply clean_app_ascii; [apply encodings_shape|done| |done].
    intros E. apply Hne, (inj to_bytes). by rewrite E.
Qed.

Lemma TrimSpace_snoc_space s : trimmed s -> s <> "" -> TrimSpace (s +:+ " ") = s.
Proof. apply (TrimSpace_snoc_byte " "%char); [apply strip_one_space|done]. Qed.

Lemma TrimSpace_snoc_newline s : trimmed s -> s <> "" -> TrimSpace (s +:+ of_bytes [byte_of 10]) = s.
Proof. apply TrimSpace_snoc_byte; [by vm_compute|done]. Qed.

End trim_ascii.

(** * Searching and splitting *)

(** [strings.Index] on bytes. *)
Fixpoint index_of (p l : list ascii) : option nat :=
  match cut_prefix p l with
  | Some _ => Some 0
  | None => match l with [] => None | _ :: l => S <$> index_of p l end
  end.

Definition Index (s p : string) : option nat := index_of (to_bytes p) (to_bytes s).
Definition Contains (s p : string) : bool :=
  match Index s p with Some _ => true | None => false end.

(** [s[i:]] and [s[:i]]. *)
Definition sdrop (i : nat) (s : string) : string := of_bytes (drop i (to_bytes s)).
Definition stake (i : nat) (s : string) : string := of_bytes (take i (to_bytes s)).

(** [strings.Cut]. *)
Definition Cut (s sep : string) : option (string * string) :=
  i ← Index s sep; Some (stake i s, sdrop (i + slen sep) s).

Lemma index_of_Some p l i :
  index_of p l = Some i -> exists r, l = take i l ++ p ++ r /\ i <= length l.
Proof.
  revert i; induction l as [|c l IH]; intros i; simpl.
  - destruct (cut_prefix p []) as [r|] eqn:E; [|done]. intros [= <-].
    apply cut_prefix_Some in E. exists r. simpl. auto with lia.
  - destruct (cut_prefix p (c :: l)) as [r|] eqn:E.
    + intros [= <-]. apply cut_prefix_Some in E. exists r. rewrite E. simpl. auto with lia.
    + intros (j & (r & Hr & ?)%IH & ->)%fmap_Some. exists r. simpl.
      split; [by rewrite <- Hr|lia].
Qed.

Lemma index_of_byte c l r : c ∉ l -> index_of [c] (l ++ c :: r) = Some (length l).
Proof.
  induction l as [|d l IH]; intros Hc; simpl.
  - by rewrite Ascii.eqb_refl.
  - destruct (Ascii.eqb_spec c d) as [->|]; [set_solver|]. rewrite IH by set_solver. done.
Qed.

Lemma index_of_byte_None c l : c ∉ l -> index_of [c] l = None.
Proof.
  induction l as [|d l IH]; intros Hc; simpl; [done|].
  destruct (Ascii.eqb_spec c d) as [->|]; [set_solver|]. by rewrite IH by set_solver.
Qed.

(** [string] of one byte. *)
Definition byte_string (c : ascii) : string := of_bytes [c].

Lemma Index_byte c s t :
  c ∉ to_bytes s -> Index (s +:+ byte_string c +:+ t) (byte_string c) = Some (slen s).
Proof.
  intros Hc. unfold Index, byte_string. rewrite !to_bytes_app, to_of_bytes. simpl.
  by apply index_of_byte.
Qed.

Lemma Index_byte_None c s : c ∉ to_bytes s -> Index s (byte_string c) = None.
Proof. unfold Index, byte_string. rewrite to_of_bytes. apply index_of_byte_None. Qed.

Lemma slen_app s t : slen (s +:+ t) = slen s + slen t.
Proof. unfold slen. by rewrite to_bytes_app, length_app. Qed.

Lemma sdrop_S_byte c s : sdrop 1 (byte_string c +:+ s) = s.
Proof. unfold sdrop, byte_string. rewrite to_bytes_app, to_of_bytes. simpl. apply of_to_bytes. Qed.

Lemma stake_app s t : stake (slen s) (s +:+ t) = s.
Proof. unfold stake, slen. by rewrite to_bytes_app, take_app_length, of_to_bytes. Qed.

Lemma stake_app_plus s t n : stake (slen s + n) (s +:+ t) = s +:+ stake n t.
Proof.
  unfold stake, slen. rewrite to_bytes_app, take_app_add, of_bytes_app. by rewrite of_to_bytes.
Qed.

Lemma sdrop_app s t : sdrop (slen s) (s +:+ t) = t.
Proof. unfold sdrop, slen. by rewrite to_bytes_app, drop_app_length, of_to_bytes. Qed.

Lemma sdrop_app_plus s t n : sdrop (slen s + n) (s +:+ t) = sdrop n t.
Proof. unfold sdrop, slen. by rewrite to_bytes_app, drop_app_add. Qed.

#[global] Instance append_assoc : Assoc (=) String.append.
Proof. intros s t u. apply (inj to_bytes). by rewrite !to_bytes_app, (assoc_L (++)). Qed.

(** [strings.FieldsFunc] with a set of separators given by their encodings:
    the maximal separator-free pieces, empty pieces dropped. *)
Fixpoint fields_bytes (fuel : nat) (seps : list (list ascii)) (cur l : list ascii)
    : list (list ascii) :=
  let flush := match cur with [] => [] | _ => [rev cur] end in
  match fuel with
  | O => flush
  | S fuel =>
      match strip_one seps l with
      | Some r => flush ++ fields_bytes fuel seps [] r
      | None =>
          match l with
          | [] => flush
          | c :: l => fields_bytes fuel seps (c :: cur) l
          end
      end
  end.

Definition FieldsFunc (seps : list (list ascii)) (s : string) : list string :=
  of_bytes <$> fields_bytes (S (slen s)) seps [] (to_bytes s).

Fixpoint Join (l : list string) (sep : string) : string :=
  match l with
  | [] => ""
  | [s] => s
  | s :: l => s +:+ sep +:+ Join l sep
  end.

(** * Case *)

Class UnicodeCase := {
  unicode_to_lower : string -> string;
  unicode_equal_fold : string -> string -> bool;
}.

Definition is_ascii (s : string) : bool :=
  forallb (fun c => nat_of_ascii c <? 128)%nat (to_bytes s).

Definition lower_byte (c : ascii) : ascii :=
  let n := nat_of_ascii c in
  if ((65 <=? n) && (n <=? 90))%nat then ascii_of_nat (n + 32) else c.

Definition ascii_lower (s : string) : string := of_bytes (map lower_byte (to_bytes s)).

(** [strings.ToLower]: the ASCII fast path, else the Unicode case map. *)
Definition ToLower `{UnicodeCase} (s : string) : string :=
  if is_ascii s then ascii_lower s else unicode_to_lower s.

(** The case map works rune by rune, and an ASCII byte is a rune. *)
Class UnicodeCaseLaws `{UnicodeCase} := {
  unicode_to_lower_ascii s t :
    is_ascii s = true -> unicode_to_lower (s +:+ t) = ascii_lower s +:+ ToLower t;
}.

(** [strings.EqualFold]. *)
Definition EqualFold `{UnicodeCase} (s t : string) : bool :=
  if is_ascii s && is_ascii t then bool_decide (ascii_lower s = ascii_lower t)
  else unicode_equal_fold s t.

Lemma is_ascii_app s t : is_ascii (s +:+ t) = is_ascii s && is_ascii t.
Proof. unfold is_ascii. by rewrite to_bytes_app, forallb_app. Qed.

Lemma ascii_lower_app s t : ascii_lower (s +:+ t) = ascii_lower s +:+ ascii_lower t.
Proof. unfold ascii_lower. by rewrite to_bytes_app, map_app, of_bytes_app. Qed.

Lemma ToLower_app `{UnicodeCaseLaws} s t :
  is_ascii s = true -> ToLower (s +:+ t) = ascii_lower s +:+ ToLower t.
Proof.
  intros Hs. unfold ToLower. rewrite is_ascii_app, Hs. simpl.
  destruct (is_ascii t) eqn:Ht; [apply ascii_lower_app|].
  rewrite unicode_to_lower_ascii by done. unfold ToLower. by rewrite Ht.
Qed.

(** A case map that knows ASCII only: an instance of the laws. *)
Definition ascii_case : UnicodeCase := {|
  unicode_to_lower := ascii_lower;
  unicode_equal_fold s t := bool_decide (ascii_lower s = ascii_lower t) |}.

Lemma ascii_case_laws : @UnicodeCaseLaws ascii_case.
Proof.
  constructor. intros s t _. simpl. rewrite ascii_lower_app. unfold ToLower.
  simpl. by destruct (is_ascii t).
Qed.

(** * Runes

    [[]rune(s)] as the list of the runes' UTF-8 encodings: a byte that starts
    no valid encoding decodes to U+FFFD. *)

Definition in_range (lo hi : nat) (c : ascii) : bool :=
  let n := nat_of_ascii c in ((lo <=? n) && (n <=? hi))%nat.
Definition cont (c : ascii) : bool := in_range 128 191 c.

Definition rune_error : list ascii := map byte_of [239; 191; 189].

(** The length of the valid encoding that starts [l], or 0. *)
Definition rune_size (l : list ascii) : nat :=
  match l with
  | a :: l =>
      if in_range 0 127 a then 1 else
      match l with
      | b :: l =>
          if in_range 194 223 a then (if cont b then 2 else 0) else
          match l with
          | c :: l =>
              if (in_range 224 224 a && in_range 160 191 b)
                 || (in_range 225 236 a && cont b)
                 || (in_range 237 237 a && in_range 128 159 b)
                 || (in_range 238 239 a && cont b)
              then (if cont c then 3 else 0) else
              match l with
              | d :: _ =>
                  if ((in_range 240 240 a && in_range 144 191 b)
                      || (in_range 241 243 a && cont b)
                      || (in_range 244 244 a && in_range 128 143 b))
                     && cont c && cont d then 4 else 0
              | [] => 0
              end
          | [] => 0
          end
      | [] => 0
      end
  | [] => 0
  end.

Fixpoint runes_bytes (fuel : nat) (l : list ascii) : list (list ascii) :=
  match fuel, l with
  | S fuel, c :: l' =>
      match rune_size l with
      | O => rune_error :: runes_bytes fuel l'
      | n => take n l :: runes_bytes fuel (drop n l)
      end
  | _, _ => []
  end.

Definition runes (s : string) : list (list ascii) := runes_bytes (slen s) (to_bytes s).

(** [len([]rune(s))] and [string([]rune(s)[:n])]. *)
Definition rune_count (s : string) : nat := length (runes s).
Definition rune_take (n : nat) (s : string) : string := of_bytes (concat (take n (runes s))).

Lemma rune_size_bounds l : rune_size l <= length l.
Proof.
  unfold rune_size. repeat (case_match; simpl; try lia).
Qed.

Lemma rune_count_le s : rune_count s <= slen s.
Proof.
  unfold rune_count, runes, slen. generalize (to_bytes s) as l. intros l.
  enough (forall fuel l, length (runes_bytes fuel l) <= fuel) by done.
  clear. induction fuel as [|fuel IH]; intros [|c l]; try (simpl; lia).
  cbn [runes_bytes]. destruct (rune_size (c :: l)) as [|n]; cbn [length drop take].
  - specialize (IH l). lia.
  - specialize (IH (drop n l)). lia.
Qed.

(** A byte string that is one encoding, whatever follows it. *)
Definition one_rune (r : list ascii) : Prop :=
  r <> [] /\ forall k, rune_size (r ++ k) = length r.

Ltac rune_test H :=
  match goal with |- (if ?b then _ else _) = _ -> _ => destruct b eqn:H end.

Lemma rune_size_take l n : rune_size l = S n -> one_rune (take (S n) l).
Proof.
  intros Hs. pose proof (rune_size_bounds l) as Hb. split; [by destruct l|]. intros k.
  rewrite length_take, Nat.min_l by (rewrite <- Hs; lia). revert Hs. clear Hb.
  destruct l as [|a l]; [done|]. cbn [rune_size].
  rune_test H1; [intros [= <-]; cbn [take app rune_size]; by rewrite H1|].
  destruct l as [|b l]; [done|].
  rune_test H2.
  { rune_test H3; [|done]. intros [= <-]. cbn [take app rune_size]. by rewrite H1, H2, H3. }
  destruct l as [|c l]; [done|].
  rune_test H3.
  { rune_test H4; [|done]. intros [= <-]. cbn [take app rune_size]. by rewrite H1, H2, H3, H4. }
  destruct l as [|d l]; [done|].
  rune_test H4; [|done]. intros [= <-]. cbn [take app rune_size]. by rewrite H1, H2, H3, H4.
Qed.

Lemma rune_error_one : one_rune rune_error.
Proof. split; [done|]. by intros k. Qed.

Lemma runes_bytes_one fuel l : Forall one_rune (runes_bytes fuel l).
Proof.
  revert l; induction fuel as [|fuel IH]; intros [|c l]; cbn [runes_bytes]; try constructor.
  destruct (rune_size (c :: l)) as [|n] eqn:E; constructor; try apply IH;
    [apply rune_error_one|by apply rune_size_take].
Qed.

Lemma runes_bytes_concat fuel rs :
  Forall one_rune rs -> length (concat rs) <= fuel -> runes_bytes fuel (concat rs) = rs.
Proof.
  intros Hrs. revert fuel. induction Hrs as [|r rs [Hne Hr] _ IH]; intros fuel Hf; simpl in *.
  { by destruct fuel. }
  rewrite length_app in Hf. specialize (Hr (concat rs)).
  destruct r as [|c r]; [done|]. destruct fuel as [|fuel]; [simpl in Hf; lia|].
  cbn [app runes_bytes] in *. rewrite Hr. cbn [length]. f_equal.
  - change (c :: r ++ concat rs) with ((c :: r) ++ concat rs). by apply take_app_length'.
  - change (c :: r ++ concat rs) with ((c :: r) ++ concat rs). rewrite drop_app_length' by done.
    apply IH. simpl in Hf. lia.
Qed.

(** Truncating to [n] runes keeps the first [n] runes. *)
Lemma runes_take n s : runes (rune_take n s) = take n (runes s).
Proof.
  unfold rune_take. unfold runes at 1. unfold slen. rewrite to_of_bytes.
  apply runes_bytes_concat; [|done]. unfold runes.
  apply Forall_take. apply runes_bytes_one.
Qed.

Lemma rune_count_take n s : rune_count (rune_take n s) = Nat.min n (rune_count s).
Proof. unfold rune_count. by rewrite runes_take, length_take. Qed.

Example TrimSpace_ex : TrimSpace (of_bytes (map byte_of [32; 227; 128; 128; 65; 32; 66; 194; 160; 10])) = "A B".
Proof. by vm_compute. Qed.
Example runes_ex : map length (runes (of_bytes (map byte_of [65; 229; 144; 183; 255; 240]))) = [1; 3; 3; 3].
Proof. by vm_compute. Qed.
Example FieldsFunc_ex : FieldsFunc (map (fun c => [c]) [","; ";"]%char) ",a;;bc," = ["a"; "bc"].
Proof. by vm_compute. Qed.

(** * Replacing a plain prefix keeps a string trimmed *)

Section plain.

(** Printable non-space ASCII: no byte of a white-space encoding. *)
Definition plain_byte (c : ascii) : bool := in_range 33 126 c.
Definition plain (s : string) : bool :=
  negb (bool_decide (to_bytes s = [])) && forallb plain_byte (to_bytes s).

Lemma encodings_not_plain e : e ∈ space_encodings -> Forall (fun c => plain_byte c = false) e.
Proof.
  intros He. assert (forallb (forallb (fun c => negb (plain_byte c))) space_encodings = true) as Hf
    by by vm_compute.
  rewrite forallb_forall in Hf. specialize (Hf e). rewrite <- list_elem_of_In in Hf.
  specialize (Hf He). rewrite forallb_forall in Hf. apply Forall_forall. intros c Hc.
  apply negb_true_iff, Hf. by apply list_elem_of_In.
Qed.

Lemma plain_forall s : plain s = true ->
  to_bytes s <> [] /\ Forall (fun c => plain_byte c = true) (to_bytes s).
Proof.
  unfold plain. intros Hp. boolp. split; [done|].
  apply Forall_forall. intros c Hc. eapply forallb_forall; [done|]. by apply list_elem_of_In.
Qed.

Lemma trimmed_prefix p q r :
  plain p = true -> plain q = true -> trimmed (p +:+ r) -> trimmed (q +:+ r).
Proof.
  intros [_ _]%plain_forall [Hq0 Hq]%plain_forall [_ Hr].
  unfold trimmed, trimmed_bytes. rewrite to_bytes_app in *. split.
  - apply clean_spec. intros e r' He Heq.
    assert (e <> []) by by apply space_encodings_nonempty.
    destruct e as [|c e]; [done|]. destruct (to_bytes q) as [|c' q']; [done|].
    apply encodings_not_plain in He. inversion He; inversion Hq; simplify_eq/=. congruence.
  - rewrite rev_app_distr in *. apply clean_spec. intros e r' He Heq.
    rewrite clean_spec in Hr.
    assert (exists e0, e0 ∈ space_encodings /\ e = rev e0) as (e0 & He0 & ->).
    { apply list_elem_of_In, in_map_iff in He as (e0 & <- & ?). exists e0.
      by rewrite list_elem_of_In. }
    apply app_eq_inv in Heq as [(k & Hk & Hk')|(k & Hk & Hk')].
    + (* the encoding ends inside the common suffix *)
      apply (Hr (rev e0) (k ++ rev (to_bytes p))); [done|].
      rewrite Hk. by rewrite <- app_assoc.
    + (* it reaches into the plain prefix *)
      destruct k as [|c k].
      { apply (Hr (rev e0) (rev (to_bytes p))); [done|].
        rewrite app_nil_r in Hk. by rewrite Hk. }
      apply encodings_not_plain in He0.
      assert (c ∈ e0) as Hc.
      { rewrite list_elem_of_In, in_rev, Hk, <- list_elem_of_In.
      apply elem_of_app. right. by left. }
      assert (c ∈ to_bytes q) as Hcq.
      { rewrite list_elem_of_In, in_rev, Hk', <- list_elem_of_In.
      by left. }
      rewrite Forall_forall in He0, Hq. specialize (He0 c Hc). specialize (Hq c Hcq).
      simpl in *. congruence.
Qed.
Lemma clean_rev_plain c l :
  plain_byte c = true -> clean (map (@rev ascii) space_encodings) (c :: l).
Proof.
  intros Hc. apply clean_spec. intros e r He Heq.
  apply list_elem_of_fmap in He as (e0 & -> & He0).
  pose proof (space_encodings_nonempty e0 He0) as Hne.
  apply encodings_not_plain in He0. rewrite Forall_forall in He0.
  destruct (rev e0) as [|d e] eqn:E; [by apply Hne; rewrite <- (rev_involutive e0), E|].
  simplify_eq/=. assert (d ∈ e0) as Hd by (rewrite list_elem_of_In, in_rev, E; by left).
  specialize (He0 d Hd). simpl in He0. congruence.
Qed.

(** Text between two printable bytes is trimmed. *)
Lemma plain_ends_trimmed s a m b m' :
  to_bytes s = a :: m -> to_bytes s = m' ++ [b] -> plain_byte a = true -> plain_byte b = true -> trimmed s.
Proof.
  intros E E' Ha Hb. unfold trimmed, trimmed_bytes. split.
  - rewrite E. apply clean_spec. intros e r He Heq. pose proof (space_encodings_nonempty e He).
    apply encodings_not_plain in He. destruct e as [|d e]; [done|]. injection Heq as <- _.
    apply Forall_cons in He as [Hd _]. congruence.
  - rewrite E', rev_app_distr. by apply clean_rev_plain.
Qed.

Lemma plain_trimmed s : plain s = true -> trimmed s.
Proof.
  intros [Hne Hp]%plain_forall. destruct (to_bytes s) as [|a m] eqn:E; [done|].
  destruct (exists_last Hne) as (m' & b & E'). eapply plain_ends_trimmed; [exact E|rewrite E; exact E'| |].
  - by apply Forall_cons in Hp as [].
  - rewrite E' in Hp. apply Forall_app in Hp as [_ Hp]. by inversion Hp.
Qed.

End plain.

(** * The byte order of strings *)

Definition string_less (s t : string) : bool := Strings.String.ltb s t.

Lemma string_less_cons a s b t :
  string_less (Strings.String.String a s) (Strings.String.String b t) =
  match Ascii.compare a b with Lt => true | Gt => false | Eq => string_less s t end.
Proof.
  unfold string_less, Strings.String.ltb. simpl. by destruct (Ascii.compare a b).
Qed.

Lemma ascii_compare_spec a b :
  (Ascii.compare a b = Eq /\ a = b)
  \/ (Ascii.compare a b = Lt /\ (N_of_ascii a < N_of_ascii b)%N)
  \/ (Ascii.compare a b = Gt /\ (N_of_ascii b < N_of_ascii a)%N).
Proof.
  unfold Ascii.compare. destruct (N.compare_spec (N_of_ascii a) (N_of_ascii b)) as [E|?|?];
    [left|auto..].
  split; [done|]. by rewrite <- (ascii_N_embedding a), <- (ascii_N_embedding b), E.
Qed.

Ltac ascii_cases :=
  repeat match goal with
  | |- context [Ascii.compare ?a ?b] =>
      destruct (ascii_compare_spec a b) as [[-> ?]|[[-> ?]|[-> ?]]]; subst; try lia; try done
  end.

Lemma string_less_asym s t : string_less s t = true -> string_less t s = false.
Proof.
  revert t; induction s as [|a s IH]; intros [|b t]; try done.
  rewrite !string_less_cons. ascii_cases. apply IH.
Qed.

Lemma string_less_total s t : string_less s t = false -> string_less t s = false -> s = t.
Proof.
  revert t; induction s as [|a s IH]; intros [|b t]; try done.
  rewrite !string_less_cons. ascii_cases. intros. f_equal. by apply IH.
Qed.

Lemma string_less_trans s t u :
  string_less t s = false -> string_less u t = false -> string_less u s = false.
Proof.
  revert t u; induction s as [|a s IH]; intros [|b t] [|c u]; try done.
  rewrite !string_less_cons. ascii_cases. apply IH.
Qed.

(** * Lines *)

Definition newline : Ascii.ascii := Ascii.ascii_of_nat 10.

(** [strings.Split(s, "\n")]. *)
Fixpoint split_bytes (cur l : list Ascii.ascii) : list (list Ascii.ascii) :=
  match l with
  | [] => [cur]
  | c :: l => if Ascii.eqb c newline then cur :: split_bytes [] l else split_bytes (cur ++ [c]) l
  end.
Definition SplitLines (s : string) : list string := map of_bytes (split_bytes [] (to_bytes s)).

Lemma split_bytes_line cur l : newline ∉ l -> split_bytes cur l = [cur ++ l].
Proof.
  revert cur. induction l as [|c l IH]; intros cur Hl; simpl; [by rewrite app_nil_r|].
  apply not_elem_of_cons in Hl as [Hc Hl]. destruct (Ascii.eqb_spec c newline); [congruence|].
  by rewrite IH, <- app_assoc.
Qed.

Lemma split_bytes_newline cur l k : newline ∉ l ->
  split_bytes cur (l ++ newline :: k) = (cur ++ l) :: split_bytes [] k.
Proof.
  revert cur. induction l as [|c l IH]; intros cur Hl; [by rewrite app_nil_r|].
  apply not_elem_of_cons in Hl as [Hc Hl]. cbn [app split_bytes].
  destruct (Ascii.eqb_spec c newline); [congruence|]. by rewrite IH, <- app_assoc.
Qed.

Lemma Join_cons l ls sep : ls <> [] -> Join (l :: ls) sep = l +:+ sep +:+ Join ls sep.
Proof. by destruct ls. Qed.

Lemma SplitLines_Join ls : ls <> [] -> Forall (fun l => newline ∉ to_bytes l) ls ->
  SplitLines (Join ls (of_bytes [newline])) = ls.
Proof.
  intros Hne Hl. unfold SplitLines. induction Hl as [|l ls Hx Hl IH]; [done|].
  destruct ls as [|l' ls].
  - simpl. rewrite split_bytes_line by done. simpl. by rewrite of_to_bytes.
  - rewrite Join_cons by done. rewrite !to_bytes_app, to_of_bytes. cbn [app].
    rewrite split_bytes_newline by done. cbn [app map]. by rewrite of_to_bytes, IH.
Qed.
