(* ===== verification/SessionKey.v ===== *)
(** Session keys and owners: [internal/memory/owner_type.go] and
    [internal/memory/route_registry.go].

    QQ conversations reach the program under several spellings of one identity
    (OneBot, AstrBot's aiocqhttp adapter, the bare "qq" name).  This file models
    the canonical keys, the alias lists every keyed container searches, and the
    in-memory route registry. *)

From S2P Require Import Prelude GoStrings.

Local Open Scope string_scope.

(** * Owner types and platforms *)

Abbreviation OwnerType := string (only parsing).
Definition OwnerUser : OwnerType := "user".
Definition OwnerGroup : OwnerType := "group".

Definition NormalizeOwnerType (t : OwnerType) : OwnerType :=
  if decide (t = OwnerUser \/ t = OwnerGroup) then t else OwnerUser.

Section platforms.
Context `{UnicodeCase}.

Definition IsQQPlatform (platform : string) : bool :=
  let p := ToLower (TrimSpace platform) in
  bool_decide (p = "" \/ p = "qq" \/ p = "onebot" \/ p = "aiocqhttp").

Definition CanonicalPlatform (platform : string) : string :=
  if IsQQPlatform platform then "qq" else ToLower (TrimSpace platform).

Definition OwnerForPrivate (userID : string) : string * OwnerType :=
  if decide (userID = "") then ("", OwnerUser) else (userID, OwnerUser).

Definition OwnerForGroup (groupID : Z) : string * OwnerType :=
  if (groupID <=? 0)%Z then ("", OwnerGroup)
  else ("group:" +:+ pretty groupID, OwnerGroup).

Definition OwnerForPlatformPrivate (platform userID : string) : string * OwnerType :=
  if decide (userID = "") then ("", OwnerUser)
  else if IsQQPlatform platform then (userID, OwnerUser)
  else (ToLower (TrimSpace platform) +:+ ":user:" +:+ userID, OwnerUser).

Definition OwnerForPlatformGroup (platform groupID : string) : string * OwnerType :=
  if decide (groupID = "") then ("", OwnerGroup)
  else if IsQQPlatform platform then ("group:" +:+ groupID, OwnerGroup)
  else (ToLower (TrimSpace platform) +:+ ":group:" +:+ groupID, OwnerGroup).

Definition CanonicalSessionID (platform messageType id : string) : string :=
  let id := TrimSpace id in
  if IsQQPlatform platform then
    if decide (messageType = "group") then "group:" +:+ id else "private:" +:+ id
  else
    let p := ToLower (TrimSpace platform) in
    let p := if decide (p = "") then "astrbot" else p in
    if decide (messageType = "group") then p +:+ ":group:" +:+ id
    else p +:+ ":private:" +:+ id.
End platforms.

(** * Canonical keys *)

(** [for _, prefix := range prefixes { if cut, ok := strings.CutPrefix(...) }]. *)
Fixpoint cut_any (prefixes : list string) (s : string) : option string :=
  match prefixes with
  | [] => None
  | p :: prefixes => match CutPrefix s p with Some c => Some c | None => cut_any prefixes s end
  end.

Definition user_prefixes := ["aiocqhttp:user:"; "qq:user:"; "onebot:user:"].
Definition group_prefixes := ["aiocqhttp:group:"; "qq:group:"; "onebot:group:"].
Definition private_prefixes := ["aiocqhttp:private:"; "qq:private:"; "onebot:private:"].

Definition CanonicalOwner (owner : string) : string :=
  let owner := TrimSpace owner in
  if decide (owner = "") then "" else
  match cut_any user_prefixes owner with
  | Some cut => cut
  | None =>
      match cut_any group_prefixes owner with
      | Some cut => "group:" +:+ cut
      | None => owner
      end
  end.

Definition OwnersMatch (a b : string) : bool :=
  if decide (a = b) then true else bool_decide (CanonicalOwner a = CanonicalOwner b).

Definition OwnerAliases (owner : string) : list string :=
  let canonical := CanonicalOwner owner in
  if decide (canonical = "") then [] else
  match CutPrefix canonical "group:" with
  | Some groupID => canonical :: map (fun p => p +:+ groupID) group_prefixes
  | None =>
      if negb (Contains canonical ":")
      then canonical :: map (fun p => p +:+ canonical) user_prefixes
      else [canonical]
  end.

Definition CanonicalSessionKey (sessionID : string) : string :=
  let sessionID := TrimSpace sessionID in
  if decide (sessionID = "") then "" else
  match cut_any group_prefixes sessionID with
  | Some cut => "group:" +:+ cut
  | None =>
      match cut_any private_prefixes sessionID with
      | Some cut => "private:" +:+ cut
      | None => sessionID
      end
  end.

Definition SessionKeyAliases (sessionID : string) : list string :=
  let canonical := CanonicalSessionKey sessionID in
  if decide (canonical = "") then [] else
  match CutPrefix canonical "group:" with
  | Some id => canonical :: map (fun p => p +:+ id) group_prefixes
  | None =>
      match CutPrefix canonical "private:" with
      | Some id => canonical :: map (fun p => p +:+ id) private_prefixes
      | None => [canonical]
      end
  end.

(** * Route registry *)

Record RouteContext := { rt_Platform : string; rt_GroupID : string }.
Definition no_route : RouteContext := {| rt_Platform := ""; rt_GroupID := "" |}.

Section routes.
Context `{UnicodeCase}.

(** The owner's latest route; [routes] is the store's in-memory map. *)
Definition RememberRoute (owner : string) (route : RouteContext)
    (routes : gmap string RouteContext) : gmap string RouteContext :=
  let owner := TrimSpace owner in
  let route := {| rt_Platform := ToLower (TrimSpace (rt_Platform route));
                  rt_GroupID := TrimSpace (rt_GroupID route) |} in
  if decide (owner = "" \/ (rt_Platform route = "" /\ rt_GroupID route = ""))
  then routes else <[owner := route]> routes.

Definition RouteForOwner (owner : string) (routes : gmap string RouteContext) : RouteContext :=
  let owner := TrimSpace owner in
  match routes !! owner with
  | Some route => route
  | None =>
      match CutPrefix owner "group:" with
      | Some groupID => {| rt_Platform := "onebot"; rt_GroupID := TrimSpace groupID |}
      | None =>
          match Index owner ":group:" with
          | Some (S _ as index) =>
              {| rt_Platform := ToLower (TrimSpace (stake index owner));
                 rt_GroupID := TrimSpace (sdrop (index + slen ":group:") owner) |}
          | _ => no_route
          end
      end
  end.
End routes.

(** * Canonical session keys *)

Lemma cut_any_Some ps s c : cut_any ps s = Some c -> exists p, p ∈ ps /\ s = p +:+ c.
Proof.
  induction ps as [|p ps IH]; simpl; [done|].
  destruct (CutPrefix s p) as [c'|] eqn:E.
  - intros [= ->]. apply CutPrefix_Some in E. set_solver.
  - intros (p' & ? & ?)%IH. set_solver.
Qed.

Lemma cut_any_None ps s p c : cut_any ps s = None -> p ∈ ps -> s <> p +:+ c.
Proof.
  induction ps as [|q ps IH]; simpl; [set_solver|].
  destruct (CutPrefix s q) eqn:E; [done|]. intros HN [->|Hp]%elem_of_cons.
  - by apply CutPrefix_None.
  - by apply IH.
Qed.

(** The three spellings of a key of one kind, and the canonical one. *)
Definition key_kinds : list (string * list string) :=
  [("group:", group_prefixes); ("private:", private_prefixes)].

(** A key in canonical form: trimmed, non-empty, with no platform prefix. *)
Definition canonical_key (k : string) : Prop :=
  trimmed k /\ k <> "" /\ cut_any group_prefixes k = None /\ cut_any private_prefixes k = None.

Ltac inv_in H :=
  repeat (apply elem_of_cons in H as [->|H]); try (apply elem_of_nil in H; done).

Lemma plain_session_prefixes p :
  p ∈ "group:" :: "private:" :: group_prefixes ++ private_prefixes -> plain p = true.
Proof. intros H. simpl in H. inv_in H; by vm_compute. Qed.

Lemma CanonicalSessionKey_canonical s :
  canonical_key (CanonicalSessionKey s) \/ (CanonicalSessionKey s = "" /\ TrimSpace s = "").
Proof.
  unfold CanonicalSessionKey. pose proof (TrimSpace_trimmed s) as Ht.
  set (t := TrimSpace s) in *. case_decide as Hne; [by right|]. left.
  destruct (cut_any group_prefixes t) as [c|] eqn:Eg.
  { apply cut_any_Some in Eg as (p & Hp & Heq). rewrite Heq in Ht.
    repeat split; [|done..]. apply (trimmed_prefix p); [|done|done].
    apply plain_session_prefixes. set_solver. }
  destruct (cut_any private_prefixes t) as [c|] eqn:Ep; [|done].
  apply cut_any_Some in Ep as (p & Hp & Heq). rewrite Heq in Ht.
  repeat split; [|done..]. apply (trimmed_prefix p); [|done|done].
  apply plain_session_prefixes. set_solver.
Qed.

Lemma CanonicalSessionKey_id k : canonical_key k -> CanonicalSessionKey k = k.
Proof.
  intros (Ht & Hne & Hg & Hp). unfold CanonicalSessionKey.
  rewrite TrimSpace_id by done. rewrite decide_False by done. by rewrite Hg, Hp.
Qed.

Lemma CanonicalSessionKey_idemp s :
  CanonicalSessionKey (CanonicalSessionKey s) = CanonicalSessionKey s.
Proof.
  destruct (CanonicalSessionKey_canonical s) as [H|[-> _]]; [|done].
  by apply CanonicalSessionKey_id.
Qed.

(** Adding a platform prefix to the body of a canonical key gives a spelling of it. *)
Lemma CanonicalSessionKey_group p id :
  p ∈ group_prefixes -> trimmed ("group:" +:+ id) ->
  trimmed (p +:+ id) /\ CanonicalSessionKey (p +:+ id) = "group:" +:+ id.
Proof.
  intros Hp Ht. assert (plain p = true) by (apply plain_session_prefixes; set_solver).
  assert (trimmed (p +:+ id)) as Htp by (by apply (trimmed_prefix "group:")).
  split; [done|]. unfold CanonicalSessionKey. rewrite TrimSpace_id by done.
  inv_in Hp; rewrite decide_False by done; simpl cut_any;
    unfold CutPrefix; rewrite ?to_bytes_app; simpl; by rewrite of_to_bytes.
Qed.

Lemma CanonicalSessionKey_private p id :
  p ∈ private_prefixes -> trimmed ("private:" +:+ id) ->
  trimmed (p +:+ id) /\ CanonicalSessionKey (p +:+ id) = "private:" +:+ id.
Proof.
  intros Hp Ht. assert (plain p = true) by (apply plain_session_prefixes; set_solver).
  assert (trimmed (p +:+ id)) as Htp by (by apply (trimmed_prefix "private:")).
  split; [done|]. unfold CanonicalSessionKey. rewrite TrimSpace_id by done.
  inv_in Hp; rewrite decide_False by done; simpl cut_any;
    unfold CutPrefix; rewrite ?to_bytes_app; simpl; by rewrite of_to_bytes.
Qed.

Lemma CanonicalSessionKey_spelling t :
  trimmed t -> t <> "" ->
  t = CanonicalSessionKey t \/
  (exists p id, p ∈ group_prefixes /\ t = p +:+ id /\ CanonicalSessionKey t = "group:" +:+ id) \/
  (exists p id, p ∈ private_prefixes /\ t = p +:+ id /\ CanonicalSessionKey t = "private:" +:+ id).
Proof.
  intros Ht Hne. unfold CanonicalSessionKey. rewrite TrimSpace_id by done.
  rewrite decide_False by done.
  destruct (cut_any group_prefixes t) as [c|] eqn:Eg.
  { apply cut_any_Some in Eg as (p & ? & ?). right; left. eauto. }
  destruct (cut_any private_prefixes t) as [c|] eqn:Ep; [|by left].
  apply cut_any_Some in Ep as (p & ? & ?). right; right. eauto.
Qed.

Lemma group_not_private id id' : "group:" +:+ id <> "private:" +:+ id'.
Proof. done. Qed.

(** The alias list of a session key is exactly its identity class: a
    spelling is in [SessionKeyAliases s] if and only if it is a non-empty
    trimmed key with the same canonical form as [s].  Every container that is
    searched by the aliases therefore finds a session under whichever platform
    spelling it was stored, and never another conversation's. *)
Theorem SessionKeyAliases_class s t :
  t ∈ SessionKeyAliases s <->
  trimmed t /\ t <> "" /\ CanonicalSessionKey t = CanonicalSessionKey s.
Proof.
  unfold SessionKeyAliases. set (k := CanonicalSessionKey s).
  destruct (CanonicalSessionKey_canonical s) as [Hk|[Hk _]]; fold k in Hk; cycle 1.
  { rewrite decide_True by done. split; [set_solver|]. intros (Ht & Hne & Heq).
    destruct (CanonicalSessionKey_canonical t) as [(_ & ? & _)|[_ H]]; [congruence|].
    by rewrite TrimSpace_id in H. }
  pose proof (CanonicalSessionKey_id k Hk) as Hid. destruct Hk as (Htk & Hnek & Hg & Hp).
  rewrite decide_False by done.
  assert (forall t, t = k -> trimmed t /\ t <> "" /\ CanonicalSessionKey t = k) as Hself
    by (intros ? ->; done).
  destruct (CutPrefix k "group:") as [id|] eqn:Eg;
    [|destruct (CutPrefix k "private:") as [id|] eqn:Ep].
  - apply CutPrefix_Some in Eg. rewrite Eg in *. rewrite elem_of_cons, list_elem_of_fmap.
    split.
    + intros [->|(p & -> & Hin)]; [by apply Hself|].
      destruct (CanonicalSessionKey_group p id) as [? ->]; [done..|].
      split; [done|split; [|done]]. by inv_in Hin.
    + intros (Ht & Hne & Heq). destruct (CanonicalSessionKey_spelling t)
        as [H|[(p & id' & ? & -> & H)|(p & id' & ? & -> & H)]]; [done..|left; congruence| |];
        rewrite H in Heq.
      * apply (inj (String.append "group:")) in Heq as ->. right. eauto.
      * symmetry in Heq. by apply group_not_private in Heq.
  - apply CutPrefix_Some in Ep. rewrite Ep in *. rewrite elem_of_cons, list_elem_of_fmap.
    split.
    + intros [->|(p & -> & Hin)]; [by apply Hself|].
      destruct (CanonicalSessionKey_private p id) as [? ->]; [done..|].
      split; [done|split; [|done]]. by inv_in Hin.
    + intros (Ht & Hne & Heq). destruct (CanonicalSessionKey_spelling t)
        as [H|[(p & id' & ? & -> & H)|(p & id' & ? & -> & H)]]; [done..|left; congruence| |];
        rewrite H in Heq.
      * by apply group_not_private in Heq.
      * apply (inj (String.append "private:")) in Heq as ->. right. eauto.
  - rewrite list_elem_of_singleton. split; [by apply Hself|]. intros (Ht & Hne & Heq).
    destruct (CanonicalSessionKey_spelling t)
      as [H|[(p & id' & ? & -> & H)|(p & id' & ? & -> & H)]]; [done..|congruence| |];
      rewrite H in Heq; rewrite <- Heq in *.
    + by rewrite CutPrefix_app in Eg.
    + by rewrite CutPrefix_app in Ep.
Qed.

(** * Owners

    [CanonicalOwner] returns the text after a user prefix without trimming it
    again, so it is not idempotent on every input: an owner whose body starts
    with white space has two canonical forms, which [OwnersMatch] tells apart. *)
Lemma CanonicalOwner_not_idempotent :
  CanonicalOwner "qq:user: 5" = " 5" /\ CanonicalOwner " 5" = "5" /\
  OwnersMatch "qq:user: 5" " 5" = false /\ OwnerAliases "qq:user: 5" !! 0 = Some " 5".
Proof. vm_compute. repeat split. Qed.

Lemma OwnersMatch_spec a b :
  OwnersMatch a b = true <-> CanonicalOwner a = CanonicalOwner b.
Proof.
  unfold OwnersMatch. case_decide as E; [subst; naive_solver|].
  apply bool_decide_eq_true.
Qed.
