(* ===== verification/SummaryStore.v ===== *)
(** The durable group-summary store: [internal/groupsummary/store.go].

    A store maps canonical group session IDs to their running summary and
    counts, per ID, how often the summary was deleted (its generation), so that
    a compaction that started before a deletion cannot recreate the record.
    The disk or database write is a parameter: [save] is called with the next
    contents and returns its error, if any. *)

From S2P Require Import Prelude GoStrings SessionKey.

Local Open Scope string_scope.

Abbreviation error := string (only parsing).

Definition CanonicalSessionID (sessionID : string) : string :=
  let sessionID := TrimSpace sessionID in
  match cut_any group_prefixes sessionID with
  | Some cut => "group:" +:+ cut
  | None => sessionID
  end.

Definition sessionIDAliases (sessionID : string) : list string :=
  let canonical := CanonicalSessionID sessionID in
  if decide (canonical = "") then [] else
  match CutPrefix canonical "group:" with
  | Some groupID => canonical :: map (fun p => p +:+ groupID) group_prefixes
  | None => [canonical]
  end.

Record SummaryRecord := {
  rec_SessionID : string;
  rec_Summary : string;
  rec_CreatedAt : Z;
  rec_UpdatedAt : Z;
}.

Record Store := {
  records : gmap string SummaryRecord;
  generations : gmap string Z;
  blockedErr : option error;
}.

(** [s.generations[id]], the zero value when absent. *)
Definition generation (s : Store) (id : string) : Z := default 0%Z (generations s !! id).

(** * Loading *)

Definition fileVersion : Z := 1.

(** What reading and decoding the file gave. *)
Inductive file_read :=
  | FileMissing
  | FileUnreadable (e : error)
  | FileMalformed (e : error)
  | FileDecoded (version : Z) (summaries : list SummaryRecord).

Definition load (f : file_read) : res error (list SummaryRecord) :=
  match f with
  | FileMissing => Ok []
  | FileUnreadable e => Err ("read group summaries: " +:+ e)
  | FileMalformed e => Err ("parse group summaries: " +:+ e)
  | FileDecoded version summaries =>
      if (negb (version =? 0) && negb (version =? fileVersion))%Z
      then Err ("unsupported group summary version " +:+ pretty version)
      else Ok summaries
  end.

Definition load_record (records : gmap string SummaryRecord) (r : SummaryRecord)
    : gmap string SummaryRecord :=
  let sessionID := TrimSpace (rec_SessionID r) in
  let summary := TrimSpace (rec_Summary r) in
  if decide (sessionID = "" \/ summary = "") then records else
  let canonical := CanonicalSessionID sessionID in
  let record := {| rec_SessionID := canonical; rec_Summary := summary;
                   rec_CreatedAt := rec_CreatedAt r; rec_UpdatedAt := rec_UpdatedAt r |} in
  match records !! canonical with
  | Some existing =>
      if time_after (rec_UpdatedAt record) (rec_UpdatedAt existing)
      then <[canonical := record]> records else records
  | None => <[canonical := record]> records
  end.

Definition NewStore (f : file_read) : Store * option error :=
  match load f with
  | Err e => ({| records := ∅; generations := ∅; blockedErr := Some e |}, Some e)
  | Ok data =>
      ({| records := fold_left load_record data ∅; generations := ∅; blockedErr := None |}, None)
  end.

(** * Reading *)

Definition Get (sessionID : string) (s : Store) : res error (option SummaryRecord) :=
  match blockedErr s with
  | Some e => Err e
  | None =>
      match records s !! CanonicalSessionID sessionID with
      | Some record => Ok (Some record)
      | None => Ok (records s !! sessionID)
      end
  end.

Definition Generation (sessionID : string) (s : Store) : Z :=
  generation s (CanonicalSessionID sessionID).

(** Most recently updated first, then by session ID. *)
Definition record_less (a b : SummaryRecord) : bool :=
  if (rec_UpdatedAt a =? rec_UpdatedAt b)%Z
  then string_less (rec_SessionID a) (rec_SessionID b)
  else time_after (rec_UpdatedAt a) (rec_UpdatedAt b).

Definition List (s : Store) : res error (list SummaryRecord) :=
  match blockedErr s with
  | Some e => Err e
  | None => Ok (sort_stable record_less (map snd (map_to_list (records s))))
  end.

(** * Writing *)

Section write.
(** The save hook, if one is set, and the write to disk. *)
Context (saveHook save : gmap string SummaryRecord -> option error).

Definition Upsert (sessionID summary : string) (expectedGeneration now : Z) (s : Store)
    : (bool * option error) * Store :=
  let sessionID := TrimSpace sessionID in
  let summary := TrimSpace summary in
  if decide (sessionID = "" \/ summary = "")
  then (false, Some "session ID and summary are required", s) else
  let canonical := CanonicalSessionID sessionID in
  if negb (generation s canonical =? expectedGeneration)%Z then (false, None, s) else
  match blockedErr s with
  | Some e => (false, Some e, s)
  | None =>
      let record := {|
        rec_SessionID := canonical; rec_Summary := summary;
        rec_CreatedAt := match records s !! canonical with
                         | Some existing => rec_CreatedAt existing
                         | None => now
                         end;
        rec_UpdatedAt := now |} in
      let next := <[canonical := record]>
                    (fold_right delete (records s) (sessionIDAliases sessionID)) in
      match saveHook next with
      | Some e => (false, Some e, s)
      | None =>
          match save next with
          | Some e => (false, Some e, s)
          | None =>
              (true, None, {| records := next; generations := generations s;
                              blockedErr := blockedErr s |})
          end
      end
  end.

Definition Delete (sessionID : string) (s : Store) : option error * Store :=
  let sessionID := TrimSpace sessionID in
  if decide (sessionID = "") then (None, s) else
  let canonical := CanonicalSessionID sessionID in
  let g := u64_succ (generation s canonical) in
  let generations' :=
    fold_right (fun alias gs => if decide (alias = canonical) then gs else <[alias := g]> gs)
      (<[canonical := g]> (generations s)) (sessionIDAliases sessionID) in
  let s := {| records := records s; generations := generations'; blockedErr := blockedErr s |} in
  match blockedErr s with
  | Some e => (Some e, s)
  | None =>
      let deleted := existsb (fun alias => bool_decide (is_Some (records s !! alias)))
                       (canonical :: sessionIDAliases sessionID) in
      let next := delete canonical
                    (fold_right delete (records s) (sessionIDAliases sessionID)) in
      if negb deleted then (None, s) else
      match saveHook next with
      | Some e => (Some e, s)
      | None =>
          match save next with
          | Some e => (Some e, s)
          | None => (None, {| records := next; generations := generations s;
                              blockedErr := blockedErr s |})
          end
      end
  end.
End write.

(** * Canonical IDs *)

(** What [CanonicalSessionID] returns: a trimmed ID without platform prefix. *)
Definition canonical_id (k : string) : Prop := trimmed k /\ cut_any group_prefixes k = None.

Lemma CanonicalSessionID_canonical s : canonical_id (CanonicalSessionID s).
Proof.
  unfold CanonicalSessionID. pose proof (TrimSpace_trimmed s) as Ht.
  destruct (cut_any group_prefixes (TrimSpace s)) as [c|] eqn:E; [|done].
  apply cut_any_Some in E as (p & Hp & Heq). rewrite Heq in Ht. split; [|done].
  apply (trimmed_prefix p); [|done|done]. apply plain_session_prefixes. set_solver.
Qed.

Lemma CanonicalSessionID_id k : canonical_id k -> CanonicalSessionID k = k.
Proof. intros [Ht Hc]. unfold CanonicalSessionID. by rewrite TrimSpace_id, Hc. Qed.

Lemma CanonicalSessionID_TrimSpace s : CanonicalSessionID (TrimSpace s) = CanonicalSessionID s.
Proof. unfold CanonicalSessionID. by rewrite TrimSpace_idemp. Qed.

Lemma CanonicalSessionID_nonempty s : TrimSpace s <> "" -> CanonicalSessionID s <> "".
Proof. intros ?. unfold CanonicalSessionID. by case_match. Qed.

(** No alias but the canonical one is a canonical ID. *)
Lemma sessionIDAliases_canonical s a :
  a ∈ sessionIDAliases s -> canonical_id a -> a = CanonicalSessionID s.
Proof.
  unfold sessionIDAliases. case_decide; [set_solver|].
  destruct (CutPrefix _ _) as [id|]; [|set_solver].
  intros [->|Ha]%elem_of_cons [_ Hc]; [done|]. exfalso.
  apply list_elem_of_fmap in Ha as (p & -> & Hp). by eapply cut_any_None.
Qed.

Lemma sessionIDAliases_self s : CanonicalSessionID s <> "" ->
  CanonicalSessionID s ∈ sessionIDAliases s.
Proof. intros. unfold sessionIDAliases. rewrite decide_False by done. case_match; set_solver. Qed.

(** * Invariant *)

(** Every record is filed under its own canonical, non-empty ID. *)
Definition wf (s : Store) : Prop :=
  map_Forall (fun k r => rec_SessionID r = k /\ canonical_id k /\ k <> "") (records s).

Lemma wf_NewStore f : wf (NewStore f).1.
Proof.
  unfold NewStore, wf. destruct (load f) as [data|e]; simpl; [|apply map_Forall_empty].
  set (P := map_Forall _). enough (forall m, P m -> P (fold_left load_record data m)) as H
    by apply H, map_Forall_empty.
  induction data as [|r l IH]; simpl; intros m Hm; [done|]. apply IH. clear IH.
  unfold load_record. case_decide as Hne; [done|].
  apply not_or_and in Hne as [Hne _]. rewrite CanonicalSessionID_TrimSpace.
  guards; try done; apply map_Forall_insert_2; try done; simpl;
    (split; [done|split; [apply CanonicalSessionID_canonical|by apply CanonicalSessionID_nonempty]]).
Qed.

Lemma lookup_delete_aliases (l : list string) (m : gmap string SummaryRecord) k :
  fold_right delete m l !! k = if decide (k ∈ l) then None else m !! k.
Proof.
  induction l as [|a l IH]; simpl; [done|].
  destruct (decide (k = a)) as [->|].
  - rewrite lookup_delete_eq, decide_True by set_solver. done.
  - rewrite lookup_delete_ne, IH by done. repeat case_decide; set_solver.
Qed.

(** In a well-formed store dropping the aliases of an ID drops its record only. *)
Lemma lookup_delete_aliases_wf s id k :
  wf s -> CanonicalSessionID id <> "" ->
  fold_right delete (records s) (sessionIDAliases id) !! k =
  if decide (k = CanonicalSessionID id) then None else records s !! k.
Proof.
  intros Hwf Hne. rewrite lookup_delete_aliases.
  destruct (decide (k = CanonicalSessionID id)) as [->|Hk].
  - by rewrite decide_True by (by apply sessionIDAliases_self).
  - case_decide as Hin; [|done]. destruct (records s !! k) as [r|] eqn:E; [|done].
    apply Hwf in E as (_ & Hc & _). destruct Hk. by apply sessionIDAliases_canonical.
Qed.

(** [Get] reads the record of the canonical ID. *)
Lemma Get_wf s id : wf s -> blockedErr s = None -> Get id s = Ok (records s !! CanonicalSessionID id).
Proof.
  intros Hwf Hb. unfold Get. rewrite Hb. destruct (records s !! CanonicalSessionID id) eqn:E; [done|].
  destruct (records s !! id) as [r|] eqn:E'; [|done].
  apply Hwf in E' as H. destruct H as (_ & Hc & _).
  apply CanonicalSessionID_id in Hc. congruence.
Qed.

Section properties.
Implicit Types (hook save : gmap string SummaryRecord -> option error).

(** The record a successful [Upsert] files. *)
Definition upserted (s : Store) (id summary : string) (now : Z) : SummaryRecord := {|
  rec_SessionID := CanonicalSessionID id; rec_Summary := TrimSpace summary;
  rec_CreatedAt := match records s !! CanonicalSessionID id with
                   | Some existing => rec_CreatedAt existing
                   | None => now
                   end;
  rec_UpdatedAt := now |}.

Lemma Upsert_cases hook save id summary g now s :
  (exists e, Upsert hook save id summary g now s = (false, e, s))
  \/ (TrimSpace id <> "" /\ blockedErr s = None /\ Generation id s = g /\
      exists next,
        next = <[CanonicalSessionID id := upserted s id summary now]>
                 (fold_right delete (records s) (sessionIDAliases id)) /\
        hook next = None /\ save next = None /\
        Upsert hook save id summary g now s
          = (true, None, {| records := next; generations := generations s;
                            blockedErr := blockedErr s |})).
Proof.
  unfold Upsert. case_decide as Hne; [left; eauto|].
  apply not_or_and in Hne as [Hid _]. unfold Generation, upserted.
  rewrite CanonicalSessionID_TrimSpace.
  destruct (negb _) eqn:Hg; [left; eauto|]. boolp.
  destruct (blockedErr s) eqn:Hb; [left; eauto|].
  replace (sessionIDAliases (TrimSpace id)) with (sessionIDAliases id)
    by (unfold sessionIDAliases; by rewrite CanonicalSessionID_TrimSpace).
  match goal with |- context [hook ?n] => set (next := n) end.
  destruct (hook next) eqn:?; [left; eauto|].
  destruct (save next) eqn:?; [left; eauto|]. right. eauto 10.
Qed.

Lemma Upsert_wf hook save id summary g now s :
  wf s -> wf (Upsert hook save id summary g now s).2.
Proof.
  intros Hwf. destruct (Upsert_cases hook save id summary g now s)
    as [[e ->]|(Hid & _ & _ & next & -> & _ & _ & ->)]; [done|].
  apply CanonicalSessionID_nonempty in Hid.
  unfold wf; simpl. apply map_Forall_insert_2.
  - split; [done|split; [apply CanonicalSessionID_canonical|done]].
  - intros k r. rewrite lookup_delete_aliases_wf by done. case_decide; [done|apply Hwf].
Qed.

(** [Delete]: the generation always advances; the records change only when
    one was there and both writes succeed. *)
Lemma Delete_generations hook save id s :
  TrimSpace id <> "" ->
  forall k, canonical_id k ->
  generation (Delete hook save id s).2 k =
  if decide (k = CanonicalSessionID id) then u64_succ (generation s k) else generation s k.
Proof.
  intros Hid k Hk. unfold Delete. rewrite decide_False by done.
  rewrite CanonicalSessionID_TrimSpace.
  replace (sessionIDAliases (TrimSpace id)) with (sessionIDAliases id)
    by (unfold sessionIDAliases; by rewrite CanonicalSessionID_TrimSpace).
  set (g := u64_succ (generation s (CanonicalSessionID id))).
  set (gs := fold_right _ _ _).
  assert (gs !! k = if decide (k = CanonicalSessionID id) then Some g else generations s !! k) as Hgs.
  { subst gs. pose proof (sessionIDAliases_canonical id k) as Hal. revert Hal.
    induction (sessionIDAliases id) as [|a l IH]; intros Hal; simpl.
    - case_decide; [subst; by rewrite lookup_insert_eq|by rewrite lookup_insert_ne].
    - rewrite <- IH by (intros; apply Hal; set_solver). clear IH.
      destruct (decide (a = CanonicalSessionID id)) as [|Ha]; [done|].
      rewrite lookup_insert_ne; [done|]. intros ->. apply Ha, Hal; [set_solver|done]. }
  assert (default 0%Z (gs !! k) = if decide (k = CanonicalSessionID id)
    then u64_succ (generation s k) else generation s k) as Hd.
  { rewrite Hgs. case_decide; [by subst|done]. }
  clear Hgs. simpl. repeat case_match; exact Hd.
Qed.

Lemma Delete_cases hook save id s :
  records (Delete hook save id s).2 = records s
  \/ (CanonicalSessionID id <> "" /\ records (Delete hook save id s).2 =
        delete (CanonicalSessionID id) (fold_right delete (records s) (sessionIDAliases id))
      /\ (Delete hook save id s).1 = None /\ blockedErr s = None).
Proof.
  unfold Delete. case_decide as Hid; [by left|].
  apply CanonicalSessionID_nonempty in Hid. rewrite CanonicalSessionID_TrimSpace in *.
  replace (sessionIDAliases (TrimSpace id)) with (sessionIDAliases id)
    by (unfold sessionIDAliases; by rewrite CanonicalSessionID_TrimSpace).
  simpl. guards; auto.
Qed.

Lemma Delete_wf hook save id s : wf s -> wf (Delete hook save id s).2.
Proof.
  intros Hwf. unfold wf. destruct (Delete_cases hook save id s) as [->|(Hne & -> & _)]; [done|].
  intros k r. destruct (decide (k = CanonicalSessionID id)) as [->|];
    [by rewrite lookup_delete_eq|rewrite lookup_delete_ne by done].
  rewrite lookup_delete_aliases_wf by done. case_decide; [done|apply Hwf].
Qed.
End properties.

(** * Sequences of operations *)

(** One write to the store, with what its save hook and its disk write do. *)
Inductive op :=
  | OpUpsert (id summary : string) (expected now : Z) (hook save : option error)
  | OpDelete (id : string) (hook save : option error).

Definition step (s : Store) (o : op) : Store :=
  match o with
  | OpUpsert id summary g now hook save =>
      (Upsert (fun _ => hook) (fun _ => save) id summary g now s).2
  | OpDelete id hook save => (Delete (fun _ => hook) (fun _ => save) id s).2
  end.

Definition run (s : Store) (ops : list op) : Store := fold_left step ops s.

(** How many of the operations delete the summary [id] names. *)
Definition is_delete (id : string) (o : op) : bool :=
  match o with
  | OpDelete id' _ _ =>
      bool_decide (TrimSpace id' <> "" /\ CanonicalSessionID id' = CanonicalSessionID id)
  | OpUpsert _ _ _ _ _ _ => false
  end.
Definition deletes (id : string) (ops : list op) : nat :=
  length (filter (fun o => is_delete id o = true) ops).

Definition u64_add (n k : Z) : Z := u64 (n + k).

Lemma generation_run s ops id :
  is_u64 (Generation id s) ->
  Generation id (run s ops) = u64_add (Generation id s) (Z.of_nat (deletes id ops)).
Proof.
  unfold Generation, deletes, u64_add. pose proof (CanonicalSessionID_canonical id) as Hc.
  revert s; induction ops as [|o ops IH]; intros s Hg; simpl.
  { unfold u64. rewrite Z.add_0_r, Z.mod_small; [done|exact Hg]. }
  rewrite filter_cons. destruct o as [id' summary g now hook save|id' hook save]; simpl.
  - assert (generation (Upsert (fun _ => hook) (fun _ => save) id' summary g now s).2
              (CanonicalSessionID id) = generation s (CanonicalSessionID id)) as Hsame.
    { destruct (Upsert_cases (fun _ => hook) (fun _ => save) id' summary g now s)
        as [[e ->]|(_ & _ & _ & next & _ & _ & _ & ->)]; done. }
    rewrite IH by by rewrite Hsame. by rewrite Hsame.
  - destruct (decide (TrimSpace id' = "")) as [Hid|Hid].
    { rewrite bool_decide_false by tauto. unfold Delete.
      rewrite (decide_True (P := TrimSpace id' = "")) by done. by apply IH. }
    pose proof (Delete_generations (fun _ => hook) (fun _ => save) id' s Hid _ Hc) as HD.
    rewrite IH; rewrite HD; clear HD IH.
    + destruct (decide (CanonicalSessionID id = CanonicalSessionID id')) as [E|E].
      * rewrite bool_decide_true by done. simpl. unfold u64_succ, u64, u64_max.
        rewrite Z.add_mod_idemp_l by lia. f_equal. lia.
      * by rewrite bool_decide_false by naive_solver.
    + case_decide; [apply u64_is_u64|done].
Qed.

Lemma run_wf s ops : wf s -> wf (run s ops).
Proof.
  revert s; induction ops as [|[] ops IH]; simpl; intros s Hs; [done|..]; apply IH;
    [by apply Upsert_wf|by apply Delete_wf].
Qed.

(** A summary deleted while a compaction was running cannot come back.  The
    compaction reads [Generation] first; if the record is then deleted at
    least once under any spelling of its ID (and fewer than 2^64 times), with
    any other writes in between and whatever the disk did, its [Upsert] with
    the generation it read is refused and changes nothing. *)
Theorem stale_upsert_refused s ops id id' summary now hook save :
  is_u64 (Generation id s) ->
  (0 < Z.of_nat (deletes id ops) < u64_max)%Z ->
  CanonicalSessionID id' = CanonicalSessionID id ->
  exists e, Upsert hook save id' summary (Generation id s) now (run s ops)
            = (false, e, run s ops).
Proof.
  intros Hu Hn Hid.
  destruct (Upsert_cases hook save id' summary (Generation id s) now (run s ops))
    as [H|(_ & _ & Hg & _)]; [done|]. exfalso.
  assert (Generation id' (run s ops) = Generation id (run s ops)) as E
    by (unfold Generation; by rewrite Hid).
  rewrite E, (generation_run s ops id Hu) in Hg. by apply u64_add_ne in Hg.
Qed.

(** A successful [Upsert] is what every later [Get] sees, under every
    spelling of the ID: the trimmed summary, stamped now, with the creation
    time of the record it replaces; every other conversation reads the same as
    before. *)
Theorem Upsert_Get s s' hook save id summary g now e a :
  wf s -> Upsert hook save id summary g now s = (true, e, s') ->
  e = None /\ wf s' /\
  Get a s' = if decide (CanonicalSessionID a = CanonicalSessionID id)
             then Ok (Some (upserted s id summary now)) else Get a s.
Proof.
  intros Hwf HU. pose proof (Upsert_wf hook save id summary g now s Hwf) as Hwf'.
  rewrite HU in Hwf'. simpl in Hwf'. revert HU.
  destruct (Upsert_cases hook save id summary g now s)
    as [[e' ->]|(Hid & Hb & _ & next & -> & _ & _ & ->)]; [done|]. intros [= <- <-].
  apply CanonicalSessionID_nonempty in Hid.
  split; [done|split; [done|]]. rewrite !Get_wf by done. simpl. case_decide as Ha.
  - by rewrite Ha, lookup_insert_eq.
  - rewrite lookup_insert_ne by done. by rewrite lookup_delete_aliases_wf, decide_False by done.
Qed.

(** A write that reports an error leaves every record as it was: [Upsert]
    changes nothing at all, and [Delete] changes nothing but the generation,
    which advances exactly when the ID is not blank. *)
Theorem failed_write_keeps_records hook save id summary g now s :
  ((Upsert hook save id summary g now s).1.2 <> None ->
     Upsert hook save id summary g now s = (false, (Upsert hook save id summary g now s).1.2, s)) /\
  ((Delete hook save id s).1 <> None -> records (Delete hook save id s).2 = records s) /\
  Generation id (Delete hook save id s).2 =
    (if decide (TrimSpace id = "") then Generation id s else u64_succ (Generation id s)).
Proof.
  split; [|split].
  - destruct (Upsert_cases hook save id summary g now s)
      as [[e ->]|(_ & _ & _ & next & _ & _ & _ & ->)]; done.
  - intros He. by destruct (Delete_cases hook save id s) as [?|(_ & _ & ? & _)].
  - unfold Generation. case_decide as Hid.
    + unfold Delete. by rewrite decide_True.
    + rewrite Delete_generations by (done || apply CanonicalSessionID_canonical).
      by rewrite decide_True.
Qed.

Lemma record_less_asym a b : record_less a b = true -> record_less b a = false.
Proof.
  unfold record_less, time_after. rewrite (Z.eqb_sym (rec_UpdatedAt b)).
  destruct (Z.eqb_spec (rec_UpdatedAt a) (rec_UpdatedAt b)); [apply string_less_asym|].
  rewrite Z.ltb_lt, Z.ltb_ge. lia.
Qed.

Lemma record_less_trans a b c :
  record_less b a = false -> record_less c b = false -> record_less c a = false.
Proof.
  unfold record_less, time_after.
  destruct (Z.eqb_spec (rec_UpdatedAt b) (rec_UpdatedAt a)),
           (Z.eqb_spec (rec_UpdatedAt c) (rec_UpdatedAt b)),
           (Z.eqb_spec (rec_UpdatedAt c) (rec_UpdatedAt a)); rewrite ?Z.ltb_ge; try lia.
  apply string_less_trans.
Qed.

(** [List] returns each record once, in an order in which no record comes
    after one it precedes (most recent first, ties by session ID), and that
    order is the only one: it does not depend on the iteration order of the
    map. *)
Theorem List_sorted s l :
  wf s -> List s = Ok l ->
  l ≡ₚ map snd (map_to_list (records s)) /\ ordered record_less l /\
  forall l', l' ≡ₚ map snd (map_to_list (records s)) -> sort_stable record_less l' = l.
Proof.
  unfold List. intros Hwf HL. destruct (blockedErr s); [done|]. injection HL as <-.
  split; [apply sort_stable_perm|]. split.
  { apply sort_stable_ordered; [apply record_less_asym|apply record_less_trans]. }
  intros l' Hl'. apply (ordered_unique record_less).
  - apply sort_stable_ordered; [apply record_less_asym|apply record_less_trans].
  - apply sort_stable_ordered; [apply record_less_asym|apply record_less_trans].
  - by rewrite !sort_stable_perm.
  - intros a b Ha Hb. unfold record_less, time_after.
    rewrite sort_stable_perm, Hl' in Ha, Hb.
    assert (forall r, r ∈ map snd (map_to_list (records s)) -> records s !! rec_SessionID r = Some r) as Hin.
    { intros r Hr. apply list_elem_of_fmap in Hr as ([k r'] & -> & Hk).
      apply elem_of_map_to_list in Hk. simpl. by destruct (Hwf _ _ Hk) as (-> & _). }
    apply Hin in Ha, Hb. rewrite (Z.eqb_sym (rec_UpdatedAt b)).
    destruct (Z.eqb_spec (rec_UpdatedAt a) (rec_UpdatedAt b)); [|rewrite !Z.ltb_ge; lia].
    intros H1 H2. pose proof (string_less_total _ _ H1 H2). congruence.
Qed.

(** * Witnesses *)

Definition store0 : Store := (NewStore (FileDecoded 1 [
  {| rec_SessionID := " qq:group:7 "; rec_Summary := "old "; rec_CreatedAt := 1; rec_UpdatedAt := 2 |};
  {| rec_SessionID := "group:8"; rec_Summary := "other"; rec_CreatedAt := 3; rec_UpdatedAt := 3 |}])).1.

Lemma stale_upsert_refused_witness :
  let ops := [OpUpsert "onebot:group:7" "mid" 0 9 None None;
              OpDelete "aiocqhttp:group:7" None (Some "disk full")] in
  exists e, Upsert (fun _ => None) (fun _ => None) "group:7" "late" 0 10 (run store0 ops)
            = (false, e, run store0 ops).
Proof.
  apply (stale_upsert_refused store0 _ "group:7" "group:7" "late" 10
    (fun _ => None) (fun _ => None)); vm_compute; auto; split; congruence.
Defined.

Lemma Upsert_Get_witness :
  exists s', Upsert (fun _ => None) (fun _ => None) "onebot:group:7" " new " 0 9 store0 = (true, None, s') /\
    Get "qq:group:7" s' = Ok (Some {| rec_SessionID := "group:7"; rec_Summary := "new";
                                      rec_CreatedAt := 1; rec_UpdatedAt := 9 |}).
Proof.
  eexists. split; [by vm_compute|].
  destruct (Upsert_Get store0 (Upsert (fun _ => None) (fun _ => None) "onebot:group:7" " new " 0 9 store0).2
    (fun _ => None) (fun _ => None) "onebot:group:7" " new " 0 9 None "qq:group:7") as (_ & _ & H).
  - apply wf_NewStore.
  - by vm_compute.
  - etransitivity; [exact H|]. by vm_compute.
Defined.

Lemma List_sorted_witness :
  exists l, List store0 = Ok l /\ ordered record_less l.
Proof.
  eexists. split; [by vm_compute|].
  destruct (List_sorted store0 (sort_stable record_less (map snd (map_to_list (records store0)))))
    as (_ & H & _).
  - apply wf_NewStore.
  - by vm_compute.
  - exact H.
Defined.
