(* ===== verification/GroupMessage.v ===== *)
(** Group messages and their text form: the beginning of
    [internal/llm/session.go].

    A group message is kept structured, but it is displayed, exported and
    re-imported as one line of text.  The file models the two directions and
    shows that parsing a displayed message gives back its role, sender, sender
    ID and body. *)

From S2P Require Import Prelude GoStrings.
From Stdlib Require Import Ascii.

Local Open Scope string_scope.

Record GroupCompactMessage := {
  gm_Role : string;
  gm_Sender : string;
  gm_SenderID : string;
  gm_Content : string;
  gm_ImageDescription : string;
  gm_MessageID : string;
  gm_Time : string;
  gm_raw : string;
}.

#[global] Instance GroupCompactMessage_eq_dec : EqDecision GroupCompactMessage.
Proof. solve_decision. Defined.

(** [GroupCompactMessage{}]. *)
Definition no_message : GroupCompactMessage := {|
  gm_Role := ""; gm_Sender := ""; gm_SenderID := ""; gm_Content := "";
  gm_ImageDescription := ""; gm_MessageID := ""; gm_Time := ""; gm_raw := "" |}.

(** The body: the content, with the vision output after it. *)
Definition display_body (m : GroupCompactMessage) : string :=
  if decide (gm_ImageDescription m = "") then gm_Content m
  else gm_Content m +:+ " 【图片识别结果】：" +:+ gm_ImageDescription m.

Definition FormatDisplay (m : GroupCompactMessage) : string :=
  if negb (bool_decide (gm_raw m = "")) then gm_raw m else
  let body := display_body m in
  if decide (gm_Role m = "assistant") then
    let botName := if decide (gm_Sender m = "") then "霜降" else gm_Sender m in
    "[assistant] " +:+ botName +:+ ": " +:+ body
  else
    let sender := if decide (gm_Sender m = "") then "user" else gm_Sender m in
    if decide (gm_SenderID m = "") then "[user] " +:+ sender +:+ ": " +:+ body
    else "[user] " +:+ sender +:+ " (" +:+ gm_SenderID m +:+ "): " +:+ body.

Section parse.
Context `{UnicodeCase}.

(** The first "[msg_...]" tag of a line, without its brackets. *)
Definition message_tag (content : string) : string :=
  match Index content "[msg_" with
  | Some start =>
      match Index (sdrop start content) "]" with
      | Some e => sdrop (start + 1) (stake (start + e) content)
      | None => ""
      end
  | None => ""
  end.

(** The sender part "name (id)" of a line. *)
Definition split_sender (senderPart : string) : string * string :=
  match Index senderPart "(" with
  | Some openParen =>
      match Index (sdrop openParen senderPart) ")" with
      | Some closeParen =>
          (TrimSpace (stake openParen senderPart),
           TrimSpace (sdrop (openParen + 1) (stake (openParen + closeParen) senderPart)))
      | None => (senderPart, "")
      end
  | None => (senderPart, "")
  end.

(** The role tag and the text after it. *)
Definition split_role (content : string) : string * string :=
  if HasPrefix (ToLower content) "[assistant]"
  then ("assistant", TrimSpace (sdrop (slen "[assistant]") content))
  else if HasPrefix (ToLower content) "[user]"
  then ("user", TrimSpace (sdrop (slen "[user]") content))
  else ("user", content).

Definition ParseGroupCompactMessage (content : string) (messageID : option string)
    : GroupCompactMessage :=
  let content := TrimSpace content in
  if decide (content = "") then no_message else
  let msgID := default "" (TrimSpace <$> messageID) in
  let msgID := if decide (msgID = "") then message_tag content else msgID in
  let '(role, text) := split_role content in
  match Index text ":" with
  | Some colonIdx =>
      let senderPart := TrimSpace (stake colonIdx text) in
      let msgBody := TrimSpace (sdrop (colonIdx + 1) text) in
      let '(sender, senderID) := split_sender senderPart in
      {| gm_Role := role; gm_Sender := sender; gm_SenderID := senderID;
         gm_Content := msgBody; gm_ImageDescription := ""; gm_MessageID := msgID;
         gm_Time := ""; gm_raw := content |}
  | None =>
      {| gm_Role := role; gm_Sender := ""; gm_SenderID := "";
         gm_Content := content; gm_ImageDescription := ""; gm_MessageID := msgID;
         gm_Time := ""; gm_raw := content |}
  end.
End parse.

(** * Parsing a displayed message *)

(** A name or ID that the text form can carry: trimmed, non-empty, without the
    bytes [sep] that delimit it. *)
Definition delimited (seps : list ascii) (s : string) : Prop :=
  trimmed s /\ s <> "" /\ Forall (fun c => c ∉ to_bytes s) seps.

Lemma byte_string_colon : ":" = byte_string ":"%char. Proof. done. Qed.

Lemma to_bytes_nonempty s : s <> "" -> to_bytes s <> [].
Proof. intros H E. apply H, (inj to_bytes). by rewrite E. Qed.

(** A trimmed text, a separator starting with ASCII, a trimmed text. *)
Lemma trimmed_join s t c c' :
  trimmed s -> s <> "" -> trimmed t -> t <> "" ->
  ascii_byte c = true -> ascii_byte c' = true ->
  forall m r, to_bytes m = (c :: r)%list -> forall r', to_bytes m = (r' ++ [c'])%list ->
  trimmed (s +:+ m +:+ t).
Proof.
  intros [Hs _] Hsne [_ Ht] Htne Hc Hc' m r Hm r' Hm'. unfold trimmed.
  eapply (trimmed_between (to_bytes s) c (r ++ to_bytes t)
            (to_bytes s ++ r') c' (to_bytes t)); try done;
    try (by apply to_bytes_nonempty).
  - rewrite !to_bytes_app, Hm. done.
  - rewrite !to_bytes_app, Hm', <- !app_assoc. done.
Qed.

Lemma split_sender_plain name :
  "("%char ∉ to_bytes name -> split_sender name = (name, "").
Proof.
  intros Hn. unfold split_sender.
  change "(" with (byte_string "("%char). by rewrite Index_byte_None.
Qed.

Lemma split_sender_id name id :
  delimited ["("%char] name -> delimited [")"%char] id ->
  split_sender (name +:+ " (" +:+ id +:+ ")") = (name, id).
Proof.
  intros (Htn & Hn0 & (Hn & _)%Forall_cons_1) (Hti & Hi0 & (Hi & _)%Forall_cons_1). unfold split_sender.
  change (" (" +:+ id +:+ ")") with (" " +:+ (byte_string "("%char +:+ id +:+ ")")).
  rewrite (assoc_L String.append name).
  change "(" with (byte_string "("%char) at 1.
  rewrite Index_byte by (rewrite to_bytes_app; set_solver).
  rewrite sdrop_app, (assoc_L String.append (byte_string _)).
  change ")" with (byte_string ")"%char) at 2.
  change ((byte_string "("%char +:+ id) +:+ ")")
    with ((byte_string "("%char +:+ id) +:+ (byte_string ")"%char +:+ "")).
  rewrite Index_byte by (rewrite to_bytes_app; set_solver).
  rewrite stake_app.
  rewrite stake_app_plus, stake_app, sdrop_app_plus, sdrop_S_byte.
  by rewrite TrimSpace_snoc_space, TrimSpace_id.
Qed.

(** The text after the role tag of a displayed line. *)
Lemma trimmed_left_ascii s c t :
  clean space_encodings (to_bytes s) -> s <> "" -> ascii_byte c = true ->
  clean space_encodings (to_bytes (s +:+ String.String c t)).
Proof.
  intros. rewrite to_bytes_app. apply clean_app_ascii; [apply encodings_shape|done| |done].
  by apply to_bytes_nonempty.
Qed.

Section roundtrip.
Context `{UnicodeCaseLaws}.

(** What the two role tags have in common. *)
Lemma split_role_tag tag role text :
  (tag, role) ∈ [("[assistant]", "assistant"); ("[user]", "user")] -> trimmed text ->
  split_role (tag +:+ " " +:+ text) = (role, text).
Proof.
  intros Hin Ht.
  assert (is_ascii tag = true /\ ascii_lower tag = tag) as [Ha Hl].
  { apply elem_of_cons in Hin as [[= -> ->]|Hin%list_elem_of_singleton]; [|simplify_eq]; by vm_compute. }
  unfold split_role. rewrite (ToLower_app tag) by done. rewrite Hl.
  assert (TrimSpace (sdrop (slen tag) (tag +:+ " " +:+ text)) = text) as Hs.
  { rewrite sdrop_app. by apply TrimSpace_cons_space. }
  apply elem_of_cons in Hin as [[= -> ->]|Hin%list_elem_of_singleton].
  - unfold HasPrefix at 1. rewrite CutPrefix_app. by f_equal.
  - simplify_eq. change (HasPrefix ("[user]" +:+ _) "[assistant]") with false. cbn iota.
    unfold HasPrefix. rewrite CutPrefix_app. by f_equal.
Qed.

(** A line "tag sender: body". *)
Lemma parse_line tag role sp body name id mid :
  (tag, role) ∈ [("[assistant]", "assistant"); ("[user]", "user")] ->
  delimited [":"%char] sp -> split_sender sp = (name, id) ->
  trimmed body -> body <> "" ->
  let line := tag +:+ " " +:+ (sp +:+ ": " +:+ body) in
  ParseGroupCompactMessage line mid =
  {| gm_Role := role; gm_Sender := name; gm_SenderID := id; gm_Content := body;
     gm_ImageDescription := "";
     gm_MessageID := (let msgID := default "" (TrimSpace <$> mid) in
                      if decide (msgID = "") then message_tag line else msgID);
     gm_Time := ""; gm_raw := line |}.
Proof.
  intros Hin (Hsp & Hsp0 & (Hc & _)%Forall_cons_1) Hsplit Hb Hb0 line.
  assert (trimmed (sp +:+ ": " +:+ body)) as Htext.
  { by apply (trimmed_join sp body ":"%char " "%char Hsp Hsp0 Hb Hb0 eq_refl eq_refl ": "
      [" "%char] eq_refl [":"%char]). }
  assert (trimmed tag /\ tag <> "") as [Htag Htag0].
  { apply elem_of_cons in Hin as [[= -> ->]|Hin%list_elem_of_singleton]; [|simplify_eq];
      (split; [|done]; split; by vm_compute). }
  assert (trimmed line) as Hline.
  { apply (trimmed_join tag _ " "%char " "%char Htag Htag0 Htext) with (r := []) (r' := []); try done.
    by destruct sp. }
  unfold ParseGroupCompactMessage. rewrite (TrimSpace_id line) by done.
  rewrite decide_False by (subst line; by destruct tag).
  subst line. rewrite (split_role_tag tag role) by done.
  change (sp +:+ ": " +:+ body) with (sp +:+ (byte_string ":"%char +:+ (" " +:+ body))).
  change (Index _ ":") with (Index (sp +:+ (byte_string ":"%char +:+ (" " +:+ body))) (byte_string ":"%char)).
  rewrite Index_byte by done. rewrite stake_app, sdrop_app_plus, sdrop_S_byte.
  rewrite (TrimSpace_id sp), Hsplit by done.
  change (" " +:+ body) with (String.String " "%char body).
  by rewrite TrimSpace_cons_space.
Qed.

(** The sender as the line shows it. *)
Definition shown_sender (m : GroupCompactMessage) : string :=
  if decide (gm_Sender m = "") then
    (if decide (gm_Role m = "assistant") then "霜降" else "user")
  else gm_Sender m.
Definition shown_role (m : GroupCompactMessage) : string :=
  if decide (gm_Role m = "assistant") then "assistant" else "user".
Definition shown_id (m : GroupCompactMessage) : string :=
  if decide (gm_Role m = "assistant") then "" else gm_SenderID m.

(** The messages a line carries faithfully. *)
Definition displayable (m : GroupCompactMessage) : Prop :=
  gm_raw m = "" /\
  (gm_Sender m = "" \/ delimited ["("; ":"]%char (gm_Sender m)) /\
  (gm_SenderID m = "" \/ delimited [")"; ":"]%char (gm_SenderID m)) /\
  trimmed (display_body m) /\ display_body m <> "".

Lemma not_in_bytes c l : existsb (Ascii.eqb c) l = false -> c ∉ l.
Proof.
  intros Hf Hin. assert (existsb (Ascii.eqb c) l = true) as Ht; [|congruence].
  apply existsb_exists. exists c. rewrite <- list_elem_of_In. split; [done|apply Ascii.eqb_refl].
Qed.

Lemma shown_sender_delimited m : displayable m -> delimited ["("; ":"]%char (shown_sender m).
Proof.
  intros (_ & Hs & _). unfold shown_sender. case_decide as E; [|by destruct Hs].
  case_decide; (split; [split; vm_compute; reflexivity|split; [done|]]);
    (apply Forall_cons; split; [|apply Forall_cons; split; [|done]]); apply not_in_bytes; reflexivity.
Qed.

(** A displayed line as [parse_line] reads it. *)
Lemma FormatDisplay_line m :
  gm_raw m = "" ->
  FormatDisplay m =
  (if decide (gm_Role m = "assistant") then "[assistant]" else "[user]") +:+ " " +:+
  ((if decide (shown_id m = "") then shown_sender m
    else shown_sender m +:+ " (" +:+ shown_id m +:+ ")") +:+ ": " +:+ display_body m).
Proof.
  intros Hraw. unfold FormatDisplay, shown_id, shown_sender.
  rewrite Hraw, bool_decide_true by done. cbn [negb].
  destruct (decide (gm_Role m = "assistant")).
  - rewrite (decide_True (P := "" = "")) by done. destruct (decide (gm_Sender m = "")); reflexivity.
  - destruct (decide (gm_SenderID m = "")); rewrite <- ?(assoc_L String.append);
      destruct (decide (gm_Sender m = "")); reflexivity.
Qed.

Lemma shown_part_split m :
  displayable m ->
  let sp := if decide (shown_id m = "") then shown_sender m
            else shown_sender m +:+ " (" +:+ shown_id m +:+ ")" in
  delimited [":"%char] sp /\ split_sender sp = (shown_sender m, shown_id m).
Proof.
  intros Hm. pose proof (shown_sender_delimited m Hm) as Hs.
  destruct Hm as (_ & _ & Hid & _). generalize dependent (shown_sender m). intros name Hs.
  destruct Hs as (Hst & Hs0 & [Hs1 Hs2]%Forall_cons_1). apply Forall_cons_1 in Hs2 as [Hs2 _].
  cbn zeta. case_decide as E.
  - split; [split; [done|split; [done|by constructor]]|]. rewrite E. by apply split_sender_plain.
  - assert (delimited [")"; ":"]%char (shown_id m)) as (Hi & Hi0 & [Hi1 Hi2]%Forall_cons_1).
    { unfold shown_id in *. case_decide; [done|]. by destruct Hid. }
    apply Forall_cons_1 in Hi2 as [Hi2 _]. split.
    + split; [|split; [by destruct name|]].
      * split.
        { apply trimmed_left_ascii; [by destruct Hst|done..]. }
        rewrite (assoc_L String.append), (assoc_L String.append _ _ ")"), to_bytes_app, rev_app_distr.
        by apply clean_rev_plain.
      * constructor; [|done]. rewrite !to_bytes_app, !elem_of_app.
        assert ((":"%char ∉ to_bytes " (") /\ (":"%char ∉ to_bytes ")")) as [? ?]
          by (split; (apply not_in_bytes; reflexivity)).
        tauto.
    + apply split_sender_id; (split; [done|split; [done|by constructor]]).
Qed.

(** A displayable message survives its text form: parsing the line that
    [FormatDisplay] prints gives back the shown role, the sender (or the name
    shown in its place), the sender ID (which only user lines carry), the body
    with the image description folded in, and the line itself as raw text. *)
Theorem FormatDisplay_Parse m mid :
  displayable m ->
  ParseGroupCompactMessage (FormatDisplay m) mid =
  {| gm_Role := shown_role m; gm_Sender := shown_sender m; gm_SenderID := shown_id m;
     gm_Content := display_body m; gm_ImageDescription := "";
     gm_MessageID := (let msgID := default "" (TrimSpace <$> mid) in
                      if decide (msgID = "") then message_tag (FormatDisplay m) else msgID);
     gm_Time := ""; gm_raw := FormatDisplay m |}.
Proof.
  intros Hm. destruct (shown_part_split m Hm) as [Hsp Hsplit].
  destruct Hm as (Hraw & _ & _ & Hb & Hb0). rewrite (FormatDisplay_line m Hraw).
  set (sp := if decide (shown_id m = "") then _ else _) in *.
  unfold shown_role. destruct (decide (gm_Role m = "assistant")).
  - apply (parse_line "[assistant]" "assistant"); [by left|done..].
  - apply (parse_line "[user]" "user"); [by right; left|done..].
Qed.
End roundtrip.

(** * Witnesses and examples *)

Definition shuang : GroupCompactMessage := {|
  gm_Role := "user"; gm_Sender := "Frost"; gm_SenderID := "10001"; gm_Content := "see: [msg_7] (a)";
  gm_ImageDescription := "cat"; gm_MessageID := "x"; gm_Time := ""; gm_raw := "" |}.

Lemma FormatDisplay_Parse_witness :
  gm_SenderID (@ParseGroupCompactMessage ascii_case (FormatDisplay shuang) None) = "10001" /\
  gm_MessageID (@ParseGroupCompactMessage ascii_case (FormatDisplay shuang) None) = "msg_7".
Proof.
  rewrite (@FormatDisplay_Parse ascii_case ascii_case_laws shuang None).
  - by vm_compute.
  - split; [done|]. split; [right|split; [right|]].
    + split; [split; vm_compute; reflexivity|split; [done|]].
      repeat (apply Forall_cons_2; [apply not_in_bytes; reflexivity|]). by apply Forall_nil_2.
    + split; [split; vm_compute; reflexivity|split; [done|]].
      repeat (apply Forall_cons_2; [apply not_in_bytes; reflexivity|]). by apply Forall_nil_2.
    + split; [split; vm_compute; reflexivity|done].
Defined.

(** A line without a colon keeps the role tag in its content. *)
Example parse_no_colon :
  let m := @ParseGroupCompactMessage ascii_case " [Assistant] hi " (Some " 9 ") in
  (gm_Role m, gm_Content m, gm_MessageID m) = ("assistant", "[Assistant] hi", "9").
Proof. by vm_compute. Qed.
