(* ===== verification/SessionState.v ===== *)
(** The data of a conversation: [SessionContext] of [internal/llm/session.go]
    and the records it holds.

    The fields are grouped into the parts the operations work on: the private
    history, the group compaction state, the bot-loop budget, the background
    tasks (runs, extraction and distillation barriers) and the execution lanes.
    Objects the code shares by pointer (barriers, turns, lanes, skill states)
    live in heaps indexed by a number; the number is the pointer.  The mutexes
    are not modelled: an operation here is what the code does under the lock. *)

From S2P Require Import Prelude GoStrings GroupMessage.

Local Open Scope string_scope.

(** * Chat messages *)

Record ContentPart := { part_Type : string; part_Text : string; part_ImageURL : option string }.

(** [Content any]: a string, content parts, or nothing. *)
Inductive Content :=
  | Text (s : string)
  | Parts (l : list ContentPart)
  | NoContent.

Record ToolCall := { tc_ID : string; tc_Type : string; tc_Name : string; tc_Arguments : string }.

(** [ChatMessage] of [llm] and of [core]: the two structs have the same fields. *)
Record ChatMessage := {
  Role : string;
  MContent : Content;
  ToolCalls : list ToolCall;
  ToolCallID : string;
}.

#[global] Instance ContentPart_eq_dec : EqDecision ContentPart.
Proof. solve_decision. Defined.
#[global] Instance Content_eq_dec : EqDecision Content.
Proof. solve_decision. Defined.
#[global] Instance ToolCall_eq_dec : EqDecision ToolCall.
Proof. solve_decision. Defined.
#[global] Instance ChatMessage_eq_dec : EqDecision ChatMessage.
Proof. solve_decision. Defined.

(** [ChatMessage{Role: role, Content: text}]. *)
Definition text_message (role text : string) : ChatMessage :=
  {| Role := role; MContent := Text text; ToolCalls := []; ToolCallID := "" |}.

(** * Private history *)

Record SummaryGroup := {
  sg_Summary : string;
  sg_MessageIDs : list string;
  sg_StartMessageID : string;
  sg_EndMessageID : string;
  sg_StartIndex : Z;
  sg_EndIndex : Z;
  sg_Messages : list string;
  sg_StructuredMsgs : list GroupCompactMessage;
}.

Record privateCompactInspection := {
  summarySeq : Z;
  ackSeq : Z;
  batch : SummaryGroup;
}.

Record HistoryState := {
  History : list ChatMessage;
  historySeq : list Z;
  nextMsgSeq : Z;
  privateCompacting : bool;
  privateCompact : option privateCompactInspection;
}.

(** * Group compaction *)

Record groupCompactItem := {
  sequence : Z;
  message : GroupCompactMessage;
  staged : bool;
}.

Record GroupCompactSnapshot := {
  snap_Summary : string;
  snap_Messages : list GroupCompactMessage;
  snap_MessageIDs : list string;
  snap_ThroughSequence : Z;
  snap_Generation : Z;
}.

Record committedSourceInfo := {
  src_sequence : Z;
  src_messageIDs : list string;
  src_senderIDs : list string;
}.

Record CompactState := {
  groupCompactSummary : string;
  groupCompactBuffer : list groupCompactItem;
  groupCompactSequence : Z;
  groupCompactGeneration : Z;
  groupSummaryGroups : list SummaryGroup;
  prevGroupCompactSummary : string;
  prevGroupSummaryGroups : list SummaryGroup;
  lastCommittedMessageIDs : list string;
  lastCommittedSenderIDs : list string;
  validCommittedSources : gmap Z committedSourceInfo;
  revokedMessageIDs : gset string;
}.

(** * Background tasks *)

Inductive barrierState := barrierPending | barrierWriting | barrierDone | barrierAborted.

#[global] Instance barrierState_eq_dec : EqDecision barrierState.
Proof. solve_decision. Defined.

(** The fields the two kinds of barrier share.  [done] is the number of the
    barrier's current channel: a channel is closed once it is older than [done],
    or is [done] with [doneClosed] set.  [ctx_err] is [ctx.Err() != nil]. *)
Record Barrier := {
  state : barrierState;
  aborted : bool;
  ctx_err : bool;
  done : nat;
  doneClosed : bool;
}.

Record sessionExtractionBarrier := { xb_epoch : Z; xb : Barrier }.
Record groupDistillationBarrier := { gb_snapshot : GroupCompactSnapshot; gb : Barrier }.

Record TaskState := {
  activeCancel : option Z;
  activeRunID : Z;
  cancelledRuns : gset Z;
  nextExtractionID : Z;
  extractionCancels : gset Z;
  extractionBarriers : gset Z;
  extractions : gmap Z sessionExtractionBarrier;
  nextGroupDistillID : Z;
  groupDistillBarriers : gset Z;
  distillations : gmap Z groupDistillationBarrier;
}.

(** * Bot-loop budget *)

(** [botLoopTail] is the last reserved observation. *)
Record BotState := {
  botLoopTurns : gmap string Z;
  botLoopConfig : string;
  botLoopTail : option nat;
  botLoopEpoch : Z;
}.

(** * Execution lanes *)

Record activeSkill := { Revision : string; Arguments : string }.

Record SessionTurn := {
  t_wait : option Z;
  t_done : bool;
  t_epoch : Z;
  t_lane : option Z;
  t_canceled : bool;
  t_previous : option Z;
  t_inputIndex : nat;
  t_transcriptStart : nat;
  t_durable : string;
  t_messageSeq : Z;
  t_skillState : option Z;
}.

Record executionSequence := {
  tail : option Z;
  active : option Z;
  transcript : list ChatMessage;
  billing : option Z;
  skills : Z;
  proactive : bool;
  messageIDs : gset Z;
  memoryWritten : bool;
  skillInputs : list string;
}.

(** The lanes by key, and the heaps of the objects they point to. *)
Record LaneState := {
  sequences : gmap string Z;
  lanes : gmap Z executionSequence;
  turns : gmap Z SessionTurn;
  skillStates : gmap Z (gmap string activeSkill);
  turnTail : option Z;
  nextObject : Z;
}.

(** * Sessions *)

Record DeliveryFailure := {
  df_Platform : string;
  df_Action : string;
  df_RetCode : Z;
  df_Message : string;
  df_Wording : string;
}.

(** An extraction item: who said what, where. *)
Record PendingExtractionItem := {
  pi_Owner : string;
  pi_OwnerType : string;
  pi_ScopeType : string;
  pi_GroupID : string;
  pi_SpeakerID : string;
  pi_SpeakerName : string;
  pi_Route : string * string;
  pi_Message : ChatMessage;
  pi_MessageID : string;
  pi_ImageDescription : string;
}.

Record Session := {
  ConversationID : string;
  CreatedAt : Z;
  UpdatedAt : Z;
  epoch : Z;
  groupName : string;
  hist : HistoryState;
  activeSkills : gmap string activeSkill;
  compact : CompactState;
  tasks : TaskState;
  bots : BotState;
  lanest : LaneState;
  pendingTurns : list (list PendingExtractionItem);
  extractionThreshold : Z;
  deliveryFailure : option DeliveryFailure;
  lastSystemPrompt : string;
  lastModelName : string;
}.

Definition empty_hist : HistoryState := {|
  History := []; historySeq := []; nextMsgSeq := 0; privateCompacting := false;
  privateCompact := None |}.
Definition empty_compact (summary : string) : CompactState := {|
  groupCompactSummary := summary; groupCompactBuffer := []; groupCompactSequence := 0;
  groupCompactGeneration := 0; groupSummaryGroups := []; prevGroupCompactSummary := "";
  prevGroupSummaryGroups := []; lastCommittedMessageIDs := []; lastCommittedSenderIDs := [];
  validCommittedSources := ∅; revokedMessageIDs := ∅ |}.
Definition empty_tasks : TaskState := {|
  activeCancel := None; activeRunID := 0; cancelledRuns := ∅; nextExtractionID := 0;
  extractionCancels := ∅; extractionBarriers := ∅; extractions := ∅;
  nextGroupDistillID := 0; groupDistillBarriers := ∅; distillations := ∅ |}.
Definition empty_bots : BotState := {|
  botLoopTurns := ∅; botLoopConfig := ""; botLoopTail := None; botLoopEpoch := 0 |}.
Definition empty_lanes : LaneState := {|
  sequences := ∅; lanes := ∅; turns := ∅; skillStates := ∅; turnTail := None; nextObject := 0 |}.

(** The session [GetOrCreate] makes. *)
Definition new_session (id summary gName : string) (now : Z) : Session := {|
  ConversationID := id; CreatedAt := now; UpdatedAt := now; epoch := 1; groupName := gName;
  hist := empty_hist; activeSkills := ∅; compact := empty_compact summary; tasks := empty_tasks;
  bots := empty_bots; lanest := empty_lanes; pendingTurns := []; extractionThreshold := 0;
  deliveryFailure := None; lastSystemPrompt := ""; lastModelName := "" |}.

(** * Field updates *)

Definition set_hist (h : HistoryState) (s : Session) : Session := {|
  ConversationID := ConversationID s; CreatedAt := CreatedAt s; UpdatedAt := UpdatedAt s;
  epoch := epoch s; groupName := groupName s; hist := h; activeSkills := activeSkills s;
  compact := compact s; tasks := tasks s; bots := bots s; lanest := lanest s;
  pendingTurns := pendingTurns s; extractionThreshold := extractionThreshold s;
  deliveryFailure := deliveryFailure s; lastSystemPrompt := lastSystemPrompt s;
  lastModelName := lastModelName s |}.

Definition set_compact (c : CompactState) (s : Session) : Session := {|
  ConversationID := ConversationID s; CreatedAt := CreatedAt s; UpdatedAt := UpdatedAt s;
  epoch := epoch s; groupName := groupName s; hist := hist s; activeSkills := activeSkills s;
  compact := c; tasks := tasks s; bots := bots s; lanest := lanest s;
  pendingTurns := pendingTurns s; extractionThreshold := extractionThreshold s;
  deliveryFailure := deliveryFailure s; lastSystemPrompt := lastSystemPrompt s;
  lastModelName := lastModelName s |}.

Definition set_tasks (t : TaskState) (s : Session) : Session := {|
  ConversationID := ConversationID s; CreatedAt := CreatedAt s; UpdatedAt := UpdatedAt s;
  epoch := epoch s; groupName := groupName s; hist := hist s; activeSkills := activeSkills s;
  compact := compact s; tasks := t; bots := bots s; lanest := lanest s;
  pendingTurns := pendingTurns s; extractionThreshold := extractionThreshold s;
  deliveryFailure := deliveryFailure s; lastSystemPrompt := lastSystemPrompt s;
  lastModelName := lastModelName s |}.

Definition set_bots (b : BotState) (s : Session) : Session := {|
  ConversationID := ConversationID s; CreatedAt := CreatedAt s; UpdatedAt := UpdatedAt s;
  epoch := epoch s; groupName := groupName s; hist := hist s; activeSkills := activeSkills s;
  compact := compact s; tasks := tasks s; bots := b; lanest := lanest s;
  pendingTurns := pendingTurns s; extractionThreshold := extractionThreshold s;
  deliveryFailure := deliveryFailure s; lastSystemPrompt := lastSystemPrompt s;
  lastModelName := lastModelName s |}.

Definition set_lanes (l : LaneState) (s : Session) : Session := {|
  ConversationID := ConversationID s; CreatedAt := CreatedAt s; UpdatedAt := UpdatedAt s;
  epoch := epoch s; groupName := groupName s; hist := hist s; activeSkills := activeSkills s;
  compact := compact s; tasks := tasks s; bots := bots s; lanest := l;
  pendingTurns := pendingTurns s; extractionThreshold := extractionThreshold s;
  deliveryFailure := deliveryFailure s; lastSystemPrompt := lastSystemPrompt s;
  lastModelName := lastModelName s |}.

Definition set_epoch (e : Z) (s : Session) : Session := {|
  ConversationID := ConversationID s; CreatedAt := CreatedAt s; UpdatedAt := UpdatedAt s;
  epoch := e; groupName := groupName s; hist := hist s; activeSkills := activeSkills s;
  compact := compact s; tasks := tasks s; bots := bots s; lanest := lanest s;
  pendingTurns := pendingTurns s; extractionThreshold := extractionThreshold s;
  deliveryFailure := deliveryFailure s; lastSystemPrompt := lastSystemPrompt s;
  lastModelName := lastModelName s |}.

Definition set_pending (p : list (list PendingExtractionItem)) (t : Z) (s : Session) : Session := {|
  ConversationID := ConversationID s; CreatedAt := CreatedAt s; UpdatedAt := UpdatedAt s;
  epoch := epoch s; groupName := groupName s; hist := hist s; activeSkills := activeSkills s;
  compact := compact s; tasks := tasks s; bots := bots s; lanest := lanest s;
  pendingTurns := p; extractionThreshold := t;
  deliveryFailure := deliveryFailure s; lastSystemPrompt := lastSystemPrompt s;
  lastModelName := lastModelName s |}.

Definition set_delivery (f : option DeliveryFailure) (s : Session) : Session := {|
  ConversationID := ConversationID s; CreatedAt := CreatedAt s; UpdatedAt := UpdatedAt s;
  epoch := epoch s; groupName := groupName s; hist := hist s; activeSkills := activeSkills s;
  compact := compact s; tasks := tasks s; bots := bots s; lanest := lanest s;
  pendingTurns := pendingTurns s; extractionThreshold := extractionThreshold s;
  deliveryFailure := f; lastSystemPrompt := lastSystemPrompt s;
  lastModelName := lastModelName s |}.

(** [s.UpdatedAt = time.Now()]. *)
Definition touch (now : Z) (s : Session) : Session := {|
  ConversationID := ConversationID s; CreatedAt := CreatedAt s; UpdatedAt := now;
  epoch := epoch s; groupName := groupName s; hist := hist s; activeSkills := activeSkills s;
  compact := compact s; tasks := tasks s; bots := bots s; lanest := lanest s;
  pendingTurns := pendingTurns s; extractionThreshold := extractionThreshold s;
  deliveryFailure := deliveryFailure s; lastSystemPrompt := lastSystemPrompt s;
  lastModelName := lastModelName s |}.

(** [s.epoch], set to 1 on first use. *)
Definition init_epoch (s : Session) : Session :=
  if (epoch s =? 0)%Z then set_epoch 1 s else s.

Definition Epoch (s : Session) : Z * Session :=
  let s := init_epoch s in (epoch s, s).
