(* ===== verification/History.v ===== *)
(** The private history of a conversation: [internal/llm/session.go] and
    [DropMessage] of [internal/llm/sequence.go].

    Each message of [History] carries a handle in [historySeq], taken from the
    counter [nextMsgSeq].  Handles let a caller drop or replace exactly the
    message it added although other goroutines append, trim and compact the
    same history; the invariant [hist_ok] and the lemmas on [message_of] are
    what makes that correct. *)

From S2P Require Import Prelude GoStrings GroupMessage SessionState.

Local Open Scope string_scope.
Local Open Scope list_scope.

(** * Operations *)

(** [if len(s.historySeq) != len(s.History)]: number the messages again. *)
Definition resync (h : HistoryState) : HistoryState :=
  if (length (historySeq h) =? length (History h))%nat then h else
  let '(ids, next) := alloc (length (History h)) (nextMsgSeq h) in
  {| History := History h; historySeq := ids; nextMsgSeq := next;
     privateCompacting := privateCompacting h; privateCompact := privateCompact h |}.

(** The conversion [core.ChatMessage] to [llm.ChatMessage]: [ToolCallID] is not copied. *)
Definition from_core (msg : ChatMessage) : ChatMessage := {|
  Role := Role msg; MContent := MContent msg; ToolCalls := ToolCalls msg; ToolCallID := "" |}.

Definition push (msg : ChatMessage) (h : HistoryState) : Z * HistoryState :=
  let h := resync h in
  let next := u64_succ (nextMsgSeq h) in
  (next, {| History := History h ++ [msg]; historySeq := historySeq h ++ [next];
            nextMsgSeq := next; privateCompacting := privateCompacting h;
            privateCompact := privateCompact h |}).

Definition addMessageLocked (msg : ChatMessage) (now : Z) (s : Session) : Z * Session :=
  let '(id, h) := push (from_core msg) (hist s) in (id, touch now (set_hist h s)).

Definition AddMessageAtEpoch (msg : ChatMessage) (e now : Z) (s : Session) : Z * Session :=
  if (negb (e =? 0) && negb (epoch s =? e))%Z then (0%Z, s) else addMessageLocked msg now s.

Definition AddMessageTracked (msg : ChatMessage) (now : Z) (s : Session) : Z * Session :=
  AddMessageAtEpoch msg 0 now s.

Definition AddMessage (msg : ChatMessage) (now : Z) (s : Session) : Session :=
  (AddMessageTracked msg now s).2.

(** [Snapshot] and [Messages] copy the messages. *)
Definition Snapshot (s : Session) : list ChatMessage := History (hist s).
Definition Messages (s : Session) : list ChatMessage := History (hist s).

Definition ReplaceMessages (messages : list ChatMessage) (now : Z) (s : Session) : Session :=
  let h := hist s in
  let '(ids, next) := alloc (length messages) (nextMsgSeq h) in
  touch now (set_hist {| History := messages; historySeq := ids; nextMsgSeq := next;
    privateCompacting := privateCompacting h; privateCompact := privateCompact h |} s).

Definition TrimHistory (max now : Z) (s : Session) : Session :=
  let h := hist s in
  if ((max <=? 0) || (Z.of_nat (length (History h)) <=? max))%Z then s else
  let trimmed := lastn (Z.to_nat max) (History h) in
  if (length trimmed <=? length (historySeq h))%nat then
    touch now (set_hist {| History := trimmed; historySeq := lastn (Z.to_nat max) (historySeq h);
      nextMsgSeq := nextMsgSeq h; privateCompacting := privateCompacting h;
      privateCompact := privateCompact h |} s)
  else
    let '(ids, next) := alloc (length trimmed) (nextMsgSeq h) in
    touch now (set_hist {| History := trimmed; historySeq := ids; nextMsgSeq := next;
      privateCompacting := privateCompacting h; privateCompact := privateCompact h |} s).

Definition DropLastMessage (now : Z) (s : Session) : Session :=
  let h := hist s in
  match History h with
  | [] => s
  | _ =>
      let messages := take (length (History h) - 1) (History h) in
      let seq := if (length messages <? length (historySeq h))%nat
                 then take (length messages) (historySeq h) else historySeq h in
      touch now (set_hist {| History := messages; historySeq := seq;
        nextMsgSeq := nextMsgSeq h; privateCompacting := privateCompacting h;
        privateCompact := privateCompact h |} s)
  end.

(** [append(l[:i], l[i+1:]...)]. *)
Definition remove_at {A} (i : nat) (l : list A) : list A := take i l ++ drop (S i) l.

Definition drop_handle (id : Z) (h : HistoryState) : HistoryState :=
  match find_index (fun seq => seq =? id)%Z (historySeq h) with
  | Some i =>
      {| History := remove_at i (History h); historySeq := remove_at i (historySeq h);
         nextMsgSeq := nextMsgSeq h; privateCompacting := privateCompacting h;
         privateCompact := privateCompact h |}
  | None => h
  end.

Definition DropMessage (id : Z) (s : Session) : Session := set_hist (drop_handle id (hist s)) s.

(** ** Private compaction *)

Record PrivateCompactSnapshot := {
  ps_Messages : list ChatMessage;
  ps_Count : Z;
  ps_Epoch : Z;
  ps_LastSeq : Z;
}.

Inductive compact_error := ErrAlreadyCompacting | ErrNothingToCompact.

Definition set_compacting (b : bool) (h : HistoryState) : HistoryState := {|
  History := History h; historySeq := historySeq h; nextMsgSeq := nextMsgSeq h;
  privateCompacting := b; privateCompact := privateCompact h |}.

Definition SnapshotPrivateCompact (s : Session)
    : res compact_error PrivateCompactSnapshot * Session :=
  let h := hist s in
  if privateCompacting h then (Err ErrAlreadyCompacting, s) else
  if (length (History h) =? 0)%nat then (Err ErrNothingToCompact, s) else
  let h := set_compacting true (resync h) in
  (Ok {| ps_Messages := History h; ps_Count := Z.of_nat (length (History h));
         ps_Epoch := epoch s; ps_LastSeq := default 0%Z (last (historySeq h)) |},
   set_hist h s).

Section sprint.
(** [fmt.Sprint] of content parts, which prints the addresses of their images. *)
Context (sprint_parts : list ContentPart -> string).

Definition Sprint (c : Content) : string :=
  match c with Text s => s | Parts l => sprint_parts l | NoContent => "<nil>" end.

Definition historyInspectionMessage (msg : ChatMessage) : GroupCompactMessage := {|
  gm_Role := Role msg; gm_Sender := ""; gm_SenderID := ""; gm_Content := Sprint (MContent msg);
  gm_ImageDescription := ""; gm_MessageID := ""; gm_Time := ""; gm_raw := "" |}.

Definition summary_message (summary : string) : ChatMessage :=
  text_message "user" ("[先前对话总结] " +:+ summary).
Definition ack_message : ChatMessage :=
  text_message "assistant" "了解，我已记住上述先前的对话背景。".

Definition CommitPrivateCompact (snapshot : PrivateCompactSnapshot) (summary : string) (now : Z)
    (s : Session) : bool * Session :=
  let summary := TrimSpace summary in
  if negb (epoch s =? ps_Epoch snapshot)%Z
  then (false, set_hist (set_compacting false (hist s)) s) else
  if decide (summary = "") then (false, set_hist (set_compacting false (hist s)) s) else
  let h := resync (hist s) in
  let remaining := map snd (filter (fun p => (ps_LastSeq snapshot < p.1)%Z)
                              (zip (historySeq h) (History h))) in
  let newHistory := summary_message summary :: ack_message :: remaining in
  let '(newSeq, next) := alloc (length newHistory) (nextMsgSeq h) in
  let msgs := map historyInspectionMessage (ps_Messages snapshot) in
  let batch := {| sg_Summary := summary; sg_MessageIDs := []; sg_StartMessageID := "";
    sg_EndMessageID := ""; sg_StartIndex := 0;
    sg_EndIndex := Z.of_nat (length (ps_Messages snapshot)) - 1;
    sg_Messages := map FormatDisplay msgs; sg_StructuredMsgs := msgs |} in
  (true, touch now (set_hist {|
     History := newHistory; historySeq := newSeq; nextMsgSeq := next; privateCompacting := false;
     privateCompact := Some {| summarySeq := nth 0 newSeq 0%Z; ackSeq := nth 1 newSeq 0%Z;
                               batch := batch |} |} s)).

Definition hasPrivateCompactLocked (h : HistoryState) : option privateCompactInspection :=
  match privateCompact h with
  | Some c =>
      if (length (historySeq h) =? length (History h))%nat
         && contains (summarySeq c) (historySeq h) then Some c else None
  | None => None
  end.

Definition PrivateRunningSummary (s : Session) : string :=
  match hasPrivateCompactLocked (hist s) with
  | Some c => sg_Summary (batch c)
  | None => ""
  end.

Record GroupContextSnapshot := {
  ctx_RunningSummary : string;
  ctx_RecentMessages : list string;
  ctx_RecentStructuredMessages : list GroupCompactMessage;
  ctx_SummaryGroups : list SummaryGroup;
}.

Definition SnapshotPrivateContext (limit : Z) (s : Session)
    : GroupContextSnapshot * list ChatMessage :=
  let h := hist s in
  let compacted := hasPrivateCompactLocked h in
  let visible := match compacted with
    | Some c => map snd (filter (fun p => p.1 <> summarySeq c /\ p.1 <> ackSeq c)
                           (zip (historySeq h) (History h)))
    | None => History h
    end in
  let msgs := map historyInspectionMessage visible in
  let recent := if ((0 <? limit) && (limit <? Z.of_nat (length msgs)))%Z
                then lastn (Z.to_nat limit) msgs else msgs in
  ({| ctx_RunningSummary := match compacted with Some c => sg_Summary (batch c) | None => "" end;
      ctx_RecentMessages := map FormatDisplay recent;
      ctx_RecentStructuredMessages := recent;
      ctx_SummaryGroups := match compacted with Some c => [batch c] | None => [] end |},
   History h).
End sprint.

Definition CancelPrivateCompact (s : Session) : Session :=
  set_hist (set_compacting false (hist s)) s.
Definition IsPrivateCompacting (s : Session) : bool := privateCompacting (hist s).

(** * The invariant *)

(** One handle per message, increasing, none above the counter. *)
Definition hist_ok (h : HistoryState) : Prop :=
  length (historySeq h) = length (History h) /\
  handles 0 (historySeq h) (nextMsgSeq h).

(** The message a handle names. *)
Definition message_of (h : HistoryState) (id : Z) : option ChatMessage :=
  i ← find_index (fun seq => seq =? id)%Z (historySeq h); History h !! i.

Section handles_of_history.
Local Open Scope Z_scope.
Implicit Types h : HistoryState.

Lemma resync_ok h : hist_ok h -> resync h = h.
Proof. intros [Hl _]. unfold resync. by rewrite Hl, Nat.eqb_refl. Qed.

Lemma hist_ok_next h : hist_ok h -> 0 <= nextMsgSeq h.
Proof. intros [_ Hh]. by eapply handles_bounds. Qed.

(** With room for [n] more handles before the counter wraps. *)
Definition room (n : nat) (h : HistoryState) : Prop := nextMsgSeq h + Z.of_nat n < u64_max.

Lemma push_ok msg h : hist_ok h -> room 1 h ->
  push msg h = (nextMsgSeq h + 1,
    {| History := History h ++ [msg]; historySeq := historySeq h ++ [nextMsgSeq h + 1];
       nextMsgSeq := nextMsgSeq h + 1; privateCompacting := privateCompacting h;
       privateCompact := privateCompact h |}) /\ hist_ok (push msg h).2.
Proof.
  intros Hok Hr. pose proof (hist_ok_next h Hok). unfold room in Hr. unfold push.
  rewrite resync_ok, u64_succ_small by (done || lia). split; [done|].
  destruct Hok as [Hl Hh]. split; simpl; [rewrite !length_app; simpl; lia|].
  eapply handles_snoc; [done|lia].
Qed.

Lemma sublist_handles h ms seq :
  hist_ok h -> seq `sublist_of` historySeq h -> length seq = length ms ->
  hist_ok {| History := ms; historySeq := seq; nextMsgSeq := nextMsgSeq h;
             privateCompacting := privateCompacting h; privateCompact := privateCompact h |}.
Proof. intros [_ Hh] Hs Hl. split; simpl; [done|]. by eapply handles_sublist. Qed.

Lemma alloc_ok h ms c p : 0 <= nextMsgSeq h -> room (length ms) h ->
  hist_ok {| History := ms; historySeq := (alloc (length ms) (nextMsgSeq h)).1;
             nextMsgSeq := (alloc (length ms) (nextMsgSeq h)).2;
             privateCompacting := c; privateCompact := p |}.
Proof.
  intros Hn Hr. split; simpl; [apply alloc_length|].
  destruct (alloc_handles (length ms) (nextMsgSeq h)) as [Ha _]; [done..|].
  by eapply handles_lower.
Qed.

Lemma remove_at_sublist {A} i (l : list A) : remove_at i l `sublist_of` l.
Proof.
  unfold remove_at. rewrite <- (take_drop i l) at 3. apply sublist_app; [done|].
  rewrite <- (Nat.add_1_r i), <- drop_drop. apply sublist_drop.
Qed.

Lemma drop_handle_ok id h : hist_ok h -> hist_ok (drop_handle id h).
Proof.
  intros Hok. unfold drop_handle. destruct (find_index _ _) as [i|] eqn:E; [|done].
  apply sublist_handles; [done|apply remove_at_sublist|].
  unfold remove_at. destruct Hok as [Hl _]. rewrite !length_app, !length_take, !length_drop. lia.
Qed.
End handles_of_history.

(** * Handles never name another message *)

Definition numbered (h : HistoryState) : list (Z * ChatMessage) := zip (historySeq h) (History h).

Lemma message_of_spec h id m : hist_ok h -> message_of h id = Some m <-> (id, m) ∈ numbered h.
Proof.
  intros [Hl Hh]. apply handles_NoDup in Hh. unfold message_of, numbered.
  rewrite bind_Some, elem_of_lookup_zip_with. split.
  - intros (i & (x & Hx & Hp & _)%find_index_Some & Hm). apply Z.eqb_eq in Hp as ->. eauto 10.
  - intros (i & x & y & [= -> ->] & Hx & Hy). exists i. split; [|done].
    apply find_index_Some. exists x. split; [done|split; [apply Z.eqb_refl|]].
    intros j y' Hj Hy'. apply Z.eqb_neq. intros ->.
    assert (j = i) by (by eapply NoDup_lookup). lia.
Qed.

(** [h'] comes from [h]: every message of [h'] whose handle [h] could already
    have given out is the message [h] gave it to. *)
Definition evolves (h h' : HistoryState) : Prop :=
  (nextMsgSeq h <= nextMsgSeq h')%Z /\
  forall p, p ∈ numbered h' -> (p.1 <= nextMsgSeq h)%Z -> p ∈ numbered h.

#[global] Instance evolves_preorder : PreOrder evolves.
Proof.
  split.
  - split; [lia|auto].
  - intros h1 h2 h3 [H1 H1'] [H2 H2']. split; [lia|]. intros p Hp Hle.
    apply H1'; [apply H2'; [done|lia]|done].
Qed.

Lemma evolves_sublist h h' :
  nextMsgSeq h' = nextMsgSeq h -> numbered h' `sublist_of` numbered h -> evolves h h'.
Proof.
  intros Hn Hs. split; [lia|]. intros p Hp _. by eapply elem_of_sublist.
Qed.

(** Fresh handles say nothing about old messages. *)
Lemma evolves_alloc h ms c p :
  (0 <= nextMsgSeq h)%Z -> room (length ms) h ->
  evolves h {| History := ms; historySeq := (alloc (length ms) (nextMsgSeq h)).1;
               nextMsgSeq := (alloc (length ms) (nextMsgSeq h)).2;
               privateCompacting := c; privateCompact := p |}.
Proof.
  intros Hn Hr. destruct (alloc_handles (length ms) (nextMsgSeq h)) as [Ha Ha2]; [done..|].
  split; simpl; [lia|]. intros [id m] Hp Hle. simpl in *.
  apply elem_of_zip_l in Hp. pose proof (handles_elem _ _ _ _ Ha Hp). lia.
Qed.

Lemma evolves_push msg h : hist_ok h -> room 1 h -> evolves h (push msg h).2.
Proof.
  intros Hok Hr. destruct (push_ok msg h Hok Hr) as [-> _]. split; simpl; [lia|].
  intros [id m]. unfold numbered; simpl. destruct Hok as [Hl _].
  rewrite zip_with_app by done. rewrite elem_of_app. simpl.
  intros [?|[= -> ->]%list_elem_of_singleton]; [done|]. simpl. lia.
Qed.

(** ** Sequences of operations *)

Inductive hist_op :=
  | HAdd (msg : ChatMessage) (e now : Z)
  | HReplace (messages : list ChatMessage) (now : Z)
  | HTrim (max now : Z)
  | HDropLast (now : Z)
  | HDrop (id : Z)
  | HSnapshotCompact
  | HCommitCompact (snapshot : PrivateCompactSnapshot) (summary : string) (now : Z)
  | HCancelCompact.

Section runs.
Context (sprint_parts : list ContentPart -> string).

Definition hist_step (s : Session) (o : hist_op) : Session :=
  match o with
  | HAdd msg e now => (AddMessageAtEpoch msg e now s).2
  | HReplace ms now => ReplaceMessages ms now s
  | HTrim max now => TrimHistory max now s
  | HDropLast now => DropLastMessage now s
  | HDrop id => DropMessage id s
  | HSnapshotCompact => (SnapshotPrivateCompact s).2
  | HCommitCompact snap summary now => (CommitPrivateCompact sprint_parts snap summary now s).2
  | HCancelCompact => CancelPrivateCompact s
  end.

Definition hist_run (s : Session) (ops : list hist_op) : Session := fold_left hist_step ops s.

(** How many handles an operation may take. *)
Definition cost (s : Session) (o : hist_op) : nat :=
  match o with
  | HAdd _ _ _ => 1
  | HReplace ms _ => length ms
  | HCommitCompact _ _ _ => 2 + length (History (hist s))
  | _ => 0
  end.

(** The handle counter does not wrap during the run. *)
Fixpoint no_wrap (s : Session) (ops : list hist_op) : Prop :=
  match ops with
  | [] => True
  | o :: ops => room (cost s o) (hist s) /\ no_wrap (hist_step s o) ops
  end.

Lemma evolves_take h n :
  hist_ok h -> hist_ok {| History := take n (History h); historySeq := take n (historySeq h);
    nextMsgSeq := nextMsgSeq h; privateCompacting := privateCompacting h;
    privateCompact := privateCompact h |} /\
  evolves h {| History := take n (History h); historySeq := take n (historySeq h);
    nextMsgSeq := nextMsgSeq h; privateCompacting := privateCompacting h;
    privateCompact := privateCompact h |}.
Proof.
  intros Hok. split.
  - apply sublist_handles; [done|apply sublist_take|]. destruct Hok as [Hl _].
    rewrite !length_take. lia.
  - apply evolves_sublist; [done|]. unfold numbered; simpl. rewrite <- zip_with_take.
    apply sublist_take.
Qed.

Lemma evolves_drop_handle id h : hist_ok h -> evolves h (drop_handle id h).
Proof.
  intros [Hl _]. apply evolves_sublist; unfold drop_handle.
  - by destruct (find_index _ _).
  - destruct (find_index _ _) as [i|]; [|done]. unfold numbered; simpl. unfold remove_at.
    rewrite zip_with_app by (rewrite !length_take; lia).
    rewrite <- zip_with_take, <- zip_with_drop. apply remove_at_sublist.
Qed.

Lemma hist_step_ok s o :
  hist_ok (hist s) -> room (cost s o) (hist s) ->
  hist_ok (hist (hist_step s o)) /\ evolves (hist s) (hist (hist_step s o)).
Proof.
  intros Hok Hr. pose proof (hist_ok_next _ Hok) as Hn.
  destruct o as [msg e now|ms now|max now|now|id| |snap summary now|]; simpl in *.
  - unfold AddMessageAtEpoch, addMessageLocked. case_match; [done|].
    pose proof (push_ok (from_core msg) (hist s) Hok Hr) as [_ Hp].
    pose proof (evolves_push (from_core msg) (hist s) Hok Hr).
    by destruct (push (from_core msg) (hist s)).
  - unfold ReplaceMessages.
    pose proof (alloc_ok (hist s) ms (privateCompacting (hist s)) (privateCompact (hist s)) Hn Hr).
    pose proof (evolves_alloc (hist s) ms (privateCompacting (hist s)) (privateCompact (hist s)) Hn Hr).
    by destruct (alloc _ _).
  - unfold TrimHistory. case_match eqn:Hg; [done|]. boolp.
    destruct Hok as [Hl Hh]. rewrite (proj2 (Nat.leb_le _ _)) by (rewrite length_lastn; lia). simpl.
    split.
    + apply (sublist_handles (hist s)); [done|by apply sublist_drop|rewrite !length_lastn; lia].
    + apply evolves_sublist; [done|]. unfold numbered, lastn; simpl. rewrite Hl, <- zip_with_drop.
      apply sublist_drop.
  - unfold DropLastMessage. destruct (History (hist s)) as [|m ms] eqn:E; [done|].
    rewrite <- E. destruct Hok as [Hl Hh].
    rewrite length_take, (proj2 (Nat.ltb_lt _ _)) by (rewrite Hl, E; simpl; lia). simpl.
    replace ((length (History (hist s)) - 1) `min` length (History (hist s)))
      with (length (History (hist s)) - 1) by lia. by apply evolves_take.
  - split; [by apply drop_handle_ok|by apply evolves_drop_handle].
  - unfold SnapshotPrivateCompact. repeat case_match; try done; simpl.
    all: rewrite resync_ok by done; by destruct Hok.
  - unfold CommitPrivateCompact. case_match; [done|]. case_decide; [done|].
    rewrite resync_ok by done.
    set (ms := summary_message _ :: ack_message :: _).
    assert (room (length ms) (hist s)) as Hr'.
    { unfold room in *. subst ms. cbn [length]. rewrite length_map.
      pose proof (length_filter (fun p => (ps_LastSeq snap < p.1)%Z)
        (zip (historySeq (hist s)) (History (hist s)))) as Hf.
      rewrite length_zip_with in Hf. lia. }
    destruct (alloc (length ms) (nextMsgSeq (hist s))) as [ids next] eqn:Ea. simpl.
    split.
    + match goal with |- hist_ok {| History := _; historySeq := _; nextMsgSeq := _;
        privateCompacting := ?c; privateCompact := ?p |} =>
        pose proof (alloc_ok (hist s) ms c p Hn Hr') as Ho end. by rewrite Ea in Ho.
    + match goal with |- evolves _ {| History := _; historySeq := _; nextMsgSeq := _;
        privateCompacting := ?c; privateCompact := ?p |} =>
        pose proof (evolves_alloc (hist s) ms c p Hn Hr') as Ho end. by rewrite Ea in Ho.
  - done.
Qed.

Lemma hist_run_ok s ops :
  hist_ok (hist s) -> no_wrap s ops ->
  hist_ok (hist (hist_run s ops)) /\ evolves (hist s) (hist (hist_run s ops)).
Proof.
  revert s; induction ops as [|o ops IH]; intros s Hok; [done|]. intros [Hr Hw].
  destruct (hist_step_ok s o Hok Hr) as [Hok' He].
  destruct (IH _ Hok' Hw) as [? He']. split; [done|]. by etransitivity.
Qed.
End runs.

(** * What callers rely on *)

Lemma numbered_snd h : hist_ok h -> map snd (numbered h) = History h.
Proof. intros [Hl _]. apply snd_zip. lia. Qed.

(** Dropping a handle removes its message and nothing else. *)
Lemma drop_handle_spec h id :
  hist_ok h ->
  (message_of h id = None /\ drop_handle id h = h) \/
  exists l1 m l2, message_of h id = Some m /\ numbered h = l1 ++ (id, m) :: l2 /\
    numbered (drop_handle id h) = l1 ++ l2.
Proof.
  intros Hok. unfold message_of, drop_handle.
  destruct (find_index _ _) as [i|] eqn:E; [right|by left].
  apply find_index_Some in E as (x & Hx & Hp & _). apply Z.eqb_eq in Hp as ->.
  destruct Hok as [Hl _].
  destruct (lookup_lt_is_Some_2 (History h) i) as [m Hm].
  { rewrite <- Hl. by eapply lookup_lt_Some. }
  exists (take i (numbered h)), m, (drop (S i) (numbered h)). split; [done|].
  unfold numbered. split.
  - rewrite <- (take_drop i (zip _ _)) at 1. f_equal.
    apply drop_S. by apply lookup_zip_Some.
  - simpl. unfold remove_at. rewrite zip_with_app by (rewrite !length_take; lia).
    by rewrite <- zip_with_take, <- zip_with_drop.
Qed.

Section properties.
Context (sprint_parts : list ContentPart -> string).
Local Abbreviation run := (hist_run sprint_parts).

(** The history keeps one handle per message, strictly increasing, and a
    handle never changes its meaning: after any sequence of additions,
    replacements, trims, drops and private compactions, a handle given out
    before names the message it named before, or nothing. *)
Theorem history_handles s ops :
  hist_ok (hist s) -> no_wrap sprint_parts s ops ->
  hist_ok (hist (run s ops)) /\
  forall id m, (id <= nextMsgSeq (hist s))%Z ->
    message_of (hist (run s ops)) id = Some m -> message_of (hist s) id = Some m.
Proof.
  intros Hok Hw. destruct (hist_run_ok sprint_parts s ops Hok Hw) as [Hok' [_ He]].
  split; [done|]. intros id m Hle. rewrite !message_of_spec by done. intros Hin.
  by apply (He (id, m)).
Qed.

(** A caller that added a message can take it back: whatever other goroutines
    did to the history in between, [DropMessage] with the handle that
    [AddMessageAtEpoch] returned removes exactly that message, or nothing if
    it is already gone. *)
Theorem AddMessage_DropMessage s msg e now id s1 ops :
  hist_ok (hist s) -> room 1 (hist s) ->
  AddMessageAtEpoch msg e now s = (id, s1) -> id <> 0%Z ->
  no_wrap sprint_parts s1 ops ->
  let s2 := run s1 ops in
  History (hist (DropMessage id s2)) = History (hist s2) \/
  exists l1 l2, History (hist s2) = l1 ++ from_core msg :: l2 /\
    History (hist (DropMessage id s2)) = l1 ++ l2.
Proof.
  intros Hok Hr HA Hid Hw s2. unfold AddMessageAtEpoch in HA. case_match; [congruence|].
  unfold addMessageLocked in HA.
  destruct (push_ok (from_core msg) (hist s) Hok Hr) as [Hp Hok1]. rewrite Hp in *.
  injection HA as <- <-.
  match type of Hw with no_wrap _ ?s _ => set (s1 := s) in * end.
  assert (hist_ok (hist s1)) as Hoks1 by exact Hok1.
  destruct (hist_run_ok sprint_parts s1 ops Hoks1 Hw) as [Hok2 [_ He]]. fold s2 in Hok2, He.
  destruct (drop_handle_spec (hist s2) (nextMsgSeq (hist s) + 1) Hok2)
    as [[_ E]|(l1 & m & l2 & Hm & E1 & E2)]; [left; by unfold DropMessage; simpl; rewrite E|right].
  assert (m = from_core msg) as ->.
  { apply message_of_spec in Hm; [|done]. apply (He (_, _)) in Hm; [|simpl; lia].
    subst s1. unfold numbered in Hm. simpl in Hm. destruct Hok as [Hl Hh].
    rewrite zip_with_app in Hm by done. apply elem_of_app in Hm as [Hm|Hm].
    - apply elem_of_zip_l in Hm. pose proof (handles_elem _ _ _ _ Hh Hm). lia.
    - apply list_elem_of_singleton in Hm. congruence. }
  exists (map snd l1), (map snd l2). split.
  - rewrite <- (numbered_snd (hist s2)), E1, map_app by done. done.
  - unfold DropMessage; simpl. rewrite <- (numbered_snd (drop_handle _ (hist s2)))
      by by apply drop_handle_ok. by rewrite E2, map_app.
Qed.

(** What a commit keeps: the messages whose handles are past the snapshot. *)
Definition newer (last : Z) (h : HistoryState) : list ChatMessage :=
  map snd (filter (fun p => (last < p.1)%Z) (numbered h)).

Lemma handles_split lo l hi t :
  handles lo l hi -> forall ms : list ChatMessage, length l = length ms ->
  map snd (zip l ms) =
  map snd (filter (fun p => (p.1 <= t)%Z) (zip l ms)) ++
  map snd (filter (fun p => (t < p.1)%Z) (zip l ms)).
Proof.
  revert lo; induction l as [|x l IH]; intros lo Hl [|m ms] Hlen; try done.
  destruct Hl as [Hx Hl]. simpl in *. rewrite !filter_cons. simpl.
  destruct (decide (x <= t)%Z).
  - rewrite (decide_False (P := (t < x)%Z)) by lia. simpl. f_equal. apply (IH x); [done|lia].
  - rewrite (decide_True (P := (t < x)%Z)) by lia. simpl.
    replace (filter (fun p => (p.1 <= t)%Z) (zip l ms)) with (@nil (Z * ChatMessage)).
    + simpl. f_equal. f_equal. symmetry. apply filter_id, Forall_forall.
      intros [y m'] Hy%elem_of_zip_l. pose proof (handles_elem _ _ _ _ Hl Hy). simpl. lia.
    + symmetry. apply filter_none, Forall_forall.
      intros [y m'] Hy%elem_of_zip_l. pose proof (handles_elem _ _ _ _ Hl Hy). simpl. lia.
Qed.

Lemma hist_run_epoch s ops : epoch (run s ops) = epoch s.
Proof.
  revert s; induction ops as [|o ops IH]; intros s; [done|]. simpl. rewrite IH. clear IH.
  destruct o; simpl; unfold AddMessageAtEpoch, addMessageLocked, ReplaceMessages, TrimHistory,
    DropLastMessage, SnapshotPrivateCompact, CommitPrivateCompact;
    repeat (case_match; simpl; try done); done.
Qed.

(** What a commit does when the epoch still matches. *)
Lemma CommitPrivateCompact_ok snap summary now s :
  hist_ok (hist s) -> epoch s = ps_Epoch snap -> TrimSpace summary <> "" ->
  exists s', CommitPrivateCompact sprint_parts snap summary now s = (true, s') /\
    History (hist s') = summary_message (TrimSpace summary) :: ack_message
                        :: newer (ps_LastSeq snap) (hist s) /\
    (historySeq (hist s'), nextMsgSeq (hist s'))
      = alloc (length (History (hist s'))) (nextMsgSeq (hist s)) /\
    privateCompacting (hist s') = false /\
    exists b, privateCompact (hist s') =
        Some {| summarySeq := nth 0 (historySeq (hist s')) 0%Z;
                ackSeq := nth 1 (historySeq (hist s')) 0%Z; batch := b |} /\
      sg_Summary b = TrimSpace summary /\
      sg_StructuredMsgs b = map (historyInspectionMessage sprint_parts) (ps_Messages snap).
Proof.
  intros Hok He Hs. unfold CommitPrivateCompact.
  rewrite He, Z.eqb_refl. simpl. rewrite decide_False by done. rewrite resync_ok by done.
  match goal with |- context [alloc ?n ?k] => destruct (alloc n k) as [ids next] eqn:Ea end.
  eexists. split; [done|]. simpl. split; [done|]. split; [|split; [done|eauto]].
  by rewrite Ea.
Qed.

(** A private compaction loses no message.  Between the snapshot and the
    commit the history may be appended to, trimmed, replaced and dropped from;
    at the commit it splits into messages that were in the snapshot and
    messages that arrived later, the first are replaced by the summary and its
    acknowledgement, and the second all stay, in order; the lock is released. *)
Theorem private_compaction s snap s1 ops summary now :
  hist_ok (hist s) -> SnapshotPrivateCompact s = (Ok snap, s1) ->
  no_wrap sprint_parts s1 ops -> TrimSpace summary <> "" ->
  let s2 := run s1 ops in
  exists old s3,
    History (hist s2) = old ++ newer (ps_LastSeq snap) (hist s2) /\
    Forall (fun m => m ∈ ps_Messages snap) old /\
    CommitPrivateCompact sprint_parts snap summary now s2 = (true, s3) /\
    History (hist s3) = summary_message (TrimSpace summary) :: ack_message
                        :: newer (ps_LastSeq snap) (hist s2) /\
    privateCompacting (hist s3) = false.
Proof.
  intros Hok HS Hw Hsum s2. unfold SnapshotPrivateCompact in HS.
  do 2 (case_match; [done|]). rewrite resync_ok in HS by done. injection HS as <- <-.
  match type of Hw with no_wrap _ ?s _ => set (s1 := s) in * end.
  assert (hist_ok (hist s1)) as Hok1 by exact Hok.
  destruct (hist_run_ok sprint_parts s1 ops Hok1 Hw) as [Hok2 [_ He]]. fold s2 in Hok2, He.
  match goal with |- context [CommitPrivateCompact _ ?sn] => set (snap := sn) end.
  destruct (CommitPrivateCompact_ok snap summary now s2) as (s3 & HC & HH & _ & Hc & _).
  { done. } { subst s2. by rewrite hist_run_epoch. } { done. }
  exists (map snd (filter (fun p => (p.1 <= ps_LastSeq snap)%Z) (numbered (hist s2)))), s3.
  split; [|split; [|done]].
  - destruct Hok2 as [Hl Hh]. rewrite <- (numbered_snd (hist s2)) by done.
    by apply (handles_split 0 _ (nextMsgSeq (hist s2))).
  - apply Forall_forall. intros m Hm. apply list_elem_of_fmap in Hm as (p & -> & Hp).
    apply list_elem_of_filter in Hp as [Hle Hp]. apply He in Hp.
    + destruct p as [x m]. by apply elem_of_zip_r in Hp.
    + simpl in Hle. destruct Hok as [Hl Hh]. etransitivity; [exact Hle|]. simpl.
      destruct (last (historySeq (hist s))) as [x|] eqn:Hx; simpl.
      * apply last_Some_elem_of in Hx. by apply (handles_elem _ _ _ _ Hh) in Hx as [_ ?].
      * by eapply handles_bounds.
Qed.

(** Appending a list of messages, without replacing anything. *)
Lemma hist_run_adds s msgs now :
  hist_ok (hist s) -> room (length msgs) (hist s) ->
  let s' := run s (map (fun m => HAdd m 0 now) msgs) in
  hist_ok (hist s') /\ History (hist s') = History (hist s) ++ map from_core msgs /\
  privateCompact (hist s') = privateCompact (hist s) /\
  exists ids, historySeq (hist s') = historySeq (hist s) ++ ids /\
    Forall (fun x => nextMsgSeq (hist s) < x)%Z ids.
Proof.
  revert s; induction msgs as [|m msgs IH]; intros s Hok Hr; simpl.
  { split; [done|]. rewrite app_nil_r. split; [done|]. split; [done|]. exists [].
    by rewrite app_nil_r. }
  assert (room 1 (hist s)) as Hr1 by (unfold room in *; simpl in *; lia).
  destruct (push_ok (from_core m) (hist s) Hok Hr1) as [Hp Hok1].
  set (s1 := (AddMessageAtEpoch m 0 now s).2).
  assert (hist s1 = (push (from_core m) (hist s)).2) as E1.
  { subst s1. unfold AddMessageAtEpoch, addMessageLocked. cbn [negb andb Z.eqb].
    by destruct (push _ _). }
  rewrite Hp in Hok1, E1. cbn [snd] in Hok1, E1.
  change (run _ _) with (run s1 (map (fun m => HAdd m 0 now) msgs)). clearbody s1.
  destruct (IH s1) as (Hok' & HH & Hc & ids & Hs & Hf); [by rewrite E1|rewrite E1; unfold room in *; simpl in *; lia|].
  split; [done|]. rewrite HH, Hc, Hs, E1. simpl. rewrite <- !app_assoc. split; [done|].
  split; [done|]. exists ((nextMsgSeq (hist s) + 1)%Z :: ids). split; [done|].
  constructor; [lia|]. rewrite E1 in Hf. simpl in Hf. eapply Forall_impl; [done|]. simpl. lia.
Qed.

(** After a private compaction the inspection view shows the summary once
    and every message that is really part of the conversation: the injected
    summary and acknowledgement are hidden by their handles, so that user
    messages with the same text, which may arrive later, are still shown. *)
Theorem private_inspection snap summary now s s' msgs :
  hist_ok (hist s) -> room (2 + length (History (hist s)) + length msgs) (hist s) ->
  CommitPrivateCompact sprint_parts snap summary now s = (true, s') ->
  let s2 := run s' (map (fun m => HAdd m 0 now) msgs) in
  PrivateRunningSummary s2 = TrimSpace summary /\
  ctx_RunningSummary (SnapshotPrivateContext sprint_parts 0 s2).1 = TrimSpace summary /\
  ctx_RecentStructuredMessages (SnapshotPrivateContext sprint_parts 0 s2).1 =
    map (historyInspectionMessage sprint_parts)
      (newer (ps_LastSeq snap) (hist s) ++ map from_core msgs) /\
  (SnapshotPrivateContext sprint_parts 0 s2).2 = History (hist s2).
Proof.
  intros Hok Hr HC s2.
  assert (epoch s = ps_Epoch snap /\ TrimSpace summary <> "") as [He Hs].
  { unfold CommitPrivateCompact in HC. case_match eqn:E; [done|]. boolp. by case_decide. }
  destruct (CommitPrivateCompact_ok snap summary now s Hok He Hs)
    as (s'' & HC' & HH & Hseq & _ & b & Hb & Hbs & _).
  rewrite HC in HC'. injection HC' as <-.
  assert (length (newer (ps_LastSeq snap) (hist s)) <= length (History (hist s))) as Hlen.
  { unfold newer, numbered. rewrite length_map.
    etransitivity; [apply length_filter|]. rewrite length_zip_with. lia. }
  assert (hist_ok (hist s') /\ room (length msgs) (hist s')) as [Hok' Hr'].
  { destruct (hist_step_ok sprint_parts s (HCommitCompact snap summary now) Hok) as [H1 _].
    { unfold room in *. simpl. lia. }
    simpl in H1. rewrite HC in H1. split; [done|].
    destruct (alloc_handles (length (History (hist s'))) (nextMsgSeq (hist s))) as [_ Hn].
    { by apply hist_ok_next. }
    { rewrite HH. unfold room in Hr. cbn [length]. lia. }
    rewrite <- Hseq in Hn. cbn [snd] in Hn. unfold room in *. rewrite Hn, HH. cbn [length]. lia. }
  destruct (hist_run_adds s' msgs now Hok' Hr') as (Hok2 & HH2 & Hc2 & ids2 & Hseq2 & _).
  fold s2 in Hok2, HH2, Hc2, Hseq2. clearbody s2.
  assert (length (historySeq (hist s')) = length (History (hist s'))) as Hl' by apply Hok'.
  destruct (historySeq (hist s')) as [|x [|y rest]]; rewrite HH in Hl'; try done.
  rewrite Hb in Hc2. cbn [nth] in Hc2. destruct Hok2 as [Hl2 Hh2].
  assert (hasPrivateCompactLocked (hist s2)
          = Some {| summarySeq := x; ackSeq := y; batch := b |}) as Hhas.
  { unfold hasPrivateCompactLocked. rewrite Hc2, Hl2, Nat.eqb_refl. simpl.
    unfold contains. rewrite bool_decide_true; [done|]. rewrite Hseq2. by left. }
  unfold PrivateRunningSummary, SnapshotPrivateContext. rewrite Hhas. simpl.
  split; [done|]. split; [done|]. split; [|done].
  f_equal. rewrite Hseq2 in *. rewrite HH2 in *. rewrite HH in *. simpl in *.
  destruct Hh2 as (Hx & Hy & Hh2). rewrite !filter_cons. simpl.
  rewrite decide_False, decide_False by lia. rewrite filter_id.
  - apply snd_zip. lia.
  - apply Forall_forall. intros [z m] Hz%elem_of_zip_l.
    pose proof (handles_elem _ _ _ _ Hh2 Hz). simpl. lia.
Qed.
End properties.

(** * Witnesses *)

Definition hi (t : string) : ChatMessage := text_message "user" t.
Definition session0 : Session := AddMessage (hi "b") 2 (AddMessage (hi "a") 1 (new_session "private:1" "" "" 0)).
Definition no_sprint (_ : list ContentPart) : string := "".

Lemma session0_ok : hist_ok (hist session0).
Proof. by vm_compute. Qed.

Lemma history_handles_witness :
  message_of (hist (hist_run no_sprint session0 [HAdd (hi "c") 0 3; HTrim 2 4; HDropLast 5])) 2
    = Some (hi "b") /\ message_of (hist session0) 2 = Some (hi "b").
Proof.
  split; [by vm_compute|].
  apply (history_handles no_sprint session0 [HAdd (hi "c") 0 3; HTrim 2 4; HDropLast 5]
    session0_ok); by vm_compute.
Defined.

Lemma AddMessage_DropMessage_witness :
  let s1 := (AddMessageAtEpoch (hi "mine") 1 3 session0).2 in
  let s2 := hist_run no_sprint s1 [HAdd (hi "theirs") 0 4; HDrop 1] in
  History (hist s2) = [hi "b"; hi "mine"; hi "theirs"] /\
  (History (hist (DropMessage 3 s2)) = History (hist s2) \/
   exists l1 l2, History (hist s2) = l1 ++ hi "mine" :: l2 /\
     History (hist (DropMessage 3 s2)) = l1 ++ l2).
Proof.
  intros s1 s2. split; [by vm_compute|].
  apply (AddMessage_DropMessage no_sprint session0 (hi "mine") 1 3 3 s1
    [HAdd (hi "theirs") 0 4; HDrop 1] session0_ok); by vm_compute.
Defined.

Definition snap0 : PrivateCompactSnapshot := {|
  ps_Messages := [hi "a"; hi "b"]; ps_Count := 2; ps_Epoch := 1; ps_LastSeq := 2 |}.

Lemma private_compaction_witness :
  exists s3, (CommitPrivateCompact no_sprint snap0 " sum " 9
      (hist_run no_sprint (SnapshotPrivateCompact session0).2 [HTrim 1 3; HAdd (hi "c") 0 4])) = (true, s3) /\
    privateCompacting (hist s3) = false.
Proof.
  destruct (private_compaction no_sprint session0 snap0 (SnapshotPrivateCompact session0).2
    [HTrim 1 3; HAdd (hi "c") 0 4] " sum " 9 session0_ok) as (old & s3 & _ & _ & H & _ & H').
  - by vm_compute.
  - by vm_compute.
  - by vm_compute.
  - by exists s3.
Defined.

Lemma private_inspection_witness :
  let s' := (CommitPrivateCompact no_sprint snap0 "sum" 9 (hist_run no_sprint session0 [HAdd (hi "c") 0 4])).2 in
  PrivateRunningSummary (hist_run no_sprint s' [HAdd (summary_message "sum") 0 10]) = "sum".
Proof.
  intros s'.
  destruct (private_inspection no_sprint snap0 "sum" 9 (hist_run no_sprint session0 [HAdd (hi "c") 0 4])
    s' [summary_message "sum"]) as [H _].
  - by vm_compute.
  - by vm_compute.
  - by vm_compute.
  - etransitivity; [|etransitivity; [exact H|]]; by vm_compute.
Defined.

(** [AddMessage] does not keep the ID of the tool call a tool message answers. *)
Lemma AddMessage_drops_ToolCallID :
  let msg := {| Role := "tool"; MContent := Text "ok"; ToolCalls := []; ToolCallID := "call_1" |} in
  Messages (AddMessage msg 1 (new_session "private:1" "" "" 0)) =
  [{| Role := "tool"; MContent := Text "ok"; ToolCalls := []; ToolCallID := "" |}].
Proof. by vm_compute. Qed.
