(* ===== verification/Barrier.v ===== *)
(** Commit barriers: [sessionExtractionBarrier] and [groupDistillationBarrier]
    of [internal/llm/session.go], behind [core.ExtractionCommitBarrier].

    A background worker that persists memories brackets each write with
    [TryBeginCommit] and [EndCommit]; a reset calls [AbortAndWait], which must
    not return while a write is in flight and after which no write may start.
    The class [CommitBarrier] is the interface both barriers implement, its
    laws are what the protocol needs, and the protocol is a step relation
    between one worker, any number of aborters and the environment (context
    cancellation, session epoch). *)

From S2P Require Import Prelude GoStrings GroupMessage SessionState.
From stdpp Require Import relations.

(** * Shared fields *)

Definition set_state (st : barrierState) (b : Barrier) : Barrier := {|
  state := st; aborted := aborted b; ctx_err := ctx_err b; done := done b;
  doneClosed := doneClosed b |}.
Definition set_aborted (b : Barrier) : Barrier := {|
  state := state b; aborted := true; ctx_err := ctx_err b; done := done b;
  doneClosed := doneClosed b |}.
Definition set_ctx_err (b : Barrier) : Barrier := {|
  state := state b; aborted := aborted b; ctx_err := true; done := done b;
  doneClosed := doneClosed b |}.

Definition closeDoneLocked (b : Barrier) : Barrier := {|
  state := state b; aborted := aborted b; ctx_err := ctx_err b; done := done b;
  doneClosed := true |}.

(** [b.done = make(chan struct{})]. *)
Definition make_done (b : Barrier) : Barrier := {|
  state := state b; aborted := aborted b; ctx_err := ctx_err b; done := S (done b);
  doneClosed := false |}.

(** Whether a receive on the barrier's [n]-th channel returns. *)
Definition chan_closed (n : nat) (b : Barrier) : bool :=
  (n <? done b)%nat || (n =? done b)%nat && doneClosed b.

Definition new_barrier : Barrier := {|
  state := barrierPending; aborted := false; ctx_err := false; done := 0; doneClosed := false |}.

(** [IsValid], [TryBeginCommit], [EndCommit] and [AbortAndWait] share their
    shape; [bad] is the condition each barrier checks. *)
Definition begin_core (bad : bool) (b : Barrier) : bool * Barrier :=
  if negb (bool_decide (state b = barrierPending)) then (false, b) else
  if bad then (false, closeDoneLocked (set_state barrierAborted b))
  else (true, set_state barrierWriting b).

(** [AbortAndWait] up to its wait: the channel to receive from, if any. *)
Definition abort_core (b : Barrier) : option nat * Barrier :=
  let b := set_aborted b in
  if decide (state b = barrierWriting) then (Some (done b), b)
  else (None, closeDoneLocked (set_state barrierAborted b)).

Definition is_open (b : Barrier) : bool :=
  bool_decide (state b = barrierPending \/ state b = barrierWriting).

(** * Extraction barriers *)

(** [current] is the session's epoch when the barrier reads it. *)
Definition xb_bad (current : Z) (b : sessionExtractionBarrier) : bool :=
  aborted (xb b) || ctx_err (xb b) || negb (current =? xb_epoch b)%Z.

Definition set_xb (c : Barrier) (b : sessionExtractionBarrier) : sessionExtractionBarrier :=
  {| xb_epoch := xb_epoch b; xb := c |}.

Definition xb_IsValid (current : Z) (b : sessionExtractionBarrier) : bool :=
  is_open (xb b) && negb (xb_bad current b).

Definition xb_TryBeginCommit (current : Z) (b : sessionExtractionBarrier)
    : bool * sessionExtractionBarrier :=
  let '(r, c) := begin_core (xb_bad current b) (xb b) in (r, set_xb c b).

Definition xb_EndCommit (current : Z) (b : sessionExtractionBarrier) : sessionExtractionBarrier :=
  match state (xb b) with
  | barrierWriting =>
      let c := closeDoneLocked (xb b) in
      set_xb (if xb_bad current b then set_state barrierAborted c
              else make_done (set_state barrierPending c)) b
  | barrierPending => set_xb (closeDoneLocked (set_state barrierDone (xb b))) b
  | _ => b
  end.

Definition xb_Close (b : sessionExtractionBarrier) : sessionExtractionBarrier :=
  if is_open (xb b) then set_xb (closeDoneLocked (set_state barrierDone (xb b))) b else b.

Definition xb_AbortAndWait (b : sessionExtractionBarrier) : option nat * sessionExtractionBarrier :=
  let '(w, c) := abort_core (xb b) in (w, set_xb c b).

Definition xb_IsTerminated (b : sessionExtractionBarrier) : bool :=
  bool_decide (state (xb b) = barrierDone \/ state (xb b) = barrierAborted).

(** * Distillation barriers *)

Definition gb_bad (b : groupDistillationBarrier) : bool := aborted (gb b) || ctx_err (gb b).

Definition set_gb (c : Barrier) (b : groupDistillationBarrier) : groupDistillationBarrier :=
  {| gb_snapshot := gb_snapshot b; gb := c |}.

Definition gb_IsValid (b : groupDistillationBarrier) : bool := is_open (gb b) && negb (gb_bad b).

Definition gb_TryBeginCommit (b : groupDistillationBarrier) : bool * groupDistillationBarrier :=
  let '(r, c) := begin_core (gb_bad b) (gb b) in (r, set_gb c b).

Definition gb_EndCommit (b : groupDistillationBarrier) : groupDistillationBarrier :=
  match state (gb b) with
  | barrierWriting =>
      let c := closeDoneLocked (gb b) in
      set_gb (set_state (if gb_bad b then barrierAborted else barrierDone) c) b
  | barrierPending => set_gb (closeDoneLocked (set_state barrierDone (gb b))) b
  | _ => b
  end.

(** The abort cancels the barrier's context too. *)
Definition gb_AbortAndWait (b : groupDistillationBarrier) : option nat * groupDistillationBarrier :=
  let '(w, c) := abort_core (set_ctx_err (gb b)) in (w, set_gb c b).

(** * The interface *)

Class CommitBarrier (B : Type) := {
  core : B -> Barrier;
  IsValid : Z -> B -> bool;
  TryBeginCommit : Z -> B -> bool * B;
  EndCommit : Z -> B -> B;
  AbortAndWait : B -> option nat * B;
  (** what the worker's cleanup does, and the cancellation of its context *)
  finish : Z -> B -> B;
  cancel : B -> B;
}.

(** Closed channels stay closed and an abort is never taken back. *)
Definition progress (b b' : Barrier) : Prop :=
  (aborted b = true -> aborted b' = true) /\ done b <= done b' /\
  forall n, chan_closed n b = true -> chan_closed n b' = true.

Class CommitBarrierLaws (B : Type) `{CommitBarrier B} : Prop := {
  TryBeginCommit_true e b b' :
    TryBeginCommit e b = (true, b') ->
    state (core b) = barrierPending /\ aborted (core b) = false /\
    core b' = set_state barrierWriting (core b);
  TryBeginCommit_false e b b' :
    TryBeginCommit e b = (false, b') ->
    b' = b \/ (state (core b) = barrierPending /\
               core b' = closeDoneLocked (set_state barrierAborted (core b)));
  EndCommit_writing e b :
    state (core b) = barrierWriting ->
    progress (core b) (core (EndCommit e b)) /\
    state (core (EndCommit e b)) <> barrierWriting /\
    chan_closed (done (core b)) (core (EndCommit e b)) = true /\
    (state (core (EndCommit e b)) = barrierPending -> doneClosed (core (EndCommit e b)) = false) /\
    (aborted (core b) = true -> state (core (EndCommit e b)) = barrierAborted);
  AbortAndWait_spec b :
    (AbortAndWait b).1 = (abort_core (core b)).1 /\
    progress (core b) (core (AbortAndWait b).2) /\
    state (core (AbortAndWait b).2) = state (abort_core (core b)).2 /\
    aborted (core (AbortAndWait b).2) = true /\
    done (core (AbortAndWait b).2) = done (core b) /\
    (state (core b) = barrierWriting ->
       doneClosed (core (AbortAndWait b).2) = doneClosed (core b));
  finish_spec e b :
    state (core b) <> barrierWriting ->
    progress (core b) (core (finish e b)) /\ is_open (core (finish e b)) = false;
  cancel_spec b : core (cancel b) = set_ctx_err (core b);
  IsValid_spec e b : IsValid e b = true -> is_open (core b) = true /\ aborted (core b) = false;
}.

#[global] Instance extraction_barrier : CommitBarrier sessionExtractionBarrier := {
  core := xb; IsValid := xb_IsValid; TryBeginCommit := xb_TryBeginCommit; EndCommit := xb_EndCommit;
  AbortAndWait := xb_AbortAndWait; finish := fun _ => xb_Close;
  cancel := fun b => set_xb (set_ctx_err (xb b)) b }.

#[global] Instance distillation_barrier : CommitBarrier groupDistillationBarrier := {
  core := gb; IsValid := fun _ => gb_IsValid; TryBeginCommit := fun _ => gb_TryBeginCommit; EndCommit := fun _ => gb_EndCommit;
  AbortAndWait := gb_AbortAndWait; finish := fun _ => gb_EndCommit;
  cancel := fun b => set_gb (set_ctx_err (gb b)) b }.

#[global] Instance progress_preorder : PreOrder progress.
Proof. split; [split; auto|]. intros x y z (?&?&?) (?&?&?). repeat split; eauto with lia. Qed.

Lemma chan_closed_now b : chan_closed (done b) (closeDoneLocked b) = true.
Proof. unfold chan_closed; simpl. by rewrite Nat.eqb_refl, orb_true_r. Qed.

Ltac barrier_progress :=
  split; [|split]; simpl; [tauto || auto|lia|];
  intros n; unfold chan_closed; simpl; rewrite !orb_true_iff, ?andb_true_iff, ?Nat.ltb_lt, ?Nat.eqb_eq;
  intuition (auto with lia).

Lemma progress_close_state st b : progress b (closeDoneLocked (set_state st b)).
Proof. barrier_progress. Qed.
Lemma progress_state_close st b : progress b (set_state st (closeDoneLocked b)).
Proof. barrier_progress. Qed.
Lemma progress_make st b : progress b (make_done (set_state st (closeDoneLocked b))).
Proof. barrier_progress. Qed.
Lemma progress_state st b : progress b (set_state st b).
Proof. barrier_progress. Qed.
Lemma progress_ctx b : progress b (set_ctx_err b).
Proof. barrier_progress. Qed.
Lemma progress_abort b : progress b (abort_core b).2.
Proof. unfold abort_core. case_decide; barrier_progress. Qed.
#[export] Hint Resolve progress_close_state progress_state_close progress_make progress_state
  progress_ctx progress_abort : frost.

Lemma abort_core_spec b :
  (abort_core b).1 = (if decide (state b = barrierWriting) then Some (done b) else None) /\
  aborted (abort_core b).2 = true /\ done (abort_core b).2 = done b /\
  state (abort_core b).2 = (if decide (state b = barrierWriting) then barrierWriting else barrierAborted) /\
  (state b = barrierWriting -> doneClosed (abort_core b).2 = doneClosed b).
Proof. unfold abort_core. simpl. case_decide; simpl; auto. repeat split; done. Qed.

#[global] Instance extraction_laws : CommitBarrierLaws sessionExtractionBarrier.
Proof.
  split; simpl.
  - intros e b b'. unfold xb_TryBeginCommit, begin_core, xb_bad. case_bool_decide; simpl; [|done].
    destruct (aborted (xb b)) eqn:?, (ctx_err (xb b)), (e =? xb_epoch b)%Z; simpl; intros [= <-]; done.
  - intros e b b'. unfold xb_TryBeginCommit, begin_core. case_bool_decide; simpl.
    + destruct (xb_bad e b); [|done]. intros [= <-]. by right.
    + intros [= <-]. left. by destruct b.
  - intros e b Hs. unfold xb_EndCommit. rewrite Hs. destruct (xb_bad e b) eqn:Hb; simpl.
    + split; [auto with frost|]. split; [done|]. split; [apply chan_closed_now|done].
    + split; [auto with frost|]. split; [done|]. split; [|split; [done|]].
      * unfold chan_closed; simpl. by rewrite (proj2 (Nat.ltb_lt _ _)) by lia.
      * intros Ha. unfold xb_bad in Hb. by rewrite Ha in Hb.
  - intros b. unfold xb_AbortAndWait. pose proof (abort_core_spec (xb b)) as Ha.
    pose proof (progress_abort (xb b)). destruct (abort_core (xb b)); simpl in *.
    by destruct Ha as (-> & -> & -> & -> & ?).
  - intros _ b Hs. unfold xb_Close. case_match eqn:Ho; simpl; [auto with frost|by split].
  - done.
  - intros e b. unfold xb_IsValid, xb_bad. intros [Ho Hb]%andb_true_iff. split; [done|]. by destruct (aborted (xb b)).
Qed.

#[global] Instance distillation_laws : CommitBarrierLaws groupDistillationBarrier.
Proof.
  split; simpl.
  - intros _ b b'. unfold gb_TryBeginCommit, begin_core, gb_bad. case_bool_decide; simpl; [|done].
    destruct (aborted (gb b)) eqn:?, (ctx_err (gb b)); simpl; intros [= <-]; done.
  - intros _ b b'. unfold gb_TryBeginCommit, begin_core. case_bool_decide; simpl.
    + destruct (gb_bad b); [|done]. intros [= <-]. by right.
    + intros [= <-]. left. by destruct b.
  - intros _ b Hs. unfold gb_EndCommit. rewrite Hs. simpl.
    split; [auto with frost|]. split; [by case_match|]. split; [apply chan_closed_now|].
    split; [by case_match|]. intros Ha. unfold gb_bad. by rewrite Ha.
  - intros b. unfold gb_AbortAndWait. pose proof (abort_core_spec (set_ctx_err (gb b))) as Ha.
    pose proof (abort_core_spec (gb b)) as Hb.
    assert (progress (gb b) (abort_core (set_ctx_err (gb b))).2) as Hp
      by (transitivity (set_ctx_err (gb b)); auto with frost).
    destruct (abort_core (set_ctx_err (gb b))), (abort_core (gb b)); simpl in *.
    destruct Ha as (-> & -> & -> & -> & ?), Hb as (-> & _ & _ & -> & _). done.
  - intros _ b Hs. unfold gb_EndCommit. unfold is_open.
    destruct (state (gb b)) eqn:E; simpl; rewrite ?E; split; auto with frost; done.
  - done.
  - intros _ b. unfold gb_IsValid, gb_bad. intros [Ho Hb]%andb_true_iff. split; [done|]. by destruct (aborted (gb b)).
Qed.

(** * The protocol

    One worker begins, performs and ends writes and at last cleans up; any
    number of callers abort, and each waits if it has to.  The epoch a step
    reads and the cancellation of the context are up to the environment. *)
Inductive worker := Running | InWrite | Finished.
Inductive aborter := Waiting (ch : nat) | Returned.

Record config (B : Type) := {
  barrier : B;
  pc : worker;
  aborters : list aborter;
  writes : nat;
}.
Arguments barrier {B} _.
Arguments pc {B} _.
Arguments aborters {B} _.
Arguments writes {B} _.

Inductive step {B} `{CommitBarrier B} : config B -> config B -> Prop :=
  | step_try e b ab w r b' :
      TryBeginCommit e b = (r, b') ->
      step {| barrier := b; pc := Running; aborters := ab; writes := w |}
           {| barrier := b'; pc := if r then InWrite else Running; aborters := ab; writes := w |}
  | step_write b ab w :
      step {| barrier := b; pc := InWrite; aborters := ab; writes := w |}
           {| barrier := b; pc := InWrite; aborters := ab; writes := S w |}
  | step_end e b ab w :
      step {| barrier := b; pc := InWrite; aborters := ab; writes := w |}
           {| barrier := EndCommit e b; pc := Running; aborters := ab; writes := w |}
  | step_finish e b ab w :
      step {| barrier := b; pc := Running; aborters := ab; writes := w |}
           {| barrier := finish e b; pc := Finished; aborters := ab; writes := w |}
  | step_abort b p ab w ch b' :
      AbortAndWait b = (ch, b') ->
      step {| barrier := b; pc := p; aborters := ab; writes := w |}
           {| barrier := b'; pc := p;
              aborters := ab ++ [match ch with Some ch => Waiting ch | None => Returned end];
              writes := w |}
  | step_wake b p ab w i ch :
      ab !! i = Some (Waiting ch) -> chan_closed ch (core b) = true ->
      step {| barrier := b; pc := p; aborters := ab; writes := w |}
           {| barrier := b; pc := p; aborters := <[i := Returned]> ab; writes := w |}
  | step_cancel b p ab w :
      step {| barrier := b; pc := p; aborters := ab; writes := w |}
           {| barrier := cancel b; pc := p; aborters := ab; writes := w |}.

Definition start {B} (b : B) : config B :=
  {| barrier := b; pc := Running; aborters := []; writes := 0 |}.

Section protocol.
Context {B : Type} `{CommitBarrierLaws B}.
Implicit Types c : config B.

(** What an aborter knows of the barrier. *)
Definition aborter_ok (b : Barrier) (a : aborter) : Prop :=
  aborted b = true /\
  match a with
  | Waiting ch => (state b = barrierWriting /\ ch = done b) \/
                  (state b <> barrierWriting /\ chan_closed ch b = true)
  | Returned => state b <> barrierWriting
  end.

Definition protocol_ok c : Prop :=
  (pc c = InWrite <-> state (core (barrier c)) = barrierWriting) /\
  (is_open (core (barrier c)) = true -> doneClosed (core (barrier c)) = false) /\
  Forall (aborter_ok (core (barrier c))) (aborters c).

(** Leaving the writing state keeps every aborter's knowledge. *)
Lemma aborter_ok_progress b b' a :
  progress b b' -> state b <> barrierWriting -> state b' <> barrierWriting ->
  aborter_ok b a -> aborter_ok b' a.
Proof.
  intros (Ha & _ & Hc) Hb Hb' [? Hk]. split; [auto|]. destruct a; [|done].
  destruct Hk as [[? _]|[_ ?]]; [done|]. right. auto.
Qed.

Lemma is_open_spec b : is_open b = true <-> state b = barrierPending \/ state b = barrierWriting.
Proof. unfold is_open. apply bool_decide_eq_true. Qed.

Lemma step_protocol_ok c c' : protocol_ok c -> step c c' -> protocol_ok c'.
Proof.
  intros (Hpc & Hop & Hab) Hstep. rewrite is_open_spec in Hop.
  destruct Hstep as [e b ab w r b' Ht|b ab w|e b ab w|e b ab w|b p ab w ch b' Hb|b p ab w i ch Hi Hch|b p ab w];
    unfold protocol_ok in *; simpl in *; rewrite ?is_open_spec.
  - destruct r.
    + apply TryBeginCommit_true in Ht as (Hs & Hna & ->). simpl. split; [done|]. split; [auto|].
      destruct ab as [|a ab]; [done|]. apply Forall_cons_1 in Hab as [[Ha _] _]. congruence.
    + apply TryBeginCommit_false in Ht as [->|(Hs & ->)]; [done|]. simpl.
      split; [done|]. split; [by intros [|]|]. eapply Forall_impl; [exact Hab|].
      intros a. apply aborter_ok_progress; simpl; [auto with frost|by rewrite Hs|done].
  - done.
  - assert (state (core b) = barrierWriting) as Hs by by apply Hpc.
    destruct (EndCommit_writing e b Hs) as (Hp & Hw & Hcl & Hpend & _).
    split; [naive_solver|]. split; [naive_solver|]. eapply Forall_impl; [exact Hab|].
    intros a [Ha Hk]. split; [by apply Hp|]. destruct a; [|done].
    destruct Hk as [[_ ->]|[? _]]; [|done]. by right.
  - assert (state (core b) <> barrierWriting) as Hs by (intros E; by apply Hpc in E).
    destruct (finish_spec e b Hs) as [Hp Ho]. unfold is_open in Ho. apply bool_decide_eq_false in Ho.
    split; [naive_solver|]. split; [naive_solver|]. eapply Forall_impl; [exact Hab|].
    intros a. apply aborter_ok_progress; naive_solver.
  - destruct (AbortAndWait_spec b) as (Hw & Hp & Hs & Ha & Hd & Hdc). rewrite Hb in *. simpl in *.
    destruct (abort_core_spec (core b)) as (E1 & _ & _ & E2 & _). rewrite E1 in Hw. rewrite E2 in Hs.
    rewrite Hs. destruct (decide (state (core b) = barrierWriting)) as [Es|Es].
    + split; [naive_solver|]. split; [naive_solver congruence|]. apply Forall_app. split.
      * eapply Forall_impl; [exact Hab|]. intros a [_ Hk]. split; [done|]. destruct a; [|done].
        left. destruct Hk as [[_ ->]|[? _]]; [|done]. by rewrite Hd.
      * subst ch. apply Forall_singleton. split; [done|]. left. by rewrite Hd.
    + split; [naive_solver|]. split; [naive_solver|]. apply Forall_app. split.
      * eapply Forall_impl; [exact Hab|]. intros a. apply aborter_ok_progress; [done..|by rewrite Hs].
      * subst ch. apply Forall_singleton. split; [done|]. by rewrite Hs.
  - split; [done|]. split; [done|]. apply Forall_insert; [done|].
    rewrite Forall_lookup in Hab. destruct (Hab _ _ Hi) as [Ha Hk]. split; [done|].
    destruct Hk as [[Hs ->]|[? _]]; [|done]. exfalso.
    unfold chan_closed in Hch. rewrite Nat.ltb_irrefl, Nat.eqb_refl, Hop in Hch by auto. done.
  - rewrite cancel_spec. simpl. split; [done|]. split; [done|]. eapply Forall_impl; [exact Hab|].
    intros a [Ha Hk]. split; [done|]. by destruct a.
Qed.

Lemma steps_protocol_ok c c' : rtc step c c' -> protocol_ok c -> protocol_ok c'.
Proof. induction 1; eauto using step_protocol_ok. Qed.

Lemma start_ok b : core b = new_barrier -> protocol_ok (start b).
Proof. intros E. unfold protocol_ok, start; simpl. rewrite E. repeat split; done. Qed.

(** C19: once a call of [AbortAndWait] has returned, no write is in flight and
    none is ever performed again, whatever the worker, other aborters and the
    environment do next. *)
Theorem AbortAndWait_final b c c' :
  core b = new_barrier -> rtc step (start b) c -> Returned ∈ aborters c ->
  rtc step c c' -> pc c <> InWrite /\ writes c' = writes c.
Proof.
  intros Hb Hc Hr Hs. pose proof (steps_protocol_ok _ _ Hc (start_ok b Hb)) as Hok. clear Hc.
  assert (forall c, protocol_ok c -> Returned ∈ aborters c -> pc c <> InWrite) as Hno.
  { intros c0 (Hpc & _ & Hab) Hin. rewrite Forall_forall in Hab.
    destruct (Hab _ Hin) as [_ Hk]. naive_solver. }
  split; [by apply Hno|]. induction Hs as [|c c1 c' Hst _ IH]; [done|].
  pose proof (step_protocol_ok _ _ Hok Hst) as Hok1. specialize (Hno _ Hok Hr).
  rewrite IH; [by destruct Hst| |done]. destruct Hst; simpl in *; try done.
  - apply elem_of_app. by left.
  - apply list_elem_of_lookup in Hr as [j Hj]. apply list_elem_of_lookup. exists j.
    destruct (decide (i = j)) as [->|]; [simplify_eq|]. by rewrite list_lookup_insert_ne.
Qed.

(** An aborter is never stuck: while it waits, either its channel is closed
    and it can return, or a write is in flight and the end of that write
    closes the channel. *)
Theorem AbortAndWait_progress b c ch e :
  core b = new_barrier -> rtc step (start b) c -> Waiting ch ∈ aborters c ->
  chan_closed ch (core (barrier c)) = true \/
  (pc c = InWrite /\ chan_closed ch (core (EndCommit e (barrier c))) = true).
Proof.
  intros Hb Hc Hin. destruct (steps_protocol_ok _ _ Hc (start_ok b Hb)) as (Hpc & _ & Hab).
  rewrite Forall_forall in Hab. destruct (Hab _ Hin) as [_ [[Hs ->]|[_ ?]]]; [right|by left].
  split; [by apply Hpc|]. by destruct (EndCommit_writing e (barrier c) Hs) as (_ & _ & ? & _).
Qed.
End protocol.

(** * Witnesses: a reset that arrives during a write *)

Definition xb0 : sessionExtractionBarrier := {| xb_epoch := 1; xb := new_barrier |}.
Definition gb0 : groupDistillationBarrier := {|
  gb_snapshot := {| snap_Summary := ""; snap_Messages := []; snap_MessageIDs := [];
                    snap_ThroughSequence := 0; snap_Generation := 0 |};
  gb := new_barrier |}.

Definition writing_xb : sessionExtractionBarrier := (AbortAndWait (TryBeginCommit 1 xb0).2).2.
Definition ended_xb : sessionExtractionBarrier := EndCommit 2 writing_xb.

Lemma waiting_reachable :
  rtc step (start xb0)
    {| barrier := writing_xb; pc := InWrite; aborters := [Waiting 0]; writes := 1 |}.
Proof.
  eapply rtc_l; [by eapply (step_try 1 _ _ _ true)|]. eapply rtc_l; [by apply step_write|].
  eapply rtc_l; [by eapply step_abort|]. apply rtc_refl.
Qed.

Lemma AbortAndWait_final_witness :
  let c := {| barrier := ended_xb; pc := Running; aborters := [Returned]; writes := 1 |} in
  rtc step (start xb0) c /\ pc c <> InWrite.
Proof.
  intros c. assert (rtc step (start xb0) c) as Hc.
  { etransitivity; [apply waiting_reachable|].
    eapply rtc_l; [by apply (step_end 2)|]. eapply rtc_l; [by apply (step_wake _ _ _ _ 0 0)|].
    apply rtc_refl. }
  split; [exact Hc|].
  refine (proj1 (AbortAndWait_final xb0 c c _ Hc _ (rtc_refl _ _))); [reflexivity|by left].
Defined.

Lemma AbortAndWait_progress_witness :
  chan_closed 0 (core ended_xb) = true /\
  (chan_closed 0 (core writing_xb) = true \/
   (InWrite = InWrite /\ chan_closed 0 (core (EndCommit 2 writing_xb)) = true)).
Proof.
  split; [by vm_compute|].
  refine (AbortAndWait_progress xb0 _ 0 2 _ waiting_reachable _); [reflexivity|by left].
Defined.

(** The distillation barrier ends after one write; the extraction barrier can
    be used again. *)
Example one_write_only :
  let b := gb_EndCommit (gb_TryBeginCommit gb0).2 in
  gb_IsValid b = false /\ (gb_TryBeginCommit b).1 = false.
Proof. by vm_compute. Qed.
Example extraction_again :
  let b := xb_EndCommit 1 (xb_TryBeginCommit 1 xb0).2 in
  xb_IsValid 1 b = true /\ (xb_TryBeginCommit 1 b).1 = true /\ (xb_TryBeginCommit 2 b).1 = false.
Proof. by vm_compute. Qed.
