(* ===== verification/BotLoop.v ===== *)
(** The bot-loop budget: [BeginBotLoop], [FinishWithAdmission] and
    [ObserveBotLoop] of [internal/llm/session.go].

    A message from another bot is counted against a budget that a human's
    explicit wake restores.  Messages are observed concurrently, but each one
    reserves its place on arrival ([BeginBotLoop]) and settles only after the
    one before it ([Finish] waits for [previous]).  The main theorem is that
    the budget is therefore a function of the arrival order alone. *)

From S2P Require Import Prelude GoStrings GroupMessage SessionState.

Local Open Scope string_scope.
Local Open Scope list_scope.

(** What the caller of [Finish] knows: eligibility, the limit, and the
    admission check ([nil] admits). *)
Record decision := {
  eligible : bool;
  limit : Z;
  admission : option (bool -> bool);
}.

(** [ob_settled] is what the [sync.Once] ran with; [ob_done] is [close(o.done)]. *)
Record BotLoopObservation := {
  ob_senderID : string;
  ob_marked : bool;
  ob_config : string;
  ob_explicitWake : bool;
  ob_epoch : Z;
  ob_previous : option nat;
  ob_settled : option decision;
  ob_exceeded : bool;
  ob_admitted : bool;
}.

Definition ob_done (o : BotLoopObservation) : bool :=
  match ob_settled o with Some _ => true | None => false end.

(** A session's bot state and every observation made on it, by number. *)
Record BotWorld := {
  bot : BotState;
  observations : list BotLoopObservation;
}.

Definition BeginBotLoop (senderID : string) (marked : bool) (config : string) (explicitWake : bool)
    (w : BotWorld) : option nat * BotWorld :=
  if decide (senderID = "") then (None, w) else
  let n := length (observations w) in
  let o := {| ob_senderID := senderID; ob_marked := marked; ob_config := config;
              ob_explicitWake := explicitWake; ob_epoch := botLoopEpoch (bot w);
              ob_previous := botLoopTail (bot w); ob_settled := None;
              ob_exceeded := false; ob_admitted := false |} in
  (Some n, {| bot := {| botLoopTurns := botLoopTurns (bot w); botLoopConfig := botLoopConfig (bot w);
                        botLoopTail := Some n; botLoopEpoch := botLoopEpoch (bot w) |};
              observations := observations w ++ [o] |}).

Definition admits (d : decision) (exceeded : bool) : bool :=
  match admission d with None => true | Some f => f exceeded end.

(** The budget: turns per sender and the configuration they were counted under. *)
Abbreviation budget := (gmap string Z * string)%type (only parsing).

(** The critical section of [Finish]: exceeded, admitted and the new budget. *)
Definition settle (o : BotLoopObservation) (d : decision) (b : budget) : bool * bool * budget :=
  let '(turns0, config0) := b in
  let turns := if negb (bool_decide (config0 = ob_config o))
                  || (negb (ob_marked o) && ob_explicitWake o && eligible d)
               then ∅ else turns0 in
  let count := default 0%Z (turns !! ob_senderID o) in
  let counted := ob_marked o && eligible d in
  let exceeded := counted && ((0 <? limit d) && (limit d <=? count))%Z in
  let count := if counted && negb exceeded then (count + 1)%Z else count in
  let admitted := admits d exceeded in
  let turns' := if counted then <[ob_senderID o := count]> turns else turns in
  (exceeded, admitted, if admitted then (turns', ob_config o) else b).

Definition settled (d : decision) (exceeded admitted : bool) (o : BotLoopObservation)
    : BotLoopObservation := {|
  ob_senderID := ob_senderID o; ob_marked := ob_marked o; ob_config := ob_config o;
  ob_explicitWake := ob_explicitWake o; ob_epoch := ob_epoch o; ob_previous := ob_previous o;
  ob_settled := Some d; ob_exceeded := exceeded; ob_admitted := admitted |}.

(** Whether the receive on [o.previous] returns. *)
Definition previous_done (o : BotLoopObservation) (w : BotWorld) : bool :=
  match ob_previous o with
  | None => true
  | Some p => match observations w !! p with Some q => ob_done q | None => false end
  end.

Definition set_budget (b : budget) (s : BotState) : BotState := {|
  botLoopTurns := b.1; botLoopConfig := b.2; botLoopTail := botLoopTail s;
  botLoopEpoch := botLoopEpoch s |}.

(** [None] when the call blocks on an unfinished predecessor. *)
Definition FinishWithAdmission (obs : option nat) (d : decision) (w : BotWorld)
    : option (bool * bool * BotWorld) :=
  match obs with
  | None => Some (false, admits d false, w)
  | Some i =>
      match observations w !! i with
      | None => None
      | Some o =>
          if ob_done o then Some (ob_exceeded o, ob_admitted o, w) else
          if negb (previous_done o w) then None else
          if (ob_epoch o =? botLoopEpoch (bot w))%Z then
            let '(exceeded, admitted, b) :=
              settle o d (botLoopTurns (bot w), botLoopConfig (bot w)) in
            Some (exceeded, admitted,
                  {| bot := set_budget b (bot w);
                     observations := <[i := settled d exceeded admitted o]> (observations w) |})
          else Some (false, false,
                     {| bot := bot w; observations := <[i := settled d false false o]> (observations w) |})
      end
  end.

Definition Finish (obs : option nat) (elig : bool) (lim : Z) (w : BotWorld) : option (bool * BotWorld) :=
  match FinishWithAdmission obs {| eligible := elig; limit := lim; admission := None |} w with
  | Some (exceeded, _, w) => Some (exceeded, w)
  | None => None
  end.

Definition ObserveBotLoop (senderID : string) (marked elig : bool) (lim : Z) (config : string)
    (explicitWake : bool) (w : BotWorld) : option (bool * BotWorld) :=
  let '(o, w) := BeginBotLoop senderID marked config explicitWake w in Finish o elig lim w.

(** What [ResetSession] and [Clear] do to the bot state. *)
Definition reset_bots (s : BotState) : BotState := {|
  botLoopTurns := ∅; botLoopConfig := ""; botLoopTail := None;
  botLoopEpoch := u64_succ (botLoopEpoch s) |}.

(** * The specification: settle in arrival order

    [replay] settles the given observations one after the other with the
    decisions they recorded; it succeeds when each gets the result it recorded. *)
Fixpoint replay (b : budget) (l : list BotLoopObservation) : option budget :=
  match l with
  | [] => Some b
  | o :: l =>
      match ob_settled o with
      | None => None
      | Some d =>
          let '(exceeded, admitted, b') := settle o d b in
          if bool_decide (exceeded = ob_exceeded o /\ admitted = ob_admitted o)
          then replay b' l else None
      end
  end.

(** The observations of the current epoch, and those among them that settled. *)
Definition current (w : BotWorld) : list BotLoopObservation :=
  filter (fun o => ob_epoch o = botLoopEpoch (bot w)) (observations w).
Definition settled_now (w : BotWorld) : list BotLoopObservation :=
  filter (fun o => ob_done o = true) (current w).

(** ** Executions *)

Inductive event :=
  | EvBegin (senderID : string) (marked : bool) (config : string) (explicitWake : bool)
  | EvFinish (i : nat) (d : decision)
  | EvReset.

Definition bot_step (w : BotWorld) (e : event) : BotWorld :=
  match e with
  | EvBegin s m c x => (BeginBotLoop s m c x w).2
  | EvFinish i d => match FinishWithAdmission (Some i) d w with Some (_, _, w) => w | None => w end
  | EvReset => {| bot := reset_bots (bot w); observations := observations w |}
  end.

Definition bot_run (w : BotWorld) (l : list event) : BotWorld := fold_left bot_step l w.
Definition start_bots : BotWorld := {| bot := empty_bots; observations := [] |}.

(** Epochs do not wrap: each reset takes one. *)
Definition resets (l : list event) : nat :=
  length (filter (fun e => match e with EvReset => true | _ => false end = true) l).

(** * Invariant *)

Section invariant.
Implicit Types (w : BotWorld) (l : list BotLoopObservation).

(** Each observation of [l], the first of which has number [n], waits for the
    one before it. *)
Fixpoint chain (prev : option nat) (n : nat) l : Prop :=
  match l with
  | [] => True
  | o :: l => ob_previous o = prev /\ chain (Some n) (S n) l
  end.

Definition chain_end (prev : option nat) (n : nat) l : option nat :=
  match l with [] => prev | _ => Some (n + length l - 1) end.

Lemma chain_app prev n l1 l2 :
  chain prev n (l1 ++ l2) <-> chain prev n l1 /\ chain (chain_end prev n l1) (n + length l1) l2.
Proof.
  revert prev n; induction l1 as [|o l1 IH]; intros prev n; simpl.
  - rewrite Nat.add_0_r. tauto.
  - rewrite IH. replace (S n + length l1) with (n + S (length l1)) by lia.
    replace (chain_end (Some n) (S n) l1) with (Some (n + S (length l1) - 1)); [tauto|].
    destruct l1; simpl; f_equal; lia.
Qed.

Definition bot_ok w : Prop :=
  exists old dl p,
    observations w = old ++ dl ++ p /\
    Forall (fun o => ob_epoch o < botLoopEpoch (bot w))%Z old /\
    Forall (fun o => ob_epoch o = botLoopEpoch (bot w)) (dl ++ p) /\
    Forall (fun o => ob_done o = true) dl /\ Forall (fun o => ob_done o = false) p /\
    chain None (length old) (dl ++ p) /\
    botLoopTail (bot w) = chain_end None (length old) (dl ++ p) /\
    replay (∅, "") dl = Some (botLoopTurns (bot w), botLoopConfig (bot w)).

Lemma replay_snoc b l o d e a b' b'' :
  replay b l = Some b' -> settle o d b' = (e, a, b'') ->
  replay b (l ++ [settled d e a o]) = Some b''.
Proof.
  revert b; induction l as [|o' l IH]; intros b; simpl.
  - intros [= ->] Hs. change (settle (settled d e a o) d b') with (settle o d b').
    rewrite Hs. by rewrite bool_decide_true.
  - destruct (ob_settled o'); [|done]. destruct (settle o' _ b) as [[? ?] ?].
    case_bool_decide; [|done]. apply IH.
Qed.

Lemma insert_middle {A} (l1 l2 : list A) x y :
  <[length l1 := y]> (l1 ++ x :: l2) = l1 ++ y :: l2.
Proof. by rewrite insert_app_r_alt, Nat.sub_diag by lia. Qed.

Lemma bot_ok_begin w s m c x :
  bot_ok w -> bot_ok (BeginBotLoop s m c x w).2.
Proof.
  intros (old & dl & p & Ho & Hold & Hcur & Hdl & Hp & Hch & Ht & Hr).
  unfold BeginBotLoop. case_decide; [by exists old, dl, p|]. simpl.
  match goal with |- context [_ ++ [?o]] => set (o0 := o) end.
  exists old, dl, (p ++ [o0]). simpl. rewrite Ho, <- !app_assoc.
  split; [done|]. split; [done|].
  rewrite (app_assoc dl p). split; [apply Forall_app; split; [done|by constructor]|].
  split; [done|]. split; [apply Forall_app; split; [done|by constructor]|].
  split; [|split; [|done]].
  - apply chain_app. split; [done|]. simpl. split; [|done]. by rewrite <- Ht.
  - unfold chain_end. destruct ((dl ++ p) ++ [o0]) eqn:E; [by destruct (dl ++ p)|].
    rewrite <- E. f_equal. rewrite !length_app. simpl. lia.
Qed.

Lemma bot_ok_reset w :
  (0 <= botLoopEpoch (bot w))%Z -> (botLoopEpoch (bot w) + 1 < u64_max)%Z ->
  bot_ok w -> bot_ok {| bot := reset_bots (bot w); observations := observations w |}.
Proof.
  intros H0 H1 (old & dl & p & Ho & Hold & Hcur & _).
  exists (observations w), [], []. unfold bot_ok; simpl. rewrite u64_succ_small by done.
  rewrite app_nil_r. split; [done|]. split; [|done].
  rewrite Ho, Forall_app. split.
  - eapply Forall_impl; [exact Hold|]. simpl. lia.
  - eapply Forall_impl; [exact Hcur|]. simpl. lia.
Qed.

(** An observation whose predecessor is done is the first unsettled one. *)
Lemma first_unsettled w old dl p1 o p2 :
  observations w = old ++ dl ++ p1 ++ o :: p2 ->
  Forall (fun o => ob_done o = true) dl -> Forall (fun o => ob_done o = false) (p1 ++ o :: p2) ->
  chain None (length old) (dl ++ p1 ++ o :: p2) ->
  previous_done o w = true -> p1 = [].
Proof.
  intros Ho Hdl Hp Hch Hprev. destruct (decide (p1 = [])) as [|Hne]; [done|]. exfalso.
  destruct (exists_last Hne) as (p0 & q & ->).
  rewrite app_assoc in Hch. apply chain_app in Hch as [_ [Hpr _]].
  unfold previous_done in Hprev. rewrite Hpr in Hprev.
  rewrite <- !app_assoc in Hp. apply Forall_app in Hp as [_ Hp]. simpl in Hp.
  apply Forall_cons_1 in Hp as [Hq _].
  assert (chain_end None (length old) (dl ++ p0 ++ [q]) = Some (length (old ++ dl ++ p0))) as E.
  { unfold chain_end. destruct (dl ++ p0 ++ [q]) eqn:El; [by destruct dl, p0|].
    rewrite <- El. f_equal. rewrite !length_app. simpl. lia. }
  rewrite E, Ho in Hprev.
  replace (old ++ dl ++ (p0 ++ [q]) ++ o :: p2) with ((old ++ dl ++ p0) ++ q :: o :: p2) in Hprev
    by (rewrite <- !app_assoc; done).
  rewrite list_lookup_middle in Hprev by done. congruence.
Qed.

Lemma bot_ok_finish w i d :
  bot_ok w -> bot_ok (bot_step w (EvFinish i d)).
Proof.
  intros Hok. unfold bot_step, FinishWithAdmission.
  destruct (observations w !! i) as [o|] eqn:Hi; [|done].
  destruct (ob_done o) eqn:Hdone; [done|].
  destruct (previous_done o w) eqn:Hprev; cbn [negb]; [|done].
  destruct Hok as (old & dl & p & Ho & Hold & Hcur & Hdl & Hp & Hch & Ht & Hr).
  pose proof Hi as Hi'. rewrite Ho in Hi'. apply lookup_app_Some in Hi' as [Hi'|[Hlen Hi']].
  - (* an observation of an earlier epoch changes no budget *)
    assert (ob_epoch o < botLoopEpoch (bot w))%Z as Hlt
      by (rewrite Forall_lookup in Hold; by eapply Hold).
    rewrite (proj2 (Z.eqb_neq _ _)) by lia.
    exists (<[i := settled d false false o]> old), dl, p. simpl.
    rewrite Ho, insert_app_l by (by eapply lookup_lt_Some). rewrite length_insert.
    split; [done|]. split; [|done]. by apply Forall_insert.
  - apply lookup_app_Some in Hi' as [Hi'|[Hlen2 Hi']].
    { rewrite Forall_lookup in Hdl. specialize (Hdl _ _ Hi'). simpl in Hdl. congruence. }
    apply list_elem_of_split_length in Hi' as (p1 & p2 & -> & Hlen1).
    assert (p1 = []) as -> by (by eapply first_unsettled).
    assert (ob_epoch o = botLoopEpoch (bot w)) as He.
    { rewrite Forall_app, Forall_app in Hcur. destruct Hcur as (_ & _ & Hcur).
      by apply Forall_cons_1 in Hcur as [? _]. }
    rewrite (proj2 (Z.eqb_eq _ _)) by done.
    destruct (settle o d (botLoopTurns (bot w), botLoopConfig (bot w))) as [[e a] b] eqn:Hs.
    cbn [app length] in *. assert (i = length (old ++ dl)) as -> by (rewrite length_app; lia).
    exists old, (dl ++ [settled d e a o]), p2. cbn [bot observations].
    rewrite Ho, app_assoc, insert_middle, <- !app_assoc. split; [done|].
    split; [done|].
    rewrite Forall_app in Hcur. destruct Hcur as [Hcur1 [_ Hcur2]%Forall_cons_1].
    split; [apply Forall_app; split; [done|by constructor]|].
    apply Forall_cons_1 in Hp as [_ Hp].
    split; [apply Forall_app; split; [done|by constructor]|]. split; [done|].
    split; [|split].
    + apply chain_app in Hch as [? [? ?]]. by apply chain_app.
    + unfold set_budget; cbn [botLoopTail]. rewrite Ht. unfold chain_end.
      destruct dl; cbn [app length]; [done|]. by rewrite !length_app.
    + destruct b as [t c]. by eapply replay_snoc.
Qed.

Lemma bot_run_ok w (l : list event) :
  bot_ok w -> (0 <= botLoopEpoch (bot w))%Z ->
  (botLoopEpoch (bot w) + Z.of_nat (resets l) < u64_max)%Z -> bot_ok (bot_run w l).
Proof.
  revert w; induction l as [|e l IH]; intros w Hok H0 Hr; [done|]. simpl.
  unfold resets in Hr. rewrite filter_cons in Hr. destruct e as [s m c x|i d|]; simpl in Hr.
  - apply IH; [by apply bot_ok_begin|..]; simpl; unfold BeginBotLoop; by case_decide.
  - assert (botLoopEpoch (bot (bot_step w (EvFinish i d))) = botLoopEpoch (bot w)) as E.
    { simpl. repeat (case_match; simpl; simplify_eq; try done). }
    apply IH; [by apply bot_ok_finish|..]; rewrite E; done.
  - apply IH; [apply bot_ok_reset; [done|lia|done]|..]; simpl;
      rewrite u64_succ_small by lia; unfold resets; lia.
Qed.

Lemma start_bots_ok : bot_ok start_bots.
Proof. by exists [], [], []. Qed.

Lemma current_ok w old dl p :
  observations w = old ++ dl ++ p ->
  Forall (fun o => ob_epoch o < botLoopEpoch (bot w))%Z old ->
  Forall (fun o => ob_epoch o = botLoopEpoch (bot w)) (dl ++ p) -> current w = dl ++ p.
Proof.
  intros Ho Hold Hcur. unfold current. rewrite Ho, filter_app, filter_none, filter_id; [done..|].
  eapply Forall_impl; [exact Hold|]. simpl. lia.
Qed.
End invariant.

(** * Properties *)

Lemma current_split w :
  bot_ok w ->
  exists dl p, current w = dl ++ p /\ Forall (fun o => ob_done o = true) dl /\
    Forall (fun o => ob_done o = false) p /\ settled_now w = dl /\
    replay (∅, "") dl = Some (botLoopTurns (bot w), botLoopConfig (bot w)).
Proof.
  intros (old & dl & p & Ho & Hold & Hcur & Hdl & Hp & _ & _ & Hr).
  exists dl, p. pose proof (current_ok w old dl p Ho Hold Hcur) as E. split; [done|].
  split; [done|]. split; [done|]. split; [|done].
  unfold settled_now. rewrite E, filter_app, filter_id, filter_none, app_nil_r; [done| |done].
  eapply Forall_impl; [exact Hp|]. simpl. congruence.
Qed.

(** C27: the budget depends on the arrival order alone.  After any interleaving
    of arrivals, finishes and resets, the settled observations of the current
    epoch are a prefix of the arrivals; replaying them in arrival order on the
    empty budget gives each the exceeded and admitted flags it was given, and
    ends in the budget the session holds. *)
Theorem bot_loop_arrival_order l :
  (Z.of_nat (resets l) < u64_max)%Z ->
  let w := bot_run start_bots l in
  settled_now w `prefix_of` current w /\
  replay (∅, "") (settled_now w) = Some (botLoopTurns (bot w), botLoopConfig (bot w)).
Proof.
  intros Hr w. destruct (current_split w) as (dl & p & E & _ & _ & -> & H).
  { apply bot_run_ok; [apply start_bots_ok|done|done]. }
  split; [by exists p|done].
Qed.

(** A marked message of [s] that was let through. *)
Definition passed (s : string) (o : BotLoopObservation) : bool :=
  bool_decide (ob_senderID o = s) && ob_marked o && negb (ob_exceeded o) && ob_admitted o
  && match ob_settled o with Some d => eligible d | None => false end.

(** An observation that leaves the budgets of [config] running under limit [lim]. *)
Definition keeps_budget (config : string) (lim : Z) (o : BotLoopObservation) : Prop :=
  ob_config o = config /\
  forall d, ob_settled o = Some d -> limit d = lim /\ (ob_explicitWake o = true -> ob_marked o = true).

Definition count_of (s config : string) (b : budget) : Z :=
  if decide (b.2 = config) then default 0%Z (b.1 !! s) else 0%Z.

(** One settlement under an unchanged configuration and no human wake. *)
Lemma settle_count s config lim o d b :
  (0 < lim)%Z -> limit d = lim -> ob_config o = config ->
  (ob_explicitWake o = true -> ob_marked o = true) ->
  (0 <= count_of s config b <= lim)%Z ->
  let '(e, a, b') := settle o d b in
  (0 <= count_of s config b' <= lim)%Z /\
  (count_of s config b + (if bool_decide (ob_senderID o = s) && ob_marked o && negb e && a && eligible d
                          then 1 else 0) <= count_of s config b')%Z.
Proof.
  intros Hl <- <- Hw Hb. destruct b as [t c]. unfold settle.
  assert ((if negb (bool_decide (c = ob_config o)) || (negb (ob_marked o) && ob_explicitWake o && eligible d)
           then ∅ else t) = if decide (c = ob_config o) then t else ∅) as ->.
  { destruct (ob_marked o), (ob_explicitWake o); simpl in *;
      try (by specialize (Hw eq_refl)); case_bool_decide; case_decide; done. }
  unfold count_of in *; simpl in *. set (t' := if decide (c = ob_config o) then t else ∅) in *.
  assert ((if decide (c = ob_config o) then default 0%Z (t !! s) else 0%Z) = default 0%Z (t' !! s)) as E.
  { subst t'. case_decide; [done|]. by rewrite lookup_empty. }
  rewrite E in *. clear E.
  destruct (admits d _); cbn [fst snd]; cycle 1.
  { rewrite andb_false_r. simpl. subst t'. case_decide; [lia|].
    rewrite lookup_empty in *. simpl in *. lia. }
  rewrite decide_True by done. rewrite (proj2 (Z.ltb_lt _ _)) by lia.
  destruct (ob_marked o && eligible d) eqn:Hc; simpl.
  - apply andb_true_iff in Hc as [-> ->]. rewrite !andb_true_r.
    destruct (decide (ob_senderID o = s)) as [->|Hs].
    + rewrite bool_decide_true, lookup_insert_eq by done. simpl.
      destruct (Z.leb_spec (limit d) (default 0%Z (t' !! s))); simpl; lia.
    + rewrite bool_decide_false, lookup_insert_ne by done. simpl. lia.
  - replace (bool_decide (ob_senderID o = s) && ob_marked o && true && true && eligible d) with false; [lia|].
    destruct (bool_decide _), (ob_marked o); simpl in *; congruence.
Qed.

Lemma replay_budget s config lim l b b' :
  (0 < lim)%Z -> Forall (keeps_budget config lim) l ->
  (0 <= count_of s config b <= lim)%Z -> replay b l = Some b' ->
  (count_of s config b + Z.of_nat (length (filter (fun o => passed s o = true) l)) <= lim)%Z.
Proof.
  intros Hl. revert b; induction l as [|o l IH]; intros b; simpl.
  { intros _ ? _. lia. }
  intros [[Hcf Hk] Hf]%Forall_cons_1 Hb. destruct (ob_settled o) as [d|] eqn:Hd; [|done].
  destruct (Hk d eq_refl) as [Hlim Hwake].
  pose proof (settle_count s config lim o d b Hl Hlim Hcf Hwake Hb) as Hs.
  destruct (settle o d b) as [[e a] b1].
  destruct (decide (e = ob_exceeded o /\ a = ob_admitted o)) as [[-> ->]|He];
    [rewrite bool_decide_true by done|by rewrite bool_decide_false].
  destruct Hs as [Hb1 Hs]. intros Hr. specialize (IH b1 Hf Hb1 Hr). rewrite filter_cons.
  unfold passed in *. rewrite Hd in *. destruct (decide _) as [E|E]; simpl.
  - rewrite E in Hs. lia.
  - apply not_true_is_false in E. rewrite E in Hs. lia.
Qed.

(** A bot gets at most [lim] replies.  In any run, while the observations
    of the epoch share a configuration and a positive limit and no human wakes
    the bot explicitly, at most [lim] marked messages of one sender are
    admitted without being reported as exceeding the budget. *)
Theorem bot_loop_budget l s config lim :
  (Z.of_nat (resets l) < u64_max)%Z -> (0 < lim)%Z ->
  let w := bot_run start_bots l in
  Forall (keeps_budget config lim) (settled_now w) ->
  (Z.of_nat (length (filter (fun o => passed s o = true) (settled_now w))) <= lim)%Z.
Proof.
  intros Hr Hl w Hf. destruct (current_split w) as (dl & p & _ & _ & _ & E & H).
  { apply bot_run_ok; [apply start_bots_ok|done|done]. }
  rewrite E in *.
  assert (count_of s config (∅, "") = 0%Z) as H0.
  { unfold count_of. simpl. case_decide; [|done]. by rewrite lookup_empty. }
  pose proof (replay_budget s config lim dl (∅, "") (botLoopTurns (bot w), botLoopConfig (bot w)) Hl Hf) as Hb. rewrite H0 in Hb.
  specialize (Hb ltac:(lia) H). lia.
Qed.

(** A rejected or late message leaves the budget alone: when admission
    refuses it, or when the session was reset after it arrived, finishing it
    changes neither the turns nor the configuration; and finishing twice
    returns the first result and changes nothing. *)
Theorem rejected_keeps_budget w i o d e a w' :
  observations w !! i = Some o ->
  FinishWithAdmission (Some i) d w = Some (e, a, w') ->
  (a = false \/ ob_epoch o <> botLoopEpoch (bot w) -> bot w' = bot w) /\
  forall d', FinishWithAdmission (Some i) d' w' = Some (e, a, w').
Proof.
  intros Ho HF. unfold FinishWithAdmission in HF. rewrite Ho in HF.
  destruct (ob_done o) eqn:Hdone.
  { injection HF as <- <- <-. split; [done|]. intros d'. unfold FinishWithAdmission.
    by rewrite Ho, Hdone. }
  destruct (negb (previous_done o w)); [done|].
  destruct (Z.eqb_spec (ob_epoch o) (botLoopEpoch (bot w))) as [He|He].
  - destruct (settle o d _) as [[e0 a0] b] eqn:Hs. injection HF as <- <- <-. split.
    + intros [->|?]; [|done]. unfold settle in Hs. destruct (bot w). simpl in *.
      unfold set_budget; simpl. injection Hs as _ Ha <-. by rewrite Ha.
    + intros d'. unfold FinishWithAdmission. cbn [observations].
      rewrite list_lookup_insert_eq by (by eapply lookup_lt_Some). done.
  - injection HF as <- <- <-. split; [done|]. intros d'. unfold FinishWithAdmission. cbn [observations].
    rewrite list_lookup_insert_eq by (by eapply lookup_lt_Some). done.
Qed.

(** ** Witnesses *)

Definition nod : decision := {| eligible := true; limit := 1; admission := None |}.
Definition run0 : list event :=
  [EvBegin "bot" true "c" false; EvBegin "bot" true "c" false; EvFinish 1 nod; EvFinish 0 nod;
   EvFinish 1 nod].

Lemma bot_loop_arrival_order_witness :
  map (fun o => ob_exceeded o) (settled_now (bot_run start_bots run0)) = [false; true] /\
  settled_now (bot_run start_bots run0) `prefix_of` current (bot_run start_bots run0).
Proof. split; [by vm_compute|]. by apply (bot_loop_arrival_order run0). Defined.

Lemma bot_loop_budget_witness :
  (Z.of_nat (length (filter (fun o => passed "bot" o = true) (settled_now (bot_run start_bots run0)))) <= 1)%Z.
Proof.
  apply (bot_loop_budget run0 "bot" "c" 1); [done|done|].
  vm_compute. repeat apply Forall_cons_2; try apply Forall_nil_2;
    (split; [reflexivity|]; intros ? [= <-]; split; [reflexivity|done]).
Defined.

Definition world1 : BotWorld := (BeginBotLoop "bot" true "c" false start_bots).2.
Definition refuse : decision := {| eligible := true; limit := 3; admission := Some (fun _ => false) |}.

Lemma rejected_keeps_budget_witness :
  FinishWithAdmission (Some 0) refuse world1 = Some (false, false, bot_step world1 (EvFinish 0 refuse)) /\
  bot (bot_step world1 (EvFinish 0 refuse)) = bot world1.
Proof.
  split; [by vm_compute|].
  eapply (rejected_keeps_budget world1 0 _ refuse false false); [by vm_compute|by vm_compute|by left].
Defined.
