(* ===== verification/GroupCompact.v ===== *)
(** Group compaction: the buffer, the running summary and the distillation
    sources of a group conversation, [internal/llm/session.go].

    Visible group messages are appended to a buffer; once enough of them are
    committed a snapshot goes to the compactor, and its summary replaces the
    messages of the snapshot.  A message that triggered a reply is staged until
    the turn is known to succeed (promote) or to be withdrawn (drop); dropping
    also rolls back a summary that already contains the message and revokes its
    use as a source of long-term group memory. *)

From S2P Require Import Prelude GoStrings GroupMessage SessionState Barrier.

Local Open Scope string_scope.
Local Open Scope list_scope.

Definition set_compact_fields (summary : string) (buffer : list groupCompactItem) (seq gen : Z)
    (groups : list SummaryGroup) (prevSummary : string) (prevGroups : list SummaryGroup)
    (lastIDs lastSenders : list string) (sources : gmap Z committedSourceInfo)
    (revoked : gset string) : CompactState := {|
  groupCompactSummary := summary; groupCompactBuffer := buffer; groupCompactSequence := seq;
  groupCompactGeneration := gen; groupSummaryGroups := groups;
  prevGroupCompactSummary := prevSummary; prevGroupSummaryGroups := prevGroups;
  lastCommittedMessageIDs := lastIDs; lastCommittedSenderIDs := lastSenders;
  validCommittedSources := sources; revokedMessageIDs := revoked |}.

Definition set_buffer (b : list groupCompactItem) (seq : Z) (c : CompactState) : CompactState :=
  set_compact_fields (groupCompactSummary c) b seq (groupCompactGeneration c)
    (groupSummaryGroups c) (prevGroupCompactSummary c) (prevGroupSummaryGroups c)
    (lastCommittedMessageIDs c) (lastCommittedSenderIDs c) (validCommittedSources c)
    (revokedMessageIDs c).

(** * Appending and staging *)

(** The dynamic type of [item any]. *)
Inductive ingest :=
  | InMessage (m : GroupCompactMessage)
  | InPointer (m : option GroupCompactMessage)
  | InText (s : string)
  | InStringer (s : string)
  | InOther.

Definition DefaultMaxGroupCompactBufferSize : Z := 200.

Definition with_id (messageID : option string) (m : GroupCompactMessage) : GroupCompactMessage :=
  match messageID with
  | Some id =>
      if decide (gm_MessageID m = "") then
        {| gm_Role := gm_Role m; gm_Sender := gm_Sender m; gm_SenderID := gm_SenderID m;
           gm_Content := gm_Content m; gm_ImageDescription := gm_ImageDescription m;
           gm_MessageID := TrimSpace id; gm_Time := gm_Time m; gm_raw := gm_raw m |}
      else m
  | None => m
  end.

Definition with_role (m : GroupCompactMessage) : GroupCompactMessage :=
  if decide (gm_Role m = "") then
    {| gm_Role := "user"; gm_Sender := gm_Sender m; gm_SenderID := gm_SenderID m;
       gm_Content := gm_Content m; gm_ImageDescription := gm_ImageDescription m;
       gm_MessageID := gm_MessageID m; gm_Time := gm_Time m; gm_raw := gm_raw m |}
  else m.

(** First pass of the eviction: the [n] oldest committed items. *)
Fixpoint evict_committed (n : nat) (l : list groupCompactItem) : list groupCompactItem :=
  match l with
  | [] => []
  | item :: l =>
      match n with
      | S n' => if negb (staged item) then evict_committed n' l else item :: evict_committed n l
      | O => item :: evict_committed O l
      end
  end.

(** Both passes: then the oldest staged items, down to the limit. *)
Definition evict (max : nat) (l : list groupCompactItem) : list groupCompactItem :=
  if (max <? length l)%nat then
    let l := evict_committed (length l - max) l in
    if (max <? length l)%nat then drop (length l - max) l else l
  else l.

Section append.
Context `{UnicodeCase}.

Definition ingest_message (item : ingest) (messageID : option string) : option GroupCompactMessage :=
  match item with
  | InMessage m => Some (with_id messageID m)
  | InPointer (Some m) => Some (with_id messageID m)
  | InPointer None => Some no_message
  | InText s | InStringer s => Some (ParseGroupCompactMessage s messageID)
  | InOther => None
  end.

Definition appendGroupCompactInternal (item : ingest) (stage : bool) (maxBufferSize : Z)
    (messageID : option string) (now : Z) (s : Session) : (Z * nat) * Session :=
  match ingest_message item messageID with
  | None => ((0%Z, 0), s)
  | Some msg =>
      if decide (TrimSpace (gm_Content msg) = "") then ((0%Z, 0), s) else
      let max := if (maxBufferSize <=? 0)%Z then DefaultMaxGroupCompactBufferSize else maxBufferSize in
      let c := compact s in
      let seq := u64_succ (groupCompactSequence c) in
      let buffer := evict (Z.to_nat max)
        (groupCompactBuffer c ++ [{| sequence := seq; message := with_role msg; staged := stage |}]) in
      ((seq, length buffer), touch now (set_compact (set_buffer buffer seq c) s))
  end.

Definition AppendGroupCompactMessage (item : ingest) (maxBufferSize : Z) (messageID : option string)
    (now : Z) (s : Session) : nat * Session :=
  let '((_, n), s) := appendGroupCompactInternal item false maxBufferSize messageID now s in (n, s).

Definition StageGroupCompactSlot (item : ingest) (maxBufferSize : Z) (messageID : option string)
    (now : Z) (s : Session) : (Z * nat) * Session :=
  appendGroupCompactInternal item true maxBufferSize messageID now s.

Definition StageGroupCompactMessage (item : ingest) (maxBufferSize : Z) (messageID : option string)
    (now : Z) (s : Session) : nat * Session :=
  let '((_, n), s) := appendGroupCompactInternal item true maxBufferSize messageID now s in (n, s).

Definition AppendGroupCompactString (content : string) (maxBufferSize : Z)
    (messageID : option string) (now : Z) (s : Session) : nat * Session :=
  AppendGroupCompactMessage (InText content) maxBufferSize messageID now s.
End append.

(** * Promoting *)

Definition promote_item (i : groupCompactItem) : groupCompactItem :=
  {| sequence := sequence i; message := message i; staged := false |}.

(** Which staged slot a call means: the sequence if there is one, else the ID. *)
Definition slot_matches (seq : Z) (msgID : string) (i : groupCompactItem) : bool :=
  if (0 <? seq)%Z then (sequence i =? seq)%Z
  else negb (bool_decide (msgID = "")) && bool_decide (gm_MessageID (message i) = msgID).

Definition PromoteGroupCompactSlot (seq : Z) (messageID : string) (now : Z) (s : Session)
    : bool * Session :=
  let msgID := TrimSpace messageID in
  if (seq =? 0)%Z && bool_decide (msgID = "") then (false, s) else
  let c := compact s in
  let hit i := staged i && slot_matches seq msgID i in
  if existsb hit (groupCompactBuffer c) then
    (true, touch now (set_compact
       (set_buffer (map (fun i => if hit i then promote_item i else i) (groupCompactBuffer c))
          (groupCompactSequence c) c) s))
  else (false, s).

Definition PromoteGroupCompactMessage (messageID : string) (now : Z) (s : Session) : bool * Session :=
  let msgID := TrimSpace messageID in
  if decide (msgID = "") then (false, s) else PromoteGroupCompactSlot 0 msgID now s.

(** * Dropping *)

Definition polluted (msgID : string) (c : CompactState) : bool :=
  contains msgID (lastCommittedMessageIDs c)
  || existsb (fun g => contains msgID (sg_MessageIDs g)) (groupSummaryGroups c).

(** The part of [DropGroupCompactSlotChecked] under the session lock: whether
    anything was dropped, the barriers to abort and the new state. *)
Definition drop_locked (seq : Z) (msgID : string) (t : TaskState) (c : CompactState)
    : bool * list Z * CompactState :=
  let goes i := if (0 <? seq)%Z then staged i && (sequence i =? seq)%Z
                else bool_decide (gm_MessageID (message i) = msgID) in
  let dropped := existsb goes (groupCompactBuffer c) in
  let buffer := filter (fun i => goes i = false) (groupCompactBuffer c) in
  let named := negb (bool_decide (msgID = "")) in
  let hasPollution := named && polluted msgID c in
  let sources := if named
    then filter (fun p => contains msgID (src_messageIDs p.2) = false) (validCommittedSources c)
    else validCommittedSources c in
  let invalidated := named && existsb (fun p => contains msgID (src_messageIDs p.2))
                                (map_to_list (validCommittedSources c)) in
  let barriers := if named then
      filter (fun id => match distillations t !! id with
                        | Some b => contains msgID (snap_MessageIDs (gb_snapshot b))
                        | None => false
                        end = true) (elements (groupDistillBarriers t))
    else [] in
  (dropped || hasPollution || invalidated, barriers,
   set_compact_fields
     (if hasPollution then prevGroupCompactSummary c else groupCompactSummary c)
     buffer (groupCompactSequence c) (u64_succ (groupCompactGeneration c))
     (if hasPollution then prevGroupSummaryGroups c else groupSummaryGroups c)
     (if hasPollution then "" else prevGroupCompactSummary c)
     (if hasPollution then [] else prevGroupSummaryGroups c)
     (if hasPollution then [] else lastCommittedMessageIDs c)
     (if hasPollution then [] else lastCommittedSenderIDs c)
     sources
     (if named then {[msgID]} ∪ revokedMessageIDs c else revokedMessageIDs c)).

(** [b.AbortAndWait()] on each of the barriers, up to its wait: the barriers,
    with the channel, that the caller then waits for. *)
Fixpoint abort_distillations (ids : list Z) (t : TaskState) : list (Z * nat) * TaskState :=
  match ids with
  | [] => ([], t)
  | id :: ids =>
      match distillations t !! id with
      | None => abort_distillations ids t
      | Some b =>
          let '(w, b) := gb_AbortAndWait b in
          let '(ws, t) := abort_distillations ids {|
            activeCancel := activeCancel t; activeRunID := activeRunID t;
            cancelledRuns := cancelledRuns t; nextExtractionID := nextExtractionID t;
            extractionCancels := extractionCancels t; extractionBarriers := extractionBarriers t;
            extractions := extractions t; nextGroupDistillID := nextGroupDistillID t;
            groupDistillBarriers := groupDistillBarriers t;
            distillations := <[id := b]> (distillations t) |} in
          (match w with Some ch => (id, ch) :: ws | None => ws end, t)
      end
  end.

Record drop_result := {
  dr_dropped : bool;
  dr_waits : list (Z * nat);
  dr_error : option string;
}.

(** [purge] is the group store's [PurgeDistilledEntries], if a store is bound;
    it runs after the waits. *)
Definition DropGroupCompactSlotChecked (purge : option (string -> option string))
    (seq : Z) (messageID : string) (now : Z) (s : Session) : drop_result * Session :=
  let msgID := TrimSpace messageID in
  if (seq =? 0)%Z && bool_decide (msgID = "")
  then ({| dr_dropped := false; dr_waits := []; dr_error := None |}, s) else
  let '(dropped, barriers, c) := drop_locked seq msgID (tasks s) (compact s) in
  let s := touch now (set_compact c s) in
  let '(waits, t) := abort_distillations barriers (tasks s) in
  let err := match purge with
    | Some p => if decide (msgID = "") then None
                else e ← p msgID; Some ("purge distilled group memory: " +:+ e)
    | None => None
    end in
  ({| dr_dropped := dropped || (0 <? length barriers)%nat; dr_waits := waits; dr_error := err |},
   set_tasks t s).

Definition DropGroupCompactSlot purge (seq : Z) (messageID : string) (now : Z) (s : Session)
    : bool * Session :=
  let '(r, s) := DropGroupCompactSlotChecked purge seq messageID now s in (dr_dropped r, s).
Definition DropGroupCompactMessageChecked purge (messageID : string) (now : Z) (s : Session)
    : drop_result * Session :=
  DropGroupCompactSlotChecked purge 0 messageID now s.
Definition DropGroupCompactMessage purge (messageID : string) (now : Z) (s : Session)
    : bool * Session :=
  DropGroupCompactSlot purge 0 messageID now s.

(** * Guards *)

(** A guard finalizes the staged slots of one turn exactly once. *)
Record StagedGroupCompactGuard := {
  sequences_of : list Z;
  guard_messageID : string;
  guard_senderID : string;
  finalized : bool;
}.

Definition NewStagedGroupCompactGuard (seq : Z) (messageID senderID : string)
    : StagedGroupCompactGuard := {|
  sequences_of := if (0 <? seq)%Z then [seq] else [];
  guard_messageID := TrimSpace messageID; guard_senderID := TrimSpace senderID;
  finalized := false |}.

Definition finalize (g : StagedGroupCompactGuard) : StagedGroupCompactGuard := {|
  sequences_of := sequences_of g; guard_messageID := guard_messageID g;
  guard_senderID := guard_senderID g; finalized := true |}.

Definition guard_Sequence (g : StagedGroupCompactGuard) : Z := hd 0%Z (sequences_of g).

Definition AddSequence (seq : Z) (g : StagedGroupCompactGuard) : StagedGroupCompactGuard :=
  if (seq =? 0)%Z || contains seq (sequences_of g) then g else {|
    sequences_of := sequences_of g ++ [seq]; guard_messageID := guard_messageID g;
    guard_senderID := guard_senderID g; finalized := finalized g |}.

Definition describe (description : string) (m : GroupCompactMessage) : GroupCompactMessage := {|
  gm_Role := gm_Role m; gm_Sender := gm_Sender m; gm_SenderID := gm_SenderID m;
  gm_Content := gm_Content m; gm_ImageDescription := description;
  gm_MessageID := gm_MessageID m; gm_Time := gm_Time m; gm_raw := gm_raw m |}.

Fixpoint describe_first (hit : groupCompactItem -> bool) (description : string)
    (l : list groupCompactItem) : option (list groupCompactItem) :=
  match l with
  | [] => None
  | i :: l =>
      if hit i then Some ({| sequence := sequence i; message := describe description (message i);
                             staged := staged i |} :: l)
      else l' ← describe_first hit description l; Some (i :: l')
  end.

Definition SetImageDescription (g : StagedGroupCompactGuard) (description : string) (s : Session)
    : bool * Session :=
  if (guard_Sequence g =? 0)%Z || bool_decide (description = "") then (false, s) else
  if finalized g then (false, s) else
  let c := compact s in
  let hit i := (sequence i =? guard_Sequence g)%Z && staged i
               && bool_decide (gm_Role (message i) = "user") in
  match describe_first hit description (groupCompactBuffer c) with
  | Some b => (true, set_compact (set_buffer b (groupCompactSequence c) c) s)
  | None => (false, s)
  end.

(** [StageGroupCompactWithGuard]. *)
Definition StageGroupCompactWithGuard `{UnicodeCase} (item : ingest) (maxBufferSize : Z)
    (senderID : string) (messageID : option string) (now : Z) (s : Session)
    : (StagedGroupCompactGuard * nat) * Session :=
  let msgID := default "" (TrimSpace <$> messageID) in
  let '((seq, n), s) := appendGroupCompactInternal item true maxBufferSize (Some msgID) now s in
  ((NewStagedGroupCompactGuard seq msgID senderID, n), s).

Fixpoint promote_slots (seqs : list Z) (msgID : string) (now : Z) (s : Session) : bool * Session :=
  match seqs with
  | [] => (false, s)
  | seq :: seqs =>
      let '(p, s) := PromoteGroupCompactSlot seq msgID now s in
      let '(q, s) := promote_slots seqs msgID now s in (p || q, s)
  end.

(** [Promote]: the slots are promoted and [onPromote] runs (the last result). *)
Definition Promote (g : StagedGroupCompactGuard) (now : Z) (s : Session)
    : bool * bool * StagedGroupCompactGuard * Session :=
  if finalized g then (false, false, g, s) else
  let '(promoted, s) := promote_slots (sequences_of g) (guard_messageID g) now s in
  (promoted, true, finalize g, s).

(** Only the last slot of a guard carries the message ID. *)
Fixpoint drop_slots (purge : option (string -> option string)) (seqs : list Z) (msgID : string)
    (now : Z) (s : Session) : bool * list (Z * nat) * list string * Session :=
  match seqs with
  | [] => (false, [], [], s)
  | seq :: seqs =>
      let id := match seqs with [] => msgID | _ => "" end in
      let '(r, s) := DropGroupCompactSlotChecked purge seq id now s in
      let '(d, ws, es, s) := drop_slots purge seqs msgID now s in
      (dr_dropped r || d, dr_waits r ++ ws, option_list (dr_error r) ++ es, s)
  end.

Definition DropChecked (purge : option (string -> option string)) (g : StagedGroupCompactGuard)
    (now : Z) (s : Session)
    : bool * list (Z * nat) * list string * StagedGroupCompactGuard * Session :=
  if finalized g then (false, [], [], g, s) else
  match sequences_of g with
  | [] =>
      let '(r, s) := DropGroupCompactSlotChecked purge 0 (guard_messageID g) now s in
      (dr_dropped r, dr_waits r, option_list (dr_error r), finalize g, s)
  | seqs =>
      let '(d, ws, es, s) := drop_slots purge seqs (guard_messageID g) now s in
      (d, ws, es, finalize g, s)
  end.

(** * Recent windows *)

Section windows.
(** Walk the buffer from the newest item; [keep] is what goes in the window,
    [cut] the truncated form of an oversized first item.  Both windows of the
    code run this loop. *)
Context {A : Type} (keep cut : GroupCompactMessage -> A).

Fixpoint recent_loop (limit : nat) (maxChars : Z) (excludeID : string) (total : Z)
    (selected : list A) (l : list groupCompactItem) : list A :=
  match l with
  | [] => selected
  | item :: l =>
      if staged item then recent_loop limit maxChars excludeID total selected l else
      if negb (bool_decide (excludeID = "")) && negb (bool_decide (gm_MessageID (message item) = ""))
         && bool_decide (gm_MessageID (message item) = excludeID)
      then recent_loop limit maxChars excludeID total selected l else
      if (limit <=? length selected)%nat then selected else
      let len := Z.of_nat (rune_count (FormatDisplay (message item))) in
      if (maxChars <=? total)%Z then selected else
      if (maxChars <? total + len)%Z then
        match selected with [] => [cut (message item)] | _ => selected end
      else recent_loop limit maxChars excludeID (total + len) (selected ++ [keep (message item)]) l
  end.

Definition recent (limit maxChars : Z) (excludeMessageID : string) (buffer : list groupCompactItem)
    : list A :=
  if ((limit <=? 0) || (maxChars <=? 0))%Z then [] else
  rev (recent_loop (Z.to_nat limit) maxChars (TrimSpace excludeMessageID) 0 [] (rev buffer)).
End windows.

(** [if maxChars < len(runes) { s = string(runes[:maxChars]) }]. *)
Definition truncate (maxChars : Z) (s : string) : string :=
  if (maxChars <? Z.of_nat (rune_count s))%Z then rune_take (Z.to_nat maxChars) s else s.

Definition truncate_message (maxChars : Z) (m : GroupCompactMessage) : GroupCompactMessage :=
  let content := truncate maxChars (gm_Content m) in
  let remaining := Z.max 0 (maxChars - Z.of_nat (rune_count content)) in
  {| gm_Role := gm_Role m; gm_Sender := gm_Sender m; gm_SenderID := gm_SenderID m;
     gm_Content := content; gm_ImageDescription := truncate remaining (gm_ImageDescription m);
     gm_MessageID := gm_MessageID m; gm_Time := gm_Time m; gm_raw := "" |}.

Definition recentPendingStructuredGroupMessagesLocked (limit maxChars : Z) (excludeMessageID : string)
    (c : CompactState) : list GroupCompactMessage :=
  recent (fun m => m) (truncate_message maxChars) limit maxChars excludeMessageID (groupCompactBuffer c).

Definition recentPendingGroupMessagesLocked (limit maxChars : Z) (excludeMessageID : string)
    (c : CompactState) : list string :=
  recent FormatDisplay (fun m => truncate maxChars (FormatDisplay m)) limit maxChars
    excludeMessageID (groupCompactBuffer c).

Definition SnapshotGroupContext (limit maxChars : Z) (excludeMessageID : string) (s : Session)
    : string * list string * list GroupCompactMessage * list SummaryGroup :=
  (groupCompactSummary (compact s),
   recentPendingGroupMessagesLocked limit maxChars excludeMessageID (compact s),
   recentPendingStructuredGroupMessagesLocked limit maxChars excludeMessageID (compact s),
   groupSummaryGroups (compact s)).

(** * Snapshot and commit *)

(** The committed items before the first staged one. *)
Definition eligible_items (c : CompactState) : list groupCompactItem :=
  take_while (fun i => negb (staged i)) (groupCompactBuffer c).

Definition SnapshotGroupCompact (bufferSize : Z) (s : Session) : option GroupCompactSnapshot :=
  let c := compact s in
  if ((bufferSize <=? 0) || (Z.of_nat (length (groupCompactBuffer c)) <? bufferSize))%Z
  then None else
  let el := eligible_items c in
  if (Z.of_nat (length el) <? bufferSize)%Z then None else
  Some {| snap_Summary := groupCompactSummary c; snap_Messages := map message el;
          snap_MessageIDs := map (fun i => gm_MessageID (message i)) el;
          snap_ThroughSequence := default 0%Z (sequence <$> last el);
          snap_Generation := groupCompactGeneration c |}.

Definition GroupCompactReady (bufferSize : Z) (s : Session) : bool :=
  (0 <? bufferSize)%Z && (bufferSize <=? Z.of_nat (length (eligible_items (compact s))))%Z.

(** Keep the 32 sources with the greatest sequences. *)
Definition maxCommittedSources : nat := 32.
Definition bound_sources (m : gmap Z committedSourceInfo) : gmap Z committedSourceInfo :=
  let seqs := sort_stable Z.ltb (map fst (map_to_list m)) in
  if (maxCommittedSources <? length seqs)%nat
  then fold_right delete m (take (length seqs - maxCommittedSources) seqs) else m.

(** [persist]: applied, or an error. *)
Definition CommitGroupCompactWithPersistence (snapshot : GroupCompactSnapshot) (summary : string)
    (persist : option (res string bool)) (now : Z) (s : Session)
    : (bool * option string) * Session :=
  let summary := TrimSpace summary in
  if decide (summary = "") then ((false, None), s) else
  let c := compact s in
  if negb (snap_Generation snapshot =? groupCompactGeneration c)%Z then ((false, None), s) else
  match persist with
  | Some (Err e) => ((false, Some e), s)
  | Some (Ok false) => ((false, None), s)
  | Some (Ok true) | None =>
      let senderIDs := filter (fun id => id <> "") (map gm_SenderID (snap_Messages snapshot)) in
      let src := {| src_sequence := snap_ThroughSequence snapshot;
                    src_messageIDs := snap_MessageIDs snapshot; src_senderIDs := senderIDs |} in
      let group := {| sg_Summary := summary; sg_MessageIDs := snap_MessageIDs snapshot;
        sg_StartMessageID := hd "" (snap_MessageIDs snapshot);
        sg_EndMessageID := default "" (last (snap_MessageIDs snapshot));
        sg_StartIndex := 0; sg_EndIndex := 0;
        sg_Messages := map FormatDisplay (snap_Messages snapshot);
        sg_StructuredMsgs := snap_Messages snapshot |} in
      ((true, None), touch now (set_compact (set_compact_fields summary
         (drop_while (fun i => sequence i <=? snap_ThroughSequence snapshot)%Z (groupCompactBuffer c))
         (groupCompactSequence c) (groupCompactGeneration c) [group]
         (groupCompactSummary c) (groupSummaryGroups c) (snap_MessageIDs snapshot) senderIDs
         (bound_sources (<[snap_ThroughSequence snapshot := src]> (validCommittedSources c)))
         (revokedMessageIDs c)) s))
  end.

Definition CommitGroupCompact (snapshot : GroupCompactSnapshot) (summary : string) (now : Z)
    (s : Session) : bool * Session :=
  let '((committed, _), s) := CommitGroupCompactWithPersistence snapshot summary None now s in
  (committed, s).

Definition GroupRunningSummary (s : Session) : string := groupCompactSummary (compact s).
Definition SummaryGroups (s : Session) : list SummaryGroup := groupSummaryGroups (compact s).
Definition GroupCompactGeneration (s : Session) : Z := groupCompactGeneration (compact s).
Definition GroupCompactBufferCount (s : Session) : nat := length (groupCompactBuffer (compact s)).
Definition GroupCompactBufferMessages (s : Session) : list GroupCompactMessage :=
  map message (groupCompactBuffer (compact s)).

Definition SetGroupRunningSummary (summary : string) (s : Session) : Session :=
  let c := compact s in
  set_compact (set_compact_fields summary (groupCompactBuffer c) (groupCompactSequence c)
    (groupCompactGeneration c) (groupSummaryGroups c) (prevGroupCompactSummary c)
    (prevGroupSummaryGroups c) (lastCommittedMessageIDs c) (lastCommittedSenderIDs c)
    (validCommittedSources c) (revokedMessageIDs c)) s.

(** Barriers are taken off the register, then aborted outside the lock. *)
Definition unregister_distillations (t : TaskState) : TaskState := {|
  activeCancel := activeCancel t; activeRunID := activeRunID t; cancelledRuns := cancelledRuns t;
  nextExtractionID := nextExtractionID t; extractionCancels := extractionCancels t;
  extractionBarriers := extractionBarriers t; extractions := extractions t;
  nextGroupDistillID := nextGroupDistillID t; groupDistillBarriers := ∅;
  distillations := distillations t |}.

Definition ResetGroupCompact (now : Z) (s : Session) : list (Z * nat) * Session :=
  let barriers := elements (groupDistillBarriers (tasks s)) in
  let c := compact s in
  let c := set_compact_fields "" [] (groupCompactSequence c) (u64_succ (groupCompactGeneration c))
             [] "" [] [] [] ∅ ∅ in
  let s := touch now (set_compact c s) in
  let '(waits, t) := abort_distillations barriers (unregister_distillations (tasks s)) in
  (waits, set_tasks t s).

(** * Distillation *)

(** The two checks of a snapshot against the session's committed sources. *)
Definition is_revoked (snapshot : GroupCompactSnapshot) (c : CompactState) : bool :=
  match validCommittedSources c !! snap_ThroughSequence snapshot with
  | None => true
  | Some src =>
      match src_messageIDs src, snap_MessageIDs snapshot with
      | a :: _, b :: _ => negb (bool_decide (a = b))
      | _, _ => false
      end
      || existsb (fun id => bool_decide (id ∈ revokedMessageIDs c)) (snap_MessageIDs snapshot)
  end.

(** An admitted barrier has an ID in the session's registers; [None] is the
    barrier that is born aborted. *)
Definition BeginGroupDistillation (snapshot : GroupCompactSnapshot) (s : Session)
    : option Z * Session :=
  if is_revoked snapshot (compact s) then (None, s) else
  let t := tasks s in
  let id := u64_succ (nextGroupDistillID t) in
  (Some id, set_tasks {|
     activeCancel := activeCancel t; activeRunID := activeRunID t; cancelledRuns := cancelledRuns t;
     nextExtractionID := nextExtractionID t; extractionCancels := extractionCancels t;
     extractionBarriers := extractionBarriers t; extractions := extractions t;
     nextGroupDistillID := id; groupDistillBarriers := {[id]} ∪ groupDistillBarriers t;
     distillations := <[id := {| gb_snapshot := snapshot; gb := new_barrier |}]> (distillations t) |} s).

(** The barrier that a refused snapshot gets. *)
Definition aborted_barrier (snapshot : GroupCompactSnapshot) : groupDistillationBarrier := {|
  gb_snapshot := snapshot;
  gb := {| state := barrierAborted; aborted := true; ctx_err := true; done := 0; doneClosed := true |} |}.

(** The cleanup [BeginGroupDistillation] returns, run once. *)
Definition EndGroupDistillation (id : Z) (s : Session) : Session :=
  match distillations (tasks s) !! id with
  | None => s
  | Some b =>
      let t := tasks s in
      let c := compact s in
      let b' := set_gb (set_ctx_err (gb (gb_EndCommit b))) (gb_EndCommit b) in
      set_compact (set_compact_fields (groupCompactSummary c) (groupCompactBuffer c)
        (groupCompactSequence c) (groupCompactGeneration c) (groupSummaryGroups c)
        (prevGroupCompactSummary c) (prevGroupSummaryGroups c) (lastCommittedMessageIDs c)
        (lastCommittedSenderIDs c)
        (delete (snap_ThroughSequence (gb_snapshot b)) (validCommittedSources c))
        (revokedMessageIDs c)) (set_tasks {|
        activeCancel := activeCancel t; activeRunID := activeRunID t; cancelledRuns := cancelledRuns t;
        nextExtractionID := nextExtractionID t; extractionCancels := extractionCancels t;
        extractionBarriers := extractionBarriers t; extractions := extractions t;
        nextGroupDistillID := nextGroupDistillID t;
        groupDistillBarriers := groupDistillBarriers t ∖ {[id]};
        distillations := <[id := b']> (distillations t) |} s)
  end.

(** * Eviction *)

Section eviction.
Implicit Types l : list groupCompactItem.

Definition staged_items l := filter (fun i => staged i = true) l.
Definition committed_items l := filter (fun i => staged i = false) l.

Lemma items_split l : length l = length (staged_items l) + length (committed_items l).
Proof.
  unfold staged_items, committed_items. induction l as [|i l IH]; [done|].
  rewrite !filter_cons. destruct (staged i); simpl; lia.
Qed.

Lemma evict_committed_sublist n l : evict_committed n l `sublist_of` l.
Proof.
  revert n; induction l as [|i l IH]; intros n; simpl; [done|].
  destruct n; [by apply sublist_skip|]. destruct (staged i); simpl;
    [by apply sublist_skip|by apply sublist_cons].
Qed.

Lemma evict_committed_staged n l : staged_items (evict_committed n l) = staged_items l.
Proof.
  unfold staged_items. revert n; induction l as [|i l IH]; intros n; simpl; [done|].
  destruct n as [|n]; [rewrite !filter_cons; case_decide; by rewrite IH|].
  destruct (staged i) eqn:E; simpl; rewrite !filter_cons, E; simpl; by rewrite IH.
Qed.

Lemma evict_committed_length n l :
  length (committed_items (evict_committed n l)) = length (committed_items l) - n.
Proof.
  unfold committed_items. revert n; induction l as [|i l IH]; intros n; [done|].
  simpl. destruct n as [|n]; [rewrite !filter_cons; case_decide; simpl; rewrite IH; lia|].
  destruct (staged i) eqn:E; simpl; rewrite !filter_cons, E; simpl; by rewrite IH.
Qed.

(** The buffer keeps as many items as fit, in order, and no staged item is
    evicted while the staged items fit. *)
Lemma evict_spec max l :
  length (evict max l) = Nat.min max (length l) /\ evict max l `sublist_of` l /\
  (length (staged_items l) <= max -> staged_items (evict max l) = staged_items l).
Proof.
  unfold evict. pose proof (items_split l) as Hs.
  pose proof (items_split (evict_committed (length l - max) l)) as He.
  rewrite evict_committed_staged, evict_committed_length in He.
  pose proof (evict_committed_sublist (length l - max) l) as Hsub.
  destruct (Nat.ltb_spec max (length l)); [|split; [lia|done]].
  destruct (Nat.ltb_spec max (length (evict_committed (length l - max) l))).
  - split; [rewrite length_drop; lia|]. split; [|lia].
    etransitivity; [apply sublist_drop|exact Hsub].
  - split; [lia|]. split; [done|]. intros _. apply evict_committed_staged.
Qed.
End eviction.

(** * Invariant *)

(** Sequences increase along the buffer and stay below the counter; at most 32
    committed sources are kept. *)
Definition compact_ok (c : CompactState) : Prop :=
  handles 0 (map sequence (groupCompactBuffer c)) (groupCompactSequence c) /\
  size (validCommittedSources c) <= maxCommittedSources.

(** [c'] comes from [c]: an item whose sequence [c] could have given out is an
    item of [c], unchanged if it was committed. *)
Definition continues (c c' : CompactState) : Prop :=
  (groupCompactSequence c <= groupCompactSequence c')%Z /\
  forall i', i' ∈ groupCompactBuffer c' -> (sequence i' <= groupCompactSequence c)%Z ->
    exists i, i ∈ groupCompactBuffer c /\ sequence i = sequence i' /\
      (staged i = false -> i' = i).

#[global] Instance continues_preorder : PreOrder continues.
Proof.
  split.
  - intros c. split; [lia|]. eauto.
  - intros c1 c2 c3 [H1 H1'] [H2 H2']. split; [lia|]. intros i3 Hi Hle.
    destruct (H2' i3 Hi) as (i2 & Hi2 & E2 & S2); [lia|].
    destruct (H1' i2 Hi2) as (i1 & Hi1 & E1 & S1); [lia|].
    exists i1. split; [done|]. split; [lia|]. intros Hs. specialize (S1 Hs) as ->.
    by apply S2.
Qed.

Lemma continues_sublist c b c' :
  groupCompactSequence c' = groupCompactSequence c -> groupCompactBuffer c' = b ->
  b `sublist_of` groupCompactBuffer c -> continues c c'.
Proof.
  intros Hq Hb Hs. split; [lia|]. intros i. rewrite Hb. intros Hi _. exists i.
  split; [by eapply elem_of_sublist|done].
Qed.

Lemma compact_ok_sublist c c' :
  compact_ok c -> groupCompactSequence c' = groupCompactSequence c ->
  groupCompactBuffer c' `sublist_of` groupCompactBuffer c ->
  size (validCommittedSources c') <= maxCommittedSources -> compact_ok c'.
Proof.
  intros [Hh _] Hq Hs Hn. split; [|done]. rewrite Hq.
  eapply handles_sublist; [|exact Hh]. by apply sublist_map.
Qed.

(** ** Sources *)

Lemma size_delete_list (l : list Z) (m : gmap Z committedSourceInfo) :
  NoDup l -> (forall x, x ∈ l -> is_Some (m !! x)) ->
  size (fold_right delete m l) = size m - length l.
Proof.
  induction l as [|x l IH]; intros Hnd Hin; simpl; [lia|].
  apply NoDup_cons in Hnd as [Hx Hnd].
  rewrite map_size_delete_Some.
  - rewrite IH; [lia|done|]. intros; apply Hin. by right.
  - assert (is_Some (m !! x)) as [v Hv] by (apply Hin; by left). exists v.
    clear -Hx Hv. induction l as [|y l IH]; [done|]. simpl.
    rewrite lookup_delete_ne by set_solver. apply IH. set_solver.
Qed.

Lemma bound_sources_size m : size (bound_sources m) <= maxCommittedSources.
Proof.
  unfold bound_sources. set (seqs := sort_stable Z.ltb (map fst (map_to_list m))).
  assert (seqs ≡ₚ map fst (map_to_list m)) as Hp by apply sort_stable_perm.
  assert (length seqs = size m) as Hl.
  { rewrite Hp, length_map. apply length_map_to_list. }
  assert (NoDup seqs) as Hnd by (rewrite Hp; apply NoDup_fst_map_to_list).
  destruct (Nat.ltb_spec maxCommittedSources (length seqs)); [|lia].
  rewrite size_delete_list.
  - rewrite length_take. lia.
  - rewrite <- (take_drop (length seqs - maxCommittedSources) seqs) in Hnd.
    by apply NoDup_app in Hnd as [? _].
  - intros x Hx%elem_of_take. destruct Hx as (i & Hx & _).
    apply list_elem_of_lookup_2 in Hx. rewrite Hp in Hx.
    apply list_elem_of_fmap in Hx as ([k v] & -> & Hkv). apply elem_of_map_to_list in Hkv. by exists v.
Qed.

(** ** Sequences of operations *)

Inductive compact_op :=
  | CAppend (item : ingest) (stage : bool) (maxBufferSize : Z) (messageID : option string) (now : Z)
  | CPromote (seq : Z) (messageID : string) (now : Z)
  | CDescribe (g : StagedGroupCompactGuard) (description : string)
  | CDrop (seq : Z) (messageID : string) (now : Z)
  | CCommit (snapshot : GroupCompactSnapshot) (summary : string) (persist : option (res string bool)) (now : Z)
  | CBegin (snapshot : GroupCompactSnapshot)
  | CEnd (id : Z)
  | CReset (now : Z).

Section runs.
Context `{UnicodeCase} (purge : option (string -> option string)).

Definition compact_step (s : Session) (o : compact_op) : Session :=
  match o with
  | CAppend item stage max id now => (appendGroupCompactInternal item stage max id now s).2
  | CPromote seq id now => (PromoteGroupCompactSlot seq id now s).2
  | CDescribe g d => (SetImageDescription g d s).2
  | CDrop seq id now => (DropGroupCompactSlotChecked purge seq id now s).2
  | CCommit snap summary persist now =>
      (CommitGroupCompactWithPersistence snap summary persist now s).2
  | CBegin snap => (BeginGroupDistillation snap s).2
  | CEnd id => EndGroupDistillation id s
  | CReset now => (ResetGroupCompact now s).2
  end.

Definition compact_run (s : Session) (l : list compact_op) : Session := fold_left compact_step l s.

(** The sequence counter does not wrap: each operation takes at most one. *)
Definition seq_room (n : nat) (s : Session) : Prop :=
  (groupCompactSequence (compact s) + Z.of_nat n < u64_max)%Z.

(** Whether an operation invalidates the snapshots taken before it. *)
Definition invalidates (o : compact_op) : bool :=
  match o with
  | CDrop seq id _ => negb ((seq =? 0)%Z && bool_decide (TrimSpace id = ""))
  | CReset _ => true
  | _ => false
  end.
End runs.

Section step.
Context `{UnicodeCase} (purge : option (string -> option string)).

Lemma map_promote_sequence hit l :
  map sequence (map (fun i => if hit i : bool then promote_item i else i) l) = map sequence l.
Proof. rewrite map_map. apply map_ext. intros i. by destruct (hit i). Qed.

Lemma describe_first_Some hit d l l' :
  describe_first hit d l = Some l' ->
  map sequence l' = map sequence l /\
  forall i', i' ∈ l' -> i' ∈ l \/ exists i, i ∈ l /\ hit i = true /\ sequence i' = sequence i.
Proof.
  revert l'; induction l as [|i l IH]; intros l'; simpl; [done|].
  destruct (hit i) eqn:Hh.
  - intros [= <-]. simpl. split; [done|]. intros i' [->|Hi]%elem_of_cons.
    + right. exists i. simpl. split; [by left|done].
    + left. by right.
  - intros (l1 & Hd & [= <-])%bind_Some. destruct (IH _ Hd) as [E Hin]. simpl. split; [congruence|].
    intros i' [->|Hi]%elem_of_cons; [left; by left|].
    destruct (Hin _ Hi) as [?|(j & ? & ?)]; [left; by right|right].
    exists j. split; [by right|done].
Qed.

Lemma append_compact item stage max id now s :
  compact (appendGroupCompactInternal item stage max id now s).2 = compact s \/
  exists msg n,
    compact (appendGroupCompactInternal item stage max id now s).2 =
    set_buffer (evict n (groupCompactBuffer (compact s) ++
        [{| sequence := u64_succ (groupCompactSequence (compact s)); message := msg; staged := stage |}]))
      (u64_succ (groupCompactSequence (compact s))) (compact s).
Proof.
  unfold appendGroupCompactInternal. destruct (ingest_message item id) as [msg|]; [|by left].
  case_decide; [by left|]. right. eauto.
Qed.

Lemma continues_append c n msg stage :
  compact_ok c -> (groupCompactSequence c + 1 < u64_max)%Z ->
  let seq := u64_succ (groupCompactSequence c) in
  let c' := set_buffer (evict n (groupCompactBuffer c ++
      [{| sequence := seq; message := msg; staged := stage |}])) seq c in
  compact_ok c' /\ continues c c'.
Proof.
  intros [Hh Hs] Hr seq c'. pose proof (handles_bounds _ _ _ Hh).
  assert (seq = groupCompactSequence c + 1)%Z as E by (apply u64_succ_small; lia).
  destruct (evict_spec n (groupCompactBuffer c ++ [{| sequence := seq; message := msg; staged := stage |}]))
    as (_ & Hsub & _). subst c'. split; [split; [simpl|done]|].
  - eapply handles_sublist; [by apply sublist_map|]. rewrite map_app. simpl.
    eapply handles_snoc; [exact Hh|lia].
  - split; simpl; [lia|]. intros i Hi Hle. eapply elem_of_sublist in Hi; [|exact Hsub].
    apply elem_of_app in Hi as [Hi|Hi%list_elem_of_singleton]; [by exists i|].
    subst i. simpl in Hle. lia.
Qed.

Lemma drop_locked_ok seq id t c d bs c' :
  compact_ok c -> drop_locked seq id t c = (d, bs, c') -> compact_ok c' /\ continues c c'.
Proof.
  intros Hok [= <- <- <-].
  match goal with |- compact_ok ?x /\ _ =>
    assert (groupCompactBuffer x `sublist_of` groupCompactBuffer c) as Hsub end.
  { simpl. apply sublist_filter. }
  split; [|by eapply continues_sublist].
  eapply compact_ok_sublist; [done|done|done|]. simpl. destruct Hok as [_ Hs].
  destruct (negb (bool_decide (id = ""))); [|done]. etransitivity; [|exact Hs]. apply map_size_filter.
Qed.

Lemma drop_while_sublist {A} (p : A -> bool) l : drop_while p l `sublist_of` l.
Proof. rewrite <- (take_drop_while p l) at 2. by apply sublist_inserts_l. Qed.

Lemma compact_step_ok s o :
  compact_ok (compact s) -> seq_room 1 s ->
  compact_ok (compact (compact_step purge s o)) /\
  continues (compact s) (compact (compact_step purge s o)).
Proof.
  intros Hok Hr. unfold seq_room in Hr. destruct o as [item stage max id now|seq id now|g d|seq id now|snap sum pst now|snap|id|now];
    unfold compact_step.
  - destruct (append_compact item stage max id now s) as [->|(msg & n & ->)]; [done|].
    by apply continues_append.
  - unfold PromoteGroupCompactSlot. case_match; [done|]. case_match; [|done]. simpl.
    set (hit := fun i => staged i && slot_matches seq (TrimSpace id) i). split.
    + destruct Hok as [Hh Hs]. split; simpl; [|done]. by rewrite map_promote_sequence.
    + split; simpl; [lia|]. intros i' Hi _. apply list_elem_of_fmap in Hi as (i & -> & Hi).
      exists i. split; [done|]. destruct (staged i) eqn:Hst; simpl; [|done].
      split; [by case_match|done].
  - unfold SetImageDescription. do 2 (case_match; [done|]). simpl. case_match eqn:Hd; [|done].
    simpl. apply describe_first_Some in Hd as [E Hin]. split.
    + destruct Hok as [Hh Hs]. split; simpl; [by rewrite E|done].
    + split; simpl; [lia|]. intros i' Hi _. destruct (Hin _ Hi) as [?|(i & ? & Hh & Hq)]; [by exists i'|].
      exists i. split; [done|split; [done|]]. intros Hst. rewrite Hst, andb_false_r in Hh. done.
  - unfold DropGroupCompactSlotChecked. case_match; [done|].
    destruct (drop_locked seq (TrimSpace id) (tasks s) (compact s)) as [[d bs] c'] eqn:Hd.
    destruct (abort_distillations bs _) as [ws t]. simpl. by eapply drop_locked_ok.
  - unfold CommitGroupCompactWithPersistence. case_decide; [done|]. case_match; [done|].
    assert (forall c, groupCompactBuffer c = drop_while (fun i => sequence i <=? snap_ThroughSequence snap)%Z
        (groupCompactBuffer (compact s)) -> groupCompactSequence c = groupCompactSequence (compact s) ->
        size (validCommittedSources c) <= maxCommittedSources ->
        compact_ok c /\ continues (compact s) c) as Hc.
    { intros c Hb Hq Hn. pose proof (drop_while_sublist (fun i => sequence i <=? snap_ThroughSequence snap)%Z
        (groupCompactBuffer (compact s))) as Hsub. rewrite <- Hb in Hsub.
      split; [by eapply compact_ok_sublist|exact (continues_sublist _ _ _ Hq eq_refl Hsub)]. }
    destruct pst as [[[]|]|]; [|done|done|]; simpl; (apply Hc; [done..|apply bound_sources_size]).
  - unfold BeginGroupDistillation. by case_match.
  - unfold EndGroupDistillation. case_match; [|done]. simpl. split.
    + apply (compact_ok_sublist (compact s)); [done..|]. simpl. destruct Hok as [_ Hs].
      etransitivity; [|exact Hs]. rewrite map_size_delete. case_match; cbn; lia.
    + by eapply continues_sublist; [done|reflexivity|].
  - unfold ResetGroupCompact. destruct (abort_distillations _ _) as [ws t]. simpl. split.
    + split; simpl; [|rewrite map_size_empty; unfold maxCommittedSources; lia].
      destruct Hok as [Hh _]. by eapply handles_bounds.
    + eapply continues_sublist; [done|done|]. simpl. apply sublist_nil_l.
Qed.

Lemma compact_run_ok s l :
  compact_ok (compact s) -> seq_room (length l) s ->
  compact_ok (compact (compact_run purge s l)) /\
  continues (compact s) (compact (compact_run purge s l)).
Proof.
  revert s; induction l as [|o l IH]; intros s Hok Hr; [done|]. simpl.
  destruct (compact_step_ok s o Hok) as [Hok1 Hc1]; [unfold seq_room in *; simpl in *; lia|].
  assert (groupCompactSequence (compact (compact_step purge s o)) <= groupCompactSequence (compact s) + 1)%Z as Hq.
  { pose proof (handles_bounds _ _ _ (proj1 Hok)). destruct o as [item stage max id now| | | | | | | ]; simpl.
    - destruct (append_compact item stage max id now s) as [->|(msg & n & ->)]; simpl; [lia|].
      rewrite u64_succ_small; [lia|lia|]. unfold seq_room in Hr; simpl in Hr. lia.
    - unfold PromoteGroupCompactSlot. repeat case_match; simpl; lia.
    - unfold SetImageDescription. repeat case_match; simpl; lia.
    - unfold DropGroupCompactSlotChecked. case_match; simpl; [lia|].
      destruct (abort_distillations _ _). simpl. lia.
    - unfold CommitGroupCompactWithPersistence. repeat case_match; simpl; lia.
    - unfold BeginGroupDistillation. case_match; simpl; lia.
    - unfold EndGroupDistillation. case_match; simpl; lia.
    - unfold ResetGroupCompact. destruct (abort_distillations _ _). simpl. lia. }
  destruct (IH _ Hok1) as [Hok2 Hc2]; [unfold seq_room in *; simpl in *; lia|].
  split; [done|]. by etransitivity.
Qed.

(** ** Generations *)

Lemma compact_generation_step s o :
  groupCompactGeneration (compact (compact_step purge s o)) =
  if invalidates o then u64_succ (groupCompactGeneration (compact s))
  else groupCompactGeneration (compact s).
Proof.
  destruct o as [item stage max id now|seq id now|g d|seq id now|snap sum pst now|snap|id|now]; simpl.
  - by destruct (append_compact item stage max id now s) as [->|(msg & n & ->)].
  - unfold PromoteGroupCompactSlot. repeat case_match; done.
  - unfold SetImageDescription. repeat case_match; done.
  - unfold DropGroupCompactSlotChecked. destruct (_ && _); [done|].
    destruct (drop_locked seq (TrimSpace id) (tasks s) (compact s)) as [[d bs] c'] eqn:Hd.
    destruct (abort_distillations bs _). simpl. by injection Hd as <- <- <-.
  - unfold CommitGroupCompactWithPersistence. repeat case_match; done.
  - unfold BeginGroupDistillation. by case_match.
  - unfold EndGroupDistillation. by case_match.
  - unfold ResetGroupCompact. by destruct (abort_distillations _ _).
Qed.

Definition invalidations (l : list compact_op) : nat :=
  length (filter (fun o => invalidates o = true) l).

Lemma compact_generation_run s l :
  is_u64 (groupCompactGeneration (compact s)) ->
  groupCompactGeneration (compact (compact_run purge s l)) =
  u64 (groupCompactGeneration (compact s) + Z.of_nat (invalidations l)).
Proof.
  unfold invalidations. revert s; induction l as [|o l IH]; intros s Hg; simpl.
  { unfold u64. rewrite Z.add_0_r, Z.mod_small; done. }
  pose proof (compact_generation_step s o) as E. rewrite filter_cons. rewrite IH; rewrite E.
  - destruct (invalidates o); simpl; [|done].
    unfold u64_succ, u64, u64_max. rewrite Z.add_mod_idemp_l by lia. f_equal. lia.
  - destruct (invalidates o); [apply u64_is_u64|done].
Qed.
End step.

(** * Properties *)

Section properties.
Context `{UnicodeCase} (purge : option (string -> option string)).
Local Abbreviation run := (compact_run purge).

(** Appending keeps the buffer within its limit and in order, and never
    evicts a staged message to make room for chatter: as long as the staged
    messages themselves fit, every one of them is still there. *)
Theorem append_bounded item stage max id now s :
  let r := appendGroupCompactInternal item stage max id now s in
  let limit := if (max <=? 0)%Z then DefaultMaxGroupCompactBufferSize else max in
  let buffer := groupCompactBuffer (compact s) in
  r = ((0%Z, 0), s) \/
  exists new, sequence new = u64_succ (groupCompactSequence (compact s)) /\ staged new = stage /\
    r.1 = (sequence new, length (groupCompactBuffer (compact r.2))) /\
    length (groupCompactBuffer (compact r.2)) = Nat.min (Z.to_nat limit) (S (length buffer)) /\
    groupCompactBuffer (compact r.2) `sublist_of` buffer ++ [new] /\
    (length (staged_items (buffer ++ [new])) <= Z.to_nat limit ->
     staged_items (groupCompactBuffer (compact r.2)) = staged_items (buffer ++ [new])).
Proof.
  intros r limit buffer. unfold r, appendGroupCompactInternal.
  destruct (ingest_message item id) as [msg|]; [|by left]. case_decide; [by left|]. right.
  match goal with |- context [evict _ (_ ++ [?n])] => exists n; set (new := n) end.
  destruct (evict_spec (Z.to_nat limit) (buffer ++ [new])) as (Hl & Hs & Hst).
  split; [done|]. split; [done|]. split; [done|]. split; [|exact (conj Hs Hst)].
  etransitivity; [exact Hl|]. rewrite length_app, Nat.add_comm. done.
Qed.

Lemma handles_split_items lo l hi t :
  handles lo (map sequence l) hi ->
  l = take_while (fun i => sequence i <=? t)%Z l ++ drop_while (fun i => sequence i <=? t)%Z l /\
  Forall (fun i => sequence i <= t)%Z (take_while (fun i => sequence i <=? t)%Z l) /\
  Forall (fun i => t < sequence i)%Z (drop_while (fun i => sequence i <=? t)%Z l).
Proof.
  intros Hh. split; [by rewrite take_drop_while|]. split.
  - eapply Forall_impl; [apply take_while_Forall|]. simpl. intros i. apply Z.leb_le.
  - revert lo Hh. induction l as [|i l IH]; intros lo Hh; simpl; [done|].
    destruct Hh as [Hi Hh]. destruct (Z.leb_spec (sequence i) t); [by eapply IH|].
    constructor; [lia|]. apply Forall_forall. intros j Hj.
    apply (list_elem_of_fmap_2 sequence) in Hj. pose proof (handles_elem _ _ _ _ Hh Hj). lia.
Qed.

(** The committed items up to the last eligible one are the eligible ones. *)
Lemma eligible_prefix c i :
  compact_ok c -> i ∈ groupCompactBuffer c ->
  (sequence i <= default 0%Z (sequence <$> last (eligible_items c)))%Z ->
  i ∈ eligible_items c.
Proof.
  unfold eligible_items. intros [Hh _] Hi Hle. set (p := fun i => negb (staged i)) in *.
  rewrite <- (take_drop_while p (groupCompactBuffer c)), map_app in Hh.
  rewrite <- (take_drop_while p (groupCompactBuffer c)) in Hi.
  apply elem_of_app in Hi as [|Hi]; [done|]. exfalso.
  destruct (last (take_while p (groupCompactBuffer c))) as [j|] eqn:Hj; simpl in Hle.
  - apply last_Some in Hj as [l Hj]. rewrite Hj, map_app in Hh. simpl in Hh.
    rewrite <- app_assoc in Hh. simpl in Hh. revert Hh. generalize 0%Z as lo.
    induction (map sequence l) as [|x k IH]; intros lo; simpl; [|by intros [_ ?]; eauto].
    intros [_ Hh]. apply (list_elem_of_fmap_2 sequence) in Hi.
    pose proof (handles_elem _ _ _ _ Hh Hi). lia.
  - assert (sequence i ∈ map sequence (take_while p (groupCompactBuffer c)) ++
      map sequence (drop_while p (groupCompactBuffer c))) as Hin.
    { apply elem_of_app. right. by apply (list_elem_of_fmap_2 sequence). }
    pose proof (handles_elem _ _ _ _ Hh Hin). lia.
Qed.

(** C26: a commit removes from the buffer nothing that was not summarized.
    Whatever happens between the snapshot and the commit (messages appended,
    staged, promoted, described or evicted), if the commit is accepted the
    buffer splits into a removed front, all of whose messages are in the
    snapshot, and the rest, which is kept unchanged and in order; every
    snapshotted message was a committed one. *)
Theorem commit_keeps_unsummarized n s snap l summary persist now s3 :
  compact_ok (compact s) -> seq_room (length l) s ->
  SnapshotGroupCompact n s = Some snap ->
  let s2 := run s l in
  CommitGroupCompactWithPersistence snap summary persist now s2 = ((true, None), s3) ->
  (forall m, m ∈ snap_Messages snap ->
     exists i, i ∈ groupCompactBuffer (compact s) /\ message i = m /\ staged i = false) /\
  exists removed,
    groupCompactBuffer (compact s2) = removed ++ groupCompactBuffer (compact s3) /\
    Forall (fun i => staged i = false /\ message i ∈ snap_Messages snap) removed /\
    groupCompactSummary (compact s3) = TrimSpace summary.
Proof.
  intros Hok Hr HS s2 HC. unfold SnapshotGroupCompact in HS.
  do 2 (case_match; [done|]). injection HS as <-.
  destruct (compact_run_ok purge s l Hok Hr) as [Hok2 Hcont]. fold s2 in Hok2, Hcont.
  pose proof (take_while_Forall (fun i => negb (staged i)) (groupCompactBuffer (compact s))) as Hel.
  fold (eligible_items (compact s)) in Hel. rewrite Forall_forall in Hel.
  split.
  { simpl. intros m Hm. apply list_elem_of_fmap in Hm as (i & -> & Hi). exists i.
    split; [|split; [done|]].
    - unfold eligible_items in Hi. rewrite <- (take_drop_while (fun i => negb (staged i))).
      apply elem_of_app. by left.
    - by apply negb_true_iff, Hel. }
  set (t := default 0%Z (sequence <$> last (eligible_items (compact s)))) in *.
  destruct (handles_split_items 0 (groupCompactBuffer (compact s2)) _ t (proj1 Hok2)) as (E & Hpre & _).
  exists (take_while (fun i => sequence i <=? t)%Z (groupCompactBuffer (compact s2))).
  unfold CommitGroupCompactWithPersistence in HC. cbn [snap_Generation snap_ThroughSequence] in HC.
  fold t in HC. case_decide; [done|]. destruct (negb _); [done|].
  assert (groupCompactBuffer (compact s3) = drop_while (fun i => sequence i <=? t)%Z (groupCompactBuffer (compact s2))
          /\ groupCompactSummary (compact s3) = TrimSpace summary) as [-> ->].
  { destruct persist as [[[]|]|]; try done; by injection HC as <-. }
  split; [done|]. split; [|done]. rewrite Forall_forall in *. intros i Hi.
  specialize (Hpre i Hi). simpl in Hpre.
  assert (i ∈ groupCompactBuffer (compact s2)) as Hib by (rewrite E; apply elem_of_app; by left).
  assert (t <= groupCompactSequence (compact s))%Z as Ht.
  { subst t. destruct (last (eligible_items (compact s))) as [j|] eqn:Hj; simpl.
    - apply last_Some_elem_of in Hj. unfold eligible_items in Hj.
      assert (j ∈ groupCompactBuffer (compact s)) as Hjb.
      { rewrite <- (take_drop_while (fun i => negb (staged i))). apply elem_of_app. by left. }
      apply (list_elem_of_fmap_2 sequence) in Hjb.
      by pose proof (handles_elem _ _ _ _ (proj1 Hok) Hjb) as [_ ?].
    - by pose proof (handles_bounds _ _ _ (proj1 Hok)). }
  destruct Hcont as [_ Hcont]. destruct (Hcont i Hib) as (j & Hj & Hq & Hsame); [lia|].
  assert (j ∈ eligible_items (compact s)) as Hje by (apply eligible_prefix; [done|done|lia]).
  assert (staged j = false) as Hst by by apply negb_true_iff, Hel.
  rewrite (Hsame Hst). split; [done|]. simpl. by apply list_elem_of_fmap_2.
Qed.

(** Dropping a message or resetting the group invalidates every snapshot
    taken before it, whether or not it removed anything: the commit of such a
    snapshot is refused and changes nothing. *)
Theorem stale_snapshot_refused n s snap l summary persist now :
  is_u64 (groupCompactGeneration (compact s)) ->
  SnapshotGroupCompact n s = Some snap ->
  (0 < Z.of_nat (invalidations l) < u64_max)%Z ->
  let s2 := run s l in
  CommitGroupCompactWithPersistence snap summary persist now s2 = ((false, None), s2).
Proof.
  intros Hg HS Hn s2. unfold SnapshotGroupCompact in HS. do 2 (case_match; [done|]).
  injection HS as <-. unfold CommitGroupCompactWithPersistence. case_decide; [done|].
  cbn [snap_Generation]. unfold s2. rewrite compact_generation_run by done.
  rewrite (proj2 (Z.eqb_neq _ _)); [done|]. intros E. symmetry in E. by apply u64_add_ne in E.
Qed.

(** Revocations outlive everything but a reset. *)
Lemma revoked_step s o :
  (forall now, o <> CReset now) ->
  revokedMessageIDs (compact s) ⊆ revokedMessageIDs (compact (compact_step purge s o)).
Proof.
  intros Ho. destruct o as [item stage max id now|seq id now|g d|seq id now|snap sum pst now|snap|id|now];
    [..|by destruct (Ho now)]; unfold compact_step.
  - by destruct (append_compact item stage max id now s) as [->|(msg & n & ->)].
  - unfold PromoteGroupCompactSlot. repeat case_match; done.
  - unfold SetImageDescription. repeat case_match; done.
  - unfold DropGroupCompactSlotChecked. destruct (_ && _); [done|].
    destruct (drop_locked seq (TrimSpace id) (tasks s) (compact s)) as [[d bs] c'] eqn:Hd.
    destruct (abort_distillations bs _). simpl. injection Hd as <- <- <-. simpl.
    case_match; [set_solver|done].
  - unfold CommitGroupCompactWithPersistence. repeat case_match; done.
  - unfold BeginGroupDistillation. by case_match.
  - unfold EndGroupDistillation. by case_match.
Qed.

Lemma revoked_run s l :
  Forall (fun o => forall now, o <> CReset now) l ->
  revokedMessageIDs (compact s) ⊆ revokedMessageIDs (compact (run s l)).
Proof.
  revert s; induction l as [|o l IH]; intros s; [done|]. intros [Ho Hl]%Forall_cons_1. simpl.
  etransitivity; [by apply revoked_step|by apply IH].
Qed.

Lemma is_revoked_message snap c id :
  id ∈ snap_MessageIDs snap -> id ∈ revokedMessageIDs c -> is_revoked snap c = true.
Proof.
  intros Hin Hr. unfold is_revoked. destruct (validCommittedSources c !! _); [|done].
  apply orb_true_iff. right. apply existsb_exists. exists id.
  rewrite <- list_elem_of_In. split; [done|]. by apply bool_decide_eq_true.
Qed.

(** Withdrawing a message undoes the summary that contained it.  After a
    commit whose snapshot contains the message, dropping its ID restores the
    running summary and the summary groups of before the commit, reports that
    something was dropped, and from then on, until the group is reset, the
    snapshot is refused as a source of long-term memory. *)
Theorem drop_rolls_back snap summary persist now s s1 seq id now2 l :
  CommitGroupCompactWithPersistence snap summary persist now s = ((true, None), s1) ->
  TrimSpace id <> "" -> TrimSpace id ∈ snap_MessageIDs snap ->
  Forall (fun o => forall now, o <> CReset now) l ->
  let '(r, s2) := DropGroupCompactSlotChecked purge seq id now2 s1 in
  dr_dropped r = true /\
  GroupRunningSummary s2 = GroupRunningSummary s /\ SummaryGroups s2 = SummaryGroups s /\
  BeginGroupDistillation snap (run s2 l) = (None, run s2 l).
Proof.
  intros HC Hid Hin Hl. unfold DropGroupCompactSlotChecked.
  rewrite (bool_decide_false (TrimSpace id = "")), andb_false_r by done.
  destruct (drop_locked seq (TrimSpace id) (tasks s1) (compact s1)) as [[d bs] c'] eqn:Hd.
  destruct (abort_distillations bs (tasks (touch now2 (set_compact c' s1)))) as [ws t].
  unfold GroupRunningSummary, SummaryGroups. cbn [compact set_tasks touch set_compact dr_dropped].
  assert (polluted (TrimSpace id) (compact s1) = true /\
    prevGroupCompactSummary (compact s1) = groupCompactSummary (compact s) /\
    prevGroupSummaryGroups (compact s1) = groupSummaryGroups (compact s)) as (Hp & E1 & E2).
  { unfold CommitGroupCompactWithPersistence in HC. case_decide; [done|]. destruct (negb _); [done|].
    destruct persist as [[[]|]|]; try done; injection HC as <-; simpl; split; try done;
      unfold polluted; simpl; unfold contains; by rewrite bool_decide_true. }
  unfold drop_locked in Hd. rewrite bool_decide_false in Hd by done. cbn [negb andb] in Hd.
  rewrite Hp in Hd. injection Hd as <- <- <-. rewrite !orb_true_r, orb_true_l. cbn [orb].
  split; [done|]. split; [done|]. split; [done|].
  match goal with |- context [run ?s l] => set (s2 := s) end.
  assert (TrimSpace id ∈ revokedMessageIDs (compact (run s2 l))) as Hrev.
  { apply (revoked_run s2 l Hl). simpl. set_solver. }
  unfold BeginGroupDistillation. by rewrite (is_revoked_message _ _ (TrimSpace id)).
Qed.

Lemma abort_distillations_spec ids t ws t' :
  NoDup ids -> abort_distillations ids t = (ws, t') ->
  forall id b, distillations t !! id = Some b ->
    (id ∈ ids -> distillations t' !! id = Some (gb_AbortAndWait b).2 /\
       forall ch, (gb_AbortAndWait b).1 = Some ch -> (id, ch) ∈ ws) /\
    (id ∉ ids -> distillations t' !! id = Some b).
Proof.
  revert t ws t'; induction ids as [|i ids IH]; intros t ws t' Hnd; simpl.
  { intros [= <- <-] id b Hb. split; [set_solver|done]. }
  apply NoDup_cons in Hnd as [Hi Hnd].
  destruct (distillations t !! i) as [bi|] eqn:Hbi.
  - destruct (gb_AbortAndWait bi) as [w b'] eqn:Hab.
    destruct (abort_distillations ids _) as [ws0 t0] eqn:Hrec. intros [= <- <-] id b Hb.
    specialize (IH _ _ _ Hnd Hrec). simpl in IH.
    destruct (decide (id = i)) as [->|Hne].
    + rewrite Hbi in Hb. injection Hb as ->. rewrite Hab. simpl. split; [|set_solver].
      intros _. destruct (IH i b') as [_ Hno]; [by rewrite lookup_insert_eq|].
      split; [by apply Hno|]. intros ch ->. by left.
    + destruct (IH id b) as [Hyes Hno]; [by rewrite lookup_insert_ne|]. split.
      * intros [|Hin]%elem_of_cons; [done|]. destruct (Hyes Hin) as [? Hw]. split; [done|].
        intros ch Hch. destruct w; [right|]; auto.
      * intros Hin. apply Hno. set_solver.
  - intros Hrec id b Hb. destruct (IH _ _ _ Hnd Hrec id b Hb) as [Hyes Hno].
    assert (id <> i) by congruence. split; [|set_solver].
    intros [|Hin]%elem_of_cons; [done|by apply Hyes].
Qed.

Lemma gb_AbortAndWait_stops b :
  aborted (gb (gb_AbortAndWait b).2) = true /\ (gb_TryBeginCommit (gb_AbortAndWait b).2).1 = false /\
  ((gb_AbortAndWait b).1 = None <-> state (gb b) <> barrierWriting).
Proof.
  unfold gb_AbortAndWait, gb_TryBeginCommit, begin_core, abort_core, gb_bad. simpl.
  destruct (decide (state (gb b) = barrierWriting)) as [E|E]; simpl; [rewrite E|]; naive_solver.
Qed.

(** Withdrawing a message stops the distillations that use it: every
    registered barrier whose snapshot contains the message is aborted and
    admits no further write, and the ones caught in a write are waited for;
    the other barriers are not touched. *)
Theorem drop_aborts_distillations seq id now s bid b :
  TrimSpace id <> "" -> bid ∈ groupDistillBarriers (tasks s) ->
  distillations (tasks s) !! bid = Some b ->
  let '(r, s2) := DropGroupCompactSlotChecked purge seq id now s in
  if contains (TrimSpace id) (snap_MessageIDs (gb_snapshot b)) then
    dr_dropped r = true /\
    exists b', distillations (tasks s2) !! bid = Some b' /\ aborted (gb b') = true /\
      (gb_TryBeginCommit b').1 = false /\
      (state (gb b) = barrierWriting -> exists ch, (bid, ch) ∈ dr_waits r)
  else distillations (tasks s2) !! bid = Some b.
Proof.
  intros Hid Hreg Hb. unfold DropGroupCompactSlotChecked.
  rewrite (bool_decide_false (TrimSpace id = "")), andb_false_r by done.
  destruct (drop_locked seq (TrimSpace id) (tasks s) (compact s)) as [[d bs] c'] eqn:Hd.
  assert (NoDup bs /\ forall i, i ∈ bs <-> i ∈ groupDistillBarriers (tasks s) /\
    match distillations (tasks s) !! i with
    | Some b => contains (TrimSpace id) (snap_MessageIDs (gb_snapshot b)) | None => false end = true)
    as [Hnd Hbs].
  { unfold drop_locked in Hd. rewrite bool_decide_false in Hd by done. cbn [negb] in Hd.
    injection Hd as _ <- _. split; [apply NoDup_filter, NoDup_elements|].
    intros i. rewrite list_elem_of_filter, elem_of_elements. tauto. }
  cbn [tasks touch set_compact].
  destruct (abort_distillations bs (tasks s)) as [ws t] eqn:Hab.
  destruct (abort_distillations_spec _ _ _ _ Hnd Hab bid b Hb) as [Hyes Hno].
  specialize (Hbs bid). rewrite Hb in Hbs.
  cbn [tasks set_tasks dr_dropped dr_waits].
  destruct (contains (TrimSpace id) (snap_MessageIDs (gb_snapshot b))).
  - assert (bid ∈ bs) as Hin by by apply Hbs. destruct (Hyes Hin) as [E Hw].
    destruct (gb_AbortAndWait_stops b) as (Ha & Ht & Hn). split.
    + destruct bs; [set_solver|]. by rewrite orb_true_r.
    + eexists. split; [exact E|]. split; [done|]. split; [done|]. intros Hs.
      destruct (gb_AbortAndWait b).1 as [ch|]; [eauto|by apply Hn in Hs].
  - apply Hno. intros Hin. by apply Hbs in Hin as [_ ?].
Qed.
End properties.

(** * Windows *)

Section window_properties.
Local Open Scope Z_scope.

(** The messages a window may show, oldest first. *)
Definition shows (excludeID : string) (i : groupCompactItem) : bool :=
  negb (staged i) &&
  negb (negb (bool_decide (excludeID = "")) && negb (bool_decide (gm_MessageID (message i) = ""))
        && bool_decide (gm_MessageID (message i) = excludeID)).

Definition visible (excludeMessageID : string) (c : CompactState) : list GroupCompactMessage :=
  map message (filter (fun i => shows (TrimSpace excludeMessageID) i = true) (groupCompactBuffer c)).

Definition display_length (m : GroupCompactMessage) : Z := Z.of_nat (rune_count (FormatDisplay m)).
Definition total_length (l : list GroupCompactMessage) : Z :=
  foldr Z.add 0 (map display_length l).

(** What the loop decides, before [keep] and [cut] are applied. *)
Definition choose (l : list (GroupCompactMessage * bool)) {A} (keep cut : GroupCompactMessage -> A)
    : list A := map (fun p => if p.2 : bool then cut p.1 else keep p.1) l.

Lemma recent_loop_choose {A} (keep cut : GroupCompactMessage -> A) limit maxChars ex total sel l :
  recent_loop keep cut limit maxChars ex total (choose sel keep cut) l =
  choose (recent_loop (fun m => (m, false)) (fun m => (m, true)) limit maxChars ex total sel l) keep cut.
Proof.
  revert total sel; induction l as [|i l IH]; intros total sel; simpl; [done|].
  destruct (staged i); [done|]. destruct (_ && _); [done|].
  unfold choose at 1 2. rewrite length_map. destruct (_ <=? _)%nat; [done|].
  destruct (_ <=? _); [done|]. destruct (_ <? _).
  - by destruct sel.
  - rewrite <- IH. f_equal. unfold choose. by rewrite map_app.
Qed.

(** The loop takes the newest visible messages while they fit. *)
Lemma recent_loop_spec limit maxChars ex total sel l :
  0 <= total ->
  let vis := map message (filter (fun i => shows ex i = true) l) in
  exists chosen rest cutoff,
    vis = chosen ++ rest /\
    recent_loop (fun m => (m, false)) (fun m => (m, true)) limit maxChars ex total sel l
      = sel ++ map (fun m => (m, cutoff)) chosen /\
    (cutoff = false -> total + total_length chosen <= Z.max total maxChars /\
       (length sel <= limit -> length (sel ++ map (fun m => (m, false)) chosen) <= limit)%nat) /\
    (cutoff = true -> sel = [] /\ (0 < limit)%nat /\ exists m, chosen = [m] /\ maxChars < total + display_length m).
Proof.
  intros Ht vis. subst vis. revert total Ht sel.
  induction l as [|i l IH]; intros total Ht sel; simpl.
  { exists [], [], false. split; [done|]. rewrite app_nil_r. split; [done|].
    split; [|done]. intros _. unfold total_length. simpl. split; [lia|done]. }
  assert (forall b, exists chosen rest cutoff,
    message i :: map message (filter (fun i => shows ex i = true) l) = chosen ++ rest /\
    sel = sel ++ map (fun m => (m, cutoff)) chosen /\
    (cutoff = false -> total + total_length chosen <= Z.max total maxChars /\
       (length sel <= limit -> length (sel ++ map (fun m => (m, false)) chosen) <= limit)%nat) /\
    (cutoff = true -> sel = [] /\ (0 < limit)%nat /\ b = true)) as Hstop.
  { intros b. exists [], (message i :: map message (filter (fun i => shows ex i = true) l)), false.
    split; [done|]. simpl. rewrite app_nil_r. split; [done|]. split; [|done]. intros _.
    unfold total_length. simpl. split; [lia|done]. }
  assert (filter (fun i => shows ex i = true) (i :: l) =
    if shows ex i then i :: filter (fun i => shows ex i = true) l
    else filter (fun i => shows ex i = true) l) as ->
    by (rewrite filter_cons; by destruct (shows ex i)).
  unfold shows at 1. destruct (staged i); cbn [negb andb]; [by apply IH|].
  destruct (negb (bool_decide (ex = "")) && _ && _); cbn [negb map]; [by apply IH|].
  destruct (Nat.leb_spec limit (length sel)).
  { destruct (Hstop false) as (ch & re & cu & ? & ? & ? & Hc). exists ch, re, cu.
    split; [done|]. split; [done|]. split; [done|]. intros E. by destruct (Hc E) as (_ & _ & ?). }
  destruct (Z.leb_spec maxChars total).
  { destruct (Hstop false) as (ch & re & cu & ? & ? & ? & Hc). exists ch, re, cu.
    split; [done|]. split; [done|]. split; [done|]. intros E. by destruct (Hc E) as (_ & _ & ?). }
  fold (display_length (message i)). destruct (Z.ltb_spec maxChars (total + display_length (message i))).
  - destruct sel as [|p sel].
    + exists [message i], (map message (filter (fun i => shows ex i = true) l)), true.
      split; [done|]. split; [done|]. split; [done|]. intros _. split; [done|]. split; [simpl in *; lia|]. eauto.
    + destruct (Hstop false) as (ch & re & cu & ? & ? & ? & Hc). exists ch, re, cu.
      split; [done|]. split; [done|]. split; [done|]. intros E. by destruct (Hc E) as (_ & _ & ?).
  - assert (0 <= display_length (message i)) as Hd by (unfold display_length; lia).
    destruct (IH (total + display_length (message i)) ltac:(lia) (sel ++ [(message i, false)]))
      as (ch & re & cu & E & Hl & Hf & Ht').
    destruct cu; [by destruct (Ht' eq_refl) as [? _]; destruct sel|].
    exists (message i :: ch), re, false. split; [simpl; by rewrite E|].
    split; [rewrite Hl, <- app_assoc; done|]. split; [|done]. intros _.
    destruct (Hf eq_refl) as [Hsum Hlen]. unfold total_length in *. cbn [map foldr].
    split; [lia|]. intros _. rewrite <- app_assoc in Hlen. simpl in *. apply Hlen.
    rewrite length_app. simpl. lia.
Qed.

(** The two windows of the prompt.  Both show the same messages, the newest
    committed ones not excluded, oldest first and at most [limit] of them.
    Either they fit in [maxChars] runes and are shown in full, or the newest
    alone is too long and is shown truncated; the text window never exceeds
    [maxChars] runes. *)
Theorem recent_windows limit maxChars ex c :
  0 < limit -> 0 < maxChars ->
  let texts := recentPendingGroupMessagesLocked limit maxChars ex c in
  let msgs := recentPendingStructuredGroupMessagesLocked limit maxChars ex c in
  (exists older chosen, visible ex c = older ++ chosen /\
     Z.of_nat (length chosen) <= limit /\
     ((texts = map FormatDisplay chosen /\ msgs = chosen /\ total_length chosen <= maxChars) \/
      (exists m, chosen = [m] /\ texts = [truncate maxChars (FormatDisplay m)] /\
         msgs = [truncate_message maxChars m] /\ maxChars < display_length m))) /\
  foldr Z.add 0 (map (fun t => Z.of_nat (rune_count t)) texts) <= maxChars.
Proof.
  intros Hl Hm texts msgs.
  unfold texts, msgs, recentPendingGroupMessagesLocked, recentPendingStructuredGroupMessagesLocked, recent.
  rewrite (proj2 (Z.leb_gt limit 0)), (proj2 (Z.leb_gt maxChars 0)) by lia. cbn [orb].
  pose proof (recent_loop_choose FormatDisplay (fun m => truncate maxChars (FormatDisplay m))
    (Z.to_nat limit) maxChars (TrimSpace ex) 0 [] (rev (groupCompactBuffer c))) as E1.
  pose proof (recent_loop_choose (fun m => m) (truncate_message maxChars)
    (Z.to_nat limit) maxChars (TrimSpace ex) 0 [] (rev (groupCompactBuffer c))) as E2.
  cbn [choose map] in E1, E2. rewrite E1, E2. clear E1 E2.
  destruct (recent_loop_spec (Z.to_nat limit) maxChars (TrimSpace ex) 0 [] (rev (groupCompactBuffer c))
    ltac:(lia)) as (ch & re & cu & Ev & El & Hf & Ht).
  rewrite El. cbn [app].
  assert (visible ex c = rev re ++ rev ch) as Hv.
  { unfold visible. rewrite <- (rev_involutive (groupCompactBuffer c)) at 1.
    rewrite <- rev_app_distr, <- Ev, <- map_rev. f_equal.
    generalize (rev (groupCompactBuffer c)) as l. clear. induction l as [|i l IH]; [done|].
    cbn [rev]. rewrite filter_app, IH, !filter_cons, filter_nil.
    case_decide; cbn [rev]; [done|]. apply app_nil_r. }
  destruct cu.
  - destruct (Ht eq_refl) as (_ & Hlim & m & -> & Hlen). cbn [map choose rev app fst snd].
    split.
    + exists (rev re), [m]. split; [done|]. split; [simpl; lia|]. right. exists m.
      split; [done|]. split; [done|]. split; [done|]. lia.
    + cbn [foldr]. unfold truncate. fold (display_length m).
      rewrite (proj2 (Z.ltb_lt _ _)) by lia. rewrite rune_count_take. lia.
  - destruct (Hf eq_refl) as [Hsum Hcount].
    assert (choose (map (fun m => (m, false)) ch) FormatDisplay
      (fun m => truncate maxChars (FormatDisplay m)) = map FormatDisplay ch) as ->
      by (unfold choose; by rewrite map_map).
    assert (choose (map (fun m => (m, false)) ch) (fun m => m) (truncate_message maxChars) = ch) as ->
      by (unfold choose; rewrite map_map; apply map_id).
    assert (total_length (rev ch) = total_length ch) as Hrev.
    { unfold total_length. rewrite map_rev. generalize (map display_length ch). clear.
      induction l as [|x l IH]; [done|]. cbn [rev]. rewrite foldr_app. cbn [foldr].
      rewrite Z.add_0_r. rewrite <- IH. generalize (rev l). clear. intros k.
      induction k; simpl; lia. }
    split.
    + exists (rev re), (rev ch). split; [done|]. rewrite length_rev. split.
      * specialize (Hcount ltac:(simpl; lia)). simpl in Hcount. rewrite length_map in Hcount. lia.
      * left. rewrite map_rev. split; [done|split; [done|]]. lia.
    + rewrite <- map_rev, map_map.
      change (total_length (rev ch) <= maxChars). lia.
Qed.
End window_properties.

(** * Witnesses *)

Section witnesses.
#[local] Existing Instance ascii_case.
Local Abbreviation run := (compact_run None).

Definition says (id text : string) : ingest := InMessage {|
  gm_Role := "user"; gm_Sender := "u"; gm_SenderID := "1"; gm_Content := text;
  gm_ImageDescription := ""; gm_MessageID := id; gm_Time := ""; gm_raw := "" |}.

Definition group0 : Session := run (new_session "group:1" "old" "" 0)
  [CAppend (says "m1" "a") false 5 None 1; CAppend (says "m2" "b") false 5 None 2;
   CAppend (says "m3" "c") true 5 None 3].
Definition snap0 : GroupCompactSnapshot :=
  default {| snap_Summary := ""; snap_Messages := []; snap_MessageIDs := [];
             snap_ThroughSequence := 0; snap_Generation := 0 |} (SnapshotGroupCompact 2 group0).
Definition later0 : list compact_op :=
  [CPromote 3 "m3" 4; CAppend (says "m4" "d") false 5 None 5].
Definition group1 : Session := run group0 later0.
Definition group2 : Session := (CommitGroupCompactWithPersistence snap0 "sum" None 6 group1).2.

Lemma group0_ok : compact_ok (compact group0).
Proof. split; [by vm_compute|]. apply Nat.leb_le. by vm_compute. Qed.

Lemma commit_keeps_unsummarized_witness :
  exists removed, groupCompactBuffer (compact group1) = removed ++ groupCompactBuffer (compact group2) /\
    length removed = 2.
Proof.
  destruct (commit_keeps_unsummarized None 2 group0 snap0 later0 "sum" None 6 group2 group0_ok)
    as (_ & removed & E & _); [by vm_compute..|]. exists removed. split; [exact E|].
  apply (f_equal length) in E. rewrite length_app in E.
  assert (length (groupCompactBuffer (compact (run group0 later0))) = 4) as E1 by by vm_compute.
  assert (length (groupCompactBuffer (compact group2)) = 2) as E2 by by vm_compute.
  lia.
Defined.

Lemma stale_snapshot_refused_witness :
  let s2 := run group0 [CDrop 0 "unknown" 7] in
  CommitGroupCompactWithPersistence snap0 "sum" None 8 s2 = ((false, None), s2).
Proof.
  apply (stale_snapshot_refused None 2 group0 snap0 [CDrop 0 "unknown" 7]);
    [split; by vm_compute|by vm_compute|split; by vm_compute].
Defined.

Lemma drop_rolls_back_witness :
  GroupRunningSummary (DropGroupCompactSlotChecked None 0 " m2 " 7 group2).2 = "old".
Proof.
  pose proof (drop_rolls_back None snap0 "sum" None 6 group1 group2 0 " m2 " 7 []) as H.
  destruct (DropGroupCompactSlotChecked None 0 " m2 " 7 group2) as [r s2].
  destruct H as (_ & E & _).
  - by vm_compute.
  - by vm_compute.
  - vm_compute. right. left.
  - by apply Forall_nil_2.
  - etransitivity; [exact E|by vm_compute].
Defined.

Lemma drop_aborts_distillations_witness :
  exists b, distillations (tasks (DropGroupCompactSlotChecked None 0 "m2" 7
      (BeginGroupDistillation snap0 group2).2).2) !! 1%Z = Some b /\ (gb_TryBeginCommit b).1 = false.
Proof.
  pose proof (drop_aborts_distillations None 0 "m2" 7 (BeginGroupDistillation snap0 group2).2 1
    {| gb_snapshot := snap0; gb := new_barrier |}) as H.
  destruct (DropGroupCompactSlotChecked None 0 "m2" 7 (BeginGroupDistillation snap0 group2).2) as [r s2].
  assert (contains (TrimSpace "m2") (snap_MessageIDs snap0) = true) as Hc by by vm_compute.
  cbn [gb_snapshot] in H. rewrite Hc in H.
  destruct H as (_ & b & E & _ & E' & _).
  - by vm_compute.
  - apply (bool_decide_eq_true_1 _). by vm_compute.
  - by vm_compute.
  - exists b. split; [exact E|exact E'].
Defined.

Lemma recent_windows_witness :
  recentPendingGroupMessagesLocked 2 100 "" (compact group1)
    = ["[user] u (1): c"; "[user] u (1): d"] /\
  (foldr Z.add 0 (map (fun t => Z.of_nat (rune_count t))
     (recentPendingGroupMessagesLocked 2 100 "" (compact group1))) <= 100)%Z.
Proof.
  split; [by vm_compute|]. apply (recent_windows 2 100 "" (compact group1)); done.
Defined.
End witnesses.
