(* ===== verification/Persist.v ===== *)
(** Background persistence of group summaries: [queuePersistence],
    [RollbackPersistence], [persistWorker] and what observes them, of
    [internal/llm/group_compactor.go].

    A summary is queued per owner and written by one worker goroutine per
    owner, which retries with a growing delay and which a newer summary wakes
    up.  Each critical section of the worker is a step; queueing, rolling back,
    the clock, the disk and cancellation interleave with the steps. *)

From S2P Require Import Prelude GoStrings SummaryStore.

Local Open Scope string_scope.
Local Open Scope list_scope.
Local Open Scope Z_scope.

(** * State *)

Record pendingPersistRecord := {
  pp_owner : string;
  pp_summary : string;
  pp_storeGeneration : Z;
  pp_retryCount : Z;
}.

(** Where a worker is between two critical sections: at the head of its loop,
    about to read the pending record, about to write a copy of it, with the
    result of the write, asleep, or about to run its deferred clean-up. *)
Inductive worker_at :=
  | AtTop
  | Reading
  | Writing (rec : pendingPersistRecord)
  | Wrote (rec : pendingPersistRecord) (applied : bool) (err : option error)
  | Waiting (delay : Z)
  | Exiting.

(** A worker has its owner and the channel it was started with. *)
Record worker := { w_owner : string; w_wake : nat; w_at : worker_at }.

(** [channels]: whether a wake-up is buffered (capacity 1). *)
Record Persistence := {
  pendingPersist : gmap string pendingPersistRecord;
  persistActive : gmap string bool;
  persistWake : gmap string nat;
  channels : gmap nat bool;
  workers : gmap nat worker;
  next_id : nat;
  ctx_done : bool;
  p_store : Store;
}.

Definition set_pending (m : gmap string pendingPersistRecord) (c : Persistence) : Persistence := {|
  pendingPersist := m; persistActive := persistActive c; persistWake := persistWake c; channels := channels c;
  workers := workers c; next_id := next_id c; ctx_done := ctx_done c; p_store := p_store c |}.
Definition set_store (s : Store) (c : Persistence) : Persistence := {|
  pendingPersist := pendingPersist c; persistActive := persistActive c; persistWake := persistWake c;
  channels := channels c; workers := workers c; next_id := next_id c; ctx_done := ctx_done c; p_store := s |}.
Definition set_workers (m : gmap nat worker) (c : Persistence) : Persistence := {|
  pendingPersist := pendingPersist c; persistActive := persistActive c; persistWake := persistWake c;
  channels := channels c; workers := m; next_id := next_id c; ctx_done := ctx_done c; p_store := p_store c |}.
Definition set_channels (m : gmap nat bool) (c : Persistence) : Persistence := {|
  pendingPersist := pendingPersist c; persistActive := persistActive c; persistWake := persistWake c;
  channels := m; workers := workers c; next_id := next_id c; ctx_done := ctx_done c; p_store := p_store c |}.

(** [persistActive[owner] = false; delete(persistWake, owner)]. *)
Definition deactivate (owner : string) (c : Persistence) : Persistence := {|
  pendingPersist := pendingPersist c; persistActive := <[owner := false]> (persistActive c);
  persistWake := delete owner (persistWake c); channels := channels c; workers := workers c;
  next_id := next_id c; ctx_done := ctx_done c; p_store := p_store c |}.

Definition is_active (owner : string) (c : Persistence) : bool := default false (persistActive c !! owner).

(** * Operations *)

(** A non-blocking send; on a nil channel, when none is registered, nothing. *)
Definition wake (owner : string) (c : Persistence) : Persistence :=
  match persistWake c !! owner with
  | Some ch => set_channels (<[ch := true]> (channels c)) c
  | None => c
  end.

(** [c.Go] starts nothing once the scope is cancelled. *)
Definition start_worker (owner : string) (c : Persistence) : Persistence :=
  let id_ := next_id c in
  {| pendingPersist := pendingPersist c; persistActive := <[owner := true]> (persistActive c);
     persistWake := <[owner := id_]> (persistWake c); channels := <[id_ := false]> (channels c);
     workers := if ctx_done c then workers c
                else <[id_ := {| w_owner := owner; w_wake := id_; w_at := AtTop |}]> (workers c);
     next_id := S id_; ctx_done := ctx_done c; p_store := p_store c |}.

Definition fresh_record (owner summary : string) (g : Z) : pendingPersistRecord :=
  {| pp_owner := owner; pp_summary := summary; pp_storeGeneration := g; pp_retryCount := 0 |}.

Definition queuePersistence (owner summary : string) (storeGeneration : Z) (c : Persistence) : Persistence :=
  let c := set_pending (<[owner := fresh_record owner summary storeGeneration]> (pendingPersist c)) c in
  if is_active owner c then wake owner c else start_worker owner c.

(** What the disk does in a write: the save hook and the save. *)
Record disk := { d_hook : option error; d_save : option error; d_now : Z }.

Definition write (d : disk) (r : pendingPersistRecord) (s : Store) : (bool * option error) * Store :=
  Upsert (fun _ => d_hook d) (fun _ => d_save d) (pp_owner r) (pp_summary r) (pp_storeGeneration r) (d_now d) s.

(** On the file store, which this worker is for; with a database both branches
    are one write of the store. *)
Definition RollbackPersistence (owner cleanSummary : string) (d : disk) (c : Persistence) : Persistence :=
  if decide (owner = "") then c else
  let g := Generation owner (p_store c) in
  let cleanSummary := TrimSpace cleanSummary in
  if decide (cleanSummary = "") then
    let c := set_pending (delete owner (pendingPersist c)) c in
    let c := set_store (Delete (fun _ => d_hook d) (fun _ => d_save d) owner (p_store c)).2 c in
    if is_active owner c then wake owner c else c
  else
    let r := fresh_record owner cleanSummary g in
    let c := set_pending (<[owner := r]> (pendingPersist c)) c in
    if is_active owner c then wake owner c else
    let '(_, err, s) := write d r (p_store c) in
    let c := set_store s c in
    match err with
    | None => set_pending (delete owner (pendingPersist c)) c
    | Some _ => start_worker owner c
    end.

Definition HasPendingPersistence (owner : string) (c : Persistence) : bool :=
  bool_decide (is_Some (pendingPersist c !! owner)).
Definition IsPersistenceActive (owner : string) (c : Persistence) : bool :=
  is_active owner c || HasPendingPersistence owner c.

Definition millisecond : Z := 10 ^ 6.
Definition calculatePersistRetryDelay (retryCount : Z) : Z :=
  match retryCount with
  | 1 => 50 * millisecond
  | 2 => 150 * millisecond
  | 3 => 500 * millisecond
  | 4 => 1 * second
  | _ => 2 * second
  end.

(** * The worker *)

Definition same_record (a b : pendingPersistRecord) : bool :=
  bool_decide (pp_summary a = pp_summary b) && (pp_storeGeneration a =? pp_storeGeneration b).

Definition retried (r : pendingPersistRecord) : pendingPersistRecord :=
  {| pp_owner := pp_owner r; pp_summary := pp_summary r; pp_storeGeneration := pp_storeGeneration r;
     pp_retryCount := pp_retryCount r + 1 |}.

(** Why a sleeping worker wakes: its timer or its channel. *)
Inductive wakeup := ByTimer | ByChannel.

Definition move (id_ : nat) (w : worker) (at_ : worker_at) (c : Persistence) : Persistence :=
  set_workers (<[id_ := {| w_owner := w_owner w; w_wake := w_wake w; w_at := at_ |}]> (workers c)) c.

(** One step of worker [id_]. *)
Definition worker_step (id_ : nat) (d : disk) (why : wakeup) (c : Persistence) : Persistence :=
  match workers c !! id_ with
  | None => c
  | Some w =>
      let owner := w_owner w in
      match w_at w with
      | AtTop => move id_ w (if ctx_done c then Exiting else Reading) c
      | Reading =>
          match pendingPersist c !! owner with
          | None => move id_ w Exiting c
          | Some target => move id_ w (Writing target) c
          end
      | Writing r =>
          let '(applied, err, s) := write d r (p_store c) in
          move id_ w (Wrote r applied err) (set_store s c)
      | Wrote r _ (Some _) =>
          match pendingPersist c !! owner with
          | None => move id_ w Exiting (deactivate owner c)
          | Some cur =>
              let cur := if same_record cur r then retried cur else cur in
              move id_ w (Waiting (calculatePersistRetryDelay (pp_retryCount cur)))
                (set_pending (<[owner := cur]> (pendingPersist c)) c)
          end
      | Wrote r _ None =>
          match pendingPersist c !! owner with
          | Some cur =>
              if same_record cur r
              then move id_ w AtTop (set_pending (delete owner (pendingPersist c)) c)
              else move id_ w AtTop c
          | None => move id_ w AtTop c
          end
      | Waiting _ =>
          if ctx_done c then move id_ w Exiting c else
          match why with
          | ByTimer => move id_ w AtTop c
          | ByChannel =>
              if default false (channels c !! w_wake w)
              then move id_ w AtTop (set_channels (<[w_wake w := false]> (channels c)) c)
              else c
          end
      | Exiting =>
          let c := deactivate owner c in set_workers (delete id_ (workers c)) c
      end
  end.

(** * Interleavings *)

(** What may happen next.  A compaction queues its summary with a generation it
    read from the store earlier. *)
Inductive event :=
  | Queue (owner summary : string) (storeGeneration : Z)
  | Rollback (owner cleanSummary : string) (d : disk)
  | Work (id_ : nat) (d : disk) (why : wakeup)
  | CancelScope.

Definition do_event (c : Persistence) (e : event) : Persistence :=
  match e with
  | Queue owner summary g => queuePersistence owner summary g c
  | Rollback owner clean d => RollbackPersistence owner clean d c
  | Work id_ d why => worker_step id_ d why c
  | CancelScope => {| pendingPersist := pendingPersist c; persistActive := persistActive c;
      persistWake := persistWake c; channels := channels c; workers := workers c; next_id := next_id c;
      ctx_done := true; p_store := p_store c |}
  end.

Definition start (s : Store) : Persistence := {|
  pendingPersist := ∅; persistActive := ∅; persistWake := ∅; channels := ∅; workers := ∅; next_id := 0;
  ctx_done := false; p_store := s |}.

(** * A pending summary has its worker *)

Section served.

(** A worker of the owner has left its loop and not cleaned up yet. *)
Definition exiting (owner : string) (c : Persistence) : Prop :=
  exists id_ w, workers c !! id_ = Some w /\ w_owner w = owner /\ w_at w = Exiting.

(** Nobody queues or rolls back in that window. *)
Definition outside_exit (c : Persistence) (e : event) : Prop :=
  match e with
  | Queue owner _ _ | Rollback owner _ _ => ~ exiting owner c
  | _ => True
  end.

Record served (c : Persistence) : Prop := {
  sv_ids id_ w : workers c !! id_ = Some w -> (id_ < next_id c)%nat;
  sv_registered id_ w : workers c !! id_ = Some w -> w_at w <> Exiting ->
    is_active (w_owner w) c = true /\ persistWake c !! w_owner w = Some (w_wake w);
  sv_unique i w j w' : workers c !! i = Some w -> workers c !! j = Some w' -> w_owner w = w_owner w' -> i = j;
  sv_active owner : is_active owner c = true ->
    ctx_done c = true \/ exists id_ w, workers c !! id_ = Some w /\ w_owner w = owner;
  sv_pending owner : is_Some (pendingPersist c !! owner) ->
    ctx_done c = true \/ exists id_ w, workers c !! id_ = Some w /\ w_owner w = owner /\ w_at w <> Exiting;
}.

Lemma start_served s : served (start s).
Proof. constructor; unfold is_active; cbn; intros *; rewrite ?lookup_empty; first [done | by intros []]. Qed.

(** What a step of the worker that is not its clean-up changes: where it is,
    and possibly its owner's record and its channel. *)
Lemma moved_served id_ w at_ c c' :
  served c -> workers c !! id_ = Some w -> w_at w <> Exiting ->
  workers c' = <[id_ := {| w_owner := w_owner w; w_wake := w_wake w; w_at := at_ |}]> (workers c) ->
  next_id c' = next_id c -> ctx_done c' = ctx_done c ->
  (forall o, o <> w_owner w -> pendingPersist c' !! o = pendingPersist c !! o /\
     is_active o c' = is_active o c /\ persistWake c' !! o = persistWake c !! o) ->
  (at_ <> Exiting -> is_active (w_owner w) c' = true /\ persistWake c' !! w_owner w = Some (w_wake w)) ->
  (at_ = Exiting -> ctx_done c = true \/ pendingPersist c' !! w_owner w = None) ->
  served c'.
Proof.
  intros Hs Hw Hne Ew En Ec Hother Hreg Hexit.
  assert (Hl : forall j w', workers c' !! j = Some w' ->
    (j = id_ /\ w' = {| w_owner := w_owner w; w_wake := w_wake w; w_at := at_ |}) \/ (j <> id_ /\ workers c !! j = Some w')).
  { intros j w'. rewrite Ew. intros [[<- <-]|[? ?]]%lookup_insert_Some; [by left|by right]. }
  assert (Hd : forall j w', j <> id_ -> workers c !! j = Some w' -> w_owner w' <> w_owner w).
  { intros j w' Hj Hw' E. apply Hj. by eapply (sv_unique c Hs). }
  constructor.
  - intros j w' [[-> ->]|[_ Hj]]%Hl; rewrite En; by eapply (sv_ids c Hs).
  - intros j w' [[-> ->]|[Hj Hw']]%Hl Hat; [by apply Hreg|].
    destruct (Hother (w_owner w') (Hd _ _ Hj Hw')) as (_ & -> & ->). by apply (sv_registered c Hs j).
  - intros i w1 j w2 [[-> ->]|[Hi H1]]%Hl [[-> ->]|[Hj H2]]%Hl E; [done|..].
    + cbn in E. by destruct (Hd _ _ Hj H2).
    + cbn in E. by destruct (Hd _ _ Hi H1).
    + by eapply (sv_unique c Hs).
  - intros o Ho. rewrite Ec. destruct (decide (o = w_owner w)) as [->|Hne'].
    { right. exists id_. eexists. rewrite Ew, lookup_insert_eq. by split. }
    destruct (Hother o Hne') as (_ & E & _). rewrite E in Ho.
    destruct (sv_active c Hs o Ho) as [?|(j & w' & Hj & Hw')]; [by left|right]. exists j, w'.
    rewrite Ew, lookup_insert_ne; [done|]. intros <-. congruence.
  - intros o Ho. rewrite Ec. destruct (decide (o = w_owner w)) as [->|Hne'].
    { assert (Hat : at_ = Exiting \/ at_ <> Exiting) by (destruct at_; auto). destruct Hat as [Hat|Hat].
      - destruct (Hexit Hat) as [?|E]; [by left|]. rewrite E in Ho; by destruct Ho.
      - right. exists id_. eexists. rewrite Ew, lookup_insert_eq. by split. }
    destruct (Hother o Hne') as (E & _ & _). rewrite E in Ho.
    destruct (sv_pending c Hs o Ho) as [?|(j & w' & Hj & Hw' & Hat)]; [by left|right]. exists j, w'.
    rewrite Ew, lookup_insert_ne; [done|]. intros <-. congruence.
Qed.

Lemma worker_step_served id_ d why c : served c -> served (worker_step id_ d why c).
Proof.
  intros Hs. unfold worker_step. destruct (workers c !! id_) as [w|] eqn:Hw; [|done].
  assert (Hm : w_at w <> Exiting -> forall at_ c', workers c' = <[id_ := {| w_owner := w_owner w; w_wake := w_wake w; w_at := at_ |}]> (workers c) ->
    next_id c' = next_id c -> ctx_done c' = ctx_done c -> persistActive c' = persistActive c ->
    persistWake c' = persistWake c ->
    (forall o, o <> w_owner w -> pendingPersist c' !! o = pendingPersist c !! o) ->
    (at_ = Exiting -> ctx_done c = true \/ pendingPersist c' !! w_owner w = None) -> served c').
  { intros Hat at_ c' E1 E2 E3 E4 E5 E6 E7. eapply moved_served; try done.
    - intros o Ho. split; [by apply E6|]. unfold is_active. by rewrite E4, E5.
    - intros _. unfold is_active. rewrite E4, E5. by apply (sv_registered c Hs id_). }
  destruct (w_at w) as [| |r|r applied err|delay|] eqn:Hat.
  - eapply Hm; try done. destruct (ctx_done c); [by left|done].
  - destruct (pendingPersist c !! w_owner w) eqn:Ep; eapply Hm; try done. intros _. by right.
  - destruct (write d r (p_store c)) as [[applied err] s]. eapply Hm; done.
  - destruct err as [e|].
    + destruct (pendingPersist c !! w_owner w) as [cur|] eqn:Ep.
      * eapply Hm; try done. intros o Ho. cbn. by rewrite lookup_insert_ne.
      * eapply moved_served; try done; [by rewrite Hat| |by intros _; right].
        intros o Ho. split; [done|]. unfold is_active. cbn. by rewrite lookup_insert_ne, lookup_delete_ne by done.
    + destruct (pendingPersist c !! w_owner w) as [cur|] eqn:Ep; [|eapply Hm; done].
      destruct (same_record cur r); eapply Hm; try done. intros o Ho. cbn. by rewrite lookup_delete_ne.
  - destruct (ctx_done c) eqn:Ec.
    { eapply Hm; try done. intros _. by left. }
    destruct why; [eapply Hm; done|]. destruct (default false _); [|done]. eapply Hm; done.
  - constructor; cbn [workers next_id ctx_done pendingPersist deactivate set_workers].
    + intros j w' [_ Hj]%lookup_delete_Some. by eapply (sv_ids c Hs).
    + intros j w' [Hne Hj]%lookup_delete_Some Hat'.
      assert (Ho : w_owner w' <> w_owner w) by (intros E; apply Hne; by eapply (sv_unique c Hs)).
      unfold is_active. cbn. rewrite lookup_insert_ne, lookup_delete_ne by done.
      by apply (sv_registered c Hs j).
    + intros i w1 j w2 [_ H1]%lookup_delete_Some [_ H2]%lookup_delete_Some. by eapply (sv_unique c Hs).
    + intros o Ho. unfold is_active in Ho. cbn in Ho.
      destruct (decide (o = w_owner w)) as [->|Hne]; [by rewrite lookup_insert_eq in Ho|].
      rewrite lookup_insert_ne in Ho by done.
      destruct (sv_active c Hs o Ho) as [?|(j & w' & Hj & <-)]; [by left|right]. exists j, w'.
      rewrite lookup_delete_ne; [done|]. intros <-. congruence.
    + intros o Ho. destruct (sv_pending c Hs o Ho) as [?|(j & w' & Hj & <- & Hat')]; [by left|right].
      exists j, w'. rewrite lookup_delete_ne; [done|]. intros <-. congruence.
Qed.

(** Starting a worker for an owner that has none, and setting its record. *)
Lemma start_worker_served owner c m s :
  served c -> is_active owner c = false -> ~ exiting owner c ->
  (forall o, o <> owner -> m !! o = pendingPersist c !! o) ->
  served (start_worker owner (set_store s (set_pending m c))).
Proof.
  intros Hs Ha He Hm.
  assert (Hnone : forall j w, workers c !! j = Some w -> w_owner w <> owner).
  { intros j w Hj <-. destruct (w_at w) eqn:Hat.
    6: { apply He. by exists j, w. }
    all: destruct (sv_registered c Hs j w Hj) as [E _]; [by rewrite Hat|congruence]. }
  unfold start_worker. cbn [ctx_done set_store set_pending workers next_id channels persistActive persistWake pendingPersist].
  set (new := {| w_owner := owner; w_wake := next_id c; w_at := AtTop |}).
  assert (Hl : forall j w, (if ctx_done c then workers c else <[next_id c := new]> (workers c)) !! j = Some w ->
    (ctx_done c = false /\ j = next_id c /\ w = new) \/ (j <> next_id c /\ workers c !! j = Some w)).
  { intros j w. destruct (ctx_done c).
    - intros Hj. right. split; [|done]. intros ->. apply (sv_ids c Hs) in Hj. lia.
    - intros [[<- <-]|[? ?]]%lookup_insert_Some; [by left|right; by split]. }
  constructor; cbn.
  - intros j w [(_ & -> & _)|[_ Hj]]%Hl; [lia|]. apply (sv_ids c Hs) in Hj. lia.
  - intros j w [(_ & _ & ->)|[_ Hj]]%Hl Hat; unfold is_active; cbn; [by rewrite !lookup_insert_eq|].
    rewrite !lookup_insert_ne by (intros E; by destruct (Hnone j w Hj)).
    by apply (sv_registered c Hs j).
  - intros a w b w' [(_ & -> & ->)|[Ha' H1]]%Hl [(_ & -> & ->)|[Hb H2]]%Hl E; [done|..].
    + cbn in E. by destruct (Hnone b w' H2).
    + cbn in E. by destruct (Hnone a w H1).
    + by eapply (sv_unique c Hs).
  - intros o Ho. unfold is_active in Ho. cbn in Ho. destruct (ctx_done c) eqn:Ec; [by left|right].
    destruct (decide (o = owner)) as [->|Hne]; [exists (next_id c), new; by rewrite lookup_insert_eq|].
    rewrite lookup_insert_ne in Ho by done.
    destruct (sv_active c Hs o Ho) as [?|(j & w & Hj & <-)]; [congruence|]. exists j, w.
    rewrite lookup_insert_ne; [done|]. intros <-. apply (sv_ids c Hs) in Hj. lia.
  - intros o Ho. destruct (ctx_done c) eqn:Ec; [by left|right].
    destruct (decide (o = owner)) as [->|Hne]; [exists (next_id c), new; by rewrite lookup_insert_eq|].
    rewrite Hm in Ho by done.
    destruct (sv_pending c Hs o Ho) as [?|(j & w & Hj & <- & Hat)]; [congruence|]. exists j, w.
    rewrite lookup_insert_ne; [done|]. intros <-. apply (sv_ids c Hs) in Hj. lia.
Qed.

(** Setting the record of an owner whose worker is running, and waking it. *)
Lemma wake_served owner c m s :
  served c -> is_active owner c = true \/ m !! owner = None -> ~ exiting owner c ->
  (forall o, o <> owner -> m !! o = pendingPersist c !! o) ->
  served (set_store s (set_pending m c)) /\ served (wake owner (set_store s (set_pending m c))).
Proof.
  intros Hs Ha He Hm.
  assert (H1 : served (set_store s (set_pending m c))).
  { constructor; cbn.
    - apply Hs.
    - intros j w Hj Hat. by apply (sv_registered c Hs j).
    - apply Hs.
    - apply (sv_active c Hs).
    - intros o Ho. destruct (decide (o = owner)) as [->|Hne].
      + destruct Ha as [Ha|Ha]; [|rewrite Ha in Ho; by destruct Ho].
        destruct (sv_active c Hs owner Ha) as [?|(j & w & Hj & Hw)]; [by left|right]. exists j, w.
        split; [done|]. split; [done|]. intros Hat. apply He. by exists j, w.
      + rewrite Hm in Ho by done. by apply (sv_pending c Hs). }
  split; [done|]. unfold wake. destruct (persistWake _ !! owner); [|done].
  destruct H1 as [A B C D E]. by constructor.
Qed.

Lemma do_event_served c e : served c -> outside_exit c e -> served (do_event c e).
Proof.
  intros Hs Ho. destruct e as [owner summary g|owner clean d|id_ d why|]; cbn [do_event outside_exit] in *.
  - unfold queuePersistence. change (is_active owner (set_pending ?m c)) with (is_active owner c).
    change (set_pending ?m c) with (set_store (p_store c) (set_pending m c)).
    destruct (is_active owner c) eqn:Ha.
    + apply wake_served; [done|by left|done|]. intros o Hne. by rewrite lookup_insert_ne.
    + apply start_worker_served; [done..|]. intros o Hne. by rewrite lookup_insert_ne.
  - unfold RollbackPersistence. case_decide; [done|]. cbn zeta. case_decide.
    + change (is_active owner (set_store ?s (set_pending ?m c))) with (is_active owner c).
      destruct (wake_served owner c (delete owner (pendingPersist c))
        (Delete (fun _ => d_hook d) (fun _ => d_save d) owner (p_store c)).2) as [H1 H2];
        [done|right; apply lookup_delete_eq|done|intros; by rewrite lookup_delete_ne|].
      by destruct (is_active owner c).
    + set (r := fresh_record _ _ _). change (is_active owner (set_pending ?m c)) with (is_active owner c).
      destruct (is_active owner c) eqn:Ha.
      * change (set_pending ?m c) with (set_store (p_store c) (set_pending m c)).
        apply wake_served; [done|by left|done|]. intros o Hne. by rewrite lookup_insert_ne.
      * destruct (write d r _) as [[applied err] s]. destruct err as [e|].
        -- apply start_worker_served; [done..|]. intros o Hne. by rewrite lookup_insert_ne.
        -- assert (Hm : served (set_store s (set_pending (delete owner (<[owner := r]> (pendingPersist c))) c))).
           { apply (wake_served owner); [done|right; apply lookup_delete_eq|done|].
             intros o Hne. by rewrite lookup_delete_ne, lookup_insert_ne. }
           exact Hm.
  - by apply worker_step_served.
  - destruct Hs as [A B C D E]. constructor; cbn; try done; intros; by left.
Qed.

(** Events, each allowed where it happens. *)
Fixpoint outside_exits (c : Persistence) (es : list event) : Prop :=
  match es with [] => True | e :: es => outside_exit c e /\ outside_exits (do_event c e) es end.

Definition run_events (c : Persistence) (es : list event) : Persistence := fold_left do_event es c.

(** The same, decided. *)
Definition is_exiting (w : worker) : bool := match w_at w with Exiting => true | _ => false end.
Definition exitingb (owner : string) (c : Persistence) : bool :=
  existsb (fun jw => bool_decide (w_owner jw.2 = owner) && is_exiting jw.2) (map_to_list (workers c)).
Definition outside_exitb (c : Persistence) (e : event) : bool :=
  match e with
  | Queue owner _ _ | Rollback owner _ _ => negb (exitingb owner c)
  | _ => true
  end.
Fixpoint outside_exitsb (c : Persistence) (es : list event) : bool :=
  match es with [] => true | e :: es => outside_exitb c e && outside_exitsb (do_event c e) es end.

Lemma exitingb_complete owner c : exiting owner c -> exitingb owner c = true.
Proof.
  intros (j & w & Hj & Ho & Hat). apply existsb_exists. exists (j, w).
  split; [by apply list_elem_of_In, elem_of_map_to_list|]. cbn. unfold is_exiting.
  by rewrite bool_decide_eq_true_2, Hat.
Qed.

Lemma outside_exitsb_ok c es : outside_exitsb c es = true -> outside_exits c es.
Proof.
  revert c. induction es as [|e es IH]; intros c; [done|]. cbn. intros [He Hes]%andb_true_iff.
  split; [|by apply IH]. destruct e; cbn in *; [..|done|done]; intros Hx%exitingb_complete; by rewrite Hx in He.
Qed.

Lemma run_events_served c es : served c -> outside_exits c es -> served (run_events c es).
Proof.
  revert c. induction es as [|e es IH]; intros c Hs Ho; [done|]. destruct Ho as [He Ho].
  cbn. apply IH; [by apply do_event_served|done].
Qed.
End served.

(** * What holds of every record on its way *)

Section on_its_way.
Context (P : string -> pendingPersistRecord -> Prop).
Context (P_retried : forall o r, P o r -> P o (retried r)).

(** [P] of an owner and each record that is pending for it, or that its worker
    writes or has just written. *)
Record all_records (c : Persistence) : Prop := {
  ar_pending o r : pendingPersist c !! o = Some r -> P o r;
  ar_carried id_ w r : workers c !! id_ = Some w ->
    w_at w = Writing r \/ (exists a e, w_at w = Wrote r a e) -> P (w_owner w) r;
}.

(** ... and of each record an event files. *)
Definition brings (c : Persistence) (e : event) : Prop :=
  match e with
  | Queue owner summary g => P owner (fresh_record owner summary g)
  | Rollback owner clean _ =>
      TrimSpace clean <> "" -> P owner (fresh_record owner (TrimSpace clean) (Generation owner (p_store c)))
  | _ => True
  end.

Lemma start_all s : all_records (start s).
Proof. constructor; cbn; intros *; by rewrite lookup_empty. Qed.

Lemma all_pending c m s : all_records c -> (forall o r, m !! o = Some r -> P o r) ->
  all_records (set_store s (set_pending m c)).
Proof. intros [_ Hw] Hm. by constructor. Qed.

Lemma all_insert c o r : all_records c -> P o r ->
  forall o' r', <[o := r]> (pendingPersist c) !! o' = Some r' -> P o' r'.
Proof. intros Hf Hr o' r' [[<- <-]|[_ Hl]]%lookup_insert_Some; [done|by apply (ar_pending c Hf)]. Qed.

Lemma all_wake owner c : all_records c -> all_records (wake owner c).
Proof. intros [? ?]. unfold wake. destruct (persistWake c !! owner); by constructor. Qed.

Lemma all_start owner c : all_records c -> all_records (start_worker owner c).
Proof.
  intros [Hp Hw]. constructor; cbn; [done|]. intros j w r Hj. destruct (ctx_done c); [by apply (Hw j w r)|].
  apply lookup_insert_Some in Hj as [[<- <-]|[_ Hj]]; [|by apply (Hw j w r Hj)].
  cbn. by intros [?|(? & ? & ?)].
Qed.

Lemma all_move id_ w at_ c c' : all_records c -> workers c !! id_ = Some w ->
  workers c' = workers c -> (forall o r, pendingPersist c' !! o = Some r -> P o r) ->
  (forall r, at_ = Writing r \/ (exists a e, at_ = Wrote r a e) -> P (w_owner w) r) ->
  all_records (move id_ w at_ c').
Proof.
  intros [_ Hw] Hid Ew Hp Hat. constructor; cbn; [done|]. rewrite Ew. intros j w' r.
  intros [[<- <-]|[_ Hj]]%lookup_insert_Some; [apply Hat|by apply (Hw j w' r Hj)].
Qed.

Lemma worker_step_all id_ d why c : all_records c -> all_records (worker_step id_ d why c).
Proof.
  intros Hf. unfold worker_step. destruct (workers c !! id_) as [w|] eqn:Hw; [|done].
  pose proof (ar_pending c Hf) as Hp. pose proof (ar_carried c Hf id_ w) as Hc.
  assert (Hn : forall at_, (at_ = AtTop \/ at_ = Reading) \/ at_ = Exiting \/ (exists n, at_ = Waiting n) -> forall r0,
    at_ = Writing r0 \/ (exists a e, at_ = Wrote r0 a e) -> P (w_owner w) r0).
  { intros at_ [[->| ->]|[->|(n & ->)]] r0 [?|(?&?&?)]; done. }
  destruct (w_at w) as [| |r|r applied err|delay|] eqn:Hat.
  - apply (all_move id_ w _ c); [done..|]. apply Hn. destruct (ctx_done c); eauto.
  - destruct (pendingPersist c !! w_owner w) as [t|] eqn:Ep; apply (all_move id_ w _ c); try done.
    + intros r [[= <-]|(?&?&?)]; [by apply Hp|done].
    + apply Hn; eauto.
  - destruct (write d r (p_store c)) as [[applied err] s]. apply (all_move id_ w _ c); try done.
    intros r' [?|(?&?&[= <- _ _])]; [done|]. apply Hc; [done|by left].
  - destruct err as [e|]; destruct (pendingPersist c !! w_owner w) as [cur|] eqn:Ep.
    + apply (all_move id_ w _ c); try done; [|apply Hn; eauto].
      apply (all_insert c); [done|]. apply Hp in Ep. destruct (same_record cur r); auto.
    + apply (all_move id_ w _ c); try done. apply Hn; eauto.
    + destruct (same_record cur r); apply (all_move id_ w _ c); try done; try (apply Hn; eauto).
      cbn. intros o r' [_ Hl]%lookup_delete_Some. by apply Hp.
    + apply (all_move id_ w _ c); try done. apply Hn; eauto.
  - destruct (ctx_done c); [apply (all_move id_ w _ c); try done; apply Hn; eauto|].
    destruct why; [apply (all_move id_ w _ c); try done; apply Hn; eauto|].
    destruct (default false _); [|done]. apply (all_move id_ w _ c); try done. apply Hn; eauto.
  - constructor; cbn; [done|]. intros j w' r [_ Hj]%lookup_delete_Some. by apply (ar_carried c Hf j).
Qed.

Lemma do_event_all c e : all_records c -> brings c e -> all_records (do_event c e).
Proof.
  intros Hf Hb. destruct e as [owner summary g|owner clean d|id_ d why|]; cbn [do_event brings] in *.
  - unfold queuePersistence. assert (H1 : all_records (set_pending (<[owner := fresh_record owner summary g]> (pendingPersist c)) c)).
    { apply (all_pending c _ (p_store c)); [done|]. by apply all_insert. }
    destruct (is_active _ _); [by apply all_wake|by apply all_start].
  - unfold RollbackPersistence. case_decide; [done|]. cbn zeta.
    assert (Hdel : forall o o' r', delete o (pendingPersist c) !! o' = Some r' -> P o' r').
    { intros o o' r' [_ Hl]%lookup_delete_Some. by apply (ar_pending c Hf). }
    case_decide as Hc.
    + match goal with |- context [set_store ?s (set_pending ?m c)] =>
        assert (H1 : all_records (set_store s (set_pending m c))) by (apply all_pending; [done|apply Hdel]) end.
      destruct (is_active _ _); [by apply all_wake|done].
    + specialize (Hb Hc). match goal with |- context [set_pending ?m c] =>
        assert (H2 : forall s, all_records (set_store s (set_pending m c))) by (intros s; apply all_pending; [done|by apply all_insert]) end.
      destruct (is_active _ _); [by apply all_wake, (H2 (p_store c))|].
      destruct (write d _ _) as [[applied err] s]. specialize (H2 s). destruct err; [by apply all_start|].
      destruct H2 as [Hp Hw]. constructor; cbn in *; [|done].
      intros o r' [_ Hl]%lookup_delete_Some. by apply Hp.
  - by apply worker_step_all.
  - destruct Hf as [? ?]. by constructor.
Qed.
End on_its_way.

(** * A running worker writes what is pending *)

Section drains.

(** Records are filed under their owner, and a worker carries its owner's. *)
Definition filed : Persistence -> Prop := all_records (fun o r => pp_owner r = o).

Lemma run_events_filed c es : filed c -> filed (run_events c es).
Proof.
  revert c. induction es as [|e es IH]; intros c Hf; [done|]. cbn. apply IH.
  apply do_event_all; [done..|]. by destruct e.
Qed.

(** The worker's steps on a disk that works, woken by its timer. *)
Definition works (id_ : nat) (d : disk) (n : nat) (c : Persistence) : Persistence :=
  Nat.iter n (worker_step id_ d ByTimer) c.

Definition within (k : nat) (id_ : nat) (d : disk) (P : Persistence -> Prop) (c : Persistence) : Prop :=
  exists n, (n <= k)%nat /\ P (works id_ d n c).

Lemma within_now k id_ d (P : Persistence -> Prop) c : P c -> within k id_ d P c.
Proof. intros HP. exists O. split; [lia|done]. Qed.

Lemma within_step k id_ d P c : within k id_ d P (worker_step id_ d ByTimer c) -> within (S k) id_ d P c.
Proof.
  intros (n & Hn & HP). exists (S n). split; [lia|]. unfold works in *. by rewrite Nat.iter_succ_r.
Qed.

Lemma within_mono k k' id_ d P c : (k <= k')%nat -> within k id_ d P c -> within k' id_ d P c.
Proof. intros Hk (n & Hn & HP). exists n. split; [lia|done]. Qed.

Definition healthy (d : disk) : Prop := d_hook d = None /\ d_save d = None.

(** The store reads the summary back, unless it was deleted since the
    generation was read. *)
Definition holds (r : pendingPersistRecord) (s : Store) : Prop :=
  Generation (pp_owner r) s = pp_storeGeneration r ->
  exists rec, records s !! CanonicalSessionID (pp_owner r) = Some rec /\ rec_Summary rec = TrimSpace (pp_summary r).

(** A write keeps the generations, and whether the store is blocked. *)
Lemma write_keeps d r s : generations (write d r s).2 = generations s /\ blockedErr (write d r s).2 = blockedErr s.
Proof.
  unfold write. destruct (Upsert_cases (fun _ => d_hook d) (fun _ => d_save d) (pp_owner r) (pp_summary r)
    (pp_storeGeneration r) (d_now d) s) as [[e ->]|(_ & _ & _ & next & _ & _ & _ & ->)]; done.
Qed.

Lemma works_generation owner id_ d n c : Generation owner (p_store (works id_ d n c)) = Generation owner (p_store c).
Proof.
  induction n as [|n IH]; [done|]. rewrite <- IH. change (works id_ d (S n) c) with (worker_step id_ d ByTimer (works id_ d n c)).
  set (c1 := works id_ d n c).
  unfold worker_step. destruct (workers c1 !! id_) as [w|]; [|done].
  destruct (w_at w) as [| |r|r applied [e|]|delay|]; try done.
  - by destruct (pendingPersist c1 !! w_owner w).
  - pose proof (proj1 (write_keeps d r (p_store c1))) as E. destruct (write d r (p_store c1)) as [[a e] s].
    cbn in *. unfold Generation, generation. by rewrite E.
  - by destruct (pendingPersist c1 !! w_owner w).
  - destruct (pendingPersist c1 !! w_owner w) as [cur|]; [|done]. by destruct (same_record cur r).
  - by destruct (ctx_done c1).
Qed.

(** Without an error, the summary was not blank and the store holds it. *)
Lemma write_holds d r s : (write d r s).1.2 = None -> blockedErr s = None -> holds r (write d r s).2.
Proof.
  intros He Hb HG. assert (HG' : Generation (pp_owner r) s = pp_storeGeneration r).
  { rewrite <- HG. unfold Generation, generation. by rewrite (proj1 (write_keeps d r s)). }
  revert He. unfold write, Upsert. case_decide as Hne; [done|]. rewrite CanonicalSessionID_TrimSpace.
  unfold Generation in HG'. rewrite HG', Z.eqb_refl, Hb. cbn [negb].
  destruct (d_hook d); [done|]. destruct (d_save d); [done|]. intros _. cbn.
  rewrite lookup_insert_eq. eexists. by split.
Qed.

Lemma write_healthy d r s : healthy d -> TrimSpace (pp_owner r) <> "" -> TrimSpace (pp_summary r) <> "" ->
  blockedErr s = None -> (write d r s).1.2 = None.
Proof.
  intros [Hh Hsv] Ho Hr Hb. unfold write, Upsert. rewrite decide_False by tauto.
  destruct (negb _); [done|]. by rewrite Hb, Hh, Hsv.
Qed.

Lemma same_record_iff a b : same_record a b = true <->
  pp_summary a = pp_summary b /\ pp_storeGeneration a = pp_storeGeneration b.
Proof. unfold same_record. by rewrite andb_true_iff, bool_decide_eq_true, Z.eqb_eq. Qed.

Lemma same_record_holds a b s : pp_owner a = pp_owner b -> same_record a b = true -> holds b s -> holds a s.
Proof. intros E [E1 E2]%same_record_iff. unfold holds. by rewrite E, E1, E2. Qed.

(** Worker [id_] of [owner] is at [at_], with [r] (or a retry of it) pending. *)
Record serving (id_ : nat) (owner : string) (r : pendingPersistRecord) (at_ : worker_at) (c : Persistence) : Prop := {
  sg_worker : exists ch, workers c !! id_ = Some {| w_owner := owner; w_wake := ch; w_at := at_ |};
  sg_pending : exists r', pendingPersist c !! owner = Some r' /\ pp_owner r' = owner /\
    pp_summary r' = pp_summary r /\ pp_storeGeneration r' = pp_storeGeneration r;
  sg_alive : ctx_done c = false;
  sg_open : blockedErr (p_store c) = None;
}.

(** Nothing is pending for the owner any more, and the store holds [r]. *)
Definition persisted (owner : string) (r : pendingPersistRecord) (c : Persistence) : Prop :=
  pendingPersist c !! owner = None /\ holds r (p_store c).

Section healthy.
Context (id_ : nat) (owner : string) (r : pendingPersistRecord) (d : disk).
Context (Hd : healthy d) (Ho : TrimSpace owner <> "") (Hr : TrimSpace (pp_summary r) <> "")
  (Hown : pp_owner r = owner).

Ltac serve := intros [[ch Hw] (r' & Hp & Eo & Es & Eg) Ha Hb]; apply within_step; unfold worker_step;
  rewrite Hw; cbn [w_at w_owner w_wake]; rewrite ?Ha, ?Hp.
Ltac at_ := constructor; cbn; [eexists; apply lookup_insert_eq|eauto|done|done].

(** After writing a record that is the pending one. *)
Lemma serve_done r0 a c : serving id_ owner r (Wrote r0 a None) c -> same_record r r0 = true ->
  pp_owner r0 = owner -> holds r0 (p_store c) -> within 1 id_ d (persisted owner r) c.
Proof.
  intros Hs Hsame Hr0 Hh. revert Hs. serve. assert (E : same_record r' r0 = true).
  { revert Hsame. unfold same_record. by rewrite Es, Eg. }
  rewrite E. apply within_now. split; cbn; [apply lookup_delete_eq|].
  eapply same_record_holds; [|exact Hsame|exact Hh]. congruence.
Qed.

Lemma serve_write r0 c : serving id_ owner r (Writing r0) c -> same_record r r0 = true ->
  pp_owner r0 = owner -> within 2 id_ d (persisted owner r) c.
Proof.
  intros Hs Hsame Hr0. revert Hs. serve. destruct (write d r0 (p_store c)) as [[a e] s] eqn:EW.
  pose proof (write_keeps d r0 (p_store c)) as [_ HK]. rewrite EW in HK. cbn in HK.
  assert (He : e = None).
  { change e with ((a, e, s).1.2). rewrite <- EW. apply write_healthy; try done; [by rewrite Hr0|].
    apply same_record_iff in Hsame as [<- _]. done. }
  subst e. apply (serve_done r0 a); try done; [constructor; cbn; [eexists; apply lookup_insert_eq|eauto|done|congruence]|].
  cbn. pose proof (write_holds d r0 (p_store c)) as HH. rewrite EW in HH. by apply HH.
Qed.

Lemma serve_read c : serving id_ owner r Reading c -> within 3 id_ d (persisted owner r) c.
Proof.
  serve. apply (serve_write r'); [at_| |done]. by apply same_record_iff.
Qed.

Lemma serve_top c : serving id_ owner r AtTop c -> within 4 id_ d (persisted owner r) c.
Proof. serve. apply serve_read. at_. Qed.

Lemma serve_waiting n c : serving id_ owner r (Waiting n) c -> within 5 id_ d (persisted owner r) c.
Proof. serve. apply serve_top. at_. Qed.

(** After a write that failed, or that wrote an older record. *)
Lemma serve_wrote r0 a e c : serving id_ owner r (Wrote r0 a e) c -> e <> None \/ same_record r r0 = false ->
  within 6 id_ d (persisted owner r) c.
Proof.
  intros Hs Hc. revert Hs. serve. destruct e as [e|].
  - apply (serve_waiting (calculatePersistRetryDelay (pp_retryCount (if same_record r' r0 then retried r' else r')))).
    constructor; cbn; [eexists; apply lookup_insert_eq| |done|done].
    rewrite lookup_insert_eq. eexists. split; [done|]. by destruct (same_record r' r0).
  - destruct Hc as [?|Hc]; [done|]. assert (E : same_record r' r0 = false).
    { revert Hc. unfold same_record. by rewrite Es, Eg. }
    rewrite E. apply (within_mono 4); [lia|]. apply serve_top. at_.
Qed.

Lemma serve_writing r0 c : serving id_ owner r (Writing r0) c -> pp_owner r0 = owner ->
  within 7 id_ d (persisted owner r) c.
Proof.
  intros Hs Hr0. destruct (same_record r r0) eqn:E.
  { apply (within_mono 2); [lia|]. by apply (serve_write r0). }
  revert Hs. serve. destruct (write d r0 (p_store c)) as [[a e] s] eqn:EW.
  pose proof (write_keeps d r0 (p_store c)) as [_ HK]. rewrite EW in HK. cbn in HK.
  apply (serve_wrote r0 a e); [|by right].
  constructor; cbn; [eexists; apply lookup_insert_eq|eauto|done|congruence].
Qed.
End healthy.
End drains.

(** * What is deleted stays deleted *)

Section deleted.

(** The write an event does to the store, if any. *)
Definition event_op (c : Persistence) (e : event) : option op :=
  match e with
  | Queue _ _ _ | CancelScope => None
  | Rollback owner clean d =>
      if decide (owner = "") then None else
      if decide (TrimSpace clean = "") then Some (OpDelete owner (d_hook d) (d_save d)) else
      if is_active owner c then None else
      Some (OpUpsert owner (TrimSpace clean) (Generation owner (p_store c)) (d_now d) (d_hook d) (d_save d))
  | Work id_ d _ =>
      w ← workers c !! id_;
      match w_at w with
      | Writing r => Some (OpUpsert (pp_owner r) (pp_summary r) (pp_storeGeneration r) (d_now d) (d_hook d) (d_save d))
      | _ => None
      end
  end.

Definition step_op (s : Store) (o : option op) : Store := default s (step s <$> o).

Lemma wake_store owner c : p_store (wake owner c) = p_store c.
Proof. unfold wake. by case_match. Qed.

Lemma do_event_store c e : p_store (do_event c e) = step_op (p_store c) (event_op c e).
Proof.
  destruct e as [owner summary g|owner clean d|id_ d why|]; cbn [do_event event_op]; [..|done].
  - unfold queuePersistence. destruct (is_active _ _); [by rewrite wake_store|done].
  - unfold RollbackPersistence. case_decide; [done|]. cbn zeta. case_decide.
    + change (is_active owner (set_store ?s (set_pending ?m c))) with (is_active owner c).
      destruct (is_active owner c); [by rewrite wake_store|done].
    + change (is_active owner (set_pending ?m c)) with (is_active owner c).
      destruct (is_active owner c); [by rewrite wake_store|].
      unfold write. cbn [fresh_record pp_owner pp_summary pp_storeGeneration p_store set_pending step_op fmap option_fmap option_map default step].
      destruct (Upsert _ _ _ _ _ _ _) as [[a [e|]] s]; done.
  - unfold worker_step. destruct (workers c !! id_) as [w|]; [cbn|done].
    destruct (w_at w) as [| |r|r applied [e|]|delay|]; try done.
    + by destruct (pendingPersist c !! w_owner w).
    + unfold write. cbn. by destruct (Upsert _ _ _ _ _ _ _) as [[a e] s].
    + by destruct (pendingPersist c !! w_owner w).
    + destruct (pendingPersist c !! w_owner w) as [cur|]; [|done]. by destruct (same_record cur r).
    + destruct (ctx_done c); [done|]. destruct why; [done|]. by destruct (default false _).
Qed.

Section key.
Context (k : string) (Hk : canonical_id k).

(** A write advances the generation of a key by at most one. *)
Lemma step_generation s o : 0 <= generation s k -> generation s k + 1 < u64_max ->
  generation s k <= generation (step_op s o) k <= generation s k + 1.
Proof.
  intros H0 H1. destruct o as [[id summary g now hook save|id hook save]|]; cbn; [..|lia].
  - destruct (Upsert_cases (fun _ => hook) (fun _ => save) id summary g now s)
      as [[e ->]|(_ & _ & _ & next & _ & _ & _ & ->)]; cbn; unfold generation; cbn; lia.
  - destruct (decide (TrimSpace id = "")) as [Hid|Hid].
    { unfold Delete. rewrite decide_True by done. cbn. lia. }
    rewrite (Delete_generations _ _ id s Hid k Hk). case_decide; [rewrite u64_succ_small by lia|]; lia.
Qed.

(** A write that is not an [Upsert] of the key, with its generation, files
    nothing under it. *)
Lemma step_record s o :
  (forall id summary g now hook save, o = Some (OpUpsert id summary g now hook save) ->
     CanonicalSessionID id = k -> g <> generation s k) ->
  records s !! k = None -> records (step_op s o) !! k = None.
Proof.
  intros Ho Hnone. destruct o as [[id summary g now hook save|id hook save]|]; cbn; [..|done].
  - destruct (Upsert_cases (fun _ => hook) (fun _ => save) id summary g now s)
      as [[e ->]|(_ & _ & HG & next & -> & _ & _ & ->)]; [done|]. cbn.
    destruct (decide (CanonicalSessionID id = k)) as [E|E].
    + destruct (Ho _ _ _ _ _ _ eq_refl E). rewrite <- HG. unfold Generation. by rewrite E.
    + rewrite lookup_insert_ne by done. rewrite lookup_delete_aliases. by case_decide.
  - destruct (Delete_cases (fun _ => hook) (fun _ => save) id s) as [->|(_ & -> & _)]; [done|].
    destruct (decide (CanonicalSessionID id = k)) as [->|E]; [apply lookup_delete_eq|].
    rewrite lookup_delete_ne by done. rewrite lookup_delete_aliases. by case_decide.
Qed.

(** Every summary of the key still on its way was queued at generation [g] or
    before. *)
Definition older (g : Z) : Persistence -> Prop :=
  all_records (fun _ r => CanonicalSessionID (pp_owner r) = k -> pp_storeGeneration r <= g).

Lemma older_le g g' c : g <= g' -> older g c -> older g' c.
Proof. intros Hg [Hp Hw]. constructor; intros; (etrans; [|exact Hg]); eauto. Qed.

(** An event writes the key's summary at its present generation only if that is
    no later than [g]. *)
Lemma event_op_older g c e : older g c -> brings (fun _ r => CanonicalSessionID (pp_owner r) = k -> pp_storeGeneration r <= g) c e ->
  g < generation (p_store c) k ->
  forall id summary g' now hook save, event_op c e = Some (OpUpsert id summary g' now hook save) ->
  CanonicalSessionID id = k -> g' <> generation (p_store c) k.
Proof.
  intros Ho Hb Hg id summary g' now hook save. destruct e as [owner sm g''|owner clean d|id_ d why|]; cbn in *; [done|..|done].
  - repeat case_decide; try done. destruct (is_active _ _); [done|]. intros [= <- _ <- _ _ _] E.
    specialize (Hb ltac:(done) E). lia.
  - destruct (workers c !! id_) as [w|] eqn:Hw; [cbn|done].
    destruct (w_at w) as [| |r|r applied err|delay|] eqn:Hat; try done. intros [= <- _ <- _ _ _] E.
    pose proof (ar_carried _ c Ho id_ w r Hw (or_introl Hat) E). lia.
Qed.

(** Until the deletion, generations grow and every record is queued with one
    that was read before. *)
Definition read_before (c : Persistence) (e : event) : Prop :=
  match e with
  | Queue owner _ g => g <= Generation owner (p_store c)
  | _ => True
  end.

Fixpoint reads_before (c : Persistence) (es : list event) : Prop :=
  match es with [] => True | e :: es => read_before c e /\ reads_before (do_event c e) es end.

Lemma run_older c es : older (generation (p_store c) k) c -> 0 <= generation (p_store c) k ->
  generation (p_store c) k + Z.of_nat (length es) < u64_max -> reads_before c es ->
  let c' := run_events c es in
  older (generation (p_store c') k) c' /\
  0 <= generation (p_store c') k <= generation (p_store c) k + Z.of_nat (length es).
Proof.
  revert c. induction es as [|e es IH]; intros c Ho H0 Hl Hr; cbn [run_events fold_left]; [by split; [|cbn; lia]|].
  destruct Hr as [He Hr]. cbn [length] in Hl.
  pose proof (step_generation (p_store c) (event_op c e) H0 ltac:(lia)) as Hg.
  rewrite <- do_event_store in Hg.
  destruct (IH (do_event c e)) as [H1 H2]; [|lia|lia|done|split; [done|cbn [length]; unfold run_events in *; lia]].
  apply (older_le (generation (p_store c) k)); [lia|]. apply do_event_all; [done..|].
  destruct e as [owner sm g|owner clean d|id_ d why|]; cbn in *; [|intros _|done..].
  - unfold Generation in He. by intros <-.
  - unfold Generation. by intros <-.
Qed.

(** After it, the summaries still queued for the key are from before. *)
Definition stale (g : Z) (e : event) : Prop :=
  match e with
  | Queue owner _ g' => CanonicalSessionID owner = k -> g' <= g
  | Rollback owner clean _ => CanonicalSessionID owner = k -> TrimSpace clean = ""
  | _ => True
  end.

Lemma run_stale g c es : older g c -> 0 <= g < generation (p_store c) k ->
  generation (p_store c) k + Z.of_nat (length es) < u64_max -> Forall (stale g) es ->
  records (p_store c) !! k = None -> records (p_store (run_events c es)) !! k = None.
Proof.
  revert c. induction es as [|e es IH]; intros c Ho Hg Hl Hs Hn; [done|]. cbn [run_events fold_left].
  apply Forall_cons in Hs as [He Hs]. cbn [length] in Hl.
  pose proof (step_generation (p_store c) (event_op c e) ltac:(lia) ltac:(lia)) as Hg'.
  rewrite <- do_event_store in Hg'.
  assert (Hb : brings (fun _ r => CanonicalSessionID (pp_owner r) = k -> pp_storeGeneration r <= g) c e).
  { destruct e as [owner sm g'|owner clean d|id_ d why|]; cbn in *; [done| |done..]. intros Hc E. by destruct Hc, He. }
  apply IH; [by apply do_event_all|lia|lia|done|].
  rewrite do_event_store. apply step_record; [|done]. by apply (event_op_older g); [done..|lia].
Qed.
End key.

(** A deletion that reaches the disk leaves no record. *)
Lemma Delete_gone hook save id s : TrimSpace id <> "" -> blockedErr s = None ->
  (forall m, hook m = None) -> (forall m, save m = None) ->
  records (Delete hook save id s).2 !! CanonicalSessionID id = None.
Proof.
  intros Hid Hb Hh Hs. unfold Delete. rewrite decide_False by done. rewrite CanonicalSessionID_TrimSpace. cbn.
  rewrite Hb, Hh, Hs. destruct (bool_decide (is_Some _)) eqn:E; cbn.
  - apply lookup_delete_eq.
  - apply bool_decide_eq_false in E. destruct (negb _); cbn; [by apply eq_None_not_Some|apply lookup_delete_eq].
Qed.

Lemma step_blockedErr s o : blockedErr (step_op s o) = blockedErr s.
Proof.
  destruct o as [[id summary g now hook save|id hook save]|]; cbn; [..|done].
  - destruct (Upsert_cases (fun _ => hook) (fun _ => save) id summary g now s)
      as [[e ->]|(_ & _ & _ & next & _ & _ & _ & ->)]; done.
  - unfold Delete. case_decide; [done|]. cbn. destruct (blockedErr s) eqn:E; [done|]. guards; done.
Qed.

(** The store stays well formed and keeps working. *)
Lemma run_events_store c es : wf (p_store c) ->
  wf (p_store (run_events c es)) /\ blockedErr (p_store (run_events c es)) = blockedErr (p_store c).
Proof.
  revert c. induction es as [|e es IH]; intros c Hw; [done|]. cbn [run_events fold_left].
  destruct (IH (do_event c e)) as [H1 H2].
  - rewrite do_event_store. destruct (event_op c e) as [o|]; [|done]. by apply (run_wf _ [o]).
  - split; [done|]. unfold run_events in *. rewrite H2, do_event_store. apply step_blockedErr.
Qed.
End deleted.

(** * Properties *)

Lemma served_worker c owner : served c -> HasPendingPersistence owner c = true -> ctx_done c = false ->
  exists id_ w, workers c !! id_ = Some w /\ w_owner w = owner /\ w_at w <> Exiting /\
    (forall j w', workers c !! j = Some w' -> w_owner w' = owner -> j = id_).
Proof.
  intros Hs Hp%bool_decide_eq_true Hc. destruct (sv_pending c Hs owner Hp) as [?|(i & w & Hi & Hw & Hat)]; [congruence|].
  exists i, w. split; [done|]. split; [done|]. split; [done|]. intros j w' Hj Hw'.
  eapply (sv_unique c Hs); [exact Hj|exact Hi|congruence].
Qed.

(** A summary that waits to be written has exactly one worker.  From an
    idle compactor, whatever is queued, rolled back, cancelled and done by the
    workers, in any order and with any disk errors: if a record is pending for
    an owner and the scope is not cancelled, one worker that still runs its
    loop serves that owner and no second worker does; provided nothing was
    queued or rolled back for an owner between its worker's last look at the
    pending records and that worker's clean-up. *)
Theorem pending_has_worker s es owner :
  let c := run_events (start s) es in
  outside_exits (start s) es -> HasPendingPersistence owner c = true -> ctx_done c = false ->
  exists id_ w, workers c !! id_ = Some w /\ w_owner w = owner /\ w_at w <> Exiting /\
    (forall j w', workers c !! j = Some w' -> w_owner w' = owner -> j = id_).
Proof. intros c Ho. apply served_worker, run_events_served; [apply start_served|done]. Qed.

(** A pending summary is written once the disk works.  After any events as
    in the previous property: with a working disk, the owner's worker, woken by
    its own timer, needs at most seven steps until nothing is pending for the
    owner; and then the store holds the summary, unless the record was deleted
    after the summary's generation was read, or the worker was just done
    writing this very record.  (The compactor queues no blank summaries.) *)
Theorem pending_is_written s es owner r d :
  let c := run_events (start s) es in
  outside_exits (start s) es -> pendingPersist c !! owner = Some r -> ctx_done c = false ->
  blockedErr (p_store c) = None -> TrimSpace owner <> "" -> TrimSpace (pp_summary r) <> "" -> healthy d ->
  exists id_ w n, workers c !! id_ = Some w /\ (n <= 7)%nat /\
    pendingPersist (works id_ d n c) !! owner = None /\
    (holds r (p_store (works id_ d n c)) \/
     exists r0 a, w_at w = Wrote r0 a None /\ same_record r r0 = true).
Proof.
  intros c Ho Hp Hc Hb Hown Hsum Hd.
  assert (Hs : served c) by (by apply run_events_served; [apply start_served|]).
  assert (Hf : filed c) by (apply run_events_filed, start_all).
  destruct (served_worker c owner Hs) as (i & [o ch at_] & Hi & Ew & Hat & _);
    [by apply bool_decide_eq_true; eexists|done|]. cbn in Ew, Hat. subst o.
  pose proof (ar_pending _ c Hf owner r Hp) as Hro.
  pose proof (fun r' => ar_carried _ c Hf i _ r' Hi) as Hcar. cbn in Hcar.
  assert (Hsv : serving i owner r at_ c) by (constructor; eauto 6).
  assert (Hall : within 7 i d (persisted owner r) c \/ exists r0 a, at_ = Wrote r0 a None /\ same_record r r0 = true).
  { destruct at_ as [| |r0|r0 a [e|]|dl|]; [..|done].
    - left. apply (within_mono 4); [lia|]. by apply serve_top.
    - left. apply (within_mono 3); [lia|]. by apply serve_read.
    - left. apply (serve_writing i owner r d) with (r0 := r0); auto.
    - left. apply (within_mono 6); [lia|]. apply (serve_wrote i owner r d) with (r0 := r0) (a := a) (e := Some e); auto.
    - destruct (same_record r r0) eqn:E; [right; eauto|left].
      apply (within_mono 6); [lia|]. apply (serve_wrote i owner r d) with (r0 := r0) (a := a) (e := None); auto.
    - left. apply (within_mono 5); [lia|]. by apply (serve_waiting i owner r d) with (n := dl). }
  destruct Hall as [(n & Hn & H1 & H2)|(r0 & a & -> & E)].
  - exists i. eexists. exists n. eauto 8.
  - exists i. eexists. exists 1%nat. split; [exact Hi|]. split; [lia|]. split; [|right; eauto].
    unfold works. cbn. unfold worker_step. rewrite Hi. cbn. rewrite Hp, E. cbn. apply lookup_delete_eq.
Qed.

(** C25: a summary that was rolled back to nothing stays deleted.  Take a store
    that loaded, any events with summaries queued at generations read before,
    then a rollback of the owner to the empty summary on a working disk, then
    any events whose summaries for that conversation, under any spelling of its
    ID, are still those of compactions that began before the deletion: pending
    records, running workers, retries and late compactions alike write nothing,
    and the conversation reads as having no summary.  (Fewer than 2^64 events;
    the generation would wrap.) *)
Theorem rolled_back_stays_deleted f s owner es1 d es2 :
  NewStore f = (s, None) -> TrimSpace owner <> "" -> healthy d ->
  Z.of_nat (length es1 + length es2) + 1 < u64_max ->
  reads_before (start s) es1 ->
  let c := run_events (start s) es1 in
  Forall (stale (CanonicalSessionID owner) (Generation owner (p_store c))) es2 ->
  Get owner (p_store (run_events (do_event c (Rollback owner "" d)) es2)) = Ok None.
Proof.
  intros Hf Hown [Hh Hsv] Hlen Hr c Hstale. set (k := CanonicalSessionID owner) in *.
  assert (Hk : canonical_id k) by apply CanonicalSessionID_canonical.
  assert (Hne : owner <> "") by (by intros ->).
  assert (Hinit : wf s /\ blockedErr s = None /\ generation s k = 0).
  { pose proof (wf_NewStore f) as Hwf. revert Hwf Hf. unfold NewStore. destruct (load f); [|done].
    intros Hwf [= <-]. done. }
  destruct Hinit as (Hwf & Hb & Hg0).
  destruct (run_older k Hk (start s) es1) as [Hold Hg]; [apply start_all|cbn; lia..|done|].
  fold c in Hold, Hg. cbn in Hg. rewrite Hg0 in Hg.
  destruct (run_events_store (start s) es1 Hwf) as [Hwc Hbc]. fold c in Hwc, Hbc. cbn in Hbc. rewrite Hb in Hbc.
  set (c1 := do_event c (Rollback owner "" d)).
  assert (Hst1 : p_store c1 = (Delete (fun _ => d_hook d) (fun _ => d_save d) owner (p_store c)).2).
  { unfold c1. rewrite do_event_store. cbn. by rewrite decide_False by done. }
  assert (Hg1 : generation (p_store c1) k = generation (p_store c) k + 1).
  { rewrite Hst1, Delete_generations by done. rewrite decide_True by done. apply u64_succ_small; lia. }
  assert (Hn1 : records (p_store c1) !! k = None) by (rewrite Hst1; by apply Delete_gone).
  assert (Ho1 : older k (generation (p_store c) k) c1) by (apply do_event_all; [done..|by intros []]).
  assert (Hw1 : wf (p_store c1)) by (rewrite Hst1; by apply Delete_wf).
  assert (Hb1 : blockedErr (p_store c1) = None).
  { unfold c1. by rewrite do_event_store, step_blockedErr. }
  destruct (run_events_store c1 es2 Hw1) as [Hw2 Hb2]. rewrite Hb1 in Hb2.
  rewrite Get_wf by done. f_equal. apply (run_stale k Hk (generation (p_store c) k)); [done|lia|lia|done|done].
Qed.

(** Whether an event is a worker's step. *)
Definition is_work (e : event) : Prop := match e with Work _ _ _ => True | _ => False end.

Definition unserved (owner : string) (c : Persistence) : Prop :=
  forall j w, workers c !! j = Some w -> w_owner w <> owner.

(** Without a worker, nothing touches an owner's record. *)
Lemma worker_step_unserved owner id_ d why c : unserved owner c ->
  unserved owner (worker_step id_ d why c) /\
  pendingPersist (worker_step id_ d why c) !! owner = pendingPersist c !! owner.
Proof.
  intros Hu. unfold worker_step. destruct (workers c !! id_) as [w|] eqn:Hw; [|done].
  pose proof (Hu _ _ Hw) as Hne.
  assert (Hm : forall at_ c', workers c' = workers c -> pendingPersist c' !! owner = pendingPersist c !! owner ->
    unserved owner (move id_ w at_ c') /\ pendingPersist (move id_ w at_ c') !! owner = pendingPersist c !! owner).
  { intros at_ c' E1 E2. split; [|done]. unfold unserved, move. cbn. rewrite E1. intros j w'.
    intros [[<- <-]|[_ Hj]]%lookup_insert_Some; [done|by eapply Hu]. }
  destruct (w_at w) as [| |r|r applied [e|]|delay|]; [by apply Hm|..].
  - by destruct (pendingPersist c !! w_owner w); apply Hm.
  - destruct (write d r (p_store c)) as [[a e] s]. by apply Hm.
  - destruct (pendingPersist c !! w_owner w); apply Hm; try done. cbn. by rewrite lookup_insert_ne.
  - destruct (pendingPersist c !! w_owner w) as [cur|]; [|by apply Hm].
    destruct (same_record cur r); apply Hm; try done. cbn. by rewrite lookup_delete_ne.
  - destruct (ctx_done c); [by apply Hm|]. destruct why; [by apply Hm|].
    by destruct (default false _); [apply Hm|].
  - split; [|done]. intros j w'. cbn. intros [_ Hj]%lookup_delete_Some. by eapply Hu.
Qed.

Lemma run_works_unserved owner c ws : Forall is_work ws -> unserved owner c ->
  unserved owner (run_events c ws) /\ pendingPersist (run_events c ws) !! owner = pendingPersist c !! owner.
Proof.
  intros Hws. revert c. induction Hws as [|[] ws He Hws IH]; intros c Hu; try done.
  cbn [run_events fold_left do_event]. destruct (worker_step_unserved owner id_ d why c Hu) as [H1 H2].
  rewrite <- H2. by apply IH.
Qed.

(** A summary queued while its worker is leaving is forgotten.  When an
    owner's worker has found nothing to write and left its loop, and a newer
    summary is queued before the worker cleans up, queueing only wakes the
    worker that no longer listens.  After the clean-up the record is pending,
    no worker serves the owner, and whatever steps the workers make, none ever
    will: it stays until the owner is queued or rolled back again. *)
Theorem queued_while_leaving s es owner id_ w summary g d why ws :
  let c := run_events (start s) es in
  outside_exits (start s) es -> workers c !! id_ = Some w -> w_owner w = owner -> w_at w = Exiting ->
  is_active owner c = true -> Forall is_work ws ->
  let c' := run_events c ([Queue owner summary g; Work id_ d why] ++ ws) in
  pendingPersist c' !! owner = Some (fresh_record owner summary g) /\ unserved owner c'.
Proof.
  intros c Ho Hw Hwo Hat Ha Hws. assert (Hs : served c) by (by apply run_events_served; [apply start_served|]).
  unfold run_events. rewrite fold_left_app. fold (run_events). cbn [fold_left do_event].
  set (c1 := worker_step id_ d why (queuePersistence owner summary g c)).
  assert (H1 : unserved owner c1 /\ pendingPersist c1 !! owner = Some (fresh_record owner summary g)).
  { subst c1. unfold queuePersistence. change (is_active owner (set_pending ?m c)) with (is_active owner c). rewrite Ha.
    set (c2 := wake owner _). assert (E : workers c2 = workers c /\ pendingPersist c2 = <[owner := fresh_record owner summary g]> (pendingPersist c)).
    { unfold c2, wake. by case_match. }
    destruct E as [E1 E2]. unfold worker_step. rewrite E1, Hw, Hat. split.
    - intros j w'. cbn. rewrite E1. intros [Hne Hj]%lookup_delete_Some E. apply Hne.
      eapply (sv_unique c Hs); [exact Hw|exact Hj|congruence].
    - cbn. by rewrite E2, lookup_insert_eq. }
  destruct H1 as [Hu Hp]. destruct (run_works_unserved owner c1 ws Hws Hu) as [H1 H2].
  split; [|done]. by rewrite <- Hp.
Qed.

(** ** Witnesses *)

Definition store1 : Store := (NewStore FileMissing).1.
Definition good : disk := {| d_hook := None; d_save := None; d_now := 7 |}.
Definition bad : disk := {| d_hook := None; d_save := Some "full"; d_now := 5 |}.

(** A summary whose first write fails, replaced while its worker sleeps. *)
Definition events1 : list event :=
  [Queue "group:1" "s1" 0] ++ replicate 4 (Work 0 bad ByTimer) ++ [Queue "group:1" "s2" 0].

Lemma pending_has_worker_witness :
  exists id_ w, workers (run_events (start store1) events1) !! id_ = Some w /\ w_owner w = "group:1" /\ w_at w <> Exiting /\
    (forall j w', workers (run_events (start store1) events1) !! j = Some w' -> w_owner w' = "group:1" -> j = id_).
Proof. apply (pending_has_worker store1 events1 "group:1"); [by apply outside_exitsb_ok; vm_compute|vm_compute; reflexivity..]. Defined.

Lemma pending_is_written_witness :
  exists id_ w n, workers (run_events (start store1) events1) !! id_ = Some w /\ (n <= 7)%nat /\
    pendingPersist (works id_ good n (run_events (start store1) events1)) !! "group:1" = None /\
    (holds (fresh_record "group:1" "s2" 0) (p_store (works id_ good n (run_events (start store1) events1))) \/
     exists r0 a, w_at w = Wrote r0 a None /\ same_record (fresh_record "group:1" "s2" 0) r0 = true).
Proof.
  apply (pending_is_written store1 events1 "group:1" (fresh_record "group:1" "s2" 0) good);
    [by apply outside_exitsb_ok; vm_compute|vm_compute; reflexivity..|vm_compute; discriminate|vm_compute; discriminate|by split].
Defined.

(** A retrying summary and a late compaction, both from before the deletion. *)
Lemma rolled_back_stays_deleted_witness :
  Get "group:1" (p_store (run_events (do_event (run_events (start store1) events1) (Rollback "group:1" "" good))
    ([Queue "qq:group:1" "s1" 0] ++ replicate 8 (Work 0 good ByTimer)))) = Ok None.
Proof.
  apply (rolled_back_stays_deleted FileMissing store1 "group:1" events1 good
    ([Queue "qq:group:1" "s1" 0] ++ replicate 8 (Work 0 good ByTimer)));
    [reflexivity|vm_compute; discriminate|by split|vm_compute; reflexivity| |].
  - cbn [reads_before events1 app replicate]. repeat split; try exact I; vm_compute; discriminate.
  - repeat constructor; intros _; vm_compute; discriminate.
Defined.

(** Queue, write, leave; queue again; clean up: the second summary stays. *)
Lemma queued_while_leaving_witness :
  let c' := run_events (run_events (start store1) ([Queue "group:1" "s1" 0] ++ replicate 6 (Work 0 good ByTimer)))
    ([Queue "group:1" "s2" 0; Work 0 good ByTimer] ++ [Work 0 good ByTimer]) in
  pendingPersist c' !! "group:1" = Some (fresh_record "group:1" "s2" 0) /\ unserved "group:1" c'.
Proof.
  eapply (queued_while_leaving store1 ([Queue "group:1" "s1" 0] ++ replicate 6 (Work 0 good ByTimer)) "group:1" 0);
    [by apply outside_exitsb_ok; vm_compute|vm_compute; reflexivity..|by constructor].
Defined.

(** ** Two workers for one owner *)

(** A worker whose write failed and whose record is gone resets the owner's
    flags, and resets them again in its clean-up.  A summary queued in between
    starts a second worker whose flags that clean-up takes away; the next
    summary starts a third, and the two write the same owner's records in any
    order: at the end nothing is pending and the store holds the older one. *)
Definition events2 : list event :=
  [Queue "group:1" "s1" 0; Work 0 bad ByTimer; Work 0 bad ByTimer; Work 0 bad ByTimer;
   Rollback "group:1" "" good; Work 0 good ByTimer;
   Queue "group:1" "s2" 1; Work 0 good ByTimer; Work 1 good ByTimer; Work 1 good ByTimer;
   Queue "group:1" "s3" 1] ++ replicate 5 (Work 2 good ByTimer) ++ replicate 2 (Work 1 good ByTimer).

Lemma older_summary_wins :
  let c := run_events (start store1) events2 in
  IsPersistenceActive "group:1" c = true /\ HasPendingPersistence "group:1" c = false /\
  size (workers c) = 2%nat /\
  (rec_Summary <$> records (p_store c) !! "group:1") = Some "s2".
Proof. vm_compute. repeat split. Qed.
