(* ===== verification/Router.v ===== *)
(** Model routing: which model serves a workload, of
    [internal/modelrouter/manager.go] and [types.go].

    A configuration lists endpoints and models, binds each workload to a model,
    and lets groups override bindings.  It is normalized, validated, and then
    resolved per workload and group.  Workloads are open strings, as in the code;
    parsing a URL is a parameter. *)

From S2P Require Import Prelude GoStrings SummaryStore.

Local Open Scope string_scope.
Local Open Scope list_scope.

(** * Configurations *)

Definition WorkloadDialogue : string := "dialogue".
Definition WorkloadSubagent : string := "subagent".
Definition WorkloadVision : string := "vision".
Definition WorkloadReflection : string := "reflection".
Definition WorkloadMemoryExtract : string := "memory_extract".
Definition WorkloadGroupCompact : string := "group_compact".
Definition WorkloadEmbedding : string := "embedding".

Definition Workloads : list string :=
  [WorkloadDialogue; WorkloadSubagent; WorkloadVision; WorkloadReflection; WorkloadMemoryExtract;
   WorkloadGroupCompact; WorkloadEmbedding].

Inductive BindingMode :=
  | BindingUnset | BindingInherit | BindingModel | BindingDisabled | BindingFollowDialogue
  | BindingOther (mode : string).
#[export] Instance BindingMode_eq_dec : EqDecision BindingMode.
Proof. solve_decision. Defined.

Inductive APIKeyStorage :=
  | APIKeyStorageUnset | APIKeyStorageManual | APIKeyStorageEnv | APIKeyStorageSecretFile
  | APIKeyStorageWindowsCredentialManager | APIKeyStorageOther (source : string).
#[export] Instance APIKeyStorage_eq_dec : EqDecision APIKeyStorage.
Proof. solve_decision. Defined.

Record Endpoint := {
  ep_ID : string;
  ep_DisplayName : string;
  ep_BaseURL : string;
  ep_APIKeySource : APIKeyStorage;
  ep_APIKeyRef : string;
  ep_APIKeyConfigured : bool;
  ep_Enabled : bool;
}.

Record Model := {
  mo_ID : string;
  mo_DisplayName : string;
  mo_EndpointID : string;
  mo_UpstreamModel : string;
  mo_Enabled : bool;
  mo_Capabilities : list string;
  mo_MaxInputTokens : Z;
}.

Record Binding := { Mode : BindingMode; ModelID : string }.
#[export] Instance Binding_eq_dec : EqDecision Binding.
Proof. solve_decision. Defined.

Record GroupOverride := { go_Platform : string; go_GroupID : string; go_Bindings : gmap string Binding }.

#[export] Instance Endpoint_eq_dec : EqDecision Endpoint.
Proof. solve_decision. Defined.
#[export] Instance Model_eq_dec : EqDecision Model.
Proof. solve_decision. Defined.
#[export] Instance GroupOverride_eq_dec : EqDecision GroupOverride.
Proof. solve_decision. Defined.

Record Configuration := {
  Version : Z;
  Revision : Z;
  Endpoints : list Endpoint;
  Models : list Model;
  GlobalBindings : gmap string Binding;
  GroupOverrides : list GroupOverride;
}.

Record Scope := { sc_Platform : string; sc_GroupID : string }.
#[export] Instance Scope_eq_dec : EqDecision Scope.
Proof. solve_decision. Defined.

Record Target := {
  tg_EndpointID : string;
  tg_EndpointDisplayName : string;
  tg_APIKeySource : APIKeyStorage;
  tg_APIKeyRef : string;
  tg_ModelID : string;
  tg_ModelDisplayName : string;
  tg_BaseURL : string;
  tg_UpstreamModel : string;
  tg_MaxInputTokens : Z;
}.

Definition configurationVersion : Z := 1.
Definition bind (m : BindingMode) : Binding := {| Mode := m; ModelID := "" |}.

(** A workload's binding once it has been filled in. *)
Definition default_binding (w : string) : Binding :=
  bind (if decide (w = WorkloadReflection) then BindingFollowDialogue else BindingDisabled).

Definition defaultConfiguration : Configuration := {|
  Version := configurationVersion; Revision := 0; Endpoints := []; Models := [];
  GlobalBindings := list_to_map (map (fun w => (w, default_binding w)) Workloads);
  GroupOverrides := [] |}.

Definition knownWorkload (w : string) : bool := existsb (fun c => bool_decide (c = w)) Workloads.

(** * Keys of secrets *)

Definition APIKeyEnvironment : string := "UPSTREAM_API_KEY".
Definition manualAPIKeyRef (endpointID : string) : string := "endpoint/" +:+ TrimSpace endpointID.
Definition windowsCredentialTarget (endpointID : string) : string :=
  "guaitech.frostagent/endpoint/" +:+ TrimSpace endpointID.

Definition defaultAPIKeyRef (source : APIKeyStorage) (endpointID : string) : string :=
  match source with
  | APIKeyStorageEnv => APIKeyEnvironment
  | APIKeyStorageWindowsCredentialManager => windowsCredentialTarget endpointID
  | APIKeyStorageManual | APIKeyStorageUnset => manualAPIKeyRef endpointID
  | _ => ""
  end.

(** * Platforms *)

Section config.
Context `{UnicodeCase}.

Definition isQQPlatform (p : string) : bool :=
  bool_decide (p = "" \/ p = "qq" \/ p = "onebot" \/ p = "aiocqhttp").

Definition normal_platform (p : string) : string := ToLower (TrimSpace p).

Definition platformsMatch (a b : string) : bool :=
  let aNorm := normal_platform a in
  let bNorm := normal_platform b in
  if decide (aNorm = bNorm) then true else isQQPlatform aNorm && isQQPlatform bNorm.

Definition canonicalPlatform (p : string) : string :=
  let norm := normal_platform p in if isQQPlatform norm then "qq" else norm.

Definition Normalized (s : Scope) : Scope :=
  {| sc_Platform := normal_platform (sc_Platform s); sc_GroupID := TrimSpace (sc_GroupID s) |}.

(** * Normalization *)

(** Neither set nor inherited. *)
Definition unset (b : Binding) : bool := bool_decide (Mode b = BindingUnset \/ Mode b = BindingInherit).

Definition normalize_bindings (m : gmap string Binding) : gmap string Binding :=
  fold_left (fun m w =>
    match m !! w with
    | Some b => if unset b then <[w := default_binding w]> m else m
    | None => <[w := default_binding w]> m
    end) Workloads m.

Definition normal_source (source : APIKeyStorage) : APIKeyStorage :=
  if decide (source = APIKeyStorageUnset) then APIKeyStorageManual else source.

Definition normal_ref (source : APIKeyStorage) (id ref : string) : string :=
  match source with
  | APIKeyStorageManual | APIKeyStorageWindowsCredentialManager | APIKeyStorageEnv =>
      if decide (TrimSpace ref = "") then defaultAPIKeyRef source id else TrimSpace ref
  | _ => TrimSpace ref
  end.

Definition normalize_endpoint (e : Endpoint) : Endpoint :=
  let source := normal_source (ep_APIKeySource e) in
  let ref := normal_ref source (ep_ID e) (ep_APIKeyRef e) in
  {| ep_ID := ep_ID e; ep_DisplayName := TrimSpace (ep_DisplayName e); ep_BaseURL := TrimSpace (ep_BaseURL e);
     ep_APIKeySource := source; ep_APIKeyRef := ref;
     ep_APIKeyConfigured := match source with
                            | APIKeyStorageEnv | APIKeyStorageSecretFile => negb (bool_decide (ref = ""))
                            | _ => ep_APIKeyConfigured e
                            end;
     ep_Enabled := ep_Enabled e |}.

Definition normalize_model (m : Model) : Model := {|
  mo_ID := mo_ID m; mo_DisplayName := TrimSpace (mo_DisplayName m); mo_EndpointID := TrimSpace (mo_EndpointID m);
  mo_UpstreamModel := TrimSpace (mo_UpstreamModel m); mo_Enabled := mo_Enabled m;
  mo_Capabilities := sort_stable string_less (mo_Capabilities m); mo_MaxInputTokens := mo_MaxInputTokens m |}.

Definition normalize_override (g : GroupOverride) : GroupOverride := {|
  go_Platform := normal_platform (go_Platform g); go_GroupID := TrimSpace (go_GroupID g);
  go_Bindings := filter (fun wb => unset wb.2 = false) (go_Bindings g) |}.

Definition normalizeConfiguration (c : Configuration) : Configuration := {|
  Version := if (Version c =? 0)%Z then configurationVersion else Version c;
  Revision := Revision c; Endpoints := map normalize_endpoint (Endpoints c); Models := map normalize_model (Models c);
  GlobalBindings := normalize_bindings (GlobalBindings c);
  GroupOverrides := map normalize_override (GroupOverrides c) |}.

(** The JSON round trip it does first is the identity on UTF-8 texts. *)
Definition cloneConfiguration (c : Configuration) : Configuration := normalizeConfiguration c.

(** * Validation *)

(** What [url.Parse] finds. *)
Record parsed_url := { u_Scheme : string; u_Host : string; u_RawQuery : string; u_Fragment : string }.
Context (ParseURL : string -> option parsed_url).

Definition url_error (u : string) : option error :=
  match ParseURL u with
  | None => Some "endpoint has an invalid http/https base url"
  | Some p =>
      if negb (bool_decide (u_Scheme p = "http" \/ u_Scheme p = "https")) || bool_decide (u_Host p = "")
      then Some "endpoint has an invalid http/https base url"
      else if negb (bool_decide (u_RawQuery p = "")) || negb (bool_decide (u_Fragment p = ""))
      then Some "endpoint must not contain query or fragment" else None
  end.

Definition name_key (s : string) : string := ToLower (TrimSpace s).

Definition blank3 (a b c : string) : bool := bool_decide (a = "" \/ b = "" \/ c = "").

Fixpoint validate_endpoints (names : gset string) (ids : gmap string Endpoint) (l : list Endpoint)
    : res error (gmap string Endpoint) :=
  match l with
  | [] => Ok ids
  | e :: l =>
      if blank3 (ep_ID e) (ep_DisplayName e) (ep_BaseURL e) then Err "endpoint id, display name and base url are required" else
      if bool_decide (name_key (ep_DisplayName e) ∈ names) then Err "endpoint display name is duplicated" else
      if bool_decide (is_Some (ids !! ep_ID e)) then Err "endpoint id is duplicated" else
      match url_error (ep_BaseURL e) with
      | Some err => Err err
      | None =>
          match ep_APIKeySource e with
          | APIKeyStorageUnset | APIKeyStorageOther _ => Err "endpoint has unknown api key source"
          | source =>
              if bool_decide (source = APIKeyStorageSecretFile) && bool_decide (ep_APIKeyRef e = "")
              then Err "endpoint secret file path is required" else
              if bool_decide (ep_APIKeyRef e = "") then Err "endpoint api key reference is required" else
              validate_endpoints ({[name_key (ep_DisplayName e)]} ∪ names) (<[ep_ID e := e]> ids) l
          end
      end
  end.

Fixpoint validate_models (endpointIDs : gmap string Endpoint) (names : gset string) (ids : gmap string Model)
    (l : list Model) : res error (gmap string Model) :=
  match l with
  | [] => Ok ids
  | m :: l =>
      if blank3 (mo_ID m) (mo_DisplayName m) (mo_EndpointID m) || bool_decide (mo_UpstreamModel m = "")
      then Err "model id, display name, endpoint and upstream model are required" else
      if bool_decide (name_key (mo_DisplayName m) ∈ names) then Err "model display name is duplicated" else
      if bool_decide (is_Some (ids !! mo_ID m)) then Err "model id is duplicated" else
      if negb (bool_decide (is_Some (endpointIDs !! mo_EndpointID m))) then Err "model references a missing endpoint" else
      if (mo_MaxInputTokens m <? 0)%Z then Err "model maximum input tokens must be nonnegative" else
      validate_models endpointIDs ({[name_key (mo_DisplayName m)]} ∪ names) (<[mo_ID m := m]> ids) l
  end.

Definition validateBinding (b : Binding) (models : gmap string Model) (endpoints : gmap string Endpoint)
    (allowInherit allowFollowDialogue : bool) : option error :=
  match Mode b with
  | BindingDisabled =>
      if negb (bool_decide (ModelID b = "")) && negb (bool_decide (is_Some (models !! ModelID b)))
      then Some "remembered model does not exist" else None
  | BindingInherit => if allowInherit then None else Some "inherit is not valid globally"
  | BindingFollowDialogue => if allowFollowDialogue then None else Some "dialogue cannot follow itself"
  | BindingModel =>
      match models !! ModelID b with
      | None => Some "model does not exist"
      | Some model =>
          match endpoints !! mo_EndpointID model with
          | None => Some "endpoint does not exist"
          | Some endpoint =>
              if negb (mo_Enabled model) || negb (ep_Enabled endpoint)
              then Some "referenced model and endpoint must be enabled" else None
          end
      end
  | _ => Some "unknown binding mode"
  end.

(** The first error of a list. *)
Fixpoint first_error {A} (f : A -> option error) (l : list A) : option error :=
  match l with
  | [] => None
  | a :: l => match f a with Some e => Some e | None => first_error f l end
  end.

Definition may_follow (w : string) : bool := negb (bool_decide (w = WorkloadDialogue \/ w = WorkloadEmbedding)).

Definition global_error (models : gmap string Model) (endpoints : gmap string Endpoint) (bindings : gmap string Binding)
    (w : string) : option error :=
  let b := default (bind BindingUnset) (bindings !! w) in
  if bool_decide (w = WorkloadReflection) && bool_decide (Mode b = BindingDisabled)
  then Some "global reflection binding cannot be disabled"
  else validateBinding b models endpoints false (may_follow w).

Definition group_binding_error (models : gmap string Model) (endpoints : gmap string Endpoint)
    (wb : string * Binding) : option error :=
  if negb (knownWorkload wb.1) then Some "group has unknown workload" else
  if bool_decide (wb.1 = WorkloadReflection \/ wb.1 = WorkloadEmbedding) && bool_decide (Mode wb.2 = BindingDisabled)
  then Some "group binding cannot be disabled"
  else validateBinding wb.2 models endpoints true (may_follow wb.1).

Definition group_key (g : GroupOverride) : string :=
  canonicalPlatform (go_Platform g) +:+ of_bytes [byte_of 0] +:+ TrimSpace (go_GroupID g).

(** A map's bindings are checked in any order. *)
Fixpoint validate_groups (models : gmap string Model) (endpoints : gmap string Endpoint) (keys : gset string)
    (l : list GroupOverride) : option error :=
  match l with
  | [] => None
  | g :: l =>
      if bool_decide (TrimSpace (go_Platform g) = "" \/ TrimSpace (go_GroupID g) = "")
      then Some "group override platform and group id are required" else
      if bool_decide (group_key g ∈ keys) then Some "group override is duplicated" else
      match first_error (group_binding_error models endpoints) (map_to_list (go_Bindings g)) with
      | Some e => Some e
      | None => validate_groups models endpoints ({[group_key g]} ∪ keys) l
      end
  end.

Definition validateConfiguration (c : Configuration) : option error :=
  if negb (Version c =? configurationVersion)%Z then Some "unsupported configuration version" else
  match validate_endpoints ∅ ∅ (Endpoints c) with
  | Err e => Some e
  | Ok endpointIDs =>
      match validate_models endpointIDs ∅ ∅ (Models c) with
      | Err e => Some e
      | Ok modelIDs =>
          if negb (forallb (fun wb => knownWorkload wb.1) (map_to_list (GlobalBindings c)))
          then Some "global bindings contain unknown workload" else
          match first_error (global_error modelIDs endpointIDs (GlobalBindings c)) Workloads with
          | Some e => Some e
          | None => validate_groups modelIDs endpointIDs ∅ (GroupOverrides c)
          end
      end
  end.

(** * Resolution *)

Definition globalBinding (c : Configuration) (w : string) (inherited : bool) : Binding * bool :=
  match GlobalBindings c !! w with
  | Some b => if unset b then (bind BindingDisabled, true) else (b, inherited)
  | None => (bind BindingDisabled, true)
  end.

Definition override_matches (s : Scope) (g : GroupOverride) : bool :=
  platformsMatch (go_Platform g) (sc_Platform s) && bool_decide (TrimSpace (go_GroupID g) = sc_GroupID s).

(** The binding the group sets itself, in the first override that matches. *)
Definition override_binding (c : Configuration) (w : string) (s : Scope) : option Binding :=
  if decide (sc_GroupID s = "") then None else
  g ← find (override_matches s) (GroupOverrides c);
  b ← go_Bindings g !! w;
  if unset b then None else Some b.

(** One level: for the dialogue nothing is followed. *)
Definition own_binding (c : Configuration) (w : string) (s : Scope) : Binding * bool :=
  match override_binding c w s with
  | Some b => (b, false)
  | None => globalBinding c w (negb (bool_decide (sc_GroupID s = "")))
  end.

Definition effectiveBinding (c : Configuration) (w : string) (s : Scope) : Binding * bool :=
  let s := Normalized s in
  let '(b, inherited) := own_binding c w s in
  if negb (bool_decide (w = WorkloadDialogue)) && bool_decide (Mode b = BindingFollowDialogue)
  then ((own_binding c WorkloadDialogue (Normalized s)).1, true)
  else (b, inherited).

Inductive resolve_error :=
  | ErrDisabled
  | ModelUnavailable (id : string)
  | EndpointUnavailable (id : string).

Definition find_model (c : Configuration) (id : string) : option Model :=
  find (fun m => bool_decide (mo_ID m = id)) (Models c).
Definition find_endpoint (c : Configuration) (id : string) : option Endpoint :=
  find (fun e => bool_decide (ep_ID e = id)) (Endpoints c).

Definition resolveConfiguration (c : Configuration) (w : string) (s : Scope) : res resolve_error Target :=
  let b := (effectiveBinding c w s).1 in
  if negb (bool_decide (Mode b = BindingModel)) || bool_decide (ModelID b = "") then Err ErrDisabled else
  match find_model c (ModelID b) with
  | None => Err (ModelUnavailable (ModelID b))
  | Some model =>
      if negb (mo_Enabled model) then Err (ModelUnavailable (ModelID b)) else
      match find_endpoint c (mo_EndpointID model) with
      | None => Err (EndpointUnavailable (mo_EndpointID model))
      | Some endpoint =>
          if negb (ep_Enabled endpoint) then Err (EndpointUnavailable (mo_EndpointID model)) else
          Ok {| tg_EndpointID := ep_ID endpoint; tg_EndpointDisplayName := ep_DisplayName endpoint;
                tg_APIKeySource := ep_APIKeySource endpoint; tg_APIKeyRef := ep_APIKeyRef endpoint;
                tg_ModelID := mo_ID model; tg_ModelDisplayName := mo_DisplayName model;
                tg_BaseURL := ep_BaseURL endpoint; tg_UpstreamModel := mo_UpstreamModel model;
                tg_MaxInputTokens := mo_MaxInputTokens model |}
      end
  end.
End config.

(** * A validated configuration routes *)

Section valid.
Context `{UnicodeCase} (ParseURL : string -> option parsed_url).
Implicit Types (c : Configuration) (w : string) (s : Scope) (b : Binding).

(** What validation collects is what resolution finds. *)
Lemma validate_endpoints_find names ids l ids' : validate_endpoints ParseURL names ids l = Ok ids' ->
  forall id, ids' !! id = match ids !! id with
                          | Some e => Some e
                          | None => find (fun e => bool_decide (ep_ID e = id)) l
                          end.
Proof.
  revert names ids. induction l as [|e l IH]; intros names ids; cbn [validate_endpoints find].
  { intros [= <-] id. by destruct (ids !! id). }
  destruct (blank3 _ _ _); [done|]. case_bool_decide as Hn; [done|]. case_bool_decide as Hi; [done|].
  destruct (url_error ParseURL (ep_BaseURL e)); [done|].
  assert (Hrec : forall names', validate_endpoints ParseURL names' (<[ep_ID e := e]> ids) l = Ok ids' ->
    forall id, ids' !! id = match ids !! id with
      | Some e => Some e | None => if bool_decide (ep_ID e = id) then Some e else find (fun e => bool_decide (ep_ID e = id)) l end).
  { intros names' Hv id. rewrite (IH _ _ Hv id). case_bool_decide as E.
    - subst id. rewrite lookup_insert_eq. destruct (ids !! ep_ID e) eqn:E; [|done]. destruct Hi. eauto.
    - by rewrite lookup_insert_ne. }
  destruct (ep_APIKeySource e); try done; (destruct (_ && _); [done|]); case_bool_decide; try done; apply Hrec.
Qed.

(** Identifiers name one endpoint. *)
Lemma validate_endpoints_ids names ids l ids' : validate_endpoints ParseURL names ids l = Ok ids' ->
  NoDup (map ep_ID l) /\ forall e, e ∈ l -> ids !! ep_ID e = None.
Proof.
  revert names ids. induction l as [|e l IH]; intros names ids; cbn [validate_endpoints map].
  { intros _. split; [constructor|]. by intros e ?%elem_of_nil. }
  destruct (blank3 _ _ _); [done|]. case_bool_decide as Hn; [done|]. case_bool_decide as Hi; [done|].
  destruct (url_error ParseURL (ep_BaseURL e)); [done|].
  assert (Hrec : forall names', validate_endpoints ParseURL names' (<[ep_ID e := e]> ids) l = Ok ids' ->
    NoDup (ep_ID e :: map ep_ID l) /\ forall x, x ∈ e :: l -> ids !! ep_ID x = None).
  { intros names' Hv. destruct (IH _ _ Hv) as [Hnd Hids].
    assert (Hx : forall x, x ∈ l -> ep_ID x <> ep_ID e /\ ids !! ep_ID x = None).
    { intros x Hx. specialize (Hids x Hx). destruct (decide (ep_ID x = ep_ID e)) as [E|E].
      - rewrite E, lookup_insert_eq in Hids. done.
      - by rewrite lookup_insert_ne in Hids. }
    split.
    - constructor; [|done]. intros (x & E & Hin)%list_elem_of_fmap. by destruct (Hx x Hin).
    - intros x [->|Hin]%elem_of_cons; [by apply eq_None_not_Some|by apply Hx]. }
  destruct (ep_APIKeySource e); try done; (destruct (_ && _); [done|]); case_bool_decide; try done; apply Hrec.
Qed.

Lemma validate_models_find eps names ids l ids' : validate_models eps names ids l = Ok ids' ->
  forall id, ids' !! id = match ids !! id with
                          | Some m => Some m
                          | None => find (fun m => bool_decide (mo_ID m = id)) l
                          end.
Proof.
  revert names ids. induction l as [|m l IH]; intros names ids; cbn [validate_models find].
  { intros [= <-] id. by destruct (ids !! id). }
  destruct (_ || _); [done|]. case_bool_decide as Hn; [done|]. case_bool_decide as Hi; [done|].
  destruct (negb _); [done|]. destruct (_ <? _)%Z; [done|]. intros Hv id. rewrite (IH _ _ Hv id). case_bool_decide as E.
  - subst id. rewrite lookup_insert_eq. destruct (ids !! mo_ID m) eqn:E; [|done]. destruct Hi. eauto.
  - by rewrite lookup_insert_ne.
Qed.

(** A validated model has an ID. *)
Lemma validate_models_id eps names ids l ids' m : validate_models eps names ids l = Ok ids' -> m ∈ l -> mo_ID m <> "".
Proof.
  revert names ids. induction l as [|m' l IH]; intros names ids Hv; [by intros ?%elem_of_nil|].
  cbn [validate_models] in Hv. destruct (blank3 _ _ _) eqn:Hb; [done|]. cbn [orb] in Hv.
  destruct (bool_decide (mo_UpstreamModel m' = "")); [done|]. case_bool_decide; [done|]. case_bool_decide; [done|].
  destruct (negb _); [done|]. destruct (_ <? _)%Z; [done|].
  intros [->|Hm]%elem_of_cons; [|by eapply IH]. apply bool_decide_eq_false in Hb. tauto.
Qed.

Lemma first_error_None {A} (f : A -> option error) l a : first_error f l = None -> a ∈ l -> f a = None.
Proof.
  induction l as [|x l IH]; [by intros _ ?%elem_of_nil|]. cbn. destruct (f x) eqn:E; [done|].
  intros Hl [->|Ha]%elem_of_cons; [done|by apply IH].
Qed.

(** The pieces of a successful validation. *)
Record validated c (eps : gmap string Endpoint) (models : gmap string Model) : Prop := {
  va_endpoints id : eps !! id = find_endpoint c id;
  va_models id : models !! id = find_model c id;
  va_model_ids m : m ∈ Models c -> mo_ID m <> "";
  va_global w b : GlobalBindings c !! w = Some b -> knownWorkload w = true /\ validateBinding b models eps false (may_follow w) = None;
  va_reflection : Mode (default (bind BindingUnset) (GlobalBindings c !! WorkloadReflection)) <> BindingDisabled;
  va_groups : validate_groups models eps ∅ (GroupOverrides c) = None;
}.

Lemma validate_inv c : validateConfiguration ParseURL c = None -> exists eps models, validated c eps models.
Proof.
  unfold validateConfiguration. destruct (negb _); [done|].
  destruct (validate_endpoints ParseURL ∅ ∅ (Endpoints c)) as [eps|] eqn:He; [|done].
  destruct (validate_models eps ∅ ∅ (Models c)) as [models|] eqn:Hm; [|done].
  destruct (forallb _ _) eqn:Hk; [|done]. cbn [negb].
  destruct (first_error _ Workloads) eqn:Hg; [done|]. intros Hgr. exists eps, models. constructor.
  - intros id. rewrite (validate_endpoints_find _ _ _ _ He id). by rewrite lookup_empty.
  - intros id. rewrite (validate_models_find _ _ _ _ _ Hm id). by rewrite lookup_empty.
  - intros m. by eapply validate_models_id.
  - intros w b Hb. assert (Hkw : knownWorkload w = true).
    { rewrite forallb_forall in Hk. apply (Hk (w, b)). by apply list_elem_of_In, elem_of_map_to_list. }
    split; [done|]. apply existsb_exists in Hkw as (w' & Hin%list_elem_of_In & ->%bool_decide_eq_true).
    pose proof (first_error_None _ _ _ Hg Hin) as Hw. unfold global_error in Hw. rewrite Hb in Hw. cbn [default] in Hw.
    by destruct (_ && _).
  - pose proof (first_error_None _ _ WorkloadReflection Hg ltac:(repeat (first [left|right]))) as Hw. unfold global_error in Hw.
    intros Hx. rewrite Hx in Hw. done.
  - done.
Qed.

Lemma valid_endpoint_ids c : validateConfiguration ParseURL c = None -> NoDup (map ep_ID (Endpoints c)).
Proof.
  unfold validateConfiguration. destruct (negb _); [done|].
  destruct (validate_endpoints ParseURL ∅ ∅ (Endpoints c)) as [eps|] eqn:He; [|done]. intros _.
  by apply validate_endpoints_ids in He as [? _].
Qed.

Lemma find_by_id l e : NoDup (map ep_ID l) -> e ∈ l -> find (fun x => bool_decide (ep_ID x = ep_ID e)) l = Some e.
Proof.
  induction l as [|x l IH]; intros Hnd; [by intros ?%elem_of_nil|]. apply NoDup_cons in Hnd as [Hx Hnd].
  intros [->|He]%elem_of_cons; cbn [find]; [by rewrite bool_decide_true|]. rewrite bool_decide_false; [by apply IH|].
  intros E. apply Hx. rewrite E. by apply list_elem_of_fmap_2.
Qed.

Lemma validate_groups_binding models eps keys l g w b : validate_groups models eps keys l = None -> g ∈ l ->
  go_Bindings g !! w = Some b -> validateBinding b models eps true (may_follow w) = None.
Proof.
  revert keys. induction l as [|g' l IH]; intros keys Hv; [by intros ?%elem_of_nil|]. cbn [validate_groups] in Hv.
  case_bool_decide; [done|]. case_bool_decide; [done|]. destruct (first_error _ _) eqn:Hf; [done|].
  intros [->|Hg]%elem_of_cons Hb; [|by eapply IH].
  pose proof (first_error_None _ _ (w, b) Hf ltac:(by apply elem_of_map_to_list)) as Hw.
  unfold group_binding_error in Hw. cbn [fst snd] in Hw. destruct (negb _); [done|]. by destruct (_ && _).
Qed.

(** Where an effective binding comes from. *)
Lemma own_binding_source c w s : Mode (own_binding c w s).1 = BindingModel ->
  GlobalBindings c !! w = Some (own_binding c w s).1 \/
  exists g, g ∈ GroupOverrides c /\ go_Bindings g !! w = Some (own_binding c w s).1.
Proof.
  unfold own_binding. destruct (override_binding c w s) as [b|] eqn:Ho; cbn [fst].
  - intros _. right. unfold override_binding in Ho. case_decide; [done|].
    destruct (find _ _) as [g|] eqn:Hf; [cbn in Ho|done]. destruct (go_Bindings g !! w) as [b'|] eqn:Hb; [cbn in Ho|done].
    destruct (unset b'); [done|]. injection Ho as ->. exists g. split; [|done]. apply find_some in Hf as [Hf _].
    by apply list_elem_of_In.
  - unfold globalBinding. destruct (GlobalBindings c !! w) as [b|]; [|done]. destruct (unset b); [done|]. by left.
Qed.

Lemma effectiveBinding_source c w s : Mode (effectiveBinding c w s).1 = BindingModel ->
  exists w', GlobalBindings c !! w' = Some (effectiveBinding c w s).1 \/
  exists g, g ∈ GroupOverrides c /\ go_Bindings g !! w' = Some (effectiveBinding c w s).1.
Proof.
  unfold effectiveBinding. destruct (own_binding c w (Normalized s)) as [b i] eqn:E.
  destruct (_ && _); cbn [fst]; intros Hm.
  - exists WorkloadDialogue. by apply own_binding_source.
  - exists w. pose proof (own_binding_source c w (Normalized s)) as Hs. rewrite E in Hs. by apply Hs.
Qed.

(** A validated configuration always routes or is switched off.  For every
    workload and group, resolution gives the target of an enabled model on an
    enabled endpoint of the configuration, the one the effective binding names,
    when that binding names a model; and otherwise reports that the workload is
    disabled.  It never finds a model or endpoint missing or unavailable. *)
Lemma resolve_valid c w s : validateConfiguration ParseURL c = None ->
  let b := (effectiveBinding c w s).1 in
  if decide (Mode b = BindingModel) then
    exists m e t, m ∈ Models c /\ e ∈ Endpoints c /\ mo_ID m = ModelID b /\ mo_EndpointID m = ep_ID e /\
      mo_Enabled m = true /\ ep_Enabled e = true /\ resolveConfiguration c w s = Ok t /\
      tg_ModelID t = mo_ID m /\ tg_UpstreamModel t = mo_UpstreamModel m /\ tg_EndpointID t = ep_ID e /\
      tg_BaseURL t = ep_BaseURL e /\ tg_APIKeySource t = ep_APIKeySource e /\ tg_APIKeyRef t = ep_APIKeyRef e
  else resolveConfiguration c w s = Err ErrDisabled.
Proof.
  intros (eps & models & Hv)%validate_inv b. unfold resolveConfiguration. fold b. case_decide as Hm.
  2: { by rewrite bool_decide_false. }
  rewrite bool_decide_true by done. cbn [negb orb].
  assert (Hb : exists inh fol, validateBinding b models eps inh fol = None).
  { destruct (effectiveBinding_source c w s Hm) as (w' & [Hg|(g & Hg & Hgb)]).
    - apply (va_global _ _ _ Hv) in Hg as [_ Hg]. eauto.
    - eexists _, _. eapply validate_groups_binding; [apply Hv|done|exact Hgb]. }
  destruct Hb as (inh & fol & Hb). unfold validateBinding in Hb. rewrite Hm in Hb.
  rewrite (va_models _ _ _ Hv) in Hb. destruct (find_model c (ModelID b)) as [m|] eqn:Em; [|done].
  rewrite (va_endpoints _ _ _ Hv) in Hb. destruct (find_endpoint c (mo_EndpointID m)) as [e|] eqn:Ee; [|done].
  destruct (mo_Enabled m) eqn:Hme; [|done]. destruct (ep_Enabled e) eqn:Hee; [|done]. cbn [negb].
  unfold find_model in Em. apply find_some in Em as [Hin%list_elem_of_In HID%bool_decide_eq_true].
  unfold find_endpoint in Ee. apply find_some in Ee as [Hein%list_elem_of_In HEID%bool_decide_eq_true].
  rewrite bool_decide_false by (rewrite <- HID; by apply (va_model_ids _ _ _ Hv)).
  eexists m, e, _. by repeat split.
Qed.
End valid.

(** * The case map *)

(** Lower case stays lower case, and white space is neither made nor lost. *)
Class LowerLaws `{UnicodeCase} := {
  ToLower_idem s : ToLower (ToLower s) = ToLower s;
  ToLower_trimmed s : trimmed s -> trimmed (ToLower s);
}.

Section lower.

Lemma ascii_ToLower s : @ToLower ascii_case s = ascii_lower s.
Proof. unfold ToLower. by destruct (is_ascii s). Qed.

Lemma lower_byte_idem b : lower_byte (lower_byte b) = lower_byte b.
Proof.
  assert (H : Ascii.eqb (lower_byte (lower_byte b)) (lower_byte b) = true).
  { revert b. apply byte_forall. by vm_compute. }
  by apply Ascii.eqb_eq.
Qed.

(** A byte of a white-space encoding is the lower case of itself only. *)
Definition caseless (c : Ascii.ascii) : bool := forallb (fun b => negb (Ascii.eqb (lower_byte b) c) || Ascii.eqb b c) all_bytes.

Lemma encodings_caseless e : e ∈ space_encodings -> Forall (fun c => caseless c = true) e.
Proof.
  intros He. assert (Hf : forallb (forallb caseless) space_encodings = true) by by vm_compute.
  rewrite forallb_forall in Hf. specialize (Hf e ltac:(by apply list_elem_of_In)).
  apply Forall_forall. intros c Hc. rewrite forallb_forall in Hf. apply Hf. by apply list_elem_of_In.
Qed.

Lemma caseless_inv b c : caseless c = true -> lower_byte b = c -> b = c.
Proof.
  unfold caseless. rewrite forallb_forall. intros Hc E. specialize (Hc b ltac:(apply list_elem_of_In, all_bytes_elem)).
  rewrite E, Ascii.eqb_refl in Hc. by apply Ascii.eqb_eq.
Qed.

Lemma clean_lower encs l : (forall e, e ∈ encs -> Forall (fun c => caseless c = true) e) ->
  clean encs l -> clean encs (map lower_byte l).
Proof.
  intros Henc Hl. rewrite clean_spec in *. intros e r He E.
  assert (Hpre : exists k, l = e ++ k).
  { specialize (Henc e He). clear He Hl. revert l E. induction Henc as [|c e Hc _ IH]; intros l E; [by exists l|].
    destruct l as [|b l]; [done|]. injection E as Eb E. destruct (IH l E) as [k ->]. exists k. cbn. f_equal.
    by apply caseless_inv. }
  destruct Hpre as [k ->]. by eapply Hl.
Qed.

Lemma ascii_lower_laws : @LowerLaws ascii_case.
Proof.
  constructor; intros s.
  - rewrite !ascii_ToLower. unfold ascii_lower. rewrite to_of_bytes, map_map. f_equal. apply map_ext, lower_byte_idem.
  - rewrite ascii_ToLower. intros [H1 H2]. unfold trimmed, trimmed_bytes, ascii_lower. rewrite to_of_bytes. split.
    + apply clean_lower; [apply encodings_caseless|done].
    + rewrite <- map_rev. apply clean_lower; [|done]. intros e (e0 & -> & He0)%list_elem_of_fmap.
      apply encodings_caseless in He0. rewrite Forall_forall in *. intros c Hc. apply He0.
      apply list_elem_of_In. rewrite in_rev. by apply list_elem_of_In.
Qed.
End lower.

(** * Overrides are unambiguous *)

Section overrides.
Context `{LowerLaws} (ParseURL : string -> option parsed_url).
Implicit Types (c : Configuration) (w : string) (s : Scope) (g : GroupOverride).

(** Two platforms match when they are one platform, of which QQ has several
    spellings. *)
Lemma platformsMatch_canonical a b : platformsMatch a b = true <-> canonicalPlatform a = canonicalPlatform b.
Proof.
  unfold platformsMatch, canonicalPlatform. case_decide as E; [by rewrite E|].
  destruct (isQQPlatform (normal_platform a)) eqn:Ea, (isQQPlatform (normal_platform b)) eqn:Eb; cbn [andb]; try done.
  - split; [done|]. intros Hb. rewrite <- Hb in Eb. done.
  - split; [done|]. intros Hb. rewrite Hb in Ea. done.
Qed.

Lemma normal_platform_idem p : normal_platform (normal_platform p) = normal_platform p.
Proof. unfold normal_platform. rewrite TrimSpace_id; [apply ToLower_idem|]. apply ToLower_trimmed, TrimSpace_trimmed. Qed.

Lemma Normalized_idem s : Normalized (Normalized s) = Normalized s.
Proof. unfold Normalized. cbn [sc_Platform sc_GroupID]. by rewrite normal_platform_idem, TrimSpace_idemp. Qed.

Definition same_group g g' : Prop :=
  canonicalPlatform (go_Platform g) = canonicalPlatform (go_Platform g') /\ TrimSpace (go_GroupID g) = TrimSpace (go_GroupID g').

Lemma group_key_same g g' : same_group g g' -> group_key g = group_key g'.
Proof. unfold same_group, group_key. by intros [-> ->]. Qed.

Lemma override_matches_spec s g : override_matches s g = true <->
  canonicalPlatform (go_Platform g) = canonicalPlatform (sc_Platform s) /\ TrimSpace (go_GroupID g) = sc_GroupID s.
Proof. unfold override_matches. by rewrite andb_true_iff, platformsMatch_canonical, bool_decide_eq_true. Qed.

Lemma validate_groups_keys models eps keys l : validate_groups models eps keys l = None ->
  NoDup (map group_key l) /\ forall g, g ∈ l -> group_key g ∉ keys.
Proof.
  revert keys. induction l as [|g l IH]; intros keys Hv.
  { split; [constructor|]. by intros g ?%elem_of_nil. }
  cbn [validate_groups] in Hv. case_bool_decide; [done|]. case_bool_decide as Hk; [done|].
  destruct (first_error _ _); [done|]. destruct (IH _ Hv) as [Hnd Hkeys]. split.
  - cbn. constructor; [|done]. intros (g' & E & Hg')%list_elem_of_fmap. apply (Hkeys g' Hg'). set_solver.
  - intros g' [->|Hg']%elem_of_cons; [done|]. specialize (Hkeys g' Hg'). set_solver.
Qed.

(** In lists with at most one hit, [find] does not depend on the order. *)
Lemma find_unique {A} (p : A -> bool) l x : x ∈ l -> p x = true -> (forall y, y ∈ l -> p y = true -> y = x) -> find p l = Some x.
Proof.
  intros Hx Hp Hu. destruct (find p l) as [y|] eqn:E.
  - apply find_some in E as [Hy Hpy]. f_equal. apply Hu; [by apply list_elem_of_In|done].
  - pose proof (find_none _ _ E x ltac:(by apply list_elem_of_In)). congruence.
Qed.

Lemma find_perm {A} (p : A -> bool) l l' : l ≡ₚ l' ->
  (forall x y, x ∈ l -> y ∈ l -> p x = true -> p y = true -> x = y) -> find p l = find p l'.
Proof.
  intros Hl Hu. destruct (find p l) as [x|] eqn:E.
  - apply find_some in E as [Hx%list_elem_of_In Hp]. symmetry. apply find_unique; [by rewrite <- Hl|done|].
    intros y Hy Hpy. rewrite <- Hl in Hy. by apply Hu.
  - destruct (find p l') as [x|] eqn:E'; [|done]. apply find_some in E' as [Hx%list_elem_of_In Hp].
    rewrite <- Hl in Hx. pose proof (find_none _ _ E x ltac:(by apply list_elem_of_In)). congruence.
Qed.

Lemma valid_override_unique c : validateConfiguration ParseURL c = None ->
  forall s g g', g ∈ GroupOverrides c -> g' ∈ GroupOverrides c ->
  override_matches s g = true -> override_matches s g' = true -> g = g'.
Proof.
  intros (eps & models & Hv)%validate_inv s g g' Hg Hg' [P1 I1]%override_matches_spec [P2 I2]%override_matches_spec.
  destruct (validate_groups_keys _ _ _ _ (va_groups _ _ _ Hv)) as [Hnd _].
  assert (E : group_key g = group_key g') by (apply group_key_same; split; congruence).
  apply list_elem_of_lookup in Hg as [i Hi]. apply list_elem_of_lookup in Hg' as [j Hj].
  assert (i = j); [|subst j; congruence].
  apply (NoDup_lookup _ _ _ (group_key g) Hnd); apply list_lookup_fmap_Some; [by exists g|exists g'; by rewrite E].
Qed.

(** The configuration with other overrides. *)
Definition with_overrides (l : list GroupOverride) c : Configuration := {|
  Version := Version c; Revision := Revision c; Endpoints := Endpoints c; Models := Models c;
  GlobalBindings := GlobalBindings c; GroupOverrides := l |}.

Lemma resolve_same c c' w s : GlobalBindings c' = GlobalBindings c -> Models c' = Models c -> Endpoints c' = Endpoints c ->
  (forall w, override_binding c' w (Normalized s) = override_binding c w (Normalized s)) ->
  resolveConfiguration c' w s = resolveConfiguration c w s.
Proof.
  intros E1 E2 E3 Ho. assert (Hw : forall w, own_binding c' w (Normalized s) = own_binding c w (Normalized s)).
  { intros w'. unfold own_binding, globalBinding. by rewrite Ho, E1. }
  unfold resolveConfiguration, effectiveBinding, find_model, find_endpoint. by rewrite Normalized_idem, E2, E3, !Hw.
Qed.

(** The scope is of the override's group. *)
Definition of_group s g : Prop :=
  canonicalPlatform (sc_Platform s) = canonicalPlatform (go_Platform g) /\ TrimSpace (sc_GroupID s) = TrimSpace (go_GroupID g).

Lemma of_group_matches s g : override_matches (Normalized s) g = true <-> of_group s g.
Proof.
  rewrite override_matches_spec. unfold of_group, Normalized, canonicalPlatform. cbn.
  rewrite normal_platform_idem. naive_solver.
Qed.

(** C39: overrides say what they say wherever they stand, and concern their
    group only.  In a validated configuration the order of the overrides does
    not matter; and replacing one override by another for the same group changes
    the routing of no other group, nor of conversations outside groups, where
    the spellings of the QQ platform count as one. *)
Theorem overrides_unambiguous c l w s : validateConfiguration ParseURL c = None ->
  (l ≡ₚ GroupOverrides c -> resolveConfiguration (with_overrides l c) w s = resolveConfiguration c w s) /\
  (forall l1 g g' l2, GroupOverrides c = l1 ++ g :: l2 -> l = l1 ++ g' :: l2 -> same_group g g' -> ~ of_group s g ->
     resolveConfiguration (with_overrides l c) w s = resolveConfiguration c w s).
Proof.
  intros Hv. split.
  - intros Hl. apply resolve_same; [done..|]. intros w'. unfold override_binding. case_decide; [done|].
    cbn [GroupOverrides with_overrides].
    rewrite (find_perm (override_matches (Normalized s)) l (GroupOverrides c)); [done|done|].
    intros x y Hx Hy. rewrite Hl in Hx, Hy. by apply (valid_override_unique c Hv).
  - intros l1 g g' l2 E -> [Hp Hi] Hm.
    assert (H1 : override_matches (Normalized s) g = false) by (apply not_true_iff_false; by rewrite of_group_matches).
    assert (H2 : override_matches (Normalized s) g' = false).
    { apply not_true_iff_false. rewrite of_group_matches. unfold of_group. by rewrite <- Hp, <- Hi. }
    apply resolve_same; [done..|]. intros w'. unfold override_binding. case_decide; [done|].
    cbn [GroupOverrides with_overrides]. rewrite E.
    assert (Hfind : forall l g, override_matches (Normalized s) g = false ->
      find (override_matches (Normalized s)) (l ++ g :: l2) = find (override_matches (Normalized s)) (l ++ l2)).
    { clear. intros l g Hg. induction l as [|x l IH]; cbn; [by rewrite Hg|]. by rewrite IH. }
    by rewrite !Hfind.
Qed.
End overrides.

(** * Normalization is idempotent *)

Section normalize.
Context `{LowerLaws}.
Implicit Types (c : Configuration).

Lemma trimmed_plain_app p r : plain p = true -> trimmed r -> trimmed (p +:+ r).
Proof.
  intros [Hp0 Hp]%plain_forall [_ Hr]. unfold trimmed, trimmed_bytes. rewrite to_bytes_app. split.
  - apply clean_spec. intros e r' He Heq. pose proof (space_encodings_nonempty e He) as Hne.
    apply encodings_not_plain in He. destruct e as [|x e]; [done|]. destruct (to_bytes p) as [|y p']; [done|].
    injection Heq as -> _. apply Forall_cons in He as [He _]. apply Forall_cons in Hp as [Hp _]. congruence.
  - rewrite rev_app_distr. apply clean_spec. rewrite clean_spec in Hr. intros e r' He Heq.
    pose proof He as He'. apply list_elem_of_fmap in He' as (e0 & -> & He0). apply encodings_not_plain in He0.
    apply app_eq_inv in Heq as [(k & Hk & Hk')|(k & Hk & Hk')].
    + by apply (Hr (rev e0) k).
    + destruct k as [|x k]; [rewrite app_nil_r in Hk; apply (Hr (rev e0) []); [done|by rewrite app_nil_r]|].
      assert (Hx : x ∈ e0) by (rewrite list_elem_of_In, in_rev, Hk; apply in_or_app; right; by left).
      assert (Hx' : x ∈ to_bytes p) by (rewrite list_elem_of_In, in_rev, Hk'; by left).
      rewrite Forall_forall in He0, Hp. specialize (He0 x Hx). specialize (Hp x Hx'). cbn in *. congruence.
Qed.

Lemma defaultAPIKeyRef_trimmed source id : trimmed (defaultAPIKeyRef source id).
Proof.
  destruct source; cbn; try (by apply (plain_trimmed APIKeyEnvironment)); try (apply trimmed_plain_app; [done|apply TrimSpace_trimmed]);
    by rewrite <- TrimSpace_nil; apply TrimSpace_trimmed.
Qed.

Lemma normal_source_idem source : normal_source (normal_source source) = normal_source source.
Proof. by destruct source. Qed.

Lemma normal_ref_trimmed source id ref : trimmed (normal_ref source id ref).
Proof. destruct source; cbn [normal_ref]; try case_decide; (apply TrimSpace_trimmed || apply defaultAPIKeyRef_trimmed). Qed.

Lemma normal_ref_idem source id ref : normal_ref source id (normal_ref source id ref) = normal_ref source id ref.
Proof.
  unfold normal_ref at 1. rewrite (TrimSpace_id (normal_ref source id ref)) by apply normal_ref_trimmed.
  destruct source; try done; cbn [normal_ref]; repeat case_decide; done.
Qed.

Lemma normalize_endpoint_idem e : normalize_endpoint (normalize_endpoint e) = normalize_endpoint e.
Proof.
  unfold normalize_endpoint. cbn [ep_ID ep_DisplayName ep_BaseURL ep_APIKeySource ep_APIKeyRef ep_APIKeyConfigured ep_Enabled].
  rewrite !TrimSpace_idemp, normal_source_idem, normal_ref_idem. f_equal. by destruct (normal_source _).
Qed.

Lemma sort_strings_idem l : sort_stable string_less (sort_stable string_less l) = sort_stable string_less l.
Proof.
  apply (ordered_unique string_less); [apply sort_stable_ordered; [apply string_less_asym|apply string_less_trans]..|
    apply sort_stable_perm|].
  intros x y _ _. apply string_less_total.
Qed.

Lemma normalize_model_idem m : normalize_model (normalize_model m) = normalize_model m.
Proof.
  unfold normalize_model. cbn [mo_ID mo_DisplayName mo_EndpointID mo_UpstreamModel mo_Enabled mo_Capabilities mo_MaxInputTokens].
  by rewrite !TrimSpace_idemp, sort_strings_idem.
Qed.

Lemma normalize_override_idem g : normalize_override (normalize_override g) = normalize_override g.
Proof.
  unfold normalize_override. cbn [go_Platform go_GroupID go_Bindings]. rewrite TrimSpace_idemp, normal_platform_idem. f_equal.
  apply map_filter_id. by intros w b [_ Hb]%map_lookup_filter_Some.
Qed.

Lemma unset_default w : unset (default_binding w) = false.
Proof. unfold unset, default_binding. by case_decide. Qed.

Definition filled (m : gmap string Binding) (w : string) : Prop := exists b, m !! w = Some b /\ unset b = false.

Definition fill (m : gmap string Binding) (w : string) : gmap string Binding :=
  match m !! w with
  | Some b => if unset b then <[w := default_binding w]> m else m
  | None => <[w := default_binding w]> m
  end.

Lemma fill_lookup m w w' : fill m w !! w' =
  if decide (w = w') then match m !! w with Some b => if unset b then Some (default_binding w) else Some b | None => Some (default_binding w) end
  else m !! w'.
Proof.
  unfold fill. case_decide as E; [subst w'|]; destruct (m !! w) as [b|] eqn:Eb; try destruct (unset b);
    rewrite ?lookup_insert_eq, ?lookup_insert_ne by done; done.
Qed.

Lemma normalize_bindings_fold m : normalize_bindings m = fold_left fill Workloads m.
Proof. done. Qed.

Lemma fill_filled m w w' : filled m w' \/ w = w' -> filled (fill m w) w'.
Proof.
  unfold filled. rewrite fill_lookup. intros [(b & Hb & Hu)|<-].
  - case_decide as E; [subst w'; rewrite Hb, Hu|]; eauto.
  - rewrite decide_True by done. destruct (m !! w) as [b|]; [destruct (unset b) eqn:Hu|]; eauto using unset_default.
Qed.

Lemma fold_fill_filled l m w : filled m w \/ w ∈ l -> filled (fold_left fill l m) w.
Proof.
  revert m. induction l as [|x l IH]; intros m; cbn [fold_left].
  - by intros [?|?%elem_of_nil].
  - rewrite elem_of_cons. intros H'. apply IH. destruct H' as [?|[->|?]]; eauto using fill_filled.
Qed.

Lemma fold_fill_id l m : (forall w, w ∈ l -> filled m w) -> fold_left fill l m = m.
Proof.
  induction l as [|x l IH]; intros Hf; [done|]. cbn [fold_left].
  assert (fill m x = m) as ->; [|apply IH; intros w Hw; apply Hf; by right].
  destruct (Hf x ltac:(by left)) as (b & Hb & Hu). unfold fill. by rewrite Hb, Hu.
Qed.

Lemma normalize_bindings_idem m : normalize_bindings (normalize_bindings m) = normalize_bindings m.
Proof. rewrite !normalize_bindings_fold. apply fold_fill_id. intros w Hw. apply fold_fill_filled. by right. Qed.

Lemma normalize_idem c : normalizeConfiguration (normalizeConfiguration c) = normalizeConfiguration c.
Proof.
  unfold normalizeConfiguration. cbn [Version Revision Endpoints Models GlobalBindings GroupOverrides].
  rewrite !map_map, normalize_bindings_idem. f_equal.
  - by destruct (Z.eqb_spec (Version c) 0) as [|E%Z.eqb_neq]; [|rewrite E].
  - apply map_ext, normalize_endpoint_idem.
  - apply map_ext, normalize_model_idem.
  - apply map_ext, normalize_override_idem.
Qed.
End normalize.

(** * A configuration with a group of its own *)

Module Demo.

Definition url (u : string) : option parsed_url :=
  Some {| u_Scheme := "https"; u_Host := u; u_RawQuery := ""; u_Fragment := "" |}.

Definition endpoint : Endpoint := {|
  ep_ID := "ep"; ep_DisplayName := "Provider"; ep_BaseURL := "https://provider.invalid/v1";
  ep_APIKeySource := APIKeyStorageUnset; ep_APIKeyRef := ""; ep_APIKeyConfigured := false; ep_Enabled := true |}.

Definition model (id : string) : Model := {|
  mo_ID := id; mo_DisplayName := id; mo_EndpointID := "ep"; mo_UpstreamModel := id; mo_Enabled := true;
  mo_Capabilities := []; mo_MaxInputTokens := 0 |}.

Definition to_model (id : string) : Binding := {| Mode := BindingModel; ModelID := id |}.

Definition override (platform group id : string) : GroupOverride :=
  {| go_Platform := platform; go_GroupID := group; go_Bindings := {[WorkloadDialogue := to_model id]} |}.

(** As typed; the dialogue goes to one model, the groups to others. *)
Definition typed : Configuration := {|
  Version := 0; Revision := 0; Endpoints := [endpoint]; Models := [model "large"; model "small"; model "cheap"];
  GlobalBindings := {[WorkloadDialogue := to_model "large"]};
  GroupOverrides := [override " OneBot " "g1" "small"; override "discord" "g1" "cheap"] |}.

Definition demo : Configuration := @normalizeConfiguration ascii_case typed.

Definition routed (s : Scope) (w : string) : string :=
  match @resolveConfiguration ascii_case demo w s with
  | Ok t => tg_UpstreamModel t
  | Err _ => "none"
  end.

Example demo_routes :
  (@validateConfiguration ascii_case url demo = None) /\
  map (routed {| sc_Platform := "qq"; sc_GroupID := "g1" |}) Workloads = ["small"; "none"; "none"; "small"; "none"; "none"; "none"] /\
  routed {| sc_Platform := "discord"; sc_GroupID := "g1" |} WorkloadReflection = "cheap" /\
  routed {| sc_Platform := "discord"; sc_GroupID := "g2" |} WorkloadReflection = "large".
Proof. by vm_compute. Qed.
End Demo.

Example overrides_unambiguous_witness :
  @resolveConfiguration ascii_case (with_overrides (rev (GroupOverrides Demo.demo)) Demo.demo) WorkloadDialogue
    {| sc_Platform := "qq"; sc_GroupID := "g1" |} =
  @resolveConfiguration ascii_case Demo.demo WorkloadDialogue {| sc_Platform := "qq"; sc_GroupID := "g1" |} /\
  @resolveConfiguration ascii_case (with_overrides [@normalize_override ascii_case (Demo.override "onebot" "g1" "small");
      @normalize_override ascii_case (Demo.override "discord" "g1" "large")] Demo.demo) WorkloadDialogue
    {| sc_Platform := "qq"; sc_GroupID := "g1" |} =
  @resolveConfiguration ascii_case Demo.demo WorkloadDialogue {| sc_Platform := "qq"; sc_GroupID := "g1" |}.
Proof.
  assert (Hv : @validateConfiguration ascii_case Demo.url Demo.demo = None) by by vm_compute. split.
  - apply (@overrides_unambiguous ascii_case ascii_lower_laws Demo.url Demo.demo _ _ _ Hv). symmetry. apply Permutation_rev.
  - apply (@overrides_unambiguous ascii_case ascii_lower_laws Demo.url Demo.demo _ _ _ Hv)
      with (l1 := [@normalize_override ascii_case (Demo.override " OneBot " "g1" "small")])
           (g := @normalize_override ascii_case (Demo.override "discord" "g1" "cheap"))
           (g' := @normalize_override ascii_case (Demo.override "discord" "g1" "large")) (l2 := []).
    + reflexivity.
    + reflexivity.
    + split; vm_compute; reflexivity.
    + intros [Hp _]. vm_compute in Hp. discriminate Hp.
Defined.
