(* ===== verification/Secrets.v ===== *)
(** The secrets of the model router, of [internal/modelrouter/api_key.go] and
    [windows_credential*.go]: API keys are kept outside the configuration, in a
    file and in the credential manager of Windows.  Changes are staged with a
    draft and applied when it is published, or not at all.

    The credential manager is an interface ([Wincred], with its laws); a write to
    a file may fail, and then leaves the file. *)

From S2P Require Import Prelude GoStrings SummaryStore Router.

Local Open Scope string_scope.
Local Open Scope list_scope.

(** * The environment *)

Inductive cred_error := ErrElementNotFound | CredFailed (e : error).

(** The package [wincred]. *)
Class Wincred := {
  Vault : Type;
  GetGenericCredential : string -> Vault -> res cred_error string * Vault;
  WriteCredential : string -> string -> Vault -> option cred_error * Vault;
  DeleteCredential : string -> Vault -> option cred_error * Vault;
}.

(** What the manager shares with the system: two files, the credentials, and the
    number of writes so far, which tells them apart. *)
Record World `{Wincred} := {
  w_config : option Configuration;
  w_secrets : gmap string string;
  w_vault : Vault;
  w_writes : nat;
}.

Section ops.
Context `{UnicodeCase} `{Wincred} `{MapOrder}.
(** Is this a build for Windows; which write of a file fails; the process
    environment; reading a file. *)
Context (windows : bool) (write_fault : nat -> option error).
Context (Getenv : string -> string) (ReadFile : string -> res error string).

(** [writeJSONAtomic] writes a temporary file and renames it: the file is
    replaced when nothing failed. *)
Definition writeJSONAtomic (store : World -> World) (w : World) : option error * World :=
  let w' := {| w_config := w_config w; w_secrets := w_secrets w; w_vault := w_vault w; w_writes := S (w_writes w) |} in
  match write_fault (w_writes w) with
  | Some e => (Some e, w')
  | None => (None, store w')
  end.

Definition writeAtomic (c : Configuration) : World -> option error * World :=
  writeJSONAtomic (fun w => {| w_config := Some (cloneConfiguration c); w_secrets := w_secrets w; w_vault := w_vault w;
                               w_writes := w_writes w |}).

Definition writeManual (m : gmap string string) : World -> option error * World :=
  writeJSONAtomic (fun w => {| w_config := w_config w; w_secrets := m; w_vault := w_vault w; w_writes := w_writes w |}).

Definition with_vault (v : Vault) (w : World) : World :=
  {| w_config := w_config w; w_secrets := w_secrets w; w_vault := v; w_writes := w_writes w |}.

Definition only_on_windows : error := "only on Windows".

(** The value, when there is one. *)
Definition readWindowsCredential (target : string) (w : World) : res error (option string) * World :=
  if negb windows then (Err only_on_windows, w) else
  let '(r, v) := GetGenericCredential target (w_vault w) in
  (match r with
   | Ok value => Ok (Some value)
   | Err ErrElementNotFound => Ok None
   | Err (CredFailed e) => Err e
   end, with_vault v w).

Definition cred_message (e : cred_error) : error :=
  match e with ErrElementNotFound => "element not found" | CredFailed e => e end.

(** An empty key removes the credential. *)
Definition writeWindowsCredential (target apiKey : string) (w : World) : option error * World :=
  if negb windows then (Some only_on_windows, w) else
  if bool_decide (apiKey = "") then
    let '(r, v) := DeleteCredential target (w_vault w) in
    (match r with
     | None | Some ErrElementNotFound => None
     | Some (CredFailed e) => Some e
     end, with_vault v w)
  else
    let '(r, v) := WriteCredential target apiKey (w_vault w) in
    (cred_message <$> r, with_vault v w).

(** * Secrets *)

Record secretMutation := { sm_Source : APIKeyStorage; sm_Ref : string; sm_Value : string; sm_Clear : bool }.

Record SecretBackend := { manual : gmap string string; staged : gmap string secretMutation }.

Definition with_manual (m : gmap string string) (b : SecretBackend) : SecretBackend := {| manual := m; staged := staged b |}.
Definition with_staged (d : gmap string secretMutation) (b : SecretBackend) : SecretBackend := {| manual := manual b; staged := d |}.

Definition get (m : gmap string string) (ref : string) : string := default "" (m !! ref).

(** The secrets file. *)
Inductive stored_read :=
  | StoredMissing
  | StoredUnreadable (e : error)
  | StoredMalformed (e : error)
  | StoredDecoded (version : Z) (secrets : gmap string string).

Definition manualSecretStoreVersion : Z := 1.

Definition newSecretBackend (f : stored_read) : SecretBackend * option error :=
  let empty := {| manual := ∅; staged := ∅ |} in
  match f with
  | StoredMissing => (empty, None)
  | StoredUnreadable e => (empty, Some e)
  | StoredMalformed e => (empty, Some e)
  | StoredDecoded version secrets =>
      if negb (version =? manualSecretStoreVersion)%Z then (empty, Some "unsupported secret store version") else
      (with_manual (fold_left (fun m rv =>
         let ref := TrimSpace rv.1 in
         if bool_decide (ref = "" \/ rv.2 = "") then m else <[ref := rv.2]> m) (range 0 secrets) ∅) empty, None)
  end.

Definition Resolve (b : SecretBackend) (e : Endpoint) (w : World) : res error string * World :=
  let ref := TrimSpace (ep_APIKeyRef e) in
  match ep_APIKeySource e with
  | APIKeyStorageUnset | APIKeyStorageManual => (Ok (get (manual b) ref), w)
  | APIKeyStorageEnv =>
      let apiKey := TrimSpace (Getenv ref) in
      (if bool_decide (apiKey = "") then Err "the environment variable is empty or unset" else Ok apiKey, w)
  | APIKeyStorageSecretFile =>
      if bool_decide (ref = "") then (Err "the path of the secret file is empty", w) else
      match ReadFile ref with
      | Err e => (Err e, w)
      | Ok data => let apiKey := TrimSpace data in
                   (if bool_decide (apiKey = "") then Err "the secret file is empty" else Ok apiKey, w)
      end
  | APIKeyStorageWindowsCredentialManager =>
      let '(r, w) := readWindowsCredential ref w in
      (match r with Ok v => Ok (default "" v) | Err e => Err e end, w)
  | APIKeyStorageOther _ => (Err "unknown secret source", w)
  end.

Definition same_reference (m : secretMutation) (e : Endpoint) : bool :=
  bool_decide (sm_Source m = ep_APIKeySource e /\ sm_Ref m = ep_APIKeyRef e).

Definition DraftMutation (b : SecretBackend) (e : Endpoint) : option secretMutation :=
  m ← staged b !! ep_ID e; if same_reference m e then Some m else None.

Definition ResolveDraft (b : SecretBackend) (e : Endpoint) (w : World) : res error string * World :=
  match DraftMutation b e with
  | Some m => (Ok (if sm_Clear m then "" else sm_Value m), w)
  | None => Resolve b e w
  end.

Definition Stage (e : Endpoint) (value : string) (clearSecret : bool) (b : SecretBackend) : SecretBackend :=
  with_staged (<[ep_ID e := {| sm_Source := ep_APIKeySource e; sm_Ref := ep_APIKeyRef e; sm_Value := value; sm_Clear := clearSecret |}]> (staged b)) b.

Definition endpointByID (c : Configuration) (id : string) : option Endpoint := find_endpoint c id.

(** The mutation is of an endpoint of the configuration, as it stands there. *)
Definition mutates (c : Configuration) (id : string) (m : secretMutation) : bool :=
  match endpointByID c id with Some e => same_reference m e | None => false end.

Definition ReconcileDraft (c : Configuration) (b : SecretBackend) : SecretBackend :=
  with_staged (filter (fun im => mutates c im.1 im.2 = true) (staged b)) b.

Definition DiscardSecrets (b : SecretBackend) : SecretBackend := with_staged ∅ b.

Definition HasDraftChanges (b : SecretBackend) : bool := negb (bool_decide (staged b = ∅)).

Definition Configured (b : SecretBackend) (e : Endpoint) : bool :=
  let ref := TrimSpace (ep_APIKeyRef e) in
  match ep_APIKeySource e with
  | APIKeyStorageUnset | APIKeyStorageManual => negb (bool_decide (get (manual b) ref = ""))
  | APIKeyStorageEnv | APIKeyStorageSecretFile => negb (bool_decide (ref = ""))
  | APIKeyStorageWindowsCredentialManager => ep_APIKeyConfigured e
  | APIKeyStorageOther _ => false
  end.

(** In a draft: a credential of Windows is not looked up. *)
Definition fresh_configured (b : SecretBackend) (e : Endpoint) : bool :=
  match ep_APIKeySource e with
  | APIKeyStorageManual => Configured b e
  | APIKeyStorageEnv | APIKeyStorageSecretFile => negb (bool_decide (ep_APIKeyRef e = ""))
  | APIKeyStorageWindowsCredentialManager => false
  | _ => ep_APIKeyConfigured e
  end.

Definition StoreForMigration (e : Endpoint) (value : string) (b : SecretBackend) (w : World)
    : option error * SecretBackend * World :=
  if bool_decide (value = "") then (None, b, w) else
  match ep_APIKeySource e with
  | APIKeyStorageUnset | APIKeyStorageManual =>
      let b := with_manual (<[ep_APIKeyRef e := value]> (manual b)) b in
      let '(r, w) := writeManual (manual b) w in (r, b, w)
  | APIKeyStorageWindowsCredentialManager =>
      let '(r, w) := writeWindowsCredential (ep_APIKeyRef e) value w in (r, b, w)
  | _ => (None, b, w)
  end.

Definition persistentSecretSource (s : APIKeyStorage) : bool :=
  bool_decide (s = APIKeyStorageManual \/ s = APIKeyStorageWindowsCredentialManager).

Definition secretReferenceUsed (c : Configuration) (s : APIKeyStorage) (ref : string) : bool :=
  existsb (fun e => bool_decide (ep_APIKeySource e = s /\ ep_APIKeyRef e = ref)) (Endpoints c).

(** ** Applying the staged mutations *)

(** What [Apply] has found, the value of a credential or its absence, and done. *)
Record Applying := {
  ap_manual : gmap string string;
  ap_before : gmap string (option string);
  ap_changed : bool;
  ap_world : World;
}.

Definition rememberWindowsCredential (ref : string) (st : Applying) : option error * Applying :=
  match ap_before st !! ref with
  | Some _ => (None, st)
  | None =>
      let '(r, w) := readWindowsCredential ref (ap_world st) in
      match r with
      | Err e => (Some e, {| ap_manual := ap_manual st; ap_before := ap_before st; ap_changed := ap_changed st; ap_world := w |})
      | Ok v => (None, {| ap_manual := ap_manual st; ap_before := <[ref := v]> (ap_before st); ap_changed := ap_changed st; ap_world := w |})
      end
  end.

Fixpoint restore_all (l : list (string * option string)) (w : World) : option error * World :=
  match l with
  | [] => (None, w)
  | (ref, state) :: l =>
      let '(r, w) := writeWindowsCredential ref (default "" state) w in
      match r with
      | Some e => (Some e, w)
      | None => restore_all l w
      end
  end.

Definition restoreWindowsCredentials (states : gmap string (option string)) (w : World) : option error * World :=
  restore_all (range (w_writes w) states) w.

Definition set_ap_manual (m : gmap string string) (st : Applying) : Applying :=
  {| ap_manual := m; ap_before := ap_before st; ap_changed := true; ap_world := ap_world st |}.
Definition set_ap_world (w : World) (st : Applying) : Applying :=
  {| ap_manual := ap_manual st; ap_before := ap_before st; ap_changed := ap_changed st; ap_world := w |}.

(** The error is returned after the credentials have been restored. *)
Definition restored (st : Applying) : Applying :=
  set_ap_world (restoreWindowsCredentials (ap_before st) (ap_world st)).2 st.

(** A reference the next configuration does not use loses its secret. *)
Definition clear_unused (next : Configuration) (e : Endpoint) (st : Applying) : option error * Applying :=
  if negb (persistentSecretSource (ep_APIKeySource e)) || secretReferenceUsed next (ep_APIKeySource e) (ep_APIKeyRef e)
  then (None, st) else
  match ep_APIKeySource e with
  | APIKeyStorageManual => (None, set_ap_manual (delete (ep_APIKeyRef e) (ap_manual st)) st)
  | APIKeyStorageWindowsCredentialManager =>
      let '(r, st) := rememberWindowsCredential (ep_APIKeyRef e) st in
      match r with
      | Some e => (Some e, st)
      | None =>
          let '(r, w) := writeWindowsCredential (ep_APIKeyRef e) "" (ap_world st) in
          match r with
          | Some e => (Some e, restored (set_ap_world w st))
          | None => (None, set_ap_world w st)
          end
      end
  | _ => (None, st)
  end.

Definition apply_mutation (next : Configuration) (im : string * secretMutation) (st : Applying) : option error * Applying :=
  let m := im.2 in
  if negb (persistentSecretSource (sm_Source m)) then (None, st) else
  if negb (mutates next im.1 m) then (None, st) else
  let value := if sm_Clear m then "" else sm_Value m in
  match sm_Source m with
  | APIKeyStorageManual =>
      (None, set_ap_manual (if bool_decide (value = "") then delete (sm_Ref m) (ap_manual st)
                            else <[sm_Ref m := value]> (ap_manual st)) st)
  | APIKeyStorageWindowsCredentialManager =>
      let '(r, st) := rememberWindowsCredential (sm_Ref m) st in
      match r with
      | Some e => (Some e, restored st)
      | None =>
          let '(r, w) := writeWindowsCredential (sm_Ref m) value (ap_world st) in
          match r with
          | Some e => (Some e, restored (set_ap_world w st))
          | None => (None, set_ap_world w st)
          end
      end
  | _ => (None, st)
  end.

(** Until the first error. *)
Fixpoint each {A} (f : A -> Applying -> option error * Applying) (l : list A) (st : Applying) : option error * Applying :=
  match l with
  | [] => (None, st)
  | a :: l => match f a st with
              | (Some e, st) => (Some e, st)
              | (None, st) => each f l st
              end
  end.

(** What undoes an [Apply]. *)
Record rollback := { rb_manual : gmap string string; rb_before : gmap string (option string); rb_changed : bool }.

Definition Apply (previous next : Configuration) (b : SecretBackend) (w : World)
    : res error rollback * SecretBackend * World :=
  let manualBefore := manual b in
  let st := {| ap_manual := manual b; ap_before := ∅; ap_changed := false; ap_world := w |} in
  let '(r, st) := match each (clear_unused next) (Endpoints previous) st with
                  | (Some e, st) => (Some e, st)
                  | (None, st) => each (apply_mutation next) (range (w_writes w) (staged b)) st
                  end in
  match r with
  | Some e => (Err e, b, ap_world st)
  | None =>
      let undo := {| rb_manual := manualBefore; rb_before := ap_before st; rb_changed := ap_changed st |} in
      if ap_changed st then
        let '(r, w) := writeManual (ap_manual st) (ap_world st) in
        match r with
        | Some e => (Err e, b, ap_world (restored (set_ap_world w st)))
        | None => (Ok undo, with_manual (ap_manual st) b, w)
        end
      else (Ok undo, with_manual (ap_manual st) b, ap_world st)
  end.

(** The publication calls it at most once. *)
Definition rollbackSecrets (undo : rollback) (b : SecretBackend) (w : World) : option error * SecretBackend * World :=
  let b := with_manual (rb_manual undo) b in
  let '(first, w) := if rb_changed undo then writeManual (manual b) w else (None, w) in
  let '(r, w) := restoreWindowsCredentials (rb_before undo) w in
  (match first with Some e => Some e | None => r end, b, w).
End ops.

(** * The credential manager *)

(** Reading changes nothing and finds what is kept; a write or deletion that
    succeeds is the only change; a failure changes nothing. *)
Class WincredLaws `{Wincred} := {
  kept : Vault -> string -> option string;
  Get_kept t v t' : kept (GetGenericCredential t v).2 t' = kept v t';
  Get_result t v : match (GetGenericCredential t v).1 with
                   | Ok x => kept v t = Some x
                   | Err ErrElementNotFound => kept v t = None
                   | Err (CredFailed _) => True
                   end;
  Write_kept t x v t' : kept (WriteCredential t x v).2 t' =
                        if decide ((WriteCredential t x v).1 = None /\ t' = t) then Some x else kept v t';
  Delete_kept t v t' : kept (DeleteCredential t v).2 t' =
                       if decide ((DeleteCredential t v).1 = None /\ t' = t) then None else kept v t';
  Delete_missing t v : (DeleteCredential t v).1 = Some ErrElementNotFound -> kept v t = None;
}.

Section laws.
Context `{UnicodeCase} `{WincredLaws} `{MapOrder} (windows : bool) (write_fault : nat -> option error).
Implicit Types (w : World) (st : Applying) (b : SecretBackend) (c : Configuration) (e : Endpoint).

(** What a program that asks for a credential gets. *)
Definition cred w (ref : string) : string := default "" (kept (w_vault w) ref).

(** The credential manager never fails. *)
Definition reliable : Prop := forall t x v err,
  (GetGenericCredential t v).1 <> Err (CredFailed err) /\
  (WriteCredential t x v).1 = None /\ (DeleteCredential t v).1 <> Some (CredFailed err).

(** Everything but the credentials. *)
Definition same_files w w' : Prop := w_config w' = w_config w /\ w_secrets w' = w_secrets w /\ w_writes w' = w_writes w.

Lemma same_files_refl w : same_files w w.
Proof. done. Qed.

Lemma same_files_trans w1 w2 w3 : same_files w1 w2 -> same_files w2 w3 -> same_files w1 w3.
Proof. unfold same_files. intuition congruence. Qed.

Lemma read_spec t w r w' : readWindowsCredential windows t w = (r, w') ->
  same_files w w' /\ (forall t', cred w' t' = cred w t') /\ (forall v, r = Ok v -> default "" v = cred w t) /\
  (windows = true -> reliable -> exists v, r = Ok v).
Proof.
  unfold readWindowsCredential, cred. destruct windows; cbn [negb]; [|by intros [= <- <-]].
  pose proof (Get_kept t (w_vault w)) as Hk. pose proof (Get_result t (w_vault w)) as Hr.
  destruct (GetGenericCredential t (w_vault w)) as [g v] eqn:E. cbn in Hk, Hr. intros [= <- <-]. cbn.
  split; [done|]. split; [by intros t'; rewrite Hk|]. split.
  - destruct g as [x|[]]; intros ? [= <-]; by rewrite Hr.
  - intros _ Hrel. destruct (Hrel t "" (w_vault w) "") as [_ _]. destruct g as [x|[|err]]; [eauto..|].
    destruct (Hrel t "" (w_vault w) err) as [Hg _]. by rewrite E in Hg.
Qed.

Lemma write_spec t x w r w' : writeWindowsCredential windows t x w = (r, w') ->
  same_files w w' /\ (forall t', cred w' t' = if decide (r = None /\ t' = t) then x else cred w t') /\
  (windows = true -> reliable -> r = None).
Proof.
  unfold writeWindowsCredential, cred. destruct windows; cbn [negb]; [|intros [= <- <-]; split; [done|]; split; [|done];
    intros t'; by rewrite decide_False by naive_solver].
  case_bool_decide as Ex.
  - subst x. pose proof (Delete_kept t (w_vault w)) as Hk. pose proof (Delete_missing t (w_vault w)) as Hm.
    destruct (DeleteCredential t (w_vault w)) as [g v] eqn:E. cbn in Hk, Hm. intros [= <- <-]. cbn. split; [done|]. split.
    + intros t'. rewrite Hk. destruct g as [[|err]|].
      * rewrite (decide_False (P := Some ErrElementNotFound = None /\ _)) by naive_solver. case_decide as Ht; [|done].
        destruct Ht as [_ ->]. by rewrite Hm.
      * by rewrite !decide_False by naive_solver.
      * repeat case_decide; naive_solver.
    + intros _ Hrel. destruct g as [[|err]|]; [done| |done]. destruct (Hrel t "" (w_vault w) err) as (_ & _ & Hd).
      by rewrite E in Hd.
  - pose proof (Write_kept t x (w_vault w)) as Hk.
    destruct (WriteCredential t x (w_vault w)) as [g v] eqn:E. cbn in Hk. intros [= <- <-]. cbn. split; [done|]. split.
    + intros t'. rewrite Hk. destruct g as [g|]; cbn; repeat case_decide; naive_solver.
    + intros _ Hrel. destruct (Hrel t x (w_vault w) "") as (_ & Hw & _). rewrite E in Hw. cbn in Hw. by subst g.
Qed.

(** * Undoing *)

(** The remembered credentials and the others, as they were in [w0]. *)
Definition remembered (w0 : World) (before : gmap string (option string)) w : Prop := forall t,
  match before !! t with
  | Some v => default "" v = cred w0 t
  | None => cred w t = cred w0 t
  end.

Definition tracks (w0 : World) st : Prop := same_files w0 (ap_world st) /\ remembered w0 (ap_before st) (ap_world st).

Lemma remember_spec ref st r st' w0 : rememberWindowsCredential windows ref st = (r, st') -> tracks w0 st ->
  tracks w0 st' /\ ap_manual st' = ap_manual st /\ ap_changed st' = ap_changed st /\
  (forall t, cred (ap_world st') t = cred (ap_world st) t) /\ (r = None -> is_Some (ap_before st' !! ref)) /\
  (windows = true -> reliable -> r = None) /\ (windows = false -> ap_before st = ∅ -> r <> None /\ ap_before st' = ∅).
Proof.
  unfold rememberWindowsCredential. intros E [Hf Hr]. destruct (ap_before st !! ref) as [v|] eqn:Hb.
  { injection E as <- <-. split_and!; [done..|by eauto|done|]. intros _ He. by rewrite He, lookup_empty in Hb. }
  destruct (readWindowsCredential windows ref (ap_world st)) as [g w'] eqn:Er.
  pose proof (read_spec _ _ _ _ Er) as (Hf' & Hc & Hv & Hrel). destruct g as [v|err]; injection E as <- <-; cbn.
  - split; [split|].
    + by eapply same_files_trans.
    + intros t. cbn. specialize (Hr t). destruct (decide (t = ref)) as [->|].
      * rewrite lookup_insert_eq. rewrite (Hv v eq_refl). by rewrite Hb in Hr.
      * rewrite lookup_insert_ne by done. destruct (ap_before st !! t); [done|]. by rewrite Hc.
    + split_and!; [done..| |done|].
      * intros _. rewrite lookup_insert_eq. eauto.
      * intros Hw. unfold readWindowsCredential in Er. by rewrite Hw in Er.
  - split; [split|].
    + by eapply same_files_trans.
    + intros t. cbn. specialize (Hr t). destruct (ap_before st !! t); [done|]. by rewrite Hc.
    + split_and!; [done..| |done]. intros Hw Hre. by destruct (Hrel Hw Hre).
Qed.

Lemma restore_all_spec l w r w' : restore_all windows l w = (r, w') ->
  same_files w w' /\
  (windows = true -> reliable -> forall t, cred w' t = cred w t \/ exists v, (t, v) ∈ l /\ cred w' t = default "" v) /\
  (windows = true -> reliable -> forall t v, (t, v) ∈ l -> exists v', (t, v') ∈ l /\ cred w' t = default "" v').
Proof.
  revert w. induction l as [|[t0 v0] l IH]; intros w; cbn [restore_all].
  { intros [= <- <-]. split; [done|]. split; [by left|]. by intros _ _ t v ?%elem_of_nil. }
  destruct (writeWindowsCredential windows t0 (default "" v0) w) as [g w1] eqn:Ew.
  pose proof (write_spec _ _ _ _ _ Ew) as (Hf & Hc & Hrel). destruct g as [err|].
  { intros [= <- <-]. split; [done|]. split; intros Hw Hre; by specialize (Hrel Hw Hre). }
  intros E. destruct (IH _ E) as (Hf' & H1' & H2'). split; [by eapply same_files_trans|].
  assert (Hc0 : forall t, cred w1 t = if decide (t = t0) then default "" v0 else cred w t).
  { intros t. rewrite Hc. repeat case_decide; naive_solver. }
  split; intros Hw Hre t; specialize (H1' Hw Hre t); specialize (H2' Hw Hre t); rewrite Hc0 in H1'.
  - case_decide as Ht; [subst t|]; destruct H1' as [H1'|(v & Hv & H1')]; try (right; eexists; split; [by right|done]).
    + right. exists v0. split; [by left|done].
    + by left.
  - intros v [[= -> ->]|Hv]%elem_of_cons.
    + rewrite decide_True in H1' by done. destruct H1' as [H1'|(v & Hv & H1')]; [exists v0|exists v]; (split; [|done]); [by left|by right].
    + destruct (H2' _ Hv) as (v' & Hv' & Hx). exists v'. split; [by right|done].
Qed.
(** Restoring what was remembered gives the credentials of before. *)
Lemma restore_spec w0 before w r w' : restoreWindowsCredentials windows before w = (r, w') -> same_files w0 w ->
  remembered w0 before w -> (windows = true -> reliable) -> (windows = false -> forall t, cred w t = cred w0 t) ->
  same_files w0 w' /\ forall t, cred w' t = cred w0 t.
Proof.
  unfold restoreWindowsCredentials. intros E Hf Hr Hrel Hno.
  destruct (restore_all_spec _ _ _ _ E) as (Hf' & Hone & Htwo). split; [by eapply same_files_trans|]. intros t.
  destruct (Bool.bool_dec windows true) as [Hw|Hw%not_true_is_false].
  2: { rewrite <- Hno by done. revert E. clear -Hw. generalize (range (w_writes w) before). intros l.
       destruct l as [|[t0 v0] l]; cbn; [by intros [= _ <-]|]. unfold writeWindowsCredential. rewrite Hw. by intros [= _ <-]. }
  specialize (Hone Hw (Hrel Hw) t). specialize (Htwo Hw (Hrel Hw) t). specialize (Hr t).
  assert (Hin : forall v, (t, v) ∈ range (w_writes w) before <-> before !! t = Some v).
  { intros v. by rewrite range_perm, elem_of_map_to_list. }
  destruct (before !! t) as [v|] eqn:Eb.
  - destruct (Htwo v) as (v' & Hv' & ->); [by apply Hin|]. apply Hin in Hv'. by injection Hv' as <-.
  - destruct Hone as [->|(v & Hv & _)]; [done|]. by apply Hin in Hv.
Qed.
(** * Applying *)

(** The credential manager works or is not there. *)
Definition dependable : Prop := windows = true -> reliable.

(** The secret kept under a reference. *)
Definition held (m : gmap string string) w (s : APIKeyStorage) (ref : string) : string :=
  match s with
  | APIKeyStorageManual => get m ref
  | APIKeyStorageWindowsCredentialManager => cred w ref
  | _ => ""
  end.

Lemma held_cred m w w' s ref : (forall t, cred w t = cred w' t) -> held m w s ref = held m w' s ref.
Proof. intros Hc. by destruct s; cbn. Qed.

Lemma persistent_cases s : persistentSecretSource s = true -> s = APIKeyStorageManual \/ s = APIKeyStorageWindowsCredentialManager.
Proof. unfold persistentSecretSource. by rewrite bool_decide_eq_true. Qed.

Lemma get_insert m r x r' : get (<[r := x]> m) r' = if decide (r = r') then x else get m r'.
Proof. unfold get. case_decide as E; [subst r'; by rewrite lookup_insert_eq|by rewrite lookup_insert_ne]. Qed.

Lemma get_delete m r r' : get (delete r m) r' = if decide (r = r') then "" else get m r'.
Proof. unfold get. case_decide as E; [subst r'; by rewrite lookup_delete_eq|by rewrite lookup_delete_ne]. Qed.

(** Where an [Apply] that began in [w0] with [m0] stands. *)
Record under_way (m0 : gmap string string) (w0 : World) st : Prop := {
  uw_tracks : tracks w0 st;
  uw_changed : ap_changed st = false -> ap_manual st = m0;
  uw_absent : windows = false -> ap_before st = ∅ /\ forall t, cred (ap_world st) t = cred w0 t;
}.

(** Where it stopped. *)
Definition stopped (w0 : World) st : Prop :=
  same_files w0 (ap_world st) /\ (dependable -> forall t, cred (ap_world st) t = cred w0 t).

Lemma restored_stopped m0 w0 st : under_way m0 w0 st -> stopped w0 (restored windows st).
Proof.
  intros [[Hf Hr] _ Ha]. unfold stopped, restored.
  destruct (restoreWindowsCredentials windows (ap_before st) (ap_world st)) as [r w'] eqn:E. cbn. split.
  - unfold restoreWindowsCredentials in E. apply restore_all_spec in E as [Hf' _]. by eapply same_files_trans.
  - intros Hd. eapply restore_spec; [done..|]. intros Hw. by apply Ha.
Qed.

(** Writing a remembered credential. *)
Lemma write_under_way m0 w0 st ref x r w : under_way m0 w0 st -> is_Some (ap_before st !! ref) ->
  writeWindowsCredential windows ref x (ap_world st) = (r, w) ->
  under_way m0 w0 (set_ap_world w st) /\ (dependable -> windows = true -> r = None) /\
  forall m s ref', held m w s ref' = if decide (r = None /\ s = APIKeyStorageWindowsCredentialManager /\ ref' = ref)
                                     then x else held m (ap_world st) s ref'.
Proof.
  intros [[Hf Hr] Hch Ha] [v Hv] E. pose proof (write_spec _ _ _ _ _ E) as (Hf' & Hc & Hrel). split; [|split].
  - constructor; [split; [by eapply same_files_trans|]|done|].
    + intros t. cbn. specialize (Hr t). destruct (ap_before st !! t) eqn:Et; [done|]. rewrite Hc.
      rewrite decide_False; [done|]. intros [_ ->]. congruence.
    + intros Hw. destruct (Ha Hw) as [He Ht]. by rewrite He, lookup_empty in Hv.
  - intros Hd Hw. by apply Hrel, Hd.
  - intros m s ref'. unfold held. destruct s; rewrite ?Hc; repeat case_decide; naive_solver.
Qed.

Lemma remember_under_way m0 w0 st ref r st' : under_way m0 w0 st -> rememberWindowsCredential windows ref st = (r, st') ->
  under_way m0 w0 st' /\ ap_manual st' = ap_manual st /\ (forall t, cred (ap_world st') t = cred (ap_world st) t) /\
  (r = None -> is_Some (ap_before st' !! ref)) /\ (dependable -> windows = true -> r = None).
Proof.
  intros [Ht Hch Ha] E. pose proof (remember_spec _ _ _ _ _ E Ht) as (Ht' & Hm & Hc & Hcr & Hb & Hrel & Hno).
  split_and!; [|done..| |].
  - constructor; [done|rewrite Hm, Hc; done|]. intros Hw. destruct (Ha Hw) as [He Hcr']. split; [by apply Hno|].
    intros t. by rewrite Hcr.
  - done.
  - intros Hd Hw. by apply Hrel, Hd.
Qed.

(** One step changes one secret, or stops. *)
Definition step_spec m0 w0 st (act : bool) (s : APIKeyStorage) (ref value : string) (rst : option error * Applying) : Prop :=
  match rst.1 with
  | None => under_way m0 w0 rst.2 /\ forall s' ref',
      held (ap_manual rst.2) (ap_world rst.2) s' ref' =
      if decide (act = true /\ s' = s /\ ref' = ref) then value else held (ap_manual st) (ap_world st) s' ref'
  | Some _ => stopped w0 rst.2
  end.

Lemma manual_step m0 w0 st ref value m : under_way m0 w0 st ->
  (forall r, get m r = if decide (ref = r) then value else get (ap_manual st) r) ->
  step_spec m0 w0 st true APIKeyStorageManual ref value (None, set_ap_manual m st).
Proof.
  intros [Ht Hch Ha] Hm. unfold step_spec. cbn. split; [by constructor|]. intros s' ref'. unfold held.
  destruct s'; rewrite ?Hm; repeat case_decide; naive_solver.
Qed.

(** A failed read stops a dependable [Apply] only where there are no credentials. *)
Lemma windows_step m0 w0 st ref value (onread : Applying -> Applying) : under_way m0 w0 st ->
  (forall st, onread st = st \/ onread st = restored windows st) ->
  step_spec m0 w0 st true APIKeyStorageWindowsCredentialManager ref value
    (let '(r, st) := rememberWindowsCredential windows ref st in
     match r with
     | Some e => (Some e, onread st)
     | None => let '(r, w) := writeWindowsCredential windows ref value (ap_world st) in
               match r with
               | Some e => (Some e, restored windows (set_ap_world w st))
               | None => (None, set_ap_world w st)
               end
     end).
Proof.
  intros Hu Hon. destruct (rememberWindowsCredential windows ref st) as [r st1] eqn:E1.
  destruct (remember_under_way _ _ _ _ _ _ Hu E1) as (Hu1 & Hm1 & Hc1 & Hb1 & Hr1). destruct r as [err|].
  { cbn. destruct (Hon st1) as [-> | ->]; [|by eapply restored_stopped].
    destruct Hu1 as [[Hf _] _ Ha]. split; [done|]. intros Hd. apply Ha. apply not_true_is_false. intros Hw. by specialize (Hr1 Hd Hw). }
  destruct (writeWindowsCredential windows ref value (ap_world st1)) as [r w] eqn:E2.
  destruct (write_under_way _ _ _ _ _ _ _ Hu1 (Hb1 eq_refl) E2) as (Hu2 & Hr2 & Hh2).
  destruct r as [err|]; [by eapply restored_stopped|]. cbn. split; [done|]. intros s' ref'. rewrite Hm1, Hh2.
  rewrite (held_cred _ (ap_world st1) (ap_world st)) by done. apply decide_ext. tauto.
Qed.

Lemma idle_step m0 w0 st s ref value : under_way m0 w0 st -> step_spec m0 w0 st false s ref value (None, st).
Proof. intros Hu. split; [done|]. intros. rewrite decide_False; [done|]. by intros [? _]. Qed.

Definition unused c e : bool :=
  persistentSecretSource (ep_APIKeySource e) && negb (secretReferenceUsed c (ep_APIKeySource e) (ep_APIKeyRef e)).

Lemma clear_unused_spec m0 w0 c e st : under_way m0 w0 st ->
  step_spec m0 w0 st (unused c e) (ep_APIKeySource e) (ep_APIKeyRef e) "" (clear_unused windows c e st).
Proof.
  intros Hu. unfold clear_unused, unused. destruct (persistentSecretSource _) eqn:Hp; [|by apply idle_step].
  destruct (secretReferenceUsed _ _ _); [by apply idle_step|]. cbn [negb orb andb].
  apply persistent_cases in Hp as [-> | ->].
  - apply manual_step; [done|]. apply get_delete.
  - apply (windows_step _ _ _ _ _ (fun st => st)); [done|by left].
Qed.

Definition mutation_value (m : secretMutation) : string := if sm_Clear m then "" else sm_Value m.

Definition acts c (im : string * secretMutation) : bool := persistentSecretSource (sm_Source im.2) && mutates c im.1 im.2.

Lemma apply_mutation_spec m0 w0 c im st : under_way m0 w0 st ->
  step_spec m0 w0 st (acts c im) (sm_Source im.2) (sm_Ref im.2) (mutation_value im.2) (apply_mutation windows c im st).
Proof.
  intros Hu. unfold apply_mutation, acts. fold (mutation_value im.2).
  destruct (persistentSecretSource _) eqn:Hp; [|by apply idle_step].
  destruct (mutates _ _ _); [|by apply idle_step]. cbn [negb andb]. apply persistent_cases in Hp as [-> | ->].
  - apply manual_step; [done|]. intros r. case_bool_decide as Hv; [rewrite get_delete, Hv|apply get_insert]; done.
  - apply (windows_step _ _ _ _ _ (restored windows)); [done|by right].
Qed.
(** The last step on a secret decides; without one it stays. *)
Definition decided {A} (act : A -> bool) (src : A -> APIKeyStorage) (ref value : A -> string) (l : list A)
    (s : APIKeyStorage) (r before after : string) : Prop :=
  (exists a, a ∈ l /\ act a = true /\ src a = s /\ ref a = r /\ after = value a) \/
  ((forall a, a ∈ l -> ~ (act a = true /\ src a = s /\ ref a = r)) /\ after = before).

Lemma each_spec {A} m0 w0 (f : A -> Applying -> option error * Applying) act src ref value l st :
  (forall a st, under_way m0 w0 st -> step_spec m0 w0 st (act a) (src a) (ref a) (value a) (f a st)) ->
  under_way m0 w0 st ->
  match each f l st with
  | (None, st') => under_way m0 w0 st' /\ forall s r,
      decided act src ref value l s r (held (ap_manual st) (ap_world st) s r) (held (ap_manual st') (ap_world st') s r)
  | (Some _, st') => stopped w0 st'
  end.
Proof.
  intros Hf. revert st. induction l as [|a l IH]; intros st Hu; cbn [each].
  { split; [done|]. intros s r. right. split; [|done]. by intros a ?%elem_of_nil. }
  pose proof (Hf a st Hu) as Ha. unfold step_spec in Ha. destruct (f a st) as [[e|] st1]; cbn in Ha; [done|].
  destruct Ha as [Hu1 Hh1]. specialize (IH _ Hu1). destruct (each f l st1) as [[e|] st2]; [done|].
  destruct IH as [Hu2 Hd]. split; [done|]. intros s r. destruct (Hd s r) as [(x & Hx & Hd')|[Hno ->]].
  { left. exists x. split; [by right|done]. }
  rewrite Hh1. destruct (decide (act a = true /\ s = src a /\ r = ref a)) as [Hact|Hact].
  - destruct Hact as (Hact & -> & ->). left. exists a. split; [by left|done].
  - right. split; [|done]. intros x [->|Hx]%elem_of_cons; [|by apply Hno]. intros (? & <- & <-). by apply Hact.
Qed.

(** What [Apply] has done when it succeeds. *)
Record applied (previous next : Configuration) b w (undo : rollback) (b' : SecretBackend) w' : Prop := {
  ad_undo : rb_manual undo = manual b;
  ad_staged : staged b' = staged b;
  ad_config : w_config w' = w_config w;
  ad_before : remembered w (rb_before undo) w';
  ad_absent : windows = false -> forall t, cred w' t = cred w t;
  ad_unchanged : rb_changed undo = false -> manual b' = manual b /\ w_secrets w' = w_secrets w /\ w_writes w' = w_writes w;
  ad_changed : rb_changed undo = true -> w_secrets w' = manual b' /\ w_writes w' = S (w_writes w);
  ad_held s r : exists mid,
    decided (unused next) ep_APIKeySource ep_APIKeyRef (fun _ => "") (Endpoints previous) s r (held (manual b) w s r) mid /\
    decided (acts next) (fun im => sm_Source im.2) (fun im => sm_Ref im.2) (fun im => mutation_value im.2)
      (map_to_list (staged b)) s r mid (held (manual b') w' s r);
}.

Lemma decided_perm {A} act src ref value (l l' : list A) s r x y : l ≡ₚ l' ->
  decided act src ref value l s r x y -> decided act src ref value l' s r x y.
Proof.
  intros Hl [(a & Ha & Hd)|[Hno ->]]; [left; exists a|right; split; [|done]; intros a Ha].
  - by rewrite <- Hl.
  - apply Hno. by rewrite Hl.
Qed.

Lemma writeManual_spec m w r w' : writeManual write_fault m w = (r, w') ->
  w_config w' = w_config w /\ w_vault w' = w_vault w /\ w_writes w' = S (w_writes w) /\ r = write_fault (w_writes w) /\
  w_secrets w' = if decide (r = None) then m else w_secrets w.
Proof. unfold writeManual, writeJSONAtomic. destruct (write_fault (w_writes w)); by intros [= <- <-]. Qed.

Theorem Apply_spec previous next b w : match Apply windows write_fault previous next b w with
  | (Ok undo, b', w') => applied previous next b w undo b' w'
  | (Err _, b', w') => b' = b /\ w_config w' = w_config w /\ w_secrets w' = w_secrets w /\
                       (dependable -> forall t, cred w' t = cred w t)
  end.
Proof.
  unfold Apply. set (st0 := {| ap_manual := _; ap_before := ∅; ap_changed := _; ap_world := _ |}).
  assert (Hu0 : under_way (manual b) w st0).
  { constructor; [split; [done|]|done|done]. intros t. cbn. by rewrite lookup_empty. }
  pose proof (each_spec _ _ _ _ _ _ (fun _ => "") (Endpoints previous) st0 (clear_unused_spec _ _ next) Hu0) as H1'.
  destruct (each _ (Endpoints previous) st0) as [[e|] st1]; [destruct H1' as [(Hc & Hs & _) Hd]; done|]. destruct H1' as [Hu1 Hh1].
  pose proof (each_spec _ _ _ _ _ _ _ (range (w_writes w) (staged b)) st1 (apply_mutation_spec _ _ next) Hu1) as H2'.
  destruct (each _ (range _ _) st1) as [[e|] st2]; [destruct H2' as [(Hc & Hs & _) Hd]; done|]. destruct H2' as [Hu2 Hh2].
  assert (Hheld : forall w' s r, (forall t, cred w' t = cred (ap_world st2) t) -> exists mid,
    decided (unused next) ep_APIKeySource ep_APIKeyRef (fun _ => "") (Endpoints previous) s r (held (manual b) w s r) mid /\
    decided (acts next) (fun im => sm_Source im.2) (fun im => sm_Ref im.2) (fun im => mutation_value im.2)
      (map_to_list (staged b)) s r mid (held (ap_manual st2) w' s r)).
  { intros w' s r Hc. exists (held (ap_manual st1) (ap_world st1) s r). split; [apply Hh1|].
    rewrite (held_cred _ w' (ap_world st2)) by done. eapply decided_perm; [apply range_perm|apply Hh2]. }
  destruct Hu2 as [[(Hcf & Hsf & Hwf) Hrem] Hch Habs].
  destruct (ap_changed st2) eqn:Hc2.
  - destruct (writeManual write_fault (ap_manual st2) (ap_world st2)) as [r w2] eqn:Ew.
    pose proof (writeManual_spec _ _ _ _ Ew) as (Hcf2 & Hv2 & Hn2 & Hr2 & Hs2).
    assert (Hcred : forall t, cred w2 t = cred (ap_world st2) t) by (intros t; unfold cred; by rewrite Hv2).
    destruct r as [e|].
    + rewrite decide_False in Hs2 by done. pose (w1 := {| w_config := w_config w; w_secrets := w_secrets w; w_vault := w_vault w; w_writes := S (w_writes w) |}).
      assert (Hu : under_way (manual b) w1 (set_ap_world w2 st2)).
      { constructor; [split|cbn; congruence|].
        - unfold same_files. cbn. intuition congruence.
        - intros t. specialize (Hrem t). cbn. destruct (ap_before st2 !! t); [done|]. by rewrite Hcred.
        - intros Hw. destruct (Habs Hw) as [? Hc]. split; [done|]. intros t. cbn. rewrite Hcred. apply Hc. }
      by destruct (restored_stopped _ _ _ Hu) as [(? & ? & _) Hd].
    + rewrite decide_True in Hs2 by done. constructor; cbn; try done; [congruence| | | |].
      * intros t. specialize (Hrem t). destruct (ap_before st2 !! t); [done|]. by rewrite Hcred.
      * intros Hw t. rewrite Hcred. by apply Habs.
      * intros _. split; congruence.
      * intros s r. by apply Hheld.
  - constructor; cbn; [done..| | | |].
    + intros Hw t. by apply Habs.
    + intros _. split; [by apply Hch|done].
    + done.
    + intros s r. by apply Hheld.
Qed.
End laws.

(** * A credential manager *)

(** Credentials in a map; those in [broken] cannot be read. *)
Section vault.
Context (broken : gset string).

#[local] Instance map_wincred : Wincred := {|
  Vault := gmap string string;
  GetGenericCredential t v := (if decide (t ∈ broken) then Err (CredFailed "access denied") else
                               match v !! t with Some x => Ok x | None => Err ErrElementNotFound end, v);
  WriteCredential t x v := (None, <[t := x]> v);
  DeleteCredential t v := match v !! t with Some _ => (None, delete t v) | None => (Some ErrElementNotFound, v) end;
|}.

#[local] Instance map_wincred_laws : WincredLaws.
Proof.
  refine {| kept := fun (v : @Vault map_wincred) t => (v : gmap string string) !! t |}.
  - done.
  - intros t v. cbn. case_decide; [done|]. by destruct (_ !! t).
  - intros t x v t'. cbn. case_decide as E; [destruct E as [_ ->]; by rewrite lookup_insert_eq|].
    rewrite lookup_insert_ne; naive_solver.
  - intros t v t'. cbn. destruct ((v : gmap string string) !! t) eqn:Ev; cbn; case_decide as E.
    + destruct E as [_ ->]. by rewrite lookup_delete_eq.
    + rewrite lookup_delete_ne; naive_solver.
    + by destruct E.
    + done.
  - intros t v. cbn. by destruct ((v : gmap string string) !! t).
Defined.

Lemma map_wincred_reliable : broken = ∅ -> reliable.
Proof.
  intros -> t x v err. cbn. rewrite decide_False by set_solver. split; [by destruct (_ !! t)|]. split; [done|].
  by destruct ((v : gmap string string) !! t).
Qed.
End vault.
