(* ===== verification/RouterManager.v ===== *)
(** The model router's manager, of [internal/modelrouter/manager.go], over files:
    an active configuration, a draft and the secrets staged with it, and
    publication, which writes configuration and secrets or neither.

    Operations hold the manager's mutex from start to end, so a history is a list
    of operations. *)

From S2P Require Import Prelude GoStrings SummaryStore Router Secrets.

Local Open Scope string_scope.
Local Open Scope list_scope.

(** * The manager *)

Definition with_endpoints (l : list Endpoint) (c : Configuration) : Configuration := {|
  Version := Version c; Revision := Revision c; Endpoints := l; Models := Models c;
  GlobalBindings := GlobalBindings c; GroupOverrides := GroupOverrides c |}.
Definition with_revision (r : Z) (c : Configuration) : Configuration := {|
  Version := Version c; Revision := r; Endpoints := Endpoints c; Models := Models c;
  GlobalBindings := GlobalBindings c; GroupOverrides := GroupOverrides c |}.

Definition with_source (source : APIKeyStorage) (ref : string) (e : Endpoint) : Endpoint := {|
  ep_ID := ep_ID e; ep_DisplayName := ep_DisplayName e; ep_BaseURL := ep_BaseURL e; ep_APIKeySource := source;
  ep_APIKeyRef := ref; ep_APIKeyConfigured := ep_APIKeyConfigured e; ep_Enabled := ep_Enabled e |}.
Definition with_configured (configured : bool) (e : Endpoint) : Endpoint := {|
  ep_ID := ep_ID e; ep_DisplayName := ep_DisplayName e; ep_BaseURL := ep_BaseURL e; ep_APIKeySource := ep_APIKeySource e;
  ep_APIKeyRef := ep_APIKeyRef e; ep_APIKeyConfigured := configured; ep_Enabled := ep_Enabled e |}.

Record Manager := {
  active : Configuration;
  draft : Configuration;
  secrets : SecretBackend;
  loadErr : option error;
  draftOwner : string;
  draftPending : bool;
}.

Section ops.
Context `{UnicodeCase} `{Wincred} `{MapOrder} (windows : bool) (write_fault : nat -> option error).
(** What the hook says, and the parser of URLs. *)
Context (ReserveEndpoints : list Endpoint -> option error) (ParseURL : string -> option parsed_url).

Definition set_configured (id : string) (configured : bool) : list Endpoint -> list Endpoint :=
  fix go l :=
    match l with
    | [] => []
    | e :: l => if bool_decide (ep_ID e = id) then with_configured configured e :: l else e :: go l
    end.

Definition setEndpointConfigured (id : string) (configured : bool) (c : Configuration) : Configuration :=
  with_endpoints (set_configured id configured (Endpoints c)) c.

(** ** Starting *)

Record legacyEndpoint := { le_ID : string; le_APIKey : string; le_APIKeyStorage : APIKeyStorage; le_SecretFile : string }.

(** The configuration file: what it decodes to, as of today and as of then, and
    does it mention the fields of then. *)
Inductive config_read :=
  | ConfigMissing
  | ConfigUnreadable (e : error)
  | ConfigMalformed (e : error)
  | ConfigDecoded (c : Configuration) (legacy : list legacyEndpoint) (mentions : bool).

Definition no_legacy : legacyEndpoint := {| le_ID := ""; le_APIKey := ""; le_APIKeyStorage := APIKeyStorageUnset; le_SecretFile := "" |}.

(** The last of an ID counts. *)
Definition legacy_of (legacy : list legacyEndpoint) (id : string) : legacyEndpoint :=
  default no_legacy (fold_left (fun m l => <[le_ID l := l]> m) legacy (∅ : gmap string legacyEndpoint) !! id).

Definition migrate_source (legacy : list legacyEndpoint) (e : Endpoint) : Endpoint :=
  let l := legacy_of legacy (ep_ID e) in
  let source := if bool_decide (ep_APIKeySource e = APIKeyStorageUnset) && negb (bool_decide (le_APIKeyStorage l = APIKeyStorageUnset))
                then le_APIKeyStorage l else ep_APIKeySource e in
  let ref := if bool_decide (ep_APIKeyRef e = "") && bool_decide (source = APIKeyStorageSecretFile)
             then le_SecretFile l else ep_APIKeyRef e in
  with_source source ref e.

(** Stores the keys of then, and says which endpoints have one. *)
Fixpoint migrate_secrets (legacy : list legacyEndpoint) (l : list Endpoint) (b : SecretBackend) (w : World)
    : res error (list Endpoint) * SecretBackend * World :=
  match l with
  | [] => (Ok [], b, w)
  | e :: l =>
      let key := le_APIKey (legacy_of legacy (ep_ID e)) in
      let '(r, b, w) := StoreForMigration windows write_fault e key b w in
      match r with
      | Some err => (Err err, b, w)
      | None =>
          let e := with_configured (match ep_APIKeySource e with
                                    | APIKeyStorageManual => Configured b e
                                    | APIKeyStorageWindowsCredentialManager => if bool_decide (key = "") then ep_APIKeyConfigured e else true
                                    | APIKeyStorageEnv | APIKeyStorageSecretFile => negb (bool_decide (ep_APIKeyRef e = ""))
                                    | _ => ep_APIKeyConfigured e
                                    end) e in
          let '(r, b, w) := migrate_secrets legacy l b w in
          (match r with Ok l => Ok (e :: l) | Err err => Err err end, b, w)
      end
  end.

Definition load_config (f : config_read) (b : SecretBackend) (w : World) : Configuration * SecretBackend * option error * World :=
  match f with
  | ConfigMissing => (defaultConfiguration, b, None, w)
  | ConfigUnreadable e => (defaultConfiguration, b, Some e, w)
  | ConfigMalformed e => (defaultConfiguration, b, Some e, w)
  | ConfigDecoded c legacy mentions =>
      let c := normalizeConfiguration (with_endpoints (map (migrate_source legacy) (Endpoints c)) c) in
      let '(r, b, w) := migrate_secrets legacy (Endpoints c) b w in
      match r with
      | Err e => (defaultConfiguration, b, Some e, w)
      | Ok l =>
          let c := with_endpoints l c in
          match validateConfiguration ParseURL c with
          | Some e => (defaultConfiguration, b, Some e, w)
          | None =>
              if mentions then
                let '(r, w) := writeAtomic write_fault c w in (c, b, r, w)
              else (c, b, None, w)
          end
      end
  end.

Definition New (f : config_read) (sf : stored_read) (w : World) : Manager * World :=
  let '(b, secretErr) := newSecretBackend sf in
  let '(c, b, err, w) := match secretErr with
                         | Some e => (defaultConfiguration, b, Some e, w)
                         | None => load_config f b w
                         end in
  ({| active := c; draft := cloneConfiguration c; secrets := b; loadErr := err; draftOwner := ""; draftPending := false |}, w).

(** ** Editing *)

Definition Active (m : Manager) : Configuration := cloneConfiguration (active m).
Definition Draft (m : Manager) : Configuration := cloneConfiguration (draft m).

Definition with_draft (c : Configuration) (b : SecretBackend) (m : Manager) : Manager :=
  {| active := active m; draft := c; secrets := b; loadErr := loadErr m; draftOwner := draftOwner m; draftPending := draftPending m |}.

(** The status of a saved endpoint's secret: that of the draft it replaces, if it
    keeps the reference; then the staged mutation has the last word. *)
Definition saved_configured (previous : option Endpoint) (b : SecretBackend) (e : Endpoint) : bool :=
  match DraftMutation b e with
  | Some m => negb (sm_Clear m)
  | None =>
      match previous with
      | Some old =>
          if bool_decide (ep_APIKeySource old = ep_APIKeySource e /\ ep_APIKeyRef old = ep_APIKeyRef e) then ep_APIKeyConfigured old
          else fresh_configured b e
      | None => fresh_configured b e
      end
  end.

(** The last endpoint of an ID. *)
Definition previous_of (c : Configuration) (id : string) : option Endpoint :=
  fold_left (fun m e => <[ep_ID e := e]> m) (Endpoints c) (∅ : gmap string Endpoint) !! id.

Definition SaveDraft (c : Configuration) (m : Manager) : option error * Manager :=
  let c := normalizeConfiguration c in
  match validateConfiguration ParseURL c with
  | Some e => (Some e, m)
  | None =>
      match ReserveEndpoints (Endpoints c) with
      | Some e => (Some e, m)
      | None =>
          let b := ReconcileDraft c (secrets m) in
          let endpoints := map (fun e => with_configured (saved_configured (previous_of (draft m) (ep_ID e)) b e) e) (Endpoints c) in
          (None, with_draft (cloneConfiguration (with_revision (Revision (active m)) (with_endpoints endpoints c))) b m)
      end
  end.

Definition owned (owner : string) (m : Manager) : Manager :=
  {| active := active m; draft := draft m; secrets := secrets m; loadErr := loadErr m; draftOwner := owner; draftPending := true |}.

Definition SetDraftEndpointSecretForOwner (endpointID apiKey owner : string) (m : Manager) : res error bool * Manager :=
  if bool_decide (TrimSpace apiKey = "") then (Err "the api key is empty", m) else
  match endpointByID (draft m) (TrimSpace endpointID) with
  | None => (Err "endpoint does not exist", m)
  | Some e =>
      if negb (persistentSecretSource (ep_APIKeySource e)) then (Err "the endpoint's source takes no secret", m) else
      (Ok true, owned owner (with_draft (setEndpointConfigured (ep_ID e) true (draft m)) (Stage e apiKey false (secrets m)) m))
  end.

Definition ClearDraftEndpointSecretForOwner (endpointID owner : string) (m : Manager) : res error bool * Manager :=
  match endpointByID (draft m) (TrimSpace endpointID) with
  | None => (Err "endpoint does not exist", m)
  | Some e =>
      if negb (persistentSecretSource (ep_APIKeySource e)) then (Err "the endpoint's source has no secret to clear", m) else
      (Ok false, owned owner (with_draft (setEndpointConfigured (ep_ID e) false (draft m)) (Stage e "" true (secrets m)) m))
  end.

Definition DiscardDraft (m : Manager) : Configuration * Manager :=
  let m := with_draft (cloneConfiguration (active m)) (DiscardSecrets (secrets m)) m in
  (cloneConfiguration (draft m), m).

(** ** Publication *)

Definition unconfigured (c : Configuration) : list Endpoint := map (with_configured false) (Endpoints c).

Definition checkExpectedRouteDraft (expected : Configuration) (m : Manager) : option error :=
  let expected := cloneConfiguration expected in
  let draft := cloneConfiguration (draft m) in
  if negb (bool_decide (Revision expected = Revision (active m) /\ Revision expected = Revision draft /\
                        Version expected = Version draft /\ GlobalBindings expected = GlobalBindings draft /\
                        GroupOverrides expected = GroupOverrides draft))
  then Some "the draft was changed by another page or published" else
  if negb (bool_decide (unconfigured expected = unconfigured draft /\ Models expected = Models draft))
  then Some "the draft was changed by another page" else None.

Definition publish (expected : option Configuration) (m : Manager) (w : World) : res error Configuration * Manager * World :=
  match (x ← expected; checkExpectedRouteDraft x m) with
  | Some e => (Err e, m, w)
  | None =>
      let c := cloneConfiguration (draft m) in
      match validateConfiguration ParseURL c with
      | Some e => (Err e, m, w)
      | None =>
          let c := with_revision (i64 (Revision (active m) + 1)) c in
          let '(r, b, w) := Apply windows write_fault (active m) c (secrets m) w in
          let m' := with_draft (draft m) b m in
          match r with
          | Err e => (Err e, m', w)
          | Ok undo =>
              let '(err, w) := writeAtomic write_fault c w in
              match err with
              | Some e =>
                  let '(err, b, w) := rollbackSecrets windows write_fault undo b w in
                  (Err (match err with Some e' => e' | None => e end), with_draft (draft m) b m, w)
              | None =>
                  (Ok (cloneConfiguration c),
                   {| active := cloneConfiguration c; draft := cloneConfiguration c; secrets := DiscardSecrets b;
                      loadErr := None; draftOwner := draftOwner m; draftPending := draftPending m |}, w)
              end
          end
      end
  end.

Definition Publish := publish None.
Definition PublishExpectedRoutes (expected : Configuration) := publish (Some expected).

(** ** Serving *)

Definition Resolve_ (workload : string) (s : Scope) (m : Manager) : res resolve_error Target :=
  resolveConfiguration (Active m) workload s.

Record EffectiveBinding := { eb_Workload : string; eb_Binding : Binding; eb_Inherited : bool; eb_Target : option Target }.

Definition Effective (s : Scope) (m : Manager) : list EffectiveBinding :=
  map (fun workload =>
    let '(b, inherited) := effectiveBinding (Active m) workload s in
    {| eb_Workload := workload; eb_Binding := b; eb_Inherited := inherited;
       eb_Target := match resolveConfiguration (Active m) workload s with Ok t => Some t | Err _ => None end |}) Workloads.
End ops.

(** * Publication is atomic *)

Section publish.
Context `{LowerLaws} `{WincredLaws} `{MapOrder} (windows : bool) (write_fault : nat -> option error).
Context (ReserveEndpoints : list Endpoint -> option error) (ParseURL : string -> option parsed_url).
Implicit Types (m : Manager) (w : World) (c : Configuration) (e : Endpoint).

Lemma with_draft_same m : with_draft (draft m) (secrets m) m = m.
Proof. by destruct m. Qed.

Lemma clone_idem c : cloneConfiguration (cloneConfiguration c) = cloneConfiguration c.
Proof. apply normalize_idem. Qed.

Lemma clone_revision r c : cloneConfiguration (with_revision r c) = with_revision r (cloneConfiguration c).
Proof. done. Qed.

Lemma writeAtomic_spec c w r w' : writeAtomic write_fault c w = (r, w') ->
  w_secrets w' = w_secrets w /\ w_vault w' = w_vault w /\ w_writes w' = S (w_writes w) /\
  w_config w' = if decide (r = None) then Some (cloneConfiguration c) else w_config w.
Proof. unfold writeAtomic, writeJSONAtomic. destruct (write_fault (w_writes w)); by intros [= <- <-]. Qed.

(** A rollback after an [Apply] that began in [w0] with [b0]. *)
Lemma rollback_spec previous next b0 w0 undo b1 w1 w2 r b w :
  applied windows previous next b0 w0 undo b1 w1 -> w_config w2 = w_config w1 -> w_secrets w2 = w_secrets w1 ->
  w_vault w2 = w_vault w1 -> w_writes w2 = S (w_writes w1) ->
  rollbackSecrets windows write_fault undo b1 w2 = (r, b, w) ->
  b = b0 /\ w_config w = w_config w0 /\ (dependable windows -> forall t, cred w t = cred w0 t) /\
  (w_secrets w0 = manual b0 -> write_fault (S (S (w_writes w0))) = None -> w_secrets w = w_secrets w0).
Proof.
  intros [Hu Hst Hc Hb Ha Hun Hch _] Hc2 Hs2 Hv2 Hw2. unfold rollbackSecrets.
  set (first := if rb_changed undo then _ else _).
  assert (Hf : w_config first.2 = w_config w1 /\ w_vault first.2 = w_vault w1 /\
    (w_secrets w0 = manual b0 -> write_fault (S (S (w_writes w0))) = None -> w_secrets first.2 = w_secrets w0)).
  { unfold first. cbn [manual with_manual]. destruct (rb_changed undo).
    - destruct (writeManual write_fault (rb_manual undo) w2) as [r1 w3] eqn:Ew.
      pose proof (writeManual_spec _ _ _ _ _ Ew) as (Hc3 & Hv3 & _ & Hr3 & Hs3). cbn. split_and!; [congruence..|].
      destruct Hch as [_ Hn]; [done|]. rewrite Hw2, Hn in Hr3. intros Hsy Hf. rewrite Hf in Hr3. rewrite Hr3 in Hs3.
      rewrite decide_True in Hs3 by done. congruence.
    - cbn. split_and!; [done..|]. intros _ _. destruct Hun as (_ & ? & _); [done|]. congruence. }
  clearbody first. destruct first as [r1 w3]. cbn in Hf. destruct Hf as (Hc3 & Hv3 & Hs3).
  destruct (restoreWindowsCredentials windows (rb_before undo) w3) as [r2 w4] eqn:E4. intros [= _ <- <-].
  assert (Hcred : forall t, cred w3 t = cred w1 t) by (intros t; unfold cred; by rewrite Hv3).
  assert (Hf4 : same_files w3 w4) by (by eapply restore_all_spec).
  destruct Hf4 as (Hc4 & Hs4 & Hn4). split_and!.
  - destruct b0, b1. unfold with_manual. cbn in *. congruence.
  - congruence.
  - intros Hd.
    pose (w0' := {| w_config := w_config w3; w_secrets := w_secrets w3; w_vault := w_vault w0; w_writes := w_writes w3 |}).
    destruct (restore_spec windows w0' _ _ _ _ E4) as [_ Hr4]; [done| |done| |exact Hr4].
    + intros t. specialize (Hb t). destruct (rb_before undo !! t); [done|]. rewrite Hcred. apply Hb.
    + intros Hw t. rewrite Hcred. by apply Ha.
  - intros Hsy Hf. rewrite Hs4. by apply Hs3.
Qed.

Lemma failed_publish_kept expected m w err m' w' :
  publish windows write_fault ParseURL expected m w = (Err err, m', w') ->
  m' = m /\ w_config w' = w_config w /\ (dependable windows -> forall t, cred w' t = cred w t) /\
  (w_secrets w = manual (secrets m) -> write_fault (S (S (w_writes w))) = None -> w_secrets w' = w_secrets w).
Proof.
  unfold publish. destruct (expected ≫= _); [by intros [= _ <- <-]|].
  destruct (validateConfiguration _ _); [by intros [= _ <- <-]|].
  set (c := with_revision _ _). pose proof (Apply_spec windows write_fault (active m) c (secrets m) w) as Ha.
  destruct (Apply windows write_fault (active m) c (secrets m) w) as [[[undo|e] b1] w1]; swap 1 2.
  { intros [= _ <- <-]. destruct Ha as (-> & Hc & Hs & Hcr). rewrite with_draft_same. done. }
  destruct (writeAtomic write_fault c w1) as [[e|] w2] eqn:Ew; [|done].
  pose proof (writeAtomic_spec _ _ _ _ Ew) as (Hs2 & Hv2 & Hn2 & Hc2).
  destruct (rollbackSecrets windows write_fault undo b1 w2) as [[r b] w3] eqn:Er. intros [= _ <- <-].
  destruct (rollback_spec _ _ _ _ _ _ _ _ _ _ _ Ha Hc2 Hs2 Hv2 Hn2 Er) as (-> & Hrest). by rewrite with_draft_same.
Qed.

(** C30: a publication that fails has not happened.  Whatever it ran into, the
    draft changed by another page, an invalid draft, a credential or a file that
    could not be written, the manager is as it was: the active configuration and
    the secrets in force, and the draft with its staged secrets, so that it can
    be retried; and so is the configuration file.  The credentials are as they
    were if the credential manager works, and the file of secrets if the write
    that undoes the first one works. *)
Theorem failed_publish_undone expected m w err m' w' :
  publish windows write_fault ParseURL expected m w = (Err err, m', w') ->
  m' = m /\ w_config w' = w_config w /\ (dependable windows -> forall t, cred w' t = cred w t) /\
  (w_secrets w = manual (secrets m) -> write_fault (S (S (w_writes w))) = None -> w_secrets w' = w_secrets w).
Proof. apply failed_publish_kept. Qed.
(** What a successful publication did, step by step. *)
Lemma publish_inv expected m w c m' w' :
  publish windows write_fault ParseURL expected m w = (Ok c, m', w') ->
  exists undo b w1,
    (x ← expected; checkExpectedRouteDraft x m) = None /\
    c = with_revision (i64 (Revision (active m) + 1)) (cloneConfiguration (draft m)) /\
    validateConfiguration ParseURL c = None /\ applied windows (active m) c (secrets m) w undo b w1 /\
    m' = {| active := c; draft := c; secrets := DiscardSecrets b; loadErr := None; draftOwner := draftOwner m;
            draftPending := draftPending m |} /\
    w_config w' = Some c /\ w_secrets w' = w_secrets w1 /\ w_vault w' = w_vault w1.
Proof.
  unfold publish. destruct (expected ≫= _) eqn:Hex; [done|].
  destruct (validateConfiguration _ _) eqn:Hv; [done|].
  set (d := with_revision _ _). pose proof (Apply_spec windows write_fault (active m) d (secrets m) w) as Ha.
  destruct (Apply windows write_fault (active m) d (secrets m) w) as [[[undo|e] b1] w1]; [|done].
  destruct (writeAtomic write_fault d w1) as [[e|] w2] eqn:Ew.
  { by destruct (rollbackSecrets _ _ _ _ _) as [[? ?] ?]. }
  pose proof (writeAtomic_spec _ _ _ _ Ew) as (Hs2 & Hv2 & Hn2 & Hc2).
  assert (Hd : cloneConfiguration d = d) by (unfold d; by rewrite clone_revision, clone_idem).
  rewrite Hd in *. intros [= <- <- <-]. exists undo, b1, w1. by rewrite decide_True in Hc2.
Qed.

(** The secret that will be in force when the draft is published. *)
Definition coming m w e : string :=
  match DraftMutation (secrets m) e with
  | Some mu => mutation_value mu
  | None => held (manual (secrets m)) w (ep_APIKeySource e) (ep_APIKeyRef e)
  end.

(** No other endpoint refers to the same secret. *)
Definition unshared c e : Prop := forall e', e' ∈ Endpoints c ->
  ep_APIKeySource e' = ep_APIKeySource e -> ep_APIKeyRef e' = ep_APIKeyRef e -> ep_ID e' = ep_ID e.

Lemma used_by c e : e ∈ Endpoints c -> secretReferenceUsed c (ep_APIKeySource e) (ep_APIKeyRef e) = true.
Proof. intros He. apply existsb_exists. exists e. split; [by apply list_elem_of_In|by apply bool_decide_eq_true]. Qed.

Lemma applied_secret previous c b w undo b' w' e : applied windows previous c b w undo b' w' ->
  NoDup (map ep_ID (Endpoints c)) -> e ∈ Endpoints c -> unshared c e -> persistentSecretSource (ep_APIKeySource e) = true ->
  held (manual b') w' (ep_APIKeySource e) (ep_APIKeyRef e) =
  match DraftMutation b e with
  | Some mu => mutation_value mu
  | None => held (manual b) w (ep_APIKeySource e) (ep_APIKeyRef e)
  end.
Proof.
  intros Ha Hnd He Hun Hp. pose proof (find_by_id _ _ Hnd He) as Hfind.
  destruct (ad_held _ _ _ _ _ _ _ _ Ha (ep_APIKeySource e) (ep_APIKeyRef e)) as (mid & H1' & H2').
  assert (Hmid : mid = held (manual b) w (ep_APIKeySource e) (ep_APIKeyRef e)).
  { destruct H1' as [(x & _ & Hact & Hs & Hr & _)|[_ ->]]; [|done]. unfold unused in Hact.
    rewrite Hs, Hr, used_by, andb_false_r in Hact by done. done. }
  destruct H2' as [([id mu] & Hin & Hact & Hs & Hr & ->)|[Hno ->]]; cbn [fst snd] in *.
  - apply elem_of_map_to_list in Hin. apply andb_true_iff in Hact as [_ Hmut]. unfold mutates, endpointByID in Hmut. cbn [fst snd] in Hmut.
    destruct (find_endpoint c id) as [x|] eqn:Ex; [|done]. unfold same_reference in Hmut. apply bool_decide_eq_true in Hmut as [Hxs Hxr].
    unfold find_endpoint in Ex. apply find_some in Ex as [Hx%list_elem_of_In Hid%bool_decide_eq_true].
    assert (Eid : ep_ID x = ep_ID e) by (apply Hun; congruence). unfold DraftMutation. rewrite <- Eid, Hid, Hin. cbn.
    unfold same_reference. by rewrite bool_decide_true by (split; congruence).
  - rewrite Hmid. destruct (DraftMutation b e) as [mu|] eqn:Em; [|done]. exfalso. unfold DraftMutation in Em.
    destruct (staged b !! ep_ID e) as [mu'|] eqn:Es; [cbn in Em|done]. destruct (same_reference mu' e) eqn:Esr; [|done].
    apply (Hno (ep_ID e, mu')); [by apply elem_of_map_to_list|]. unfold acts, mutates, endpointByID, find_endpoint. cbn [fst snd].
    rewrite Hfind, Esr. unfold same_reference in Esr. apply bool_decide_eq_true in Esr as [-> ->]. by rewrite Hp.
Qed.

(** A publication that succeeds has happened as a whole.  It publishes the
    draft, validated, under the next revision, in memory and in the file, and
    leaves no draft; every endpoint has the secret that was staged for it, or
    keeps its own, provided no other endpoint refers to the same secret; and the
    secret of a reference that the configuration no longer uses is gone. *)
Theorem publish_commits expected m w c m' w' :
  publish windows write_fault ParseURL expected m w = (Ok c, m', w') ->
  c = with_revision (i64 (Revision (active m) + 1)) (cloneConfiguration (draft m)) /\
  validateConfiguration ParseURL c = None /\ active m' = c /\ draft m' = c /\ w_config w' = Some c /\
  HasDraftChanges (secrets m') = false /\ (w_secrets w = manual (secrets m) -> w_secrets w' = manual (secrets m')) /\
  (forall e, e ∈ Endpoints c -> unshared c e -> persistentSecretSource (ep_APIKeySource e) = true ->
     held (manual (secrets m')) w' (ep_APIKeySource e) (ep_APIKeyRef e) = coming m w e) /\
  (forall e, e ∈ Endpoints (active m) -> unused c e = true ->
     held (manual (secrets m')) w' (ep_APIKeySource e) (ep_APIKeyRef e) = "").
Proof.
  intros (undo & b & w1 & _ & Hc & Hv & Ha & -> & Hwc & Hws & Hwv)%publish_inv. cbn [active draft secrets].
  assert (Hcred : forall mm s r, held mm w' s r = held mm w1 s r).
  { intros mm s r. apply held_cred. intros t. unfold cred. by rewrite Hwv. }
  split_and!; [done..| | | |].
  - unfold HasDraftChanges. cbn. by rewrite bool_decide_true.
  - intros Hsy. rewrite Hws. cbn. destruct (rb_changed undo) eqn:Hch; [by apply (ad_changed _ _ _ _ _ _ _ _ Ha)|].
    destruct (ad_unchanged _ _ _ _ _ _ _ _ Ha Hch) as (-> & -> & _). done.
  - intros e He Hun Hp. rewrite Hcred. cbn. apply valid_endpoint_ids in Hv. by apply (applied_secret _ _ _ _ _ _ _ _ Ha).
  - intros e He Hu. rewrite Hcred. cbn.
    destruct (ad_held _ _ _ _ _ _ _ _ Ha (ep_APIKeySource e) (ep_APIKeyRef e)) as (mid & H1' & H2').
    assert (Hmid : mid = "").
    { destruct H1' as [(x & _ & _ & _ & _ & ->)|[Hno _]]; [done|]. by destruct (Hno e He). }
    destruct H2' as [([id mu] & _ & Hact & Hs & Hr & _)|[_ ->]]; [exfalso|done]. cbn [fst snd] in *.
    apply andb_true_iff in Hact as [_ Hmut]. unfold mutates, endpointByID in Hmut. cbn [fst snd] in Hmut.
    destruct (find_endpoint c id) as [x|] eqn:Ex; [|done]. unfold same_reference in Hmut. apply bool_decide_eq_true in Hmut as [Hxs Hxr].
    unfold find_endpoint in Ex. apply find_some in Ex as [Hx%list_elem_of_In _].
    unfold unused in Hu. rewrite <- Hs, <- Hr, Hxs, Hxr, used_by, andb_false_r in Hu by done. done.
Qed.
(** * Histories *)

Inductive op :=
  | OpSave (c : Configuration)
  | OpSetSecret (endpointID apiKey owner : string)
  | OpClearSecret (endpointID owner : string)
  | OpDiscard
  | OpPublish (expected : option Configuration).

Definition step (o : op) (mw : Manager * World) : Manager * World :=
  let '(m, w) := mw in
  match o with
  | OpSave c => ((SaveDraft ReserveEndpoints ParseURL c m).2, w)
  | OpSetSecret id key owner => ((SetDraftEndpointSecretForOwner id key owner m).2, w)
  | OpClearSecret id owner => ((ClearDraftEndpointSecretForOwner id owner m).2, w)
  | OpDiscard => ((DiscardDraft m).2, w)
  | OpPublish expected => let '(_, m, w) := publish windows write_fault ParseURL expected m w in (m, w)
  end.

Definition history (ops : list op) (mw : Manager * World) : Manager * World := fold_left (fun mw o => step o mw) ops mw.

(** What is in force is normalized and valid. *)
Definition in_order m : Prop := cloneConfiguration (active m) = active m /\ validateConfiguration ParseURL (active m) = None.

Lemma default_in_order : cloneConfiguration defaultConfiguration = defaultConfiguration /\
  validateConfiguration ParseURL defaultConfiguration = None.
Proof. done. Qed.

Lemma with_configured_normal f e : normalize_endpoint e = e ->
  (ep_APIKeySource e = APIKeyStorageEnv \/ ep_APIKeySource e = APIKeyStorageSecretFile -> f = negb (bool_decide (ep_APIKeyRef e = ""))) ->
  normalize_endpoint (with_configured f e) = with_configured f e.
Proof.
  destruct e as [i n u src ref cf en]. unfold normalize_endpoint, with_configured.
  cbn [ep_ID ep_DisplayName ep_BaseURL ep_APIKeySource ep_APIKeyRef ep_APIKeyConfigured ep_Enabled].
  intros [= Hn Hu Hs Hr _] Hf. rewrite Hs in *. rewrite Hn, Hu, Hr. f_equal. destruct src; try done; by rewrite Hf by auto.
Qed.

Lemma migrate_secrets_normal legacy l b w l' b' w' : migrate_secrets windows write_fault legacy l b w = (Ok l', b', w') ->
  Forall (fun e => normalize_endpoint e = e) l -> Forall (fun e => normalize_endpoint e = e) l'.
Proof.
  revert b w l'. induction l as [|e l IH]; intros b w l'; cbn [migrate_secrets]; [by intros [= <- <- <-] _|].
  destruct (StoreForMigration _ _ _ _ _ _) as [[[err|] b1] w1]; [done|].
  destruct (migrate_secrets _ _ _ _ _ _) as [[[l1|err] b2] w2] eqn:E; [|done]. intros [= <- <- <-] [He Hl]%Forall_cons.
  constructor; [|by eapply IH]. apply with_configured_normal; [done|]. by intros [-> | ->].
Qed.

Lemma normalize_endpoints_normal c : Forall (fun e => normalize_endpoint e = e) (Endpoints (normalizeConfiguration c)).
Proof. apply Forall_forall. intros e (x & -> & _)%list_elem_of_fmap. apply normalize_endpoint_idem. Qed.

Lemma normalize_with_endpoints l c :
  normalizeConfiguration (with_endpoints l c) = with_endpoints (map normalize_endpoint l) (normalizeConfiguration c).
Proof. reflexivity. Qed.

Lemma clone_endpoints l c : Forall (fun e => normalize_endpoint e = e) l ->
  cloneConfiguration (with_endpoints l (normalizeConfiguration c)) = with_endpoints l (normalizeConfiguration c).
Proof.
  intros Hl. unfold cloneConfiguration. rewrite normalize_with_endpoints, normalize_idem. f_equal. induction Hl as [|e l He _ IH]; [done|]. cbn. by rewrite He, IH.
Qed.

Lemma load_in_order f b w c b' err w' : load_config windows write_fault ParseURL f b w = (c, b', err, w') ->
  cloneConfiguration c = c /\ validateConfiguration ParseURL c = None.
Proof.
  pose proof default_in_order as Hdef. destruct f as [|e|e|d legacy mentions]; cbn [load_config]; try by intros [= <- _ _ _].
  set (n := normalizeConfiguration _). destruct (migrate_secrets _ _ _ _ _ _) as [[[l|e] b1] w1] eqn:Em; [|by intros [= <- _ _ _]].
  destruct (validateConfiguration ParseURL (with_endpoints l n)) eqn:Hv; [by intros [= <- _ _ _]|].
  assert (Hc : cloneConfiguration (with_endpoints l n) = with_endpoints l n).
  { apply clone_endpoints. eapply migrate_secrets_normal; [done|]. apply normalize_endpoints_normal. }
  destruct mentions; [destruct (writeAtomic _ _ _)|]; by intros [= <- _ _ _].
Qed.

Lemma New_in_order f sf w : in_order (New windows write_fault ParseURL f sf w).1.
Proof.
  unfold New. destruct (newSecretBackend sf) as [b [e|]]; [apply default_in_order|].
  destruct (load_config _ _ _ _ _ _) as [[[c b'] err] w'] eqn:E. by apply load_in_order in E.
Qed.

(** Only a publication changes what is in force. *)
Lemma step_active o mw : (forall expected, o <> OpPublish expected) -> active (step o mw).1 = active mw.1.
Proof.
  destruct mw as [m w]. destruct o; cbn; intros Ho; try done.
  - unfold SaveDraft. destruct (validateConfiguration _ _); [done|]. by destruct (ReserveEndpoints _).
  - unfold SetDraftEndpointSecretForOwner. case_bool_decide; [done|]. destruct (endpointByID _ _); [|done]. by destruct (negb _).
  - unfold ClearDraftEndpointSecretForOwner. destruct (endpointByID _ _); [|done]. by destruct (negb _).
  - by destruct (Ho expected).
Qed.

Lemma step_in_order o mw : in_order mw.1 -> in_order (step o mw).1.
Proof.
  intros Hi. unfold in_order in *. destruct o as [c|id key owner|id owner| |expected]; [by rewrite step_active..|].
  destruct mw as [m w]. cbn in *. destruct (publish _ _ _ _ _ _) as [[[c|e] m'] w'] eqn:E.
  - apply publish_inv in E as (undo & b & w1 & _ & -> & Hv & _ & -> & _). cbn. split; [|done].
    by rewrite clone_revision, clone_idem.
  - by apply failed_publish_kept in E as (-> & _).
Qed.

Lemma history_in_order ops mw : in_order mw.1 -> in_order (history ops mw).1.
Proof. revert mw. induction ops as [|o ops IH]; intros mw Hi; [done|]. apply IH. by apply step_in_order. Qed.

(** C31: whatever is in the files at the start, whatever administrators save,
    stage, discard and publish and whatever fails, the manager routes: a workload
    in a group resolves to an enabled model on an enabled endpoint of the active
    configuration, or is disabled.  No resolution finds its model or endpoint
    missing. *)
Theorem manager_always_routes f sf w0 ops workload s :
  let m := (history ops (New windows write_fault ParseURL f sf w0)).1 in
  match Resolve_ workload s m with
  | Ok t => exists mo e, mo ∈ Models (active m) /\ e ∈ Endpoints (active m) /\ mo_Enabled mo = true /\ ep_Enabled e = true /\
      tg_ModelID t = mo_ID mo /\ tg_UpstreamModel t = mo_UpstreamModel mo /\ mo_EndpointID mo = ep_ID e /\
      tg_EndpointID t = ep_ID e /\ tg_BaseURL t = ep_BaseURL e
  | Err e => e = ErrDisabled
  end.
Proof.
  intros m. destruct (history_in_order ops (New windows write_fault ParseURL f sf w0)) as [Hc Hv]; [apply New_in_order|].
  fold m in Hc, Hv. unfold Resolve_, Active. rewrite Hc. pose proof (resolve_valid ParseURL (active m) workload s Hv) as Hr.
  cbv zeta in Hr. case_decide; [|by rewrite Hr]. destruct Hr as (mo & e & t & ? & ? & ? & ? & ? & ? & -> & ? & ? & ? & ? & _).
  by exists mo, e.
Qed.
(** * The routes a page saved *)

(** A configuration without its revision and the status of its secrets. *)
Definition content c : Z * gmap string Binding * list GroupOverride * list Model * list Endpoint :=
  let n := normalizeConfiguration c in (Version n, GlobalBindings n, GroupOverrides n, Models n, unconfigured n).

Definition erased e : Endpoint := with_configured false (normalize_endpoint e).

Lemma erased_configured f e : erased (with_configured f e) = erased e.
Proof. done. Qed.

Lemma erased_normal e : erased (normalize_endpoint e) = erased e.
Proof. unfold erased. by rewrite normalize_endpoint_idem. Qed.

Lemma unconfigured_normal c : unconfigured (normalizeConfiguration c) = map erased (Endpoints c).
Proof. unfold unconfigured, normalizeConfiguration. cbn [Endpoints]. by rewrite map_map. Qed.

Lemma content_normal c : content (normalizeConfiguration c) = content c.
Proof. unfold content. by rewrite normalize_idem. Qed.

Lemma content_endpoints l c : map erased l = map erased (Endpoints c) -> content (with_endpoints l c) = content c.
Proof.
  intros E. unfold content. rewrite !unconfigured_normal. cbn [Endpoints with_endpoints]. by rewrite E.
Qed.

Lemma content_revision r c : content (with_revision r c) = content c.
Proof. done. Qed.

Lemma erased_set id f l : map erased (set_configured id f l) = map erased l.
Proof. induction l as [|e l IH]; [done|]. cbn. case_bool_decide; cbn; [done|]. by f_equal. Qed.

Lemma check_spec x m : checkExpectedRouteDraft x m = None <->
  Revision x = Revision (active m) /\ Revision (draft m) = Revision (active m) /\ content x = content (draft m).
Proof.
  unfold checkExpectedRouteDraft, content, cloneConfiguration.
  change (Revision (normalizeConfiguration x)) with (Revision x).
  change (Revision (normalizeConfiguration (draft m))) with (Revision (draft m)).
  case_bool_decide as E1; cbn [negb]; [case_bool_decide as E2|]; cbn [negb]; (split; [|intros (? & ? & [= ? ? ? ? ?])]); try done.
  - intros _. destruct E1 as (? & ? & ? & ? & ?), E2. split_and!; [done|congruence|congruence].
  - by destruct E2.
  - destruct E1. split_and!; try done. congruence.
Qed.

Lemma SaveDraft_inv c m m' : SaveDraft ReserveEndpoints ParseURL c m = (None, m') ->
  let n := normalizeConfiguration c in let b := ReconcileDraft n (secrets m) in
  validateConfiguration ParseURL n = None /\
  m' = with_draft (cloneConfiguration (with_revision (Revision (active m)) (with_endpoints
         (map (fun e => with_configured (saved_configured (previous_of (draft m) (ep_ID e)) b e) e) (Endpoints n)) n))) b m.
Proof.
  unfold SaveDraft. destruct (validateConfiguration _ _) eqn:Hv; [done|]. destruct (ReserveEndpoints _); [done|].
  by intros [= <-].
Qed.

(** Staging a secret, or its removal. *)
Definition stages (o : op) : bool := match o with OpSetSecret _ _ _ | OpClearSecret _ _ => true | _ => false end.

Lemma stages_content o mw : stages o = true -> active (step o mw).1 = active mw.1 /\
  Revision (draft (step o mw).1) = Revision (draft mw.1) /\ content (draft (step o mw).1) = content (draft mw.1).
Proof.
  intros Ho. split; [apply step_active; by intros ? ->|]. destruct mw as [m w].
  assert (Hset : forall id f, Revision (setEndpointConfigured id f (draft m)) = Revision (draft m) /\
    content (setEndpointConfigured id f (draft m)) = content (draft m)).
  { intros id f. split; [done|]. apply content_endpoints, erased_set. }
  destruct o; try done; cbn [step fst].
  - unfold SetDraftEndpointSecretForOwner. case_bool_decide; [done|]. destruct (endpointByID _ _); [|done].
    destruct (negb _); [done|]. apply Hset.
  - unfold ClearDraftEndpointSecretForOwner. destruct (endpointByID _ _); [|done]. destruct (negb _); [done|]. apply Hset.
Qed.

Lemma history_content ops mw : forallb stages ops = true -> active (history ops mw).1 = active mw.1 /\
  Revision (draft (history ops mw).1) = Revision (draft mw.1) /\ content (draft (history ops mw).1) = content (draft mw.1).
Proof.
  revert mw. induction ops as [|o ops IH]; intros mw; [done|]. cbn [forallb]. intros [Ho Hops]%andb_true_iff.
  destruct (stages_content o mw Ho) as (Ha & Hr & Hc). destruct (IH (step o mw) Hops) as (Ha' & Hr' & Hc').
  change (history (o :: ops) mw) with (history ops (step o mw)). split_and!; congruence.
Qed.

Lemma i64_next_ne n : i64 (n + 1) <> n.
Proof. unfold i64. rewrite Z.mod_eq by lia. lia. Qed.

(** A page publishes the routes it saved, or nothing.  After one page saved
    [y], and secrets were staged or not, the routes [x] of a page pass the check
    exactly when they say what [y] says and were made for the revision in force:
    the routes of a page that was overtaken by another draft, or by a
    publication, are refused.  What is published says what [x] says, under the
    next revision, and cannot be published by [x] again. *)
Theorem expected_routes y m m1 ops x w : SaveDraft ReserveEndpoints ParseURL y m = (None, m1) -> forallb stages ops = true ->
  let m2 := (history ops (m1, w)).1 in
  (checkExpectedRouteDraft x m2 = None <-> Revision x = Revision (active m) /\ content x = content y) /\
  (checkExpectedRouteDraft x m2 <> None -> exists err, publish windows write_fault ParseURL (Some x) m2 w = (Err err, m2, w)) /\
  forall c m3 w', publish windows write_fault ParseURL (Some x) m2 w = (Ok c, m3, w') ->
    active m3 = c /\ content c = content x /\ Revision c = i64 (Revision x + 1) /\ checkExpectedRouteDraft x m3 <> None.
Proof.
  intros (Hv & E)%SaveDraft_inv Hops m2. destruct (history_content ops (m1, w) Hops) as (Ha & Hr & Hc).
  fold m2 in Ha, Hr, Hc. rewrite E in Ha, Hr, Hc. cbn [fst active draft with_draft] in Ha, Hr, Hc. clear E.
  assert (Hcy : content (draft m2) = content y).
  { rewrite Hc. unfold cloneConfiguration. rewrite content_normal, content_revision, content_endpoints, content_normal; [done|].
    rewrite map_map. apply map_ext. intros e. apply erased_configured. }
  assert (Hcheck : checkExpectedRouteDraft x m2 = None <-> Revision x = Revision (active m) /\ content x = content y).
  { rewrite check_spec, Ha, Hcy. split; [by intros (? & _ & ?)|]. intros [? ?]. split_and!; [done|exact Hr|done]. }
  split; [done|]. split.
  - intros Hno. unfold publish. destruct (Some x ≫= _) eqn:E; [eauto|]. by destruct Hno.
  - intros c m3 w' (undo & b & w1 & Hx & -> & _ & _ & -> & _)%publish_inv. cbn in Hx. apply check_spec in Hx as (Hrx & Hrd & Hcx).
    cbn [active]. rewrite content_revision. unfold cloneConfiguration. rewrite content_normal. split_and!; [reflexivity|by rewrite Hcx| |].
    + rewrite Hrx. reflexivity.
    + intros (Hrev & _)%check_spec. cbn [active] in Hrev. apply (i64_next_ne (Revision (active m2))). rewrite <- Hrx at 2. by rewrite Hrev.
Qed.
(** * The status of secrets *)

(** The flag of an endpoint with a secret in the file says whether there is one. *)
Definition truthful c (key : Endpoint -> string) : Prop := forall e, e ∈ Endpoints c ->
  ep_APIKeySource e = APIKeyStorageManual -> ep_APIKeyConfigured e = negb (bool_decide (key e = "")).

Definition kept_key b e : string := get (manual b) (ep_APIKeyRef e).
Definition coming_key b e : string :=
  match DraftMutation b e with Some mu => mutation_value mu | None => kept_key b e end.

(** No two endpoints refer to one secret of the file. *)
Definition distinct_refs c : Prop :=
  NoDup (map ep_APIKeyRef (filter (fun e => ep_APIKeySource e = APIKeyStorageManual) (Endpoints c))).

Record told m : Prop := {
  to_order : in_order m;
  to_active : truthful (active m) (kept_key (secrets m));
  to_draft : truthful (draft m) (coming_key (secrets m));
  to_ids : NoDup (map ep_ID (Endpoints (draft m)));
  to_normal : Forall (fun e => normalize_endpoint e = e) (Endpoints (draft m));
  to_values : forall id mu, staged (secrets m) !! id = Some mu -> sm_Clear mu = false -> sm_Value mu <> "";
}.

Lemma normal_ref_id e : normalize_endpoint e = e -> TrimSpace (ep_APIKeyRef e) = ep_APIKeyRef e.
Proof. intros <-. apply TrimSpace_id. cbn [normalize_endpoint ep_APIKeyRef]. apply normal_ref_trimmed. Qed.

Lemma normal_endpoints c : cloneConfiguration c = c -> Forall (fun e => normalize_endpoint e = e) (Endpoints c).
Proof. intros <-. apply normalize_endpoints_normal. Qed.

Lemma previous_of_elem c id old : previous_of c id = Some old -> old ∈ Endpoints c /\ ep_ID old = id.
Proof.
  unfold previous_of. enough (Hg : forall l (acc : gmap string Endpoint),
    fold_left (fun mm e => <[ep_ID e := e]> mm) l acc !! id = Some old ->
    (old ∈ l /\ ep_ID old = id) \/ acc !! id = Some old).
  { intros [?|Hn]%Hg; [done|]. by rewrite lookup_empty in Hn. }
  induction l as [|x l IH]; intros acc; cbn [fold_left]; [by right|]. intros [[? ?]|Hx]%IH; [left; split; [by right|done]|].
  destruct (decide (ep_ID x = id)) as [E|E]; [|rewrite lookup_insert_ne in Hx by done; by right].
  rewrite E, lookup_insert_eq in Hx. injection Hx as <-. left. split; [by left|done].
Qed.

Lemma NoDup_map_filter {A B} (P : A -> Prop) `{forall x, Decision (P x)} (f : A -> B) l x y :
  NoDup (map f (filter P l)) -> x ∈ l -> y ∈ l -> P x -> P y -> f x = f y -> x = y.
Proof.
  intros Hnd Hx Hy HPx HPy E. assert (Hx' : x ∈ filter P l) by (by apply list_elem_of_filter).
  assert (Hy' : y ∈ filter P l) by (by apply list_elem_of_filter).
  apply list_elem_of_lookup in Hx' as [i Hi]. apply list_elem_of_lookup in Hy' as [j Hj].
  assert (i = j) as ->; [|congruence].
  apply (NoDup_lookup _ _ _ (f x) Hnd); apply list_lookup_fmap_Some; [by exists x|exists y; by rewrite E].
Qed.

Lemma distinct_unshared c e : distinct_refs c -> e ∈ Endpoints c -> ep_APIKeySource e = APIKeyStorageManual -> unshared c e.
Proof. intros Hd He Hs e' He' Hs' Hr. f_equal. eapply NoDup_map_filter; [exact Hd|..]; congruence || done. Qed.

(** ** Saving *)

Lemma DraftMutation_configured b f e : DraftMutation b (with_configured f e) = DraftMutation b e.
Proof. done. Qed.

Lemma reconciled n b e : NoDup (map ep_ID (Endpoints n)) -> e ∈ Endpoints n ->
  DraftMutation (ReconcileDraft n b) e = DraftMutation b e.
Proof.
  intros Hnd He. pose proof (find_by_id _ _ Hnd He) as Hf. unfold DraftMutation, ReconcileDraft, with_staged. cbn [staged].
  rewrite map_lookup_filter. destruct (staged b !! ep_ID e) as [mu|]; [cbn|done].
  destruct (same_reference mu e) eqn:Er.
  - case_guard as Hg; cbn; [by rewrite Er|]. destruct Hg. unfold mutates, endpointByID, find_endpoint. cbn [fst snd]. by rewrite Hf.
  - case_guard; cbn; by rewrite ?Er.
Qed.

Lemma saved_truthful m n e : told m -> NoDup (map ep_ID (Endpoints n)) -> e ∈ Endpoints n -> normalize_endpoint e = e ->
  ep_APIKeySource e = APIKeyStorageManual -> let b := ReconcileDraft n (secrets m) in
  saved_configured (previous_of (draft m) (ep_ID e)) b e = negb (bool_decide (coming_key b e = "")).
Proof.
  intros Ht Hnd He Hn Hs b. unfold saved_configured, coming_key. destruct (DraftMutation b e) as [mu|] eqn:Em.
  - unfold mutation_value. destruct (sm_Clear mu) eqn:Ec; cbn; [by rewrite bool_decide_true|]. rewrite bool_decide_false; [done|].
    unfold b in Em. rewrite reconciled in Em by done. unfold DraftMutation in Em.
    destruct (staged (secrets m) !! ep_ID e) as [mu'|] eqn:Es; [cbn in Em|done]. destruct (same_reference _ _); [|done].
    injection Em as ->. by apply (to_values _ Ht _ _ Es).
  - assert (Hfresh : fresh_configured b e = negb (bool_decide (kept_key b e = ""))).
    { unfold fresh_configured, Configured, kept_key. by rewrite Hs, normal_ref_id. }
    destruct (previous_of _ _) as [old|] eqn:Eo; [|done].
    destruct (bool_decide (ep_APIKeySource old = _ /\ _)) eqn:Href; [|done]. apply bool_decide_eq_true in Href as [Hos Hor].
    apply previous_of_elem in Eo as [Ho Hid]. rewrite (to_draft _ Ht old Ho) by congruence. unfold coming_key.
    assert (DraftMutation (secrets m) old = None) as ->.
    { unfold b in Em. rewrite reconciled in Em by done. unfold DraftMutation in *. rewrite Hid.
      destruct (staged _ !! ep_ID e) as [mu|]; [cbn in *|done]. unfold same_reference in *. by rewrite Hos, Hor. }
    unfold kept_key. by rewrite Hor.
Qed.

Lemma told_Save c m : told m -> told (SaveDraft ReserveEndpoints ParseURL c m).2.
Proof.
  intros Ht. destruct (SaveDraft ReserveEndpoints ParseURL c m) as [[err|] m'] eqn:E.
  { unfold SaveDraft in E. destruct (validateConfiguration _ _); [by injection E as _ <-|].
    destruct (ReserveEndpoints _); [by injection E as _ <-|done]. }
  apply SaveDraft_inv in E as [Hv ->]. cbn [snd]. set (n := normalizeConfiguration c) in *. set (b := ReconcileDraft n (secrets m)).
  pose proof (valid_endpoint_ids _ _ Hv) as Hnd. pose proof (normalize_endpoints_normal c) as Hnorm. fold n in Hnorm.
  destruct Ht as [Ho Ha Hd Hi Hno Hval] eqn:Et. constructor; cbn [active draft secrets with_draft]; [done|done|..].
  - intros e (x & -> & (y & -> & Hy)%list_elem_of_fmap)%list_elem_of_fmap Hs.
    rewrite Forall_forall in Hnorm. pose proof (Hnorm y Hy) as Hny.
    assert (Hys : ep_APIKeySource y = APIKeyStorageManual).
    { rewrite <- Hny. exact Hs. }
    rewrite with_configured_normal; [|done|by rewrite Hys; intros [?|?]]. unfold coming_key. rewrite DraftMutation_configured.
    apply (saved_truthful m n y Ht Hnd Hy Hny Hys).
  - change (NoDup (map ep_ID (map normalize_endpoint (map (fun e => with_configured (saved_configured (previous_of (draft m) (ep_ID e)) b e) e) (Endpoints n))))).
    by rewrite !map_map.
  - apply normalize_endpoints_normal.
  - intros id mu Hmu. apply map_lookup_filter_Some in Hmu as [Hmu _]. by apply (Hval _ _ Hmu).
Qed.
(** ** Staging *)

Lemma set_configured_elem id f l x : NoDup (map ep_ID l) -> x ∈ set_configured id f l ->
  (exists y, y ∈ l /\ ep_ID y = id /\ x = with_configured f y) \/ (x ∈ l /\ ep_ID x <> id).
Proof.
  induction l as [|y l IH]; cbn [set_configured map]; [by intros _ ?%elem_of_nil|]. intros [Hy Hnd]%NoDup_cons.
  case_bool_decide as E.
  - intros [->|Hx]%elem_of_cons; [left; exists y; split; [by left|done]|]. right. split; [by right|].
    intros Ex. apply Hy. rewrite E, <- Ex. by apply list_elem_of_fmap_2.
  - intros [->|Hx]%elem_of_cons; [right; split; [by left|done]|].
    destruct (IH Hnd Hx) as [(z & Hz & ? & ?)|[? ?]]; [left; exists z; split; [by right|done]|right; split; [by right|done]].
Qed.

Lemma set_configured_ids id f l : map ep_ID (set_configured id f l) = map ep_ID l.
Proof. induction l as [|e l IH]; [done|]. cbn. case_bool_decide; cbn; [done|]. by f_equal. Qed.

Lemma same_reference_self e value clear : same_reference
  {| sm_Source := ep_APIKeySource e; sm_Ref := ep_APIKeyRef e; sm_Value := value; sm_Clear := clear |} e = true.
Proof. by apply bool_decide_eq_true. Qed.

(** The flag agrees with the staged value. *)
Lemma told_stage m e value clear : told m -> endpointByID (draft m) (ep_ID e) = Some e ->
  persistentSecretSource (ep_APIKeySource e) = true -> clear = bool_decide (value = "") ->
  told (with_draft (setEndpointConfigured (ep_ID e) (negb clear) (draft m)) (Stage e value clear (secrets m)) m).
Proof.
  intros [Ho Ha Hd Hi Hn Hval] He Hp Hcl. rewrite Forall_forall in Hn.
  assert (Hcases : forall x, x ∈ Endpoints (setEndpointConfigured (ep_ID e) (negb clear) (draft m)) ->
    x = with_configured (negb clear) e /\ e ∈ Endpoints (draft m) \/ x ∈ Endpoints (draft m) /\ ep_ID x <> ep_ID e).
  { intros x Hx. apply set_configured_elem in Hx as [(y & Hy & Hid & ->)|?]; [left|by right|done].
    pose proof (find_by_id _ _ Hi Hy) as Hf. unfold endpointByID, find_endpoint in He. rewrite Hid in Hf. rewrite He in Hf.
    by injection Hf as <-. }
  constructor; cbn [active draft secrets with_draft]; [done|done|..].
  - intros x [[-> He']|[Hx Hne]]%Hcases Hs.
    + unfold coming_key. rewrite DraftMutation_configured. unfold DraftMutation, Stage, with_staged. cbn [staged].
      rewrite lookup_insert_eq. cbn. rewrite same_reference_self. unfold mutation_value. cbn. subst clear.
      destruct (decide (value = "")) as [Ev|Ev]; [rewrite (bool_decide_true _ Ev)|rewrite (bool_decide_false _ Ev)]; cbn; [done|].
      by rewrite bool_decide_false.
    + rewrite (Hd x Hx Hs). f_equal. unfold coming_key, DraftMutation, Stage, with_staged, kept_key. cbn [staged manual].
      by rewrite lookup_insert_ne.
  - cbn [setEndpointConfigured with_endpoints Endpoints]. by rewrite set_configured_ids.
  - apply Forall_forall. intros x [[-> He']|[Hx _]]%Hcases; [|by apply Hn]. apply with_configured_normal; [by apply Hn|].
    apply persistent_cases in Hp as [-> | ->]; by intros [?|?].
  - intros id mu. cbn. destruct (decide (ep_ID e = id)) as [<-|Hne]; [rewrite lookup_insert_eq|by rewrite lookup_insert_ne; [apply Hval|]].
    intros [= <-]. cbn. intros ->. by case_bool_decide.
Qed.

Lemma endpointByID_ID c id e : endpointByID c id = Some e -> ep_ID e = id.
Proof. unfold endpointByID, find_endpoint. by intros [_ ?%bool_decide_eq_true]%find_some. Qed.

Lemma told_owned owner m : told m -> told (owned owner m).
Proof. by intros []. Qed.

Lemma told_stages o mw : stages o = true -> told mw.1 -> told (step o mw).1.
Proof.
  destruct mw as [m w]. destruct o as [|id key owner|id owner| |]; try done; intros _ Ht; cbn [step fst] in *.
  - unfold SetDraftEndpointSecretForOwner. case_bool_decide as Hk; [done|]. destruct (endpointByID _ _) as [e|] eqn:He; [|done].
    destruct (persistentSecretSource _) eqn:Hp; [|done]. apply told_owned. pose proof (endpointByID_ID _ _ _ He) as Hid.
    rewrite <- Hid in He. apply (told_stage m e key false Ht He Hp). rewrite bool_decide_false; [done|]. by intros ->.
  - unfold ClearDraftEndpointSecretForOwner. destruct (endpointByID _ _) as [e|] eqn:He; [|done].
    destruct (persistentSecretSource _) eqn:Hp; [|done]. apply told_owned. pose proof (endpointByID_ID _ _ _ He) as Hid.
    rewrite <- Hid in He. apply (told_stage m e "" true Ht He Hp). by rewrite bool_decide_true.
Qed.

(** ** Publishing and discarding *)

(** Nothing staged: what comes is what is. *)
Lemma settled b c : staged b = ∅ -> truthful c (kept_key b) -> truthful c (coming_key b).
Proof. intros Hb Hc e He Hs. rewrite (Hc e He Hs). unfold coming_key, DraftMutation. by rewrite Hb, lookup_empty. Qed.

Lemma told_settled b c : staged b = ∅ -> cloneConfiguration c = c -> validateConfiguration ParseURL c = None ->
  truthful c (kept_key b) -> forall le owner p, told {| active := c; draft := c; secrets := b; loadErr := le; draftOwner := owner; draftPending := p |}.
Proof.
  intros Hb Hc Hv Ht le owner p. constructor; cbn; [done|done|by apply settled|by eapply valid_endpoint_ids|by apply normal_endpoints|].
  intros id mu. by rewrite Hb, lookup_empty.
Qed.

Lemma told_Publish expected m w : told m -> distinct_refs (draft m) ->
  told (publish windows write_fault ParseURL expected m w).1.2.
Proof.
  intros Ht Hdist. destruct (publish _ _ _ _ _ _) as [[[c|err] m'] w'] eqn:E; cbn [fst snd].
  2: { by apply failed_publish_kept in E as (-> & _). }
  apply publish_inv in E as (undo & b & w1 & _ & Hc & Hv & Hap & -> & _).
  assert (Hend : Endpoints c = Endpoints (draft m)).
  { rewrite Hc. cbn. pose proof (to_normal _ Ht) as Hn. induction Hn as [|e l He _ IH]; [done|]. cbn. by rewrite He, IH. }
  apply told_settled; [done|by rewrite Hc, clone_revision, clone_idem|done|]. intros e He Hs.
  assert (Hun : unshared c e) by (apply distinct_unshared; [unfold distinct_refs; by rewrite Hend|done|done]).
  pose proof (valid_endpoint_ids _ _ Hv) as Hnd.
  assert (Hkey : kept_key (DiscardSecrets b) e = coming_key (secrets m) e).
  { pose proof (applied_secret _ _ _ _ _ _ _ _ Hap Hnd He Hun) as Hk. rewrite Hs in Hk. by apply Hk. }
  rewrite Hkey. rewrite Hend in He. by apply (to_draft _ Ht).
Qed.

Lemma told_Discard m : told m -> told (DiscardDraft m).2.
Proof.
  intros Ht. destruct Ht as [[Hc Hv] Ha _ _ _ _]. unfold DiscardDraft, with_draft. cbn [snd]. rewrite Hc.
  by apply told_settled.
Qed.

(** ** Starting *)

Lemma migrate_secrets_spec legacy l b w l' b' w' : migrate_secrets windows write_fault legacy l b w = (Ok l', b', w') ->
  Forall (fun e => normalize_endpoint e = e) l ->
  staged b' = staged b /\
  (forall r, r ∉ map ep_APIKeyRef (filter (fun e => ep_APIKeySource e = APIKeyStorageManual) l) -> get (manual b') r = get (manual b) r) /\
  (NoDup (map ep_APIKeyRef (filter (fun e => ep_APIKeySource e = APIKeyStorageManual) l)) ->
   forall e, e ∈ l' -> ep_APIKeySource e = APIKeyStorageManual -> ep_APIKeyConfigured e = negb (bool_decide (kept_key b' e = ""))).
Proof.
  revert b w l'. induction l as [|e l IH]; intros b w l'; cbn [migrate_secrets].
  { intros [= <- <- <-] _. split; [done|]. split; [done|]. by intros _ e ?%elem_of_nil. }
  destruct (StoreForMigration _ _ _ _ _ _) as [[[err|] b1] w1] eqn:Es; [done|].
  destruct (migrate_secrets _ _ _ _ _ _) as [[[l1|err] b2] w2] eqn:E; [|done]. intros [= <- <- <-] [He Hl]%Forall_cons.
  destruct (IH _ _ _ E Hl) as (Hst & Hget & Hflag).
  assert (Hone : staged b1 = staged b /\ forall r, ~ (ep_APIKeySource e = APIKeyStorageManual /\ r = ep_APIKeyRef e) -> get (manual b1) r = get (manual b) r).
  { unfold StoreForMigration in Es. case_bool_decide; [by injection Es as <- <-|].
    destruct (ep_APIKeySource e) eqn:Hs; try (by injection Es as <- <-).
    - rewrite <- He in Hs. cbn in Hs. by destruct (ep_APIKeySource e).
    - destruct (writeManual _ _ _). injection Es as _ <- <-. cbn. split; [done|]. intros r Hr. rewrite get_insert, decide_False; [done|].
      intros <-. by apply Hr.
    - destruct (writeWindowsCredential _ _ _ _). by injection Es as _ <- <-. }
  destruct Hone as [Hst1 Hget1]. rewrite filter_cons. split; [congruence|]. split.
  - intros r Hr. rewrite Hget, Hget1.
    + done.
    + intros [Hs ->]. apply Hr. rewrite decide_True by done. by left.
    + intros Hin. apply Hr. case_decide; [by right|done].
  - intros Hnd x [->|Hx]%elem_of_cons Hs.
    + cbn in Hs. rewrite decide_True in Hnd by done. apply NoDup_cons in Hnd as [Hnin _]. cbn. rewrite Hs. unfold Configured. rewrite Hs.
      rewrite normal_ref_id by done. unfold kept_key. cbn. by rewrite Hget.
    + apply Hflag; [|done..]. case_decide; [by apply NoDup_cons in Hnd as [_ ?]|done].
Qed.

(** A configuration file of today or of then whose endpoints have distinct references. *)
Definition distinct_file (f : config_read) : Prop :=
  match f with
  | ConfigDecoded c legacy _ => distinct_refs (normalizeConfiguration (with_endpoints (map (migrate_source legacy) (Endpoints c)) c))
  | _ => True
  end.

Lemma load_truthful f b w c b' err w' : load_config windows write_fault ParseURL f b w = (c, b', err, w') -> distinct_file f ->
  staged b = ∅ -> truthful c (kept_key b').
Proof.
  destruct f as [|e|e|d legacy mentions]; cbn [load_config distinct_file];
    try by (intros [= <- <- _ _] _ _ x ?%elem_of_nil).
  set (n := normalizeConfiguration _). destruct (migrate_secrets _ _ _ _ _ _) as [[[l|e] b1] w1] eqn:Em;
    [|by intros [= <- <- _ _] _ _ x ?%elem_of_nil].
  destruct (migrate_secrets_spec _ _ _ _ _ _ _ Em) as (_ & _ & Hflag); [apply normalize_endpoints_normal|].
  destruct (validateConfiguration ParseURL (with_endpoints l n)); [by intros [= <- <- _ _] _ _ x ?%elem_of_nil|].
  destruct mentions; [destruct (writeAtomic _ _ _)|]; intros [= <- <- _ _] Hd _; exact (Hflag Hd).
Qed.

Lemma load_staged f b w c b' err w' : load_config windows write_fault ParseURL f b w = (c, b', err, w') -> staged b' = staged b.
Proof.
  destruct f as [|e|e|d legacy mentions]; cbn [load_config]; try by intros [= _ <- _ _].
  set (n := normalizeConfiguration _).
  assert (Hm : forall l b w r b' w', migrate_secrets windows write_fault legacy l b w = (r, b', w') -> staged b' = staged b).
  { clear. induction l as [|e l IH]; intros b w r b' w'; cbn [migrate_secrets]; [by intros [= _ <- _]|].
    assert (Hs : staged (StoreForMigration windows write_fault e (le_APIKey (legacy_of legacy (ep_ID e))) b w).1.2 = staged b).
    { unfold StoreForMigration. case_bool_decide; [done|]. destruct (ep_APIKeySource e); try done;
        [by destruct (writeManual _ _ _)..|by destruct (writeWindowsCredential _ _ _ _)]. }
    destruct (StoreForMigration _ _ _ _ _ _) as [[[err|] b1] w1]; [by intros [= _ <- _]|]. cbn in Hs.
    destruct (migrate_secrets _ _ _ _ _ _) as [[r2 b2] w2] eqn:E. intros [= _ <- _]. by rewrite (IH _ _ _ _ _ E). }
  destruct (migrate_secrets _ _ _ _ _ _) as [[[l|e] b1] w1] eqn:Em; apply Hm in Em; [|by intros [= _ <- _ _]].
  destruct (validateConfiguration ParseURL (with_endpoints l n)); [intros [= _ <- _ _]; exact Em|].
  destruct mentions; [destruct (writeAtomic _ _ _)|]; intros [= _ <- _ _]; exact Em.
Qed.

Lemma default_truthful key : truthful defaultConfiguration key.
Proof. intros x Hx. change (x ∈ @nil Endpoint) in Hx. by apply elem_of_nil in Hx. Qed.

Lemma told_New f sf w : distinct_file f -> told (New windows write_fault ParseURL f sf w).1.
Proof.
  intros Hd. pose proof (New_in_order f sf w) as Ho. revert Ho. unfold New.
  assert (Hsf : staged (newSecretBackend sf).1 = ∅) by (destruct sf; cbn; try case_match; done).
  destruct (newSecretBackend sf) as [b [e|]]; cbn in Hsf.
  - cbn [fst]. intros [Hc Hv]. cbn [active] in Hc, Hv. rewrite Hc. apply told_settled; [exact Hsf|exact Hc|exact Hv|].
    apply default_truthful.
  - destruct (load_config _ _ _ _ _ _) as [[[c b'] err] w'] eqn:E. cbn [fst]. intros [Hc Hv]. cbn [active] in Hc, Hv. rewrite Hc.
    pose proof (load_staged _ _ _ _ _ _ _ E) as Hst.
    apply told_settled; [congruence|done|done|]. by eapply load_truthful.
Qed.

(** Every configuration that is published gives its endpoints distinct references. *)
Fixpoint tidy (ops : list op) (mw : Manager * World) : Prop :=
  match ops with
  | [] => True
  | o :: ops => (match o with OpPublish _ => distinct_refs (draft mw.1) | _ => True end) /\ tidy ops (step o mw)
  end.

Lemma told_history ops mw : told mw.1 -> tidy ops mw -> told (history ops mw).1.
Proof.
  revert mw. induction ops as [|o ops IH]; intros [m w] Ht; [done|]. cbn [tidy fst]. intros [Ho Hops].
  change (history (o :: ops) (m, w)) with (history ops (step o (m, w))). apply IH; [|done].
  destruct o as [c|id key owner|id owner| |expected].
  - by apply told_Save.
  - by apply told_stages.
  - by apply told_stages.
  - by apply told_Discard.
  - cbn. pose proof (told_Publish expected m w Ht Ho) as Hp. by destruct (publish _ _ _ _ _ _) as [[r m'] w'].
Qed.

(** An administrator who sees that an endpoint has a secret, or has none,
    sees the truth.  In every state the manager reaches, the flag of an endpoint
    of the active configuration whose secrets are kept in the file says whether
    there is one now; and the flag of an endpoint of the draft says whether
    there will be one once the draft is published.  Where endpoints share a
    reference this can fail, so those that are loaded or published may not. *)
Theorem secret_status_truthful f sf w0 ops e : distinct_file f ->
  let start := New windows write_fault ParseURL f sf w0 in tidy ops start ->
  let m := (history ops start).1 in ep_APIKeySource e = APIKeyStorageManual ->
  (e ∈ Endpoints (active m) -> ep_APIKeyConfigured e = negb (bool_decide (get (manual (secrets m)) (ep_APIKeyRef e) = ""))) /\
  (e ∈ Endpoints (draft m) -> ep_APIKeyConfigured e = negb (bool_decide (
     match DraftMutation (secrets m) e with
     | Some mu => if sm_Clear mu then "" else sm_Value mu
     | None => get (manual (secrets m)) (ep_APIKeyRef e)
     end = ""))).
Proof.
  intros Hd start Ht m Hs. pose proof (told_history ops start (told_New f sf w0 Hd) Ht) as Htold. fold m in Htold.
  split; intros He; [by apply (to_active _ Htold)|by apply (to_draft _ Htold)].
Qed.
End publish.

(** * Examples *)

Module ManagerDemo.
#[local] Existing Instance ascii_case.
#[local] Existing Instance ascii_lower_laws.
#[local] Existing Instance list_order.

(** The credentials [broken] cannot be read. *)
Definition vault (broken : gset string) : Wincred := map_wincred broken.

Definition world (broken : gset string) (v : gmap string string) : @World (vault broken) :=
  @Build_World (vault broken) None ∅ v 0.

Definition free : list Endpoint -> option error := fun _ => None.

(** The write of number [n] fails. *)
Definition fails_at (n k : nat) : option error := if decide (n = k) then Some "disk full" else None.
Definition never (k : nat) : option error := None.

Section linux.
#[local] Instance linux_vault : Wincred := vault ∅.
#[local] Instance linux_laws : WincredLaws := map_wincred_laws ∅.

Definition started : Manager * World := New false never Demo.url ConfigMissing StoredMissing (world ∅ ∅).

(** A first configuration, with a key for its endpoint. *)
Definition edits : list op := [OpSave Demo.typed; OpSetSecret "ep" " sk-1 " "page"].
Definition edited : Manager * World := history false never free Demo.url edits started.
Definition committed := publish false never Demo.url None edited.1 edited.2.
Definition refused := publish false (fails_at 1) Demo.url None edited.1 edited.2.

Example edited_published : committed.1.1 = Ok (active committed.1.2) /\ Revision (active committed.1.2) = 1%Z /\
  manual (secrets committed.1.2) = {["endpoint/ep" := " sk-1 "]} /\ w_secrets committed.2 = {["endpoint/ep" := " sk-1 "]}.
Proof. split_and!; vm_compute; reflexivity. Qed.
End linux.

(** On Windows: two endpoints keep their keys with the system. *)
Section windows.
Definition on_windows (id : string) : Endpoint := {|
  ep_ID := id; ep_DisplayName := id; ep_BaseURL := "https://provider.invalid/" +:+ id;
  ep_APIKeySource := APIKeyStorageWindowsCredentialManager; ep_APIKeyRef := id;
  ep_APIKeyConfigured := true; ep_Enabled := true |}.

Definition two : Configuration := with_endpoints [on_windows "a"; on_windows "b"] defaultConfiguration.

#[local] Instance windows_vault : Wincred := vault {["b"]}.

Definition two_started : Manager * World :=
  New true never Demo.url (ConfigDecoded two [] false) StoredMissing (world {["b"]} {["a" := "key-a"; "b" := "key-b"]}).
Definition dropped : Manager * World := history true never free Demo.url [OpSave defaultConfiguration] two_started.
Definition lost := publish true never Demo.url None dropped.1 dropped.2.

(** A publication that drops both clears the key of the first, cannot read that of
    the second, and fails; the first endpoint stays in force without its key. *)
Example failed_publish_loses_credential :
  lost.1.1 = Err "access denied" /\ map ep_ID (Endpoints (active lost.1.2)) = ["a"; "b"] /\
  (Resolve true (fun _ => "") (fun _ => Err "") (secrets dropped.1) (on_windows "a") dropped.2).1 = Ok "key-a" /\
  (Resolve true (fun _ => "") (fun _ => Err "") (secrets lost.1.2) (on_windows "a") lost.2).1 = Ok "".
Proof. split_and!; vm_compute; reflexivity. Qed.
End windows.
Section witnesses.
#[local] Existing Instance linux_vault.
#[local] Existing Instance linux_laws.

Example failed_publish_undone_witness :
  refused.1.1 = Err "disk full" /\ refused.1.2 = edited.1 /\ w_secrets refused.2 = ∅.
Proof.
  assert (E : publish false (fails_at 1) Demo.url None edited.1 edited.2 = (Err "disk full", refused.1.2, refused.2)) by (vm_compute; reflexivity).
  destruct (failed_publish_undone false (fails_at 1) Demo.url None edited.1 edited.2 _ _ _ E) as (Hm & _ & _ & Hs).
  split; [vm_compute; reflexivity|]. split; [exact Hm|].
  transitivity (w_secrets edited.2); [|vm_compute; reflexivity]. apply Hs; vm_compute; reflexivity.
Defined.

Example publish_commits_witness : exists e, e ∈ Endpoints (active committed.1.2) /\
  held (manual (secrets committed.1.2)) committed.2 (ep_APIKeySource e) (ep_APIKeyRef e) = " sk-1 ".
Proof.
  assert (E : publish false never Demo.url None edited.1 edited.2 = (Ok (active committed.1.2), committed.1.2, committed.2)) by (vm_compute; reflexivity).
  destruct (publish_commits false never Demo.url None edited.1 edited.2 _ _ _ E) as (_ & _ & _ & _ & _ & _ & _ & Hk & _).
  pose (e := normalize_endpoint (with_configured true Demo.endpoint)). exists e.
  assert (He : Endpoints (active committed.1.2) = [e]) by (vm_compute; reflexivity).
  assert (Hin : e ∈ Endpoints (active committed.1.2)) by (rewrite He; by left).
  split; [exact Hin|]. rewrite Hk; [vm_compute; reflexivity|exact Hin| |vm_compute; reflexivity].
  intros e' He' _ _. rewrite He in He'. apply list_elem_of_singleton in He'. by subst e'.
Defined.

Example expected_routes_witness :
  checkExpectedRouteDraft Demo.typed edited.1 = None /\ checkExpectedRouteDraft defaultConfiguration edited.1 <> None.
Proof.
  pose (m1 := (SaveDraft free Demo.url Demo.typed started.1).2).
  assert (E : SaveDraft free Demo.url Demo.typed started.1 = (None, m1)) by (vm_compute; reflexivity).
  assert (Hm : edited.1 = (history false never free Demo.url [OpSetSecret "ep" " sk-1 " "page"] (m1, started.2)).1) by (vm_compute; reflexivity).
  rewrite Hm.
  pose proof (fun x => proj1 (expected_routes false never free Demo.url Demo.typed started.1 m1
    [OpSetSecret "ep" " sk-1 " "page"] x started.2 E eq_refl)) as Hx.
  split; [apply Hx; split; vm_compute; reflexivity|]. intros Hd. apply Hx in Hd as [_ Hd].
  apply (f_equal (fun c => length c.2)) in Hd. vm_compute in Hd. discriminate Hd.
Defined.

Example secret_status_truthful_witness : exists e, e ∈ Endpoints (draft edited.1) /\ ep_APIKeyConfigured e = true /\
  ep_APIKeyConfigured e = negb (bool_decide (" sk-1 " = "")).
Proof.
  pose (e := normalize_endpoint (with_configured true Demo.endpoint)). exists e.
  assert (He : Endpoints (draft (history false never free Demo.url edits
    (New false never Demo.url ConfigMissing StoredMissing (world ∅ ∅))).1) = [e]) by (vm_compute; reflexivity).
  assert (Ht : tidy false never free Demo.url edits (New false never Demo.url ConfigMissing StoredMissing (world ∅ ∅))).
  { unfold edits. cbn [tidy]. split; [exact I|]. split; exact I. }
  destruct (secret_status_truthful false never free Demo.url ConfigMissing StoredMissing (world ∅ ∅) edits e I Ht eq_refl) as [_ Hd].
  rewrite He in Hd. specialize (Hd ltac:(by left)).
  split; [assert (Endpoints (draft edited.1) = [e]) as -> by (vm_compute; reflexivity); by left|]. split; [vm_compute; reflexivity|].
  rewrite Hd. vm_compute. reflexivity.
Defined.
Example manager_always_routes_witness :
  let m := (history false never free Demo.url (edits ++ [OpPublish None]) started).1 in
  match Resolve_ WorkloadDialogue {| sc_Platform := "qq"; sc_GroupID := "g1" |} m with
  | Ok t => exists mo e, mo ∈ Models (active m) /\ e ∈ Endpoints (active m) /\ mo_Enabled mo = true /\ ep_Enabled e = true /\
      tg_ModelID t = mo_ID mo /\ tg_UpstreamModel t = mo_UpstreamModel mo /\ mo_EndpointID mo = ep_ID e /\
      tg_EndpointID t = ep_ID e /\ tg_BaseURL t = ep_BaseURL e
  | Err e => e = ErrDisabled
  end.
Proof.
  exact (manager_always_routes false never free Demo.url ConfigMissing StoredMissing (world ∅ ∅) (edits ++ [OpPublish None])
    WorkloadDialogue {| sc_Platform := "qq"; sc_GroupID := "g1" |}).
Defined.
End witnesses.
End ManagerDemo.
