(* ===== verification/Compactor.v ===== *)
(** The scheduling of group compaction: [TriggerWithScope], [ForceCompact], the
    cool-down timers and the phases of [compact], of
    [internal/llm/group_compactor.go].

    A compaction is a goroutine that asks the model for a summary of a snapshot,
    commits it to the session and queues it for persistence.  What happens under
    the compactor's mutex, under the session's, or between two calls of the
    environment is one step; adapters, timers, jobs, persist workers and
    cancellation interleave.  A session is named by its conversation ID, under
    which the session manager keeps one.  The compactor has a file store; a
    database differs in writing the summary inside the commit. *)

From S2P Require Import Prelude GoStrings SummaryStore GroupMessage SessionState Barrier GroupCompact Persist Router.

Local Open Scope string_scope.
Local Open Scope list_scope.
Local Open Scope Z_scope.

(** * State *)

(** What a trigger is about: the session, the owner and the route. *)
Record args := { a_conv : string; a_owner : string; a_scope : Scope }.

#[export] Instance args_eq_dec : EqDecision args.
Proof. solve_decision. Defined.

(** A timer is armed until it expires; its callback then waits for the mutex. *)
Inductive timer :=
  | Armed (a : args) (due : Z)
  | Expired (a : args).
Definition timer_args (t : timer) : args := match t with Armed a _ | Expired a => a end.

(** The phases of [compact]; [Launching] is before it, after the mutex was
    released, and [Finishing] is its deferred function. *)
Inductive job_at :=
  | Launching
  | Binding
  | Asking
  | Committing (summary : string)
  | Queueing (summary : string)
  | Distilling
  | Extracting (id : option Z)
  | Finishing (succeeded retryOnFailure : bool).

Record job := {
  j_args : args;
  j_snapshot : GroupCompactSnapshot;
  j_storeGeneration : Z;
  j_onComplete : bool;
  j_at : job_at;
}.

Record Compactor := {
  provider : bool;
  model : string;
  bufferSize : Z;
  maxBufferSize : Z;
  minInterval : Z;
  retryDelay : Z;
  inflight : gset string;
  lastRun : gmap string Z;
  scheduled : gmap string Z;
  scheduledToken : gmap string Z;
  scheduledTimerSeq : gmap string Z;
}.

(** [scheduled] names a timer by its token.  [owed]: triggers whose caller has
    changed the session, or whose timer has run, and who call next.
    [started]: what was started for whom and when, whether forced, newest first.
    [notified]: the callbacks made, by job. *)
Record World := {
  comp : Compactor;
  sessions : gmap string Session;
  timers : gmap (string * Z) timer;
  jobs : gmap nat job;
  next_job : nat;
  pers : Persistence;
  owed : list args;
  started : list (string * Z * bool);
  notified : list (nat * option error);
}.

Definition with_comp (c : Compactor) (w : World) : World := {|
  comp := c; sessions := sessions w; timers := timers w; jobs := jobs w; next_job := next_job w; pers := pers w;
  owed := owed w; started := started w; notified := notified w |}.
Definition with_sessions m (w : World) : World := {|
  comp := comp w; sessions := m; timers := timers w; jobs := jobs w; next_job := next_job w; pers := pers w;
  owed := owed w; started := started w; notified := notified w |}.
Definition with_timers m (w : World) : World := {|
  comp := comp w; sessions := sessions w; timers := m; jobs := jobs w; next_job := next_job w; pers := pers w;
  owed := owed w; started := started w; notified := notified w |}.
Definition with_jobs m (w : World) : World := {|
  comp := comp w; sessions := sessions w; timers := timers w; jobs := m; next_job := next_job w; pers := pers w;
  owed := owed w; started := started w; notified := notified w |}.
Definition with_pers p (w : World) : World := {|
  comp := comp w; sessions := sessions w; timers := timers w; jobs := jobs w; next_job := next_job w; pers := p;
  owed := owed w; started := started w; notified := notified w |}.
Definition with_owed l (w : World) : World := {|
  comp := comp w; sessions := sessions w; timers := timers w; jobs := jobs w; next_job := next_job w; pers := pers w;
  owed := l; started := started w; notified := notified w |}.
Definition with_notified l (w : World) : World := {|
  comp := comp w; sessions := sessions w; timers := timers w; jobs := jobs w; next_job := next_job w; pers := pers w;
  owed := owed w; started := started w; notified := l |}.

(** The maps of timers, and those of runs, replaced. *)
Definition set_scheduled (s t q : gmap string Z) (c : Compactor) : Compactor := {|
  provider := provider c; model := model c; bufferSize := bufferSize c; maxBufferSize := maxBufferSize c;
  minInterval := minInterval c; retryDelay := retryDelay c; inflight := inflight c; lastRun := lastRun c;
  scheduled := s; scheduledToken := t; scheduledTimerSeq := q |}.
Definition set_runs (i : gset string) (l : gmap string Z) (c : Compactor) : Compactor := {|
  provider := provider c; model := model c; bufferSize := bufferSize c; maxBufferSize := maxBufferSize c;
  minInterval := minInterval c; retryDelay := retryDelay c; inflight := i; lastRun := l;
  scheduled := scheduled c; scheduledToken := scheduledToken c; scheduledTimerSeq := scheduledTimerSeq c |}.
Definition set_sizes (b m r : Z) (c : Compactor) : Compactor := {|
  provider := provider c; model := model c; bufferSize := b; maxBufferSize := m;
  minInterval := minInterval c; retryDelay := r; inflight := inflight c; lastRun := lastRun c;
  scheduled := scheduled c; scheduledToken := scheduledToken c; scheduledTimerSeq := scheduledTimerSeq c |}.

(** * Configuration *)

Definition DefaultGroupCompactBufferSize : Z := 20.
Definition DefaultGroupCompactMaxBufferSize : Z := 200.
Definition DefaultGroupCompactMinInterval : Z := 30 * second.
Definition DefaultGroupCompactRetryDelay : Z := 5 * second.

Definition NewGroupCompactor (provider : bool) (model : string) (bufferSize minInterval : Z) : Compactor :=
  let bufferSize := if bufferSize <=? 0 then DefaultGroupCompactBufferSize else bufferSize in
  let minInterval := if minInterval <=? 0 then DefaultGroupCompactMinInterval else minInterval in
  {| provider := provider; model := model; bufferSize := bufferSize;
     maxBufferSize := Z.max (bufferSize * 10) DefaultGroupCompactMaxBufferSize;
     minInterval := minInterval; retryDelay := DefaultGroupCompactRetryDelay;
     inflight := ∅; lastRun := ∅; scheduled := ∅; scheduledToken := ∅; scheduledTimerSeq := ∅ |}.

Definition SetMaxBufferSize (size : Z) (c : Compactor) : Compactor :=
  if size <=? 0 then c else
  set_sizes (bufferSize c) (if size <? bufferSize c then bufferSize c else size) (retryDelay c) c.

Definition SetBufferSize (size : Z) (c : Compactor) : Compactor :=
  if size <=? 0 then c else
  set_sizes size (if maxBufferSize c <? size then size else maxBufferSize c) (retryDelay c) c.

Definition SetRetryDelay (delay : Z) (c : Compactor) : Compactor :=
  if delay <=? 0 then c else set_sizes (bufferSize c) (maxBufferSize c) delay c.

(** * Timers *)

Definition cancelled (w : World) : bool := ctx_done (pers w).

Definition scheduleTriggerLocked (a : args) (delay now : Z) (w : World) : World :=
  let c := comp w in
  let key := a_conv a in
  if cancelled w || bool_decide (is_Some (scheduled c !! key)) then w else
  let delay := if delay <? 0 then 0 else delay in
  let token := u64_succ (default 0 (scheduledTimerSeq c !! key)) in
  with_timers (<[(key, token) := Armed a (now + delay)]> (timers w))
    (with_comp (set_scheduled (<[key := token]> (scheduled c)) (<[key := token]> (scheduledToken c))
       (<[key := token]> (scheduledTimerSeq c)) c) w).

(** A timer that was stopped after it expired still runs its callback. *)
Definition Stop (k : string * Z) (m : gmap (string * Z) timer) : gmap (string * Z) timer :=
  match m !! k with
  | Some (Armed _ _) => delete k m
  | _ => m
  end.

Definition cancelScheduledLocked (key : string) (w : World) : World :=
  let c := comp w in
  match scheduled c !! key with
  | None => w
  | Some token =>
      with_timers (Stop (key, token) (timers w))
        (with_comp (set_scheduled (delete key (scheduled c)) (delete key (scheduledToken c))
           (scheduledTimerSeq c) c) w)
  end.

Definition StopTimers (w : World) : World :=
  fold_right cancelScheduledLocked w (map fst (map_to_list (scheduled (comp w)))).

(** The callback, once it has the mutex; what it calls then is owed. *)
Definition timer_callback (key : string) (token : Z) (w : World) : World :=
  match timers w !! (key, token) with
  | Some (Expired a) =>
      let w := with_timers (delete (key, token) (timers w)) w in
      let c := comp w in
      if negb (default 0 (scheduledToken c !! key) =? token) then w else
      with_owed (a :: owed w)
        (with_comp (set_scheduled (delete key (scheduled c)) (delete key (scheduledToken c))
           (scheduledTimerSeq c) c) w)
  | _ => w
  end.

Definition expire (key : string) (token now : Z) (w : World) : World :=
  match timers w !! (key, token) with
  | Some (Armed a due) => if now <? due then w else with_timers (<[(key, token) := Expired a]> (timers w)) w
  | _ => w
  end.

(** * Starting a compaction *)

Definition millisecond5 : Z := 5 * millisecond.

(** The end of both critical sections that start one. *)
Definition start_job (a : args) (snapshot : GroupCompactSnapshot) (forced cb : bool) (now : Z) (w : World) : World :=
  let key := a_conv a in
  let w := cancelScheduledLocked key w in
  let c := comp w in
  {| comp := set_runs ({[key]} ∪ inflight c) (<[key := now]> (lastRun c)) c;
     sessions := sessions w; timers := timers w;
     jobs := <[next_job w := {| j_args := a; j_snapshot := snapshot; j_storeGeneration := 0;
                                j_onComplete := cb; j_at := Launching |}]> (jobs w);
     next_job := S (next_job w); pers := pers w; owed := owed w;
     started := (key, now, forced) :: started w; notified := notified w |}.

Definition TriggerWithScope (a : args) (now : Z) (w : World) : World :=
  let c := comp w in
  let key := a_conv a in
  match sessions w !! key with
  | None => w
  | Some session =>
      if negb (provider c) || bool_decide (model c = "") || bool_decide (a_owner a = "") then w else
      if cancelled w || bool_decide (key ∈ inflight c) then w else
      let cooling := match lastRun c !! key with
                     | Some t => time_sub now t + millisecond5 <? minInterval c
                     | None => false
                     end in
      if cooling then
        if GroupCompactReady (bufferSize c) session && negb (bool_decide (is_Some (scheduled c !! key)))
        then let elapsed := time_sub now (default 0 (lastRun c !! key)) in
             scheduleTriggerLocked a (minInterval c - elapsed + millisecond5) now w
        else w
      else
        match SnapshotGroupCompact (bufferSize c) session with
        | None => w
        | Some snapshot => start_job a snapshot false false now w
        end
  end.

Definition ErrAlreadyCompacting : error := "压缩正在进行中，请勿重复触发。".
Definition ErrNothingToCompact : error := "当前没有需要压缩的消息。".

Definition ForceCompact (a : args) (onComplete : bool) (now : Z) (w : World) : option error * World :=
  let c := comp w in
  let key := a_conv a in
  match sessions w !! key with
  | None => (Some "group compactor unavailable", w)
  | Some session =>
      if negb (provider c) || bool_decide (model c = "") || bool_decide (a_owner a = "")
      then (Some "group compactor unavailable", w) else
      if cancelled w then (Some "context canceled", w) else
      if bool_decide (key ∈ inflight c) then (Some ErrAlreadyCompacting, w) else
      match SnapshotGroupCompact 1 session with
      | None => (Some ErrNothingToCompact, w)
      | Some snapshot => (None, start_job a snapshot true onComplete now w)
      end
  end.

Definition IsCompacting (conversationID : string) (w : World) : bool :=
  bool_decide (conversationID ∈ inflight (comp w)).

(** * The phases of a compaction *)

(** What the environment answers: opening the group's memory store, the model's
    answer (its content, when that is text), whether there is a memory writer,
    and what extracting memories gave, with whether the storage is gone. *)
Record env := {
  e_bind : option error;
  e_answer : res error (option string);
  e_writer : bool;
  e_extract : option (error * bool);
  e_now : Z;
}.

Definition groupID_of (a : args) : string :=
  if decide (sc_GroupID (a_scope a) = "")
  then default "" (CutPrefix (a_owner a) "group:") else sc_GroupID (a_scope a).

(** Without a group there is no store to open. *)
Definition bindGroupStore (a : args) (e : env) : option error :=
  if decide (groupID_of a = "") then None else e_bind e.

Definition at_phase (at_ : job_at) (j : job) : job := {|
  j_args := j_args j; j_snapshot := j_snapshot j; j_storeGeneration := j_storeGeneration j;
  j_onComplete := j_onComplete j; j_at := at_ |}.

Definition move_job (id : nat) (j : job) (at_ : job_at) (w : World) : World :=
  with_jobs (<[id := at_phase at_ j]> (jobs w)) w.

(** [onComplete(err)], then the deferred function. *)
Definition complete (id : nat) (j : job) (err : option error) (succeeded retry : bool) (w : World) : World :=
  let w := if j_onComplete j then with_notified ((id, err) :: notified w) w else w in
  move_job id j (Finishing succeeded retry) w.

Definition cancel_scope (w : World) : World := with_pers (do_event (pers w) CancelScope) w.

(** The delay before the next trigger. *)
Definition finish_delay (succeeded : bool) (sinceLast : Z) (c : Compactor) : Z :=
  let cooldown := minInterval c - sinceLast in
  let delay := if succeeded then cooldown else Z.max (retryDelay c) cooldown in
  if 0 <? delay then delay + millisecond5 else delay.

Definition finish_job (id : nat) (j : job) (succeeded retry : bool) (now : Z) (w : World) : World :=
  let a := j_args j in
  let key := a_conv a in
  let c := comp w in
  let w := with_jobs (delete id (jobs w))
             (with_comp (set_runs (inflight c ∖ {[key]}) (lastRun c) c) w) in
  let ready := match sessions w !! key with Some s => GroupCompactReady (bufferSize c) s | None => false end in
  if (succeeded || retry) && ready && negb (bool_decide (is_Some (scheduled c !! key)))
  then scheduleTriggerLocked a (finish_delay succeeded (time_sub now (default 0 (lastRun c !! key))) c) now w
  else w.

(** [distillGroupMemories], up to the registration of its barrier. *)
Definition distill_step (id : nat) (j : job) (e : env) (w : World) : World :=
  let a := j_args j in
  if decide (snap_Messages (j_snapshot j) = []) then complete id j None true true w else
  if decide (groupID_of a = "") then complete id j None true true w else
  match bindGroupStore a e with
  | Some _ => complete id j None true true w
  | None =>
      if negb (e_writer e) then complete id j None true true w else
      match sessions w !! a_conv a with
      | None => w
      | Some s =>
          let '(bid, s) := BeginGroupDistillation (j_snapshot j) s in
          move_job id j (Extracting bid) (with_sessions (<[a_conv a := s]> (sessions w)) w)
      end
  end.

(** ... and from what the extraction gave to its clean-up. *)
Definition extract_step (id : nat) (j : job) (bid : option Z) (e : env) (w : World) : World :=
  let key := a_conv (j_args j) in
  match sessions w !! key with
  | None => w
  | Some s =>
      let s := match bid with Some b => EndGroupDistillation b s | None => s end in
      let w := with_sessions (<[key := s]> (sessions w)) w in
      let w := match e_extract e with Some (_, true) => cancel_scope w | _ => w end in
      complete id j None true true w
  end.

Definition job_step (id : nat) (e : env) (w : World) : World :=
  match jobs w !! id with
  | None => w
  | Some j =>
      let a := j_args j in
      let key := a_conv a in
      match j_at j with
      | Launching =>
          if cancelled w then with_jobs (delete id (jobs w)) w else
          let j := {| j_args := a; j_snapshot := j_snapshot j;
                      j_storeGeneration := Generation (a_owner a) (p_store (pers w));
                      j_onComplete := j_onComplete j; j_at := Binding |} in
          with_jobs (<[id := j]> (jobs w)) w
      | Binding =>
          match bindGroupStore a e with
          | Some err => complete id j (Some err) false false w
          | None => move_job id j Asking w
          end
      | Asking =>
          match e_answer e with
          | Err err => complete id j (Some err) false true w
          | Ok content =>
              let summary := TrimSpace (default "" content) in
              if decide (summary = "")
              then complete id j (Some "empty summary returned") false true w
              else move_job id j (Committing summary) w
          end
      | Committing summary =>
          match sessions w !! key with
          | None => w
          | Some s =>
              let '((committed, persistErr), s) :=
                CommitGroupCompactWithPersistence (j_snapshot j) summary None (e_now e) s in
              let w := with_sessions (<[key := s]> (sessions w)) w in
              match persistErr with
              | Some err => complete id j (Some ("persist group summary: " +:+ err)) false false (cancel_scope w)
              | None =>
                  if negb committed
                  then complete id j (Some "compaction aborted due to session reset or change") false true w
                  else move_job id j (Queueing summary) w
              end
          end
      | Queueing summary =>
          move_job id j Distilling
            (with_pers (queuePersistence (a_owner a) summary (j_storeGeneration j) (pers w)) w)
      | Distilling => distill_step id j e w
      | Extracting bid => extract_step id j bid e w
      | Finishing succeeded retry => finish_job id j succeeded retry (e_now e) w
      end
  end.

(** * Interleavings *)

Section runs.
Context `{UnicodeCase} (purge : option (string -> option string)).

(** A caller that changes a session's buffer says whether it triggers next. *)
Inductive wevent :=
  | Change (key : string) (op : compact_op) (trigger : option args)
  | Trigger (a : args) (now : Z)
  | Force (a : args) (onComplete : bool) (now : Z)
  | Expire (key : string) (token now : Z)
  | Callback (key : string) (token : Z)
  | Job (id : nat) (e : env)
  | Persisting (e : event)
  | Stopping
  | SetMax (size : Z)
  | SetSize (size : Z)
  | SetRetry (delay : Z).

Fixpoint remove_one (a : args) (l : list args) : list args :=
  match l with
  | [] => []
  | b :: l => if decide (a = b) then l else b :: remove_one a l
  end.

Definition world_step (w : World) (e : wevent) : World :=
  match e with
  | Change key op trigger =>
      match sessions w !! key with
      | None => w
      | Some s =>
          let w := with_sessions (<[key := compact_step purge s op]> (sessions w)) w in
          match trigger with Some a => with_owed (a :: owed w) w | None => w end
      end
  | Trigger a now => TriggerWithScope a now (with_owed (remove_one a (owed w)) w)
  | Force a cb now => (ForceCompact a cb now w).2
  | Expire key token now => expire key token now w
  | Callback key token => timer_callback key token w
  | Job id e => job_step id e w
  | Persisting e => with_pers (do_event (pers w) e) w
  | Stopping => StopTimers w
  | SetMax size => with_comp (SetMaxBufferSize size (comp w)) w
  | SetSize size => with_comp (SetBufferSize size (comp w)) w
  | SetRetry delay => with_comp (SetRetryDelay delay (comp w)) w
  end.

Definition run_world (w : World) (es : list wevent) : World := fold_left world_step es w.
End runs.

Definition new_world (c : Compactor) (m : gmap string Session) (s : Store) : World := {|
  comp := c; sessions := m; timers := ∅; jobs := ∅; next_job := 0; pers := start s; owed := []; started := [];
  notified := [] |}.

(** * Single flight *)

Section sound.

Definition finishing (j : job) : bool := match j_at j with Finishing _ _ => true | _ => false end.

(** How often a job's callback was called. *)
Definition notices (id : nat) (w : World) : nat := length (filter (fun p => p.1 = id) (notified w)).

Record sound (w : World) : Prop := {
  so_ids id j : jobs w !! id = Some j -> (id < next_job w)%nat;
  so_inflight id j : jobs w !! id = Some j -> a_conv (j_args j) ∈ inflight (comp w);
  so_unique i j i' j' : jobs w !! i = Some j -> jobs w !! i' = Some j' ->
    a_conv (j_args j) = a_conv (j_args j') -> i = i';
  so_running key : key ∈ inflight (comp w) ->
    cancelled w = true \/ exists id j, jobs w !! id = Some j /\ a_conv (j_args j) = key;
  so_args k t : timers w !! k = Some t -> a_conv (timer_args t) = k.1;
  so_timer key token : scheduled (comp w) !! key = Some token ->
    scheduledToken (comp w) !! key = Some token /\ is_Some (timers w !! (key, token));
  so_live id j : jobs w !! id = Some j -> notices id w = if j_onComplete j && finishing j then 1%nat else 0%nat;
  so_notices id : (notices id w <= 1)%nat /\ ((next_job w <= id)%nat -> notices id w = 0%nat);
}.

Lemma new_world_sound provider model size interval m s :
  sound (new_world (NewGroupCompactor provider model size interval) m s).
Proof.
  constructor; cbn; intros *; rewrite ?lookup_empty; try done.
  unfold notices. cbn. split; [lia|done].
Qed.

(** What keeps the jobs, the runs and the notices keeps all but the timers. *)
Record same_runs (w w' : World) : Prop := {
  sr_jobs : jobs w' = jobs w;
  sr_next : next_job w' = next_job w;
  sr_inflight : inflight (comp w') = inflight (comp w);
  sr_cancelled : cancelled w = true -> cancelled w' = true;
  sr_notified : notified w' = notified w;
}.

#[local] Instance same_runs_refl : Reflexive same_runs.
Proof. by constructor. Qed.

Lemma same_runs_sound w w' : sound w -> same_runs w w' ->
  (forall k t, timers w' !! k = Some t -> a_conv (timer_args t) = k.1) ->
  (forall key token, scheduled (comp w') !! key = Some token ->
    scheduledToken (comp w') !! key = Some token /\ is_Some (timers w' !! (key, token))) -> sound w'.
Proof.
  intros Hs [E1 E2 E3 E4 E5] Ha Ht. constructor; rewrite ?E1, ?E2, ?E3; try done; try apply Hs.
  - intros key Hk. destruct (so_running w Hs key Hk); auto.
  - unfold notices. rewrite E5. apply Hs.
  - intros id. unfold notices. rewrite E5. apply (so_notices w Hs).
Qed.

(** ... and what keeps the timers too keeps everything. *)
Lemma same_timers_sound w w' : sound w -> same_runs w w' -> timers w' = timers w ->
  scheduled (comp w') = scheduled (comp w) -> scheduledToken (comp w') = scheduledToken (comp w) -> sound w'.
Proof.
  intros Hs Hr E1 E2 E3. apply (same_runs_sound w); [done..|rewrite E1; apply Hs|].
  rewrite E1, E2, E3. apply Hs.
Qed.

Lemma schedule_sound a delay now w : sound w -> sound (scheduleTriggerLocked a delay now w).
Proof.
  intros Hs. unfold scheduleTriggerLocked. destruct (_ || _); [done|].
  apply (same_runs_sound w); [done|by constructor|..]; cbn.
  - intros k t [[<- <-]|[_ Ht]]%lookup_insert_Some; [done|by apply (so_args w Hs)].
  - intros key token [[<- <-]|[Hne Ht]]%lookup_insert_Some; [by rewrite !lookup_insert_eq|].
    destruct (so_timer w Hs key token Ht) as [E1 E2].
    rewrite lookup_insert_ne by done. split; [done|]. rewrite lookup_insert_ne by congruence. done.
Qed.

Lemma Stop_lookup k m k' t : Stop k m !! k' = Some t -> m !! k' = Some t.
Proof. unfold Stop. repeat case_match; try done. by intros [_ ?]%lookup_delete_Some. Qed.
Lemma Stop_lookup_ne k m k' : k <> k' -> Stop k m !! k' = m !! k'.
Proof. intros Hne. unfold Stop. repeat case_match; try done. by rewrite lookup_delete_ne. Qed.

Lemma cancelScheduled_same_runs key w : same_runs w (cancelScheduledLocked key w).
Proof. unfold cancelScheduledLocked. case_match; by constructor. Qed.

Lemma cancelScheduled_sound key w : sound w -> sound (cancelScheduledLocked key w).
Proof.
  intros Hs. apply (same_runs_sound w); [done|apply cancelScheduled_same_runs|..];
    unfold cancelScheduledLocked; destruct (scheduled (comp w) !! key) as [token|] eqn:E; cbn; try apply Hs.
  - intros k t Ht%Stop_lookup. by apply (so_args w Hs).
  - intros key' token' [Hne Ht]%lookup_delete_Some. destruct (so_timer w Hs key' token' Ht) as [E1 E2].
    rewrite lookup_delete_ne by done. split; [done|]. rewrite Stop_lookup_ne by congruence. done.
Qed.

Lemma StopTimers_sound w : sound w -> sound (StopTimers w).
Proof.
  intros Hs. unfold StopTimers. induction (map fst _) as [|k l IH]; cbn; [done|]. by apply cancelScheduled_sound.
Qed.

Lemma callback_sound key token w : sound w -> sound (timer_callback key token w).
Proof.
  intros Hs. unfold timer_callback. destruct (timers w !! (key, token)) as [[|a]|] eqn:Et; [done| |done]. cbn zeta.
  cbn [comp with_timers]. destruct (Z.eqb_spec (default 0 (scheduledToken (comp w) !! key)) token) as [E|E]; cbn [negb].
  - apply (same_runs_sound w); [done|by constructor|..]; cbn.
    + intros k t [_ Ht]%lookup_delete_Some. by apply (so_args w Hs).
    + intros key' token' [Hne Ht]%lookup_delete_Some. destruct (so_timer w Hs key' token' Ht) as [E1 E2].
      rewrite !lookup_delete_ne by congruence. done.
  - apply (same_runs_sound w); [done|by constructor|..]; cbn.
    + intros k t [_ Ht]%lookup_delete_Some. by apply (so_args w Hs).
    + intros key' token' Ht. destruct (so_timer w Hs key' token' Ht) as [E1 E2]. split; [done|].
      rewrite lookup_delete_ne; [done|]. intros [= <- <-]. by rewrite E1 in E.
Qed.

Lemma expire_sound key token now w : sound w -> sound (expire key token now w).
Proof.
  intros Hs. unfold expire. destruct (timers w !! (key, token)) as [[a due|]|] eqn:Et; [|done..].
  destruct (now <? due); [done|]. apply (same_runs_sound w); [done|by constructor|..]; cbn.
  - intros k t [[<- <-]|[_ Ht]]%lookup_insert_Some; [apply (so_args w Hs _ _ Et)|by apply (so_args w Hs)].
  - intros key' token' Ht. destruct (so_timer w Hs key' token' Ht) as [E1 E2]. split; [done|].
    destruct (decide ((key, token) = (key', token'))) as [->|Hne]; [by rewrite lookup_insert_eq|].
    by rewrite lookup_insert_ne.
Qed.

Lemma start_job_sound a snap forced cb now w : sound w -> a_conv a ∉ inflight (comp w) ->
  sound (start_job a snap forced cb now w).
Proof.
  intros Hs0 Hni0. unfold start_job. pose proof (cancelScheduled_sound (a_conv a) w Hs0) as Hs.
  assert (Hni : a_conv a ∉ inflight (comp (cancelScheduledLocked (a_conv a) w)))
    by (by rewrite (sr_inflight _ _ (cancelScheduled_same_runs (a_conv a) w))).
  set (w1 := cancelScheduledLocked (a_conv a) w) in *.
  assert (Hno : forall i j, jobs w1 !! i = Some j -> a_conv (j_args j) <> a_conv a).
  { intros i j Hj E. apply Hni. rewrite <- E. by eapply so_inflight. }
  assert (Hnew : forall i j, jobs w1 !! i = Some j -> i <> next_job w1).
  { intros i j Hj ->. apply (so_ids w1 Hs) in Hj. lia. }
  constructor; cbn.
  - intros i j [[<- <-]|[_ Hj]]%lookup_insert_Some; [lia|]. apply (so_ids w1 Hs) in Hj. lia.
  - intros i j [[<- <-]|[_ Hj]]%lookup_insert_Some; cbn; [set_solver|]. apply (so_inflight w1 Hs) in Hj. set_solver.
  - intros i j i' j' [[<- <-]|[_ Hj]]%lookup_insert_Some [[<- <-]|[_ Hj']]%lookup_insert_Some; cbn; intros E;
      [done|by destruct (Hno _ _ Hj')|by destruct (Hno _ _ Hj)|by eapply (so_unique w1 Hs)].
  - intros key [->%elem_of_singleton|Hk]%elem_of_union.
    { right. eexists _, _. rewrite lookup_insert_eq. by split. }
    destruct (so_running w1 Hs key Hk) as [?|(i & j & Hj & E)]; [by left|right]. exists i, j.
    rewrite lookup_insert_ne; [done|]. intros E'. by apply (Hnew i j).
  - apply Hs.
  - apply Hs.
  - intros i j [[<- <-]|[_ Hj]]%lookup_insert_Some; [|by apply (so_live w1 Hs)]. cbn. rewrite andb_false_r.
    by apply (so_notices w1 Hs).
  - intros i. split; [apply (so_notices w1 Hs)|]. intros Hi. apply (so_notices w1 Hs). lia.
Qed.

(** A job that moves on, with or without its callback being called. *)
Lemma put_job_sound id j j' w w' : sound w -> jobs w !! id = Some j ->
  jobs w' = <[id := j']> (jobs w) -> j_args j' = j_args j -> j_onComplete j' = j_onComplete j ->
  finishing j = false -> comp w' = comp w -> timers w' = timers w -> next_job w' = next_job w ->
  (cancelled w = true -> cancelled w' = true) ->
  (if j_onComplete j && finishing j' then exists err, notified w' = (id, err) :: notified w else notified w' = notified w) ->
  sound w'.
Proof.
  intros Hs Hj E1 E2 E3 Hf Ec Et En Hc Hn.
  assert (Hl : forall i k, jobs w' !! i = Some k -> exists k0, jobs w !! i = Some k0 /\ j_args k = j_args k0).
  { intros i k. rewrite E1. intros [[<- <-]|[_ Hk]]%lookup_insert_Some; eauto. }
  assert (Hnot : forall i, notices i w' = ((if decide (i = id) then (if j_onComplete j && finishing j' then 1 else 0) else 0) + notices i w)%nat).
  { intros i. unfold notices. destruct (j_onComplete j && finishing j'); [destruct Hn as [err ->]|rewrite Hn; by case_decide].
    rewrite filter_cons. cbn. repeat case_decide; try done; congruence. }
  pose proof (so_live w Hs id j Hj) as Hlive. rewrite Hf, andb_false_r in Hlive.
  constructor; rewrite ?Ec, ?Et, ?En.
  - intros i k (k0 & Hk & _)%Hl. by apply (so_ids w Hs) in Hk.
  - intros i k (k0 & Hk & ->)%Hl. by apply (so_inflight w Hs) in Hk.
  - intros i k i' k' (k0 & Hk & ->)%Hl (k0' & Hk' & ->)%Hl. by eapply (so_unique w Hs).
  - intros key Hk. destruct (so_running w Hs key Hk) as [?|(i & k & Hk' & E)]; [by left; apply Hc|right].
    rewrite E1. destruct (decide (i = id)) as [->|Hne].
    + exists id, j'. rewrite lookup_insert_eq. split; [done|]. rewrite E2. congruence.
    + exists i, k. by rewrite lookup_insert_ne.
  - apply Hs.
  - apply Hs.
  - intros i k. rewrite E1, Hnot. intros [[<- <-]|[Hne Hk]]%lookup_insert_Some.
    + rewrite decide_True by done. rewrite Hlive, E3. lia.
    + rewrite decide_False by done. by apply (so_live w Hs) in Hk.
  - intros i. rewrite Hnot. destruct (so_notices w Hs i) as [H1 H2]. case_decide as E; [|by split].
    subst i. rewrite Hlive. split; [destruct (_ && _); lia|]. intros Hge. apply (so_ids w Hs) in Hj. lia.
Qed.

Lemma move_job_sound id j at_ w w0 : sound w -> jobs w !! id = Some j -> finishing j = false ->
  (forall su re, at_ <> Finishing su re) -> same_runs w w0 -> comp w0 = comp w -> timers w0 = timers w ->
  sound (move_job id j at_ w0).
Proof.
  intros Hs Hj Hf Hat [E1 E2 E3 E4 E5] Ec Et. apply (put_job_sound id j (at_phase at_ j) w); try done; cbn; rewrite ?E1; try done.
  unfold finishing. cbn. destruct at_ as [| | |sm|sm| |bid|su re]; try by rewrite andb_false_r. by destruct (Hat su re).
Qed.

Lemma complete_sound id j err su re w w0 : sound w -> jobs w !! id = Some j -> finishing j = false ->
  same_runs w w0 -> comp w0 = comp w -> timers w0 = timers w -> sound (complete id j err su re w0).
Proof.
  intros Hs Hj Hf [E1 E2 E3 E4 E5] Ec Et. unfold complete.
  destruct (j_onComplete j) eqn:Ecb; apply (put_job_sound id j (at_phase (Finishing su re) j) w); try done;
    cbn; rewrite ?E1, ?Ecb; try done; cbn. rewrite E5. eauto.
Qed.

(** A job that ends. *)
Lemma drop_job_sound id j w w' : sound w -> jobs w !! id = Some j -> jobs w' = delete id (jobs w) ->
  next_job w' = next_job w -> timers w' = timers w -> notified w' = notified w ->
  (cancelled w = true -> cancelled w' = true) ->
  scheduled (comp w') = scheduled (comp w) -> scheduledToken (comp w') = scheduledToken (comp w) ->
  inflight (comp w') = inflight (comp w) ∖ {[a_conv (j_args j)]} \/ inflight (comp w') = inflight (comp w) /\ cancelled w = true ->
  sound w'.
Proof.
  intros Hs Hj Ej En Et Eno Hc E1 E2 Hi.
  assert (Hne : forall i k, i <> id -> jobs w !! i = Some k -> a_conv (j_args k) <> a_conv (j_args j)).
  { intros i k Hik Hk E. apply Hik. by eapply (so_unique w Hs). }
  constructor; rewrite ?Ej, ?En, ?Et, ?E1, ?E2.
  - intros i k [_ Hk]%lookup_delete_Some. by apply (so_ids w Hs) in Hk.
  - intros i k [Hik Hk]%lookup_delete_Some. pose proof (so_inflight w Hs i k Hk).
    assert (a_conv (j_args k) <> a_conv (j_args j)) by (by eapply Hne). destruct Hi as [->|[-> _]]; set_solver.
  - intros i k i' k' [_ Hk]%lookup_delete_Some [_ Hk']%lookup_delete_Some. by eapply (so_unique w Hs).
  - intros key Hk. assert (Hk0 : key ∈ inflight (comp w)) by (destruct Hi as [E|[E _]]; rewrite E in Hk; set_solver).
    destruct (so_running w Hs key Hk0) as [?|(i & k & Hk' & E)]; [by left; apply Hc|].
    destruct Hi as [Ei|[_ ?]]; [|by left; apply Hc]. right. exists i, k. rewrite lookup_delete_ne; [done|].
    intros <-. rewrite Ei in Hk. rewrite Hj in Hk'. injection Hk' as ->. set_solver.
  - apply Hs.
  - apply Hs.
  - intros i k [_ Hk]%lookup_delete_Some. unfold notices. rewrite Eno. by apply (so_live w Hs).
  - intros i. unfold notices. rewrite Eno. apply (so_notices w Hs).
Qed.

Lemma finish_job_sound id j su re now w : sound w -> jobs w !! id = Some j -> sound (finish_job id j su re now w).
Proof.
  intros Hs Hj. unfold finish_job. cbn zeta.
  set (w1 := with_jobs _ _). assert (H1 : sound w1) by (eapply (drop_job_sound id j w); eauto).
  destruct (_ && _); [by apply schedule_sound|done].
Qed.

Lemma do_event_cancelled c e : ctx_done c = true -> ctx_done (do_event c e) = true.
Proof.
  intros Hc. destruct e as [owner summary g|owner clean d|id_ d why|]; cbn [do_event]; [..|done].
  - unfold queuePersistence, start_worker, wake. repeat case_match; cbn in *; congruence.
  - unfold RollbackPersistence. case_decide; [done|]. cbn zeta.
    unfold start_worker, wake. repeat case_match; cbn in *; congruence.
  - unfold worker_step, move. repeat case_match; cbn in *; congruence.
Qed.

Lemma job_step_sound id e w : sound w -> sound (job_step id e w).
Proof.
  intros Hs. unfold job_step, distill_step, extract_step. destruct (jobs w !! id) as [j|] eqn:Hj; [|done].
  destruct (j_at j) as [| | |sm|sm| |bid|su re] eqn:Hat;
    try (assert (Hf : finishing j = false) by (unfold finishing; by rewrite Hat)).
  - destruct (cancelled w) eqn:Hc.
    + apply (drop_job_sound id j w); try done. by right.
    + by eapply (put_job_sound id j); try done; rewrite andb_false_r.
  - destruct (bindGroupStore (j_args j) e); [by apply complete_sound with w|by apply move_job_sound with w].
  - destruct (e_answer e) as [content|err]; [|by apply complete_sound with w]. case_decide.
    + by apply complete_sound with w.
    + by apply move_job_sound with w.
  - destruct (sessions w !! _) as [s|]; [|done].
    destruct (CommitGroupCompactWithPersistence _ _ _ _ _) as [[committed [err|]] s'].
    + apply complete_sound with w; first [done|by constructor].
    + destruct committed; cbn [negb]; [apply move_job_sound with w|apply complete_sound with w]; first [done|by constructor].
  - apply move_job_sound with w; try done. constructor; try done. unfold cancelled. cbn.
    by apply (do_event_cancelled _ (Queue (a_owner (j_args j)) sm (j_storeGeneration j))).
  - repeat case_decide; try by apply complete_sound with w.
    destruct (bindGroupStore (j_args j) e); [by apply complete_sound with w|].
    destruct (e_writer e); cbn [negb]; [|by apply complete_sound with w].
    destruct (sessions w !! _) as [s|]; [|done].
    destruct (BeginGroupDistillation _ s) as [bid s']. apply move_job_sound with w; first [done|by constructor].
  - destruct (sessions w !! _) as [s|]; [|done]. destruct (e_extract e) as [[err []]|];
      apply complete_sound with w; first [done|by constructor].
  - by apply finish_job_sound.
Qed.

Lemma TriggerWithScope_sound a now w : sound w -> sound (TriggerWithScope a now w).
Proof.
  intros Hs. unfold TriggerWithScope. destruct (sessions w !! a_conv a) as [s|]; [|done].
  destruct (negb _ || _ || _); [done|].
  destruct (cancelled w); [done|]. destruct (bool_decide (a_conv a ∈ inflight (comp w))) eqn:Hi; [done|]. cbn [orb].
  apply bool_decide_eq_false in Hi. cbn zeta. destruct (match lastRun (comp w) !! a_conv a with Some _ => _ | None => _ end).
  - destruct (_ && _); [by apply schedule_sound|done].
  - destruct (SnapshotGroupCompact _ s); [by apply start_job_sound|done].
Qed.

Lemma ForceCompact_sound a cb now w : sound w -> sound (ForceCompact a cb now w).2.
Proof.
  intros Hs. unfold ForceCompact. destruct (sessions w !! a_conv a) as [s|]; [|done].
  destruct (negb _ || _ || _); [done|]. destruct (cancelled w); [done|].
  destruct (bool_decide (a_conv a ∈ inflight (comp w))) eqn:Hi; [done|].
  apply bool_decide_eq_false in Hi. destruct (SnapshotGroupCompact 1 s); [by apply start_job_sound|done].
Qed.

Lemma world_step_sound `{UnicodeCase} purge w e : sound w -> sound (world_step purge w e).
Proof.
  intros Hs. destruct e as [key op trig|a now|a cb now|key token now|key token|id e|e| |size|size|delay]; cbn [world_step].
  - destruct (sessions w !! key) as [s|]; [|done]. destruct trig; apply (same_timers_sound w); first [done|by constructor].
  - apply TriggerWithScope_sound, (same_timers_sound w); first [done|by constructor].
  - by apply ForceCompact_sound.
  - by apply expire_sound.
  - by apply callback_sound.
  - by apply job_step_sound.
  - apply (same_timers_sound w); try done. constructor; try done. apply do_event_cancelled.
  - by apply StopTimers_sound.
  - unfold SetMaxBufferSize. destruct (size <=? 0); apply (same_timers_sound w); first [done|by constructor].
  - unfold SetBufferSize. destruct (size <=? 0); apply (same_timers_sound w); first [done|by constructor].
  - unfold SetRetryDelay. destruct (delay <=? 0); apply (same_timers_sound w); first [done|by constructor].
Qed.

Lemma run_world_sound `{UnicodeCase} purge w es : sound w -> sound (run_world purge w es).
Proof. revert w. induction es as [|e es IH]; intros w Hs; [done|]. cbn. by apply IH, world_step_sound. Qed.
End sound.

(** * A full batch is never forgotten *)

Section awake.
Context `{UnicodeCase} (purge : option (string -> option string)).

(** Something will compact the conversation: a running compaction, a timer, or
    a trigger on its way. *)
Definition expected (key : string) (w : World) : Prop :=
  cancelled w = true \/ key ∈ inflight (comp w) \/ is_Some (scheduled (comp w) !! key) \/
  exists a, a ∈ owed w /\ a_conv a = key /\ a_owner a <> "".

Definition ready (key : string) (w : World) : bool :=
  match sessions w !! key with Some s => GroupCompactReady (bufferSize (comp w)) s | None => false end.

Record awake (w : World) : Prop := {
  aw_provider : provider (comp w) = true;
  aw_model : model (comp w) <> "";
  aw_size : 0 < bufferSize (comp w);
  aw_job id j : jobs w !! id = Some j -> a_owner (j_args j) <> "";
  aw_timer k t : timers w !! k = Some t -> a_owner (timer_args t) <> "";
  aw_retry id j su re : jobs w !! id = Some j -> j_at j = Finishing su re -> su || re = true;
  aw_ready key : ready key w = true -> expected key w;
}.

(** What callers and the environment owe: whoever makes a batch full triggers
    next, with an owner; the batch size does not shrink; timers are stopped only
    once the scope is cancelled; the group's memory store opens. *)
Definition proper (w : World) (e : wevent) : Prop :=
  match e with
  | Change key op trigger =>
      match trigger with
      | Some a => a_conv a = key /\ a_owner a <> ""
      | None => ready key (world_step purge w e) = true -> ready key w = true
      end
  | SetSize size => size <= 0 \/ bufferSize (comp w) <= size
  | Stopping => cancelled w = true
  | Job _ e => e_bind e = None
  | _ => True
  end.

Fixpoint propers (w : World) (es : list wevent) : Prop :=
  match es with [] => True | e :: es => proper w e /\ propers (world_step purge w e) es end.

Lemma ready_snapshot n s : GroupCompactReady n s = true <-> is_Some (SnapshotGroupCompact n s).
Proof.
  unfold GroupCompactReady, SnapshotGroupCompact. rewrite andb_true_iff, Z.ltb_lt, Z.leb_le.
  assert (Hl : (length (eligible_items (compact s)) <= length (groupCompactBuffer (compact s)))%nat).
  { unfold eligible_items. rewrite <- (take_drop_while (fun i => negb (staged i)) (groupCompactBuffer (compact s))) at 2.
    rewrite length_app. lia. }
  destruct (Z.leb_spec n 0); cbn [orb]; [split; [lia|by intros []]|].
  destruct (Z.ltb_spec (Z.of_nat (length (groupCompactBuffer (compact s)))) n); [split; [lia|by intros []]|].
  destruct (Z.ltb_spec (Z.of_nat (length (eligible_items (compact s)))) n); [split; [lia|by intros []]|].
  split; [eauto|lia].
Qed.

Lemma ready_larger n m s : n <= m -> GroupCompactReady m s = true -> 0 < n -> GroupCompactReady n s = true.
Proof. unfold GroupCompactReady. rewrite !andb_true_iff, !Z.ltb_lt, !Z.leb_le. lia. Qed.

(** What an operation that starts nothing may change. *)
Lemma awake_kept w w' : awake w ->
  provider (comp w') = provider (comp w) -> model (comp w') = model (comp w) ->
  (0 < bufferSize (comp w) -> 0 < bufferSize (comp w')) ->
  (forall id j, jobs w' !! id = Some j -> exists j0, jobs w !! id = Some j0 /\ j_args j = j_args j0 /\
     forall su re, j_at j = Finishing su re -> j_at j0 = Finishing su re \/ su || re = true) ->
  (forall k t, timers w' !! k = Some t -> a_owner (timer_args t) <> "") ->
  (forall key, ready key w' = true -> (ready key w = true -> expected key w) -> expected key w') -> awake w'.
Proof.
  intros [A B S C D E F] E1 E2 Es Hj Ht Hr. constructor; rewrite ?E1, ?E2; try done.
  - by apply Es.
  - intros id j (j0 & Hj0 & -> & _)%Hj. by eapply C.
  - intros id j su re (j0 & Hj0 & _ & Hf)%Hj Hat. destruct (Hf su re Hat) as [?|?]; [by eapply E|done].
  - intros key Hk. by apply Hr; [|apply F].
Qed.

Lemma expected_mono w w' key : (cancelled w = true -> cancelled w' = true) ->
  (key ∈ inflight (comp w) -> key ∈ inflight (comp w')) ->
  (is_Some (scheduled (comp w) !! key) -> is_Some (scheduled (comp w') !! key)) ->
  (forall a, a ∈ owed w -> a ∈ owed w') -> expected key w -> expected key w'.
Proof. intros A B C D [?|[?|[?|(a & ? & ? & ?)]]]; unfold expected; eauto 10. Qed.

(** Scheduling leaves the conversation a timer, unless all is over. *)
Lemma schedule_expected a delay now w : expected (a_conv a) (scheduleTriggerLocked a delay now w).
Proof.
  unfold scheduleTriggerLocked. destruct (cancelled w) eqn:Hc; [by left|]. cbn [orb].
  case_bool_decide as Hs; [by right; right; left|]. right. right. left. cbn. by rewrite lookup_insert_eq.
Qed.

Lemma schedule_keeps a delay now w key : expected key w -> expected key (scheduleTriggerLocked a delay now w).
Proof.
  unfold scheduleTriggerLocked. destruct (_ || _); [done|]. apply expected_mono; try done. cbn.
  intros [x Hx]. destruct (decide (a_conv a = key)) as [->|Hne]; [by rewrite lookup_insert_eq|].
  rewrite lookup_insert_ne by done. eauto.
Qed.

Lemma schedule_ready a delay now w key : ready key (scheduleTriggerLocked a delay now w) = ready key w.
Proof. unfold scheduleTriggerLocked. by destruct (_ || _). Qed.

Lemma schedule_awake a delay now w : awake w -> a_owner a <> "" -> awake (scheduleTriggerLocked a delay now w).
Proof.
  intros Ha Ho. apply (awake_kept w); [done|..].
  1-4: unfold scheduleTriggerLocked; destruct (_ || _); try done; intros id j Hj; exists j; eauto.
  - unfold scheduleTriggerLocked. destruct (_ || _); [apply (aw_timer w Ha)|]. cbn.
    intros k t [[<- <-]|[_ Ht]]%lookup_insert_Some; [done|by eapply (aw_timer w Ha)].
  - intros key Hr Hx. rewrite schedule_ready in Hr. by apply schedule_keeps, Hx.
Qed.

Lemma cancelScheduled_fields key w :
  provider (comp (cancelScheduledLocked key w)) = provider (comp w) /\
  model (comp (cancelScheduledLocked key w)) = model (comp w) /\
  bufferSize (comp (cancelScheduledLocked key w)) = bufferSize (comp w) /\
  sessions (cancelScheduledLocked key w) = sessions w /\ owed (cancelScheduledLocked key w) = owed w /\
  cancelled (cancelScheduledLocked key w) = cancelled w /\
  (forall k t, timers (cancelScheduledLocked key w) !! k = Some t -> timers w !! k = Some t) /\
  (forall k, k <> key -> scheduled (comp (cancelScheduledLocked key w)) !! k = scheduled (comp w) !! k).
Proof.
  unfold cancelScheduledLocked. destruct (scheduled (comp w) !! key); cbn; [|by repeat split].
  repeat split; [intros *; apply Stop_lookup|]. intros k Hk. by rewrite lookup_delete_ne.
Qed.

Lemma StopTimers_fields w :
  provider (comp (StopTimers w)) = provider (comp w) /\ model (comp (StopTimers w)) = model (comp w) /\
  bufferSize (comp (StopTimers w)) = bufferSize (comp w) /\
  jobs (StopTimers w) = jobs w /\ cancelled (StopTimers w) = cancelled w /\
  (forall k t, timers (StopTimers w) !! k = Some t -> timers w !! k = Some t).
Proof.
  unfold StopTimers. induction (map fst _) as [|k l IH]; cbn; [by repeat split|].
  destruct IH as (A & B & S & C & D & E). set (w1 := fold_right _ _ _) in *.
  destruct (cancelScheduled_fields k w1) as (A' & B' & S' & _ & _ & D' & E' & _).
  rewrite A', B', S', D', (sr_jobs _ _ (cancelScheduled_same_runs k w1)). repeat split; try done. intros k' t Ht. by apply E, E'.
Qed.

Lemma start_job_awake a snap forced cb now w : awake w -> a_owner a <> "" ->
  awake (start_job a snap forced cb now w) /\ a_conv a ∈ inflight (comp (start_job a snap forced cb now w)).
Proof.
  intros Ha Ho. unfold start_job. destruct (cancelScheduled_fields (a_conv a) w) as (E1 & E2 & E3 & E4 & E5 & E6 & E7 & E8).
  pose proof (cancelScheduled_same_runs (a_conv a) w) as [R1 R2 R3 R4 R5].
  set (w1 := cancelScheduledLocked (a_conv a) w) in *. split; [|cbn; set_solver].
  constructor; cbn.
  - rewrite E1. apply Ha.
  - rewrite E2. apply Ha.
  - rewrite E3. apply Ha.
  - intros i j [[<- <-]|[_ Hj]]%lookup_insert_Some; [done|]. rewrite R1 in Hj. by eapply (aw_job w Ha).
  - intros k t Ht%E7. by eapply (aw_timer w Ha).
  - intros i j su re [[<- <-]|[_ Hj]]%lookup_insert_Some; [done|]. rewrite R1 in Hj. by eapply (aw_retry w Ha).
  - intros key Hr. unfold ready in Hr. cbn in Hr. rewrite E3, E4 in Hr.
    destruct (decide (key = a_conv a)) as [->|Hne]; [right; left; cbn; set_solver|].
    generalize (aw_ready w Ha key Hr). apply expected_mono; cbn.
    + unfold cancelled in *. cbn. by rewrite E6.
    + rewrite R3. set_solver.
    + by rewrite E8.
    + by rewrite E5.
Qed.

Lemma remove_one_ne a b l : b ∈ l -> a <> b -> b ∈ remove_one a l.
Proof.
  intros Hb Hne. induction l as [|c l IH]; [done|]. cbn. apply elem_of_cons in Hb as [->|Hb].
  - rewrite decide_False by done. by left.
  - case_decide; [done|]. right. by apply IH.
Qed.

Lemma remove_one_subset a b l : b ∈ remove_one a l -> b ∈ l.
Proof. induction l as [|c l IH]; [done|]. cbn. case_decide; [by right|]. set_solver. Qed.

Definition underway (key : string) (w : World) : Prop :=
  cancelled w = true \/ key ∈ inflight (comp w) \/ is_Some (scheduled (comp w) !! key).

Lemma schedule_underway a delay now w : underway (a_conv a) (scheduleTriggerLocked a delay now w).
Proof.
  unfold scheduleTriggerLocked, underway. destruct (cancelled w) eqn:Hc; [by left|]. cbn [orb].
  case_bool_decide as Hs; [by right; right|]. right. right. cbn. by rewrite lookup_insert_eq.
Qed.

(** A trigger answers its conversation, whoever calls. *)
Lemma Trigger_awake a now w : awake w ->
  awake (TriggerWithScope a now w) /\ owed (TriggerWithScope a now w) = owed w /\
  (a_owner a <> "" -> ready (a_conv a) (TriggerWithScope a now w) = true ->
   underway (a_conv a) (TriggerWithScope a now w)).
Proof.
  intros Ha. unfold TriggerWithScope. destruct (sessions w !! a_conv a) as [s|] eqn:Hs;
    [|unfold ready; by rewrite Hs].
  rewrite (aw_provider w Ha). cbn [negb orb].
  rewrite (bool_decide_false (model (comp w) = "")) by apply Ha. cbn [orb].
  case_bool_decide as Ho; [done|]. destruct (cancelled w) eqn:Hc; [split; [done|split; [done|by left]]|]. cbn [orb].
  case_bool_decide as Hi; [split; [done|split; [done|by right; left]]|]. cbn zeta.
  destruct (match lastRun (comp w) !! a_conv a with Some _ => _ | None => _ end).
  - destruct (GroupCompactReady _ s) eqn:Hr; cbn [andb]; [|unfold ready; by rewrite Hs, Hr].
    case_bool_decide as Hsch; cbn [negb]; [split; [done|split; [done|by right; right]]|].
    split; [by apply schedule_awake|]. split; [unfold scheduleTriggerLocked; by destruct (_ || _)|].
    intros _ _. apply schedule_underway.
  - destruct (SnapshotGroupCompact _ s) as [snap|] eqn:Hsn.
    + destruct (start_job_awake a snap false false now w Ha Ho) as [H1 H2]. split; [done|].
      split; [|by right; left]. unfold start_job. cbn. apply cancelScheduled_fields.
    + split; [done|]. split; [done|]. intros _. unfold ready. rewrite Hs.
      intros [? Hx]%ready_snapshot. congruence.
Qed.

Lemma schedule_owed a d now l w : scheduleTriggerLocked a d now (with_owed l w) = with_owed l (scheduleTriggerLocked a d now w).
Proof.
  unfold scheduleTriggerLocked. change (cancelled (with_owed l w)) with (cancelled w). cbn [comp with_owed].
  by destruct (_ || _).
Qed.

Lemma Trigger_owed a now l w : TriggerWithScope a now (with_owed l w) = with_owed l (TriggerWithScope a now w).
Proof.
  assert (Hst : forall snap f b, start_job a snap f b now (with_owed l w) = with_owed l (start_job a snap f b now w)).
  { intros snap f b. unfold start_job, cancelScheduledLocked. cbn [comp with_owed].
    by destruct (scheduled (comp w) !! a_conv a). }
  unfold TriggerWithScope. change (cancelled (with_owed l w)) with (cancelled w). cbn [comp sessions with_owed].
  rewrite schedule_owed. repeat (case_match; try done).
Qed.

Lemma Trigger_step_awake a now w : awake w -> awake (TriggerWithScope a now (with_owed (remove_one a (owed w)) w)).
Proof.
  intros Ha. rewrite Trigger_owed. destruct (Trigger_awake a now w Ha) as (Hw & Ho & Hu).
  destruct Hw as [A B S C D E F]. constructor; try done. intros key Hr.
  destruct (F key Hr) as [?|[?|[?|(b & Hb & <- & Hbo)]]]; unfold expected; eauto.
  destruct (decide (b = a)) as [->|Hne]; [destruct (Hu Hbo Hr) as [?|[?|?]]; eauto|].
  right. right. right. exists b. split; [|done]. cbn. rewrite Ho in Hb. by apply remove_one_ne.
Qed.

Lemma Force_awake a cb now w : awake w -> awake (ForceCompact a cb now w).2.
Proof.
  intros Ha. unfold ForceCompact. destruct (sessions w !! a_conv a) as [s|]; [|done].
  destruct (negb _ || _) eqn:E; cbn [orb]; [done|].
  destruct (bool_decide (a_owner a = "")) eqn:Ho; [done|]. apply bool_decide_eq_false in Ho.
  destruct (cancelled w); [done|]. destruct (bool_decide (a_conv a ∈ _)); [done|].
  destruct (SnapshotGroupCompact 1 s); [|done]. by apply start_job_awake.
Qed.

(** A running job's conversation is in flight, so its commit, its distillation
    and its phases need no trigger. *)
Lemma job_move_awake id j w w' : sound w -> awake w -> jobs w !! id = Some j ->
  (exists j', jobs w' = <[id := j']> (jobs w) /\ j_args j' = j_args j /\
     forall su re, j_at j' = Finishing su re -> su || re = true) ->
  comp w' = comp w -> timers w' = timers w -> owed w' = owed w -> (cancelled w = true -> cancelled w' = true) ->
  (forall key, key <> a_conv (j_args j) -> sessions w' !! key = sessions w !! key) -> awake w'.
Proof.
  intros Hso Ha Hj (j' & Ej & Eargs & Hfin) Ec Et Eo Hc Es.
  apply (awake_kept w); rewrite ?Ec, ?Et; try done; [|apply (aw_timer w Ha)|].
  - intros i k. rewrite Ej. intros [[<- <-]|[_ Hk]]%lookup_insert_Some; [|by eauto].
    exists j. split; [done|]. split; [done|]. intros su re Hat. right. by apply Hfin.
  - intros key Hr Hx. destruct (decide (key = a_conv (j_args j))) as [->|Hne].
    + right. left. rewrite Ec. by eapply (so_inflight w Hso).
    + unfold ready in Hr. rewrite Es, Ec in Hr by done.
      assert (He : expected key w) by by apply Hx. revert He.
      apply expected_mono; rewrite ?Ec, ?Eo; done.
Qed.

Lemma complete_awake id j err su re w w0 : sound w -> awake w -> jobs w !! id = Some j -> su || re = true ->
  jobs w0 = jobs w -> comp w0 = comp w -> timers w0 = timers w -> owed w0 = owed w ->
  (cancelled w = true -> cancelled w0 = true) ->
  (forall key, key <> a_conv (j_args j) -> sessions w0 !! key = sessions w !! key) -> awake (complete id j err su re w0).
Proof.
  intros. apply (job_move_awake id j w); try done; unfold complete; destruct (j_onComplete j); cbn; try done;
    (exists (at_phase (Finishing su re) j); split; [congruence|split; [done|by intros ?? [= <- <-]]]).
Qed.

Lemma move_job_awake id j at_ w w0 : sound w -> awake w -> jobs w !! id = Some j -> (forall su re, at_ <> Finishing su re) ->
  jobs w0 = jobs w -> comp w0 = comp w -> timers w0 = timers w -> owed w0 = owed w ->
  (cancelled w = true -> cancelled w0 = true) ->
  (forall key, key <> a_conv (j_args j) -> sessions w0 !! key = sessions w !! key) -> awake (move_job id j at_ w0).
Proof.
  intros Hso Ha Hj Hat E1 E2 E3 E4 E5 E6. apply (job_move_awake id j w); try done.
  exists (at_phase at_ j). cbn. rewrite E1. split; [done|]. split; [done|]. intros su re E. by destruct (Hat su re).
Qed.

Lemma finish_job_awake id j su re now w : sound w -> awake w -> jobs w !! id = Some j -> su || re = true ->
  awake (finish_job id j su re now w).
Proof.
  intros Hso Ha Hj Hre. unfold finish_job. rewrite Hre. cbn zeta. cbn [andb].
  set (key := a_conv (j_args j)). set (w1 := with_jobs _ _).
  change (match sessions w1 !! key with Some s => GroupCompactReady (bufferSize (comp w)) s | None => false end) with (ready key w).
  assert (Hother : forall k, ready k w = true -> k <> key -> expected k w1).
  { intros k Hr Hne. generalize (aw_ready w Ha k Hr). apply expected_mono; try done. cbn. set_solver. }
  assert (Hw1 : (ready key w = true -> expected key w1) -> awake w1).
  { intros Hx. apply (awake_kept w); try done; [|apply (aw_timer w Ha)|].
    - cbn. intros i k [_ Hk]%lookup_delete_Some. eauto.
    - intros k Hr _. destruct (decide (k = key)) as [->|Hne]; [by apply Hx|by apply Hother]. }
  destruct (ready key w) eqn:Hr; [|apply Hw1; congruence]. cbn [andb].
  case_bool_decide as Hs; cbn [negb]; [by apply Hw1; intros _; right; right; left|].
  set (d := finish_delay _ _ _).
  assert (Hl : awake (with_owed (j_args j :: owed w1) w1)).
  { assert (H1 : awake (with_owed (j_args j :: owed w) w)).
    { apply (awake_kept w); try done; try (by eauto using aw_timer). intros k Hk Hx. generalize (Hx Hk).
      apply expected_mono; try done. cbn. by right. }
    apply (awake_kept (with_owed (j_args j :: owed w) w)); try done; [|apply (aw_timer w Ha)|].
    - cbn. intros i k [_ Hk]%lookup_delete_Some. eauto.
    - intros k Hk _. destruct (decide (k = key)) as [->|Hne].
      + right. right. right. exists (j_args j). split; [by left|]. split; [done|]. by eapply (aw_job w Ha).
      + generalize (Hother k Hk Hne). apply expected_mono; try done. cbn. by right. }
  pose proof (schedule_awake (j_args j) d now _ Hl (aw_job w Ha id j Hj)) as Hsa.
  rewrite schedule_owed in Hsa. destruct Hsa as [A B S C D F G]. constructor; try done. intros k Hk.
  destruct (decide (k = key)) as [->|Hne].
  - destruct (schedule_underway (j_args j) d now w1) as [?|[?|?]]; unfold expected; eauto.
  - rewrite schedule_ready in Hk. apply schedule_keeps. by apply Hother.
Qed.

Lemma commit_no_error snap summary now s :
  (CommitGroupCompactWithPersistence snap summary None now s).1.2 = None.
Proof. unfold CommitGroupCompactWithPersistence. case_decide; [done|]. by destruct (negb _). Qed.

Lemma job_step_awake id e w : sound w -> awake w -> e_bind e = None -> awake (job_step id e w).
Proof.
  intros Hso Ha Hb. unfold job_step, distill_step, extract_step. destruct (jobs w !! id) as [j|] eqn:Hj; [|done].
  assert (Hbs : bindGroupStore (j_args j) e = None) by (unfold bindGroupStore; by case_decide).
  destruct (j_at j) as [| | |sm|sm| |bid|su re] eqn:Hat; rewrite ?Hbs.
  - destruct (cancelled w) eqn:Hc.
    + apply (awake_kept w); try done; [|apply (aw_timer w Ha)|by intros; left].
      cbn. intros i k [_ Hk]%lookup_delete_Some. eauto.
    + apply (job_move_awake id j w); try done. eexists. cbn. split; [done|]. by split.
  - by apply move_job_awake with w.
  - destruct (e_answer e) as [content|err]; [|by apply complete_awake with w].
    case_decide; [by apply complete_awake with w|by apply move_job_awake with w].
  - destruct (sessions w !! _) as [s|]; [|done]. pose proof (commit_no_error (j_snapshot j) sm (e_now e) s) as Hn.
    destruct (CommitGroupCompactWithPersistence _ _ _ _ _) as [[committed persistErr] s']. cbn in Hn. subst persistErr.
    destruct committed; cbn [negb]; [apply move_job_awake with w|apply complete_awake with w]; try done;
      cbn; intros k Hk; by rewrite lookup_insert_ne.
  - apply move_job_awake with w; try done. cbn. unfold cancelled. cbn.
    by apply (do_event_cancelled _ (Queue (a_owner (j_args j)) sm (j_storeGeneration j))).
  - repeat case_decide; try by apply complete_awake with w.
    destruct (e_writer e); cbn [negb]; [|by apply complete_awake with w].
    destruct (sessions w !! _) as [s|]; [|done]. destruct (BeginGroupDistillation _ s) as [bid s'].
    apply move_job_awake with w; try done. cbn. intros k Hk. by rewrite lookup_insert_ne.
  - destruct (sessions w !! _) as [s|]; [|done]. destruct (e_extract e) as [[err []]|];
      apply complete_awake with w; try done; cbn; intros k Hk; by rewrite lookup_insert_ne.
  - apply finish_job_awake; [done..|]. by eapply (aw_retry w Ha).
Qed.

Lemma callback_awake key token w : sound w -> awake w -> awake (timer_callback key token w).
Proof.
  intros Hso Ha. unfold timer_callback. destruct (timers w !! (key, token)) as [[|a]|] eqn:Et; [done| |done]. cbn zeta.
  cbn [comp with_timers]. pose proof (so_args w Hso _ _ Et) as Hk. cbn in Hk.
  assert (Ht : forall k t, delete (key, token) (timers w) !! k = Some t -> a_owner (timer_args t) <> "").
  { intros k t [_ Hl]%lookup_delete_Some. by eapply (aw_timer w Ha). }
  destruct (negb _); apply (awake_kept w); try done; try (by eauto). intros k Hr Hx.
  destruct (decide (k = key)) as [->|Hne].
  - right. right. right. exists a. split; [by left|]. split; [done|]. by apply (aw_timer w Ha _ _ Et).
  - generalize (Hx Hr). apply expected_mono; try done; cbn; [|by right]. by rewrite lookup_delete_ne.
Qed.

Lemma expire_awake key token now w : awake w -> awake (expire key token now w).
Proof.
  intros Ha. unfold expire. destruct (timers w !! (key, token)) as [[a due|]|] eqn:Et; [|done..].
  destruct (now <? due); [done|]. apply (awake_kept w); try done; try (by eauto).
  cbn. intros k t [[<- <-]|[_ Ht]]%lookup_insert_Some; [apply (aw_timer w Ha _ _ Et)|by eapply (aw_timer w Ha)].
Qed.

Lemma world_step_awake w e : sound w -> awake w -> proper w e -> awake (world_step purge w e).
Proof.
  intros Hso Ha Hp. destruct e as [key op trig|a now|a cb now|key token now|key token|id e|e| |size|size|delay];
    cbn [world_step proper] in *.
  - destruct (sessions w !! key) as [s|] eqn:Hs; [|done].
    assert (Hk : forall w', w' = with_owed (owed w') (with_sessions (<[key := compact_step purge s op]> (sessions w)) w) ->
      (forall a, a ∈ owed w -> a ∈ owed w') -> (ready key w' = true -> expected key w') -> awake w').
    { intros w' -> Ho Hx. apply (awake_kept w); try done; try (by eauto using aw_timer).
      intros k Hr Hx'. destruct (decide (k = key)) as [->|Hne]; [by apply Hx|].
      unfold ready in Hr. cbn in Hr. rewrite lookup_insert_ne in Hr by done. generalize (Hx' Hr). by apply expected_mono. }
    destruct trig as [a|]; apply Hk; try done; cbn.
    + by right.
    + intros _. right. right. right. exists a. split; [by left|done].
    + intros Hr. exact (aw_ready w Ha key (Hp Hr)).
  - by apply Trigger_step_awake.
  - by apply Force_awake.
  - by apply expire_awake.
  - by apply callback_awake.
  - by apply job_step_awake.
  - apply (awake_kept w); try done; try (by eauto using aw_timer). intros k Hr Hx. generalize (Hx Hr).
    apply expected_mono; try done. apply do_event_cancelled.
  - destruct (StopTimers_fields w) as (E1 & E2 & Es & E3 & E4 & E5). apply (awake_kept w); try done.
    + by rewrite Es.
    + rewrite E3. by eauto.
    + intros k t Ht%E5. by eapply (aw_timer w Ha).
    + intros k _ _. left. by rewrite E4.
  - unfold SetMaxBufferSize. destruct (size <=? 0); [by destruct Ha|].
    apply (awake_kept w); try done; try (by eauto using aw_timer).
  - unfold SetBufferSize. destruct (Z.leb_spec size 0); [by destruct Ha|].
    apply (awake_kept w); try done; try (by eauto using aw_timer). intros k Hr Hx.
    assert (He : expected k w); [|by revert He; apply expected_mono]. apply Hx. revert Hr. unfold ready. cbn.
    destruct (sessions w !! k) as [s|]; [|done]. intros Hr. eapply ready_larger; [|exact Hr|apply Ha]. lia.
  - unfold SetRetryDelay. destruct (delay <=? 0); [by destruct Ha|].
    apply (awake_kept w); try done; try (by eauto using aw_timer).
Qed.
End awake.

(** * The cool-down *)

Section cool.

(** When the conversation's last compaction was started. *)
Fixpoint last_start (key : string) (l : list (string * Z * bool)) : option Z :=
  match l with
  | [] => None
  | (k, t, _) :: l => if decide (k = key) then Some t else last_start key l
  end.

Fixpoint spaced (interval : Z) (l : list (string * Z * bool)) : Prop :=
  match l with
  | [] => True
  | (k, t, forced) :: l =>
      (forced = false -> forall t', last_start k l = Some t' -> interval <= time_sub t t' + millisecond5) /\
      spaced interval l
  end.

Lemma spaced_at interval l1 key t l2 t' : spaced interval (l1 ++ (key, t, false) :: l2) ->
  last_start key l2 = Some t' -> interval <= time_sub t t' + millisecond5.
Proof. induction l1 as [|[[k u] f] l1 IH]; cbn; [|by intros [_ ?]; apply IH]. intros [Hs _]. by apply Hs. Qed.

Definition cool (interval : Z) (w : World) : Prop :=
  minInterval (comp w) = interval /\ (forall key, lastRun (comp w) !! key = last_start key (started w)) /\
  spaced interval (started w).

(** Everything but starting a compaction. *)
Definition same_starts (w w' : World) : Prop :=
  lastRun (comp w') = lastRun (comp w) /\ started w' = started w /\ minInterval (comp w') = minInterval (comp w).

#[local] Instance same_starts_pre : PreOrder same_starts.
Proof. split; [by repeat split|]. intros a b c (A & B & C) (D & E & F). repeat split; congruence. Qed.

Lemma same_starts_cool i w w' : same_starts w w' -> cool i w -> cool i w'.
Proof. unfold cool. by intros (-> & -> & ->). Qed.

Lemma schedule_starts a d now w : same_starts w (scheduleTriggerLocked a d now w).
Proof. unfold scheduleTriggerLocked. by destruct (_ || _). Qed.

Lemma cancelScheduled_starts key w : same_starts w (cancelScheduledLocked key w).
Proof. unfold cancelScheduledLocked. by case_match. Qed.

Lemma StopTimers_starts w : same_starts w (StopTimers w).
Proof.
  unfold StopTimers. induction (map fst _) as [|k l IH]; cbn; [done|].
  etrans; [exact IH|apply cancelScheduled_starts].
Qed.

Lemma complete_starts id j err su re w : same_starts w (complete id j err su re w).
Proof. unfold complete. by destruct (j_onComplete j). Qed.

Lemma finish_job_starts id j su re now w : same_starts w (finish_job id j su re now w).
Proof.
  unfold finish_job. cbn zeta. destruct (_ && _); [|done].
  set (w1 := with_jobs _ _). trans w1; [done|apply schedule_starts].
Qed.

Lemma job_step_starts id e w : same_starts w (job_step id e w).
Proof.
  unfold job_step, distill_step, extract_step. destruct (jobs w !! id) as [j|]; [|done].
  destruct (j_at j) as [| | |sm|sm| |bid|su re].
  - by destruct (cancelled w).
  - destruct (bindGroupStore _ _); [apply complete_starts|done].
  - destruct (e_answer e); [|apply complete_starts]. case_decide; [apply complete_starts|done].
  - destruct (sessions w !! _) as [s|]; [|done].
    destruct (CommitGroupCompactWithPersistence _ _ _ _ _) as [[committed [err|]] s'];
      [exact (complete_starts _ _ _ _ _ (cancel_scope (with_sessions _ w)))|].
    destruct committed; cbn [negb]; [done|exact (complete_starts _ _ _ _ _ (with_sessions _ w))].
  - done.
  - repeat case_decide; try apply complete_starts. destruct (bindGroupStore _ _); [apply complete_starts|].
    destruct (e_writer e); cbn [negb]; [|apply complete_starts].
    destruct (sessions w !! _) as [s|]; [|done]. by destruct (BeginGroupDistillation _ s).
  - destruct (sessions w !! _) as [s|]; [|done].
    destruct (e_extract e) as [[err []]|]; [exact (complete_starts _ _ _ _ _ (cancel_scope (with_sessions _ w)))|..];
      exact (complete_starts _ _ _ _ _ (with_sessions _ w)).
  - apply finish_job_starts.
Qed.

Lemma start_job_cool i a snap forced cb now w : cool i w ->
  (forced = false -> forall t, lastRun (comp w) !! a_conv a = Some t -> i <= time_sub now t + millisecond5) ->
  cool i (start_job a snap forced cb now w).
Proof.
  intros (H0 & H1 & H2) Hc. unfold start_job. pose proof (cancelScheduled_starts (a_conv a) w) as (E1 & E2 & E3).
  set (w1 := cancelScheduledLocked (a_conv a) w) in *. split; [cbn; congruence|]. split; cbn; rewrite ?E1, ?E2, ?E3.
  - intros key. destruct (decide (a_conv a = key)) as [->|Hne]; [by rewrite lookup_insert_eq|].
    by rewrite lookup_insert_ne.
  - split; [|done]. intros Hf t. rewrite <- H1. by apply Hc.
Qed.

Lemma Trigger_cool i a now w : cool i w -> cool i (TriggerWithScope a now w).
Proof.
  intros Hc. unfold TriggerWithScope. destruct (sessions w !! a_conv a) as [s|]; [|done].
  destruct (negb _ || _ || _); [done|]. destruct (_ || _); [done|]. cbn zeta.
  destruct (match lastRun (comp w) !! a_conv a with Some _ => _ | None => _ end) eqn:Hcd.
  - destruct (_ && _); [|done]. by eapply same_starts_cool, Hc; apply schedule_starts.
  - destruct (SnapshotGroupCompact _ s) as [snap|]; [|done]. apply start_job_cool; [done|]. intros _ t Ht.
    rewrite Ht in Hcd. destruct Hc as [<- _]. by apply Z.ltb_ge.
Qed.

Lemma world_step_cool `{UnicodeCase} purge i w e : cool i w -> cool i (world_step purge w e).
Proof.
  intros Hc. destruct e as [key op trig|a now|a cb now|key token now|key token|id e|e| |size|size|delay]; cbn [world_step].
  - destruct (sessions w !! key) as [s|]; [|done]. by destruct trig.
  - apply Trigger_cool. exact Hc.
  - unfold ForceCompact. destruct (sessions w !! a_conv a) as [s|]; [|done].
    destruct (negb _ || _ || _); [done|]. destruct (cancelled w); [done|]. destruct (bool_decide (a_conv a ∈ _)); [done|].
    destruct (SnapshotGroupCompact 1 s); [|done]. by apply start_job_cool.
  - unfold expire. destruct (timers w !! (key, token)) as [[a due|]|]; [|done..]. by destruct (now <? due).
  - unfold timer_callback. destruct (timers w !! (key, token)) as [[|a]|]; [done| |done]. cbn zeta. by destruct (negb _).
  - eapply same_starts_cool, Hc. apply job_step_starts.
  - done.
  - eapply same_starts_cool, Hc. apply StopTimers_starts.
  - unfold SetMaxBufferSize. by destruct (size <=? 0).
  - unfold SetBufferSize. by destruct (size <=? 0).
  - unfold SetRetryDelay. by destruct (delay <=? 0).
Qed.

Lemma run_world_cool `{UnicodeCase} purge i w es : cool i w -> cool i (run_world purge w es).
Proof. revert w. induction es as [|e es IH]; intros w Hc; [done|]. cbn. by apply IH, world_step_cool. Qed.
End cool.

(** * How a job ends *)

Section ends.

(** Everything but a job's last step, or the loss of one that did not start,
    keeps it. *)
Definition keeps_jobs (w w' : World) : Prop := forall id, is_Some (jobs w !! id) -> is_Some (jobs w' !! id).

Lemma start_job_keeps a snap forced cb now w : keeps_jobs w (start_job a snap forced cb now w).
Proof.
  intros id Hj. unfold start_job. cbn. rewrite (sr_jobs _ _ (cancelScheduled_same_runs (a_conv a) w)).
  destruct (decide (next_job (cancelScheduledLocked (a_conv a) w) = id)) as [->|Hne]; [by rewrite lookup_insert_eq|].
  by rewrite lookup_insert_ne.
Qed.

Lemma schedule_keeps_jobs a d now w : jobs (scheduleTriggerLocked a d now w) = jobs w.
Proof. unfold scheduleTriggerLocked. by destruct (_ || _). Qed.

Lemma put_keeps (id' id : nat) (j : job) (m : gmap nat job) : is_Some (m !! id') -> is_Some (<[id := j]> m !! id').
Proof. intros Hm. destruct (decide (id = id')) as [->|Hne]; [by rewrite lookup_insert_eq|by rewrite lookup_insert_ne]. Qed.

Lemma move_keeps id j at_ w w0 : jobs w0 = jobs w -> keeps_jobs w (move_job id j at_ w0).
Proof. intros E i Hi. cbn. rewrite E. by apply put_keeps. Qed.

Lemma complete_keeps id j err su re w w0 : jobs w0 = jobs w -> keeps_jobs w (complete id j err su re w0).
Proof. intros E i Hi. unfold complete. destruct (j_onComplete j); cbn; rewrite E; by apply put_keeps. Qed.

Lemma job_step_keeps id e w j : jobs w !! id = Some j ->
  keeps_jobs w (job_step id e w) \/
  ((finishing j = true \/ (j_at j = Launching /\ cancelled w = true)) /\ forall i, i <> id -> is_Some (jobs w !! i) -> is_Some (jobs (job_step id e w) !! i)).
Proof.
  intros Hj. unfold job_step, distill_step, extract_step. rewrite Hj. destruct (j_at j) as [| | |sm|sm| |bid|su re] eqn:Hat.
  - destruct (cancelled w) eqn:Hc; [right; split; [by right|]|left; intros i Hi; cbn; by apply put_keeps].
    intros i Hne Hi. cbn. by rewrite lookup_delete_ne.
  - left. destruct (bindGroupStore _ _); [by apply complete_keeps|by apply move_keeps].
  - left. destruct (e_answer e); [|by apply complete_keeps]. case_decide; [by apply complete_keeps|by apply move_keeps].
  - left. destruct (sessions w !! _) as [s|]; [|by intros i].
    destruct (CommitGroupCompactWithPersistence _ _ _ _ _) as [[committed [err|]] s']; [by apply complete_keeps|].
    destruct committed; cbn [negb]; [by apply move_keeps|by apply complete_keeps].
  - left. by apply move_keeps.
  - left. repeat case_decide; try by apply complete_keeps. destruct (bindGroupStore _ _); [by apply complete_keeps|].
    destruct (e_writer e); cbn [negb]; [|by apply complete_keeps].
    destruct (sessions w !! _) as [s|]; [|by intros i]. destruct (BeginGroupDistillation _ s). by apply move_keeps.
  - left. destruct (sessions w !! _) as [s|]; [|by intros i]. destruct (e_extract e) as [[err []]|]; by apply complete_keeps.
  - right. split; [left; unfold finishing; by rewrite Hat|]. intros i Hne Hi. unfold finish_job. cbn zeta.
    destruct (_ && _); rewrite ?schedule_keeps_jobs; cbn; by rewrite lookup_delete_ne.
Qed.

Lemma job_ends `{UnicodeCase} purge w e id j : jobs w !! id = Some j -> jobs (world_step purge w e) !! id = None ->
  finishing j = true \/ (j_at j = Launching /\ cancelled w = true).
Proof.
  intros Hj He. assert (Hsome : is_Some (jobs w !! id)) by eauto.
  assert (Hk : forall w', keeps_jobs w w' -> jobs w' !! id = None -> finishing j = true \/ (j_at j = Launching /\ cancelled w = true)).
  { intros w' Hk E. destruct (Hk id Hsome). congruence. }
  revert He. destruct e as [key op trig|a now|a cb now|key token now|key token|i e|e| |size|size|delay]; cbn [world_step].
  - apply Hk. destruct (sessions w !! key); [|by intros ?]. by destruct trig; intros ?.
  - apply Hk. unfold TriggerWithScope. set (w0 := with_owed _ w). change (jobs w) with (jobs w0) in *.
    destruct (sessions w0 !! a_conv a) as [s|]; [|by intros ?].
    destruct (negb _ || _ || _); [by intros ?|]. destruct (_ || _); [by intros ?|]. cbn zeta.
    destruct (match lastRun (comp w0) !! a_conv a with Some _ => _ | None => _ end).
    + destruct (_ && _); [|by intros ?]. intros i Hi. by rewrite schedule_keeps_jobs.
    + destruct (SnapshotGroupCompact _ s); [|by intros ?]. exact (start_job_keeps _ _ _ _ _ w0).
  - apply Hk. unfold ForceCompact. destruct (sessions w !! a_conv a) as [s|]; [|by intros ?].
    destruct (negb _ || _ || _); [by intros ?|]. destruct (cancelled w); [by intros ?|].
    destruct (bool_decide (a_conv a ∈ _)); [by intros ?|].
    destruct (SnapshotGroupCompact 1 s); [|by intros ?]. apply start_job_keeps.
  - apply Hk. unfold expire. destruct (timers w !! (key, token)) as [[a due|]|]; [|by intros ?..].
    by destruct (now <? due); intros ?.
  - apply Hk. unfold timer_callback. destruct (timers w !! (key, token)) as [[|a]|]; [by intros ?| |by intros ?]. cbn zeta.
    by destruct (negb _); intros ?.
  - destruct (jobs w !! i) as [j'|] eqn:Hi; [|unfold job_step; rewrite Hi; congruence].
    destruct (job_step_keeps i e w j' Hi) as [Hkeep|[Hend Hother]]; [by apply Hk|].
    destruct (decide (id = i)) as [->|Hne]; [intros _; congruence|]. intros E. destruct (Hother id Hne Hsome). congruence.
  - by apply Hk; intros ?.
  - apply Hk. destruct (StopTimers_fields w) as (_ & _ & _ & E & _). intros i. by rewrite E.
  - apply Hk. unfold SetMaxBufferSize. by destruct (size <=? 0); intros ?.
  - apply Hk. unfold SetBufferSize. by destruct (size <=? 0); intros ?.
  - apply Hk. unfold SetRetryDelay. by destruct (delay <=? 0); intros ?.
Qed.
End ends.

(** * Properties *)

Section properties.
Context `{UnicodeCase} (purge : option (string -> option string)).
Local Abbreviation run := (run_world purge).

(** One compaction per conversation.  From a new compactor, whatever is
    triggered, forced, scheduled, stopped and answered, in any order: no two
    running compactions are of one conversation, and [IsCompacting] holds
    exactly of the conversations of the running ones, as long as the scope is
    not cancelled (then a compaction that was about to start never runs). *)
Theorem single_flight provider model size interval m s es :
  let w := run (new_world (NewGroupCompactor provider model size interval) m s) es in
  (forall i j i' j', jobs w !! i = Some j -> jobs w !! i' = Some j' -> a_conv (j_args j) = a_conv (j_args j') -> i = i') /\
  (forall id j, jobs w !! id = Some j -> IsCompacting (a_conv (j_args j)) w = true) /\
  (forall key, IsCompacting key w = true ->
     cancelled w = true \/ exists id j, jobs w !! id = Some j /\ a_conv (j_args j) = key).
Proof.
  intros w. assert (Hs : sound w) by apply run_world_sound, new_world_sound.
  split; [apply (so_unique w Hs)|]. split.
  - intros id j Hj. apply bool_decide_eq_true. by eapply so_inflight.
  - intros key Hk%bool_decide_eq_true. by apply (so_running w Hs).
Qed.

(** C28: a full batch is never forgotten.  From a new compactor with a model and
    empty buffers, through any events in which whoever makes a batch full
    triggers next, the batch size does not shrink, the memory stores open, and
    timers are stopped only after cancellation: a conversation whose batch is
    full is being compacted, or has a timer that will trigger it, or a trigger
    is on its way, unless the scope is cancelled. *)
Theorem full_batch_never_forgotten model size interval m s es key :
  let w0 := new_world (NewGroupCompactor true model size interval) m s in
  let w := run w0 es in
  model <> "" -> (forall k se, m !! k = Some se -> groupCompactBuffer (compact se) = []) ->
  propers purge w0 es -> ready key w = true ->
  cancelled w = true \/
  (exists id j, jobs w !! id = Some j /\ a_conv (j_args j) = key) \/
  (exists token t, scheduledToken (comp w) !! key = Some token /\ timers w !! (key, token) = Some t /\
     a_conv (timer_args t) = key) \/
  (exists a, a ∈ owed w /\ a_conv a = key).
Proof.
  intros w0 w Hm Hb Hp Hr. assert (Hs0 : sound w0) by apply new_world_sound.
  assert (Ha0 : awake w0).
  { constructor; cbn; try done; [destruct (Z.leb_spec size 0); [done|lia]|].
    intros k. unfold ready. cbn. destruct (m !! k) as [se|] eqn:Hk; [|done].
    unfold GroupCompactReady, eligible_items. rewrite (Hb k se Hk). cbn. rewrite andb_true_iff, Z.ltb_lt, Z.leb_le. lia. }
  assert (Hboth : forall w es, sound w -> awake w -> propers purge w es -> sound (run w es) /\ awake (run w es)).
  { clear. intros w es. revert w. induction es as [|e es IH]; intros w Hs Ha Hp; [done|]. destruct Hp as [He Hp].
    cbn. apply IH; [by apply world_step_sound|by apply world_step_awake|done]. }
  destruct (Hboth w0 es Hs0 Ha0 Hp) as [Hs Ha]. fold w in Hs, Ha.
  destruct (aw_ready w Ha key Hr) as [?|[Hi|[[token Ht]|(a & Hin & Hk & _)]]]; [by left|..].
  - destruct (so_running w Hs key Hi); auto.
  - right. right. left. destruct (so_timer w Hs key token Ht) as [H1 [t H2]]. exists token, t.
    split; [done|]. split; [done|]. apply (so_args w Hs _ _ H2).
  - right. right. right. by exists a.
Qed.

(** Compactions of one conversation keep their distance.  In any run of a
    new compactor, a compaction that was not forced started no earlier than the
    minimum interval, less a grace of 5 ms, after the one before it of the same
    conversation, whoever started that one and whatever failed since. *)
Theorem compactions_spaced provider model size interval m s es l1 key t l2 t' :
  let w := run (new_world (NewGroupCompactor provider model size interval) m s) es in
  started w = l1 ++ (key, t, false) :: l2 -> last_start key l2 = Some t' ->
  (if interval <=? 0 then DefaultGroupCompactMinInterval else interval) <= time_sub t t' + millisecond5.
Proof.
  intros w Hl. eapply spaced_at. rewrite <- Hl. eapply run_world_cool.
  split; [done|]. split; [|done]. intros k. cbn. by rewrite lookup_empty.
Qed.

(** A caller who forces a compaction hears of it once.  A job's callback was
    not called before the job is about to finish and exactly once then, never
    twice; and a job ends only that way, or, before it runs, because the scope
    is cancelled. *)
Theorem callback_once provider model size interval m s es id :
  let w := run (new_world (NewGroupCompactor provider model size interval) m s) es in
  (notices id w <= 1)%nat /\
  (forall j, jobs w !! id = Some j ->
     notices id w = (if j_onComplete j && finishing j then 1 else 0)%nat /\
     (forall e, jobs (world_step purge w e) !! id = None ->
        finishing j = true \/ (j_at j = Launching /\ cancelled w = true))).
Proof.
  intros w. assert (Hs : sound w) by apply run_world_sound, new_world_sound.
  split; [apply (so_notices w Hs)|]. intros j Hj. split; [by apply (so_live w Hs)|].
  intros e. apply (job_ends purge w e id j Hj).
Qed.

(** Queueing for an owner that no worker serves. *)
Lemma queue_idle owner summary g c d : ctx_done c = false -> blockedErr (p_store c) = None ->
  IsPersistenceActive owner c = false -> TrimSpace owner <> "" -> TrimSpace summary <> "" -> healthy d ->
  within 4 (next_id c) d (persisted owner (fresh_record owner summary g)) (queuePersistence owner summary g c).
Proof.
  intros Hc Hb Hi Ho Hsum Hd. apply orb_false_iff in Hi as [Hact _].
  apply serve_top; try done. unfold queuePersistence.
  change (is_active owner (set_pending ?m c)) with (is_active owner c). rewrite Hact. unfold start_worker.
  cbn [next_id ctx_done set_pending]. rewrite Hc. constructor; cbn; try done.
  - eexists. apply lookup_insert_eq.
  - rewrite lookup_insert_eq. eexists. by split.
Qed.

(** C29: what the model answers reaches the session and the disk.  Let a
    compaction be waiting for the model, its snapshot not invalidated, the
    conversation's record not deleted since the generation was read, and no
    persist worker busy with the owner.  If the answer is not blank, then after
    the compaction's next three steps the answer, trimmed, is the session's
    running summary and the buffer has lost only its front up to the snapshot's
    last message; and on a working disk the worker it started needs at most four
    steps until the store reads the same summary. *)
Theorem answer_reaches_disk id j e w s text d :
  let a := j_args j in
  let key := a_conv a in
  let owner := a_owner a in
  jobs w !! id = Some j -> j_at j = Asking -> sessions w !! key = Some s ->
  e_answer e = Ok (Some text) -> TrimSpace text <> "" ->
  snap_Generation (j_snapshot j) = groupCompactGeneration (compact s) ->
  Generation owner (p_store (pers w)) = j_storeGeneration j ->
  IsPersistenceActive owner (pers w) = false -> cancelled w = false -> blockedErr (p_store (pers w)) = None ->
  TrimSpace owner <> "" -> healthy d ->
  let w' := job_step id e (job_step id e (job_step id e w)) in
  (exists s', sessions w' !! key = Some s' /\ GroupRunningSummary s' = TrimSpace text /\
     groupCompactBuffer (compact s') =
       drop_while (fun i => sequence i <=? snap_ThroughSequence (j_snapshot j)) (groupCompactBuffer (compact s))) /\
  exists worker n rec, (n <= 4)%nat /\
    records (p_store (works worker d n (pers w'))) !! CanonicalSessionID owner = Some rec /\
    rec_Summary rec = TrimSpace text.
Proof.
  intros a key owner Hj Hat Hs He Ht Hg HG Hi Hc Hb Ho Hd.
  set (sum := TrimSpace text).
  assert (E1 : job_step id e w = move_job id j (Committing sum) w).
  { unfold job_step. rewrite Hj, Hat, He. cbn [default]. by rewrite decide_False. }
  assert (Hsum : TrimSpace sum = sum) by (unfold sum; apply TrimSpace_idemp).
  set (j1 := at_phase (Committing sum) j).
  destruct (CommitGroupCompactWithPersistence (j_snapshot j) sum None (e_now e) s) as [r s'] eqn:EC.
  assert (HC : r = (true, None) /\ GroupRunningSummary s' = sum /\ groupCompactBuffer (compact s') =
    drop_while (fun i => sequence i <=? snap_ThroughSequence (j_snapshot j)) (groupCompactBuffer (compact s))).
  { revert EC. unfold CommitGroupCompactWithPersistence. rewrite Hsum, decide_False by done.
    rewrite Hg, Z.eqb_refl. cbn [negb]. by intros [= <- <-]. }
  destruct HC as (-> & Hrun & Hbuf).
  assert (E2 : job_step id e (move_job id j (Committing sum) w) =
    move_job id j1 (Queueing sum) (with_sessions (<[key := s']> (sessions w)) (move_job id j (Committing sum) w))).
  { unfold job_step. cbn [jobs move_job with_jobs]. rewrite lookup_insert_eq. cbn [j_at at_phase j_args sessions j_snapshot move_job with_jobs].
    fold a. fold key. rewrite Hs, EC. done. }
  intros w'. assert (Ew : pers w' = queuePersistence owner sum (j_storeGeneration j) (pers w) /\ sessions w' = <[key := s']> (sessions w)).
  { subst w'. rewrite E1, E2. unfold job_step. cbn [jobs move_job with_jobs with_sessions]. by rewrite lookup_insert_eq. }
  destruct Ew as [Ep Es]. rewrite Ep, Es, lookup_insert_eq. split; [by exists s'|].
  destruct (queue_idle owner sum (j_storeGeneration j) (pers w) d) as (n & Hn & _ & Hh); try done; [by rewrite Hsum|].
  exists (next_id (pers w)), n. destruct Hh as (rec & Hr & Hrs).
  - rewrite works_generation. pose proof (do_event_store (pers w) (Queue owner sum (j_storeGeneration j))) as E.
    cbn [do_event event_op step_op fmap option_fmap option_map default] in E. by rewrite E.
  - exists rec. split; [done|]. split; [done|]. cbn in Hrs. by rewrite Hrs.
Qed.
End properties.

(** * Witnesses *)

Section witnesses.
#[local] Existing Instance ascii_case.

Definition args1 : args := {| a_conv := "group:1"; a_owner := "group:1"; a_scope := {| sc_Platform := "qq"; sc_GroupID := "1" |} |}.
Definition world1 : World :=
  new_world (NewGroupCompactor true "model" 2 0) {["group:1" := new_session "group:1" "old" "" 0]} store1.
Definition env1 (now : Z) : env :=
  {| e_bind := None; e_answer := Ok (Some " news "); e_writer := true; e_extract := None; e_now := now |}.

(** A message arrives [t] seconds in, and its handler triggers. *)
Definition arrives (id text : string) (t : Z) : list wevent :=
  [Change "group:1" (CAppend (says id text) false 5 None t) (Some args1); Trigger args1 (t * second)].

(** Two messages are compacted, two more arrive meanwhile. *)
Definition busy : list wevent :=
  arrives "m1" "a" 1 ++ arrives "m2" "b" 2 ++ replicate 2 (Job 0 (env1 (3 * second))) ++
  arrives "m3" "c" 4 ++ arrives "m4" "d" 5 ++ replicate 6 (Job 0 (env1 (6 * second))).

Lemma full_batch_never_forgotten_witness :
  cancelled (run_world None world1 busy) = true \/
  (exists id j, jobs (run_world None world1 busy) !! id = Some j /\ a_conv (j_args j) = "group:1") \/
  (exists token t, scheduledToken (comp (run_world None world1 busy)) !! "group:1" = Some token /\
     timers (run_world None world1 busy) !! ("group:1", token) = Some t /\ a_conv (timer_args t) = "group:1") \/
  (exists a, a ∈ owed (run_world None world1 busy) /\ a_conv a = "group:1").
Proof.
  apply (full_batch_never_forgotten None "model" 2 0 {["group:1" := new_session "group:1" "old" "" 0]} store1 busy "group:1").
  - discriminate.
  - intros k se [<- <-]%lookup_singleton_Some. reflexivity.
  - cbn [propers busy arrives app replicate]. repeat split; first [discriminate|exact I].
  - vm_compute. reflexivity.
Defined.

(** The timer runs, and its trigger starts the next compaction. *)
Definition later : list wevent :=
  [Expire "group:1" 1 (33 * second); Callback "group:1" 1; Trigger args1 (33 * second)].

Lemma compactions_spaced_witness :
  DefaultGroupCompactMinInterval <= time_sub (33 * second) (2 * second) + millisecond5.
Proof.
  apply (compactions_spaced None true "model" 2 0 {["group:1" := new_session "group:1" "old" "" 0]} store1
    (busy ++ later) [] "group:1" (33 * second) [("group:1", 2 * second, false)] (2 * second));
    vm_compute; reflexivity.
Defined.

(** A compaction that waits for the model. *)
Definition asking : World := run_world None world1
  (arrives "m1" "a" 1 ++ arrives "m2" "b" 2 ++ replicate 2 (Job 0 (env1 (3 * second)))).
Definition asking_session : Session := default (new_session "" "" "" 0) (sessions asking !! "group:1").
Definition asking_job : job := default
  {| j_args := args1; j_snapshot := snap0; j_storeGeneration := 0; j_onComplete := false; j_at := Asking |}
  (jobs asking !! 0%nat).

Lemma answer_reaches_disk_witness :
  let w' := job_step 0 (env1 4) (job_step 0 (env1 4) (job_step 0 (env1 4) asking)) in
  (exists s', sessions w' !! "group:1" = Some s' /\ GroupRunningSummary s' = "news" /\
     groupCompactBuffer (compact s') =
       drop_while (fun i => sequence i <=? snap_ThroughSequence (j_snapshot asking_job)) (groupCompactBuffer (compact asking_session))) /\
  exists worker n rec, (n <= 4)%nat /\
    records (p_store (works worker good n (pers w'))) !! "group:1" = Some rec /\ rec_Summary rec = "news".
Proof.
  apply (answer_reaches_disk 0 asking_job (env1 4) asking asking_session " news " good);
    try (vm_compute; first [reflexivity|discriminate]). by split.
Defined.

(** ** A withdrawn message comes back *)

(** The compaction commits; before it queues the summary, a message of the
    batch is withdrawn, which rolls the session's summary back, and the caller
    rolls the store back.  Queueing then replaces the rolled-back record: the
    session says the old summary, the disk the one with the withdrawn message,
    which a restart will read. *)
Definition withdrawn : list wevent :=
  [Job 0 (env1 4); Job 0 (env1 4);
   Change "group:1" (CDrop 0 "m2" 5) None; Persisting (Rollback "group:1" "old" good);
   Job 0 (env1 6)] ++ replicate 6 (Persisting (Work 0 good ByTimer)).

Lemma withdrawn_summary_written :
  let w := run_world None asking withdrawn in
  (GroupRunningSummary <$> sessions w !! "group:1") = Some "old" /\
  HasPendingPersistence "group:1" (pers w) = false /\
  (rec_Summary <$> records (p_store (pers w)) !! "group:1") = Some "news".
Proof. vm_compute. repeat split. Qed.
End witnesses.
