(* ===== verification/Sequence.v ===== *)
(** Execution lanes: [internal/llm/sequence.go], [ReserveTurn] of
    [internal/llm/session.go] and [completeInterruptedTranscript] of
    [internal/llm/inflight.go].

    Each sender of a conversation has a lane.  Turns of a lane run one after the
    other in arrival order; an interrupting turn cancels the earlier ones, which
    keep their inputs and hand the task's transcript and billing ledger to it.
    A turn that completes clears them, so that nothing is reported twice. *)

From S2P Require Import Prelude GoStrings GroupMessage SessionState History.

Local Open Scope string_scope.
Local Open Scope list_scope.

(** * Updates of the heaps *)

Definition with_turns (f : gmap Z SessionTurn -> gmap Z SessionTurn) (l : LaneState) : LaneState := {|
  sequences := sequences l; lanes := lanes l; turns := f (turns l); skillStates := skillStates l;
  turnTail := turnTail l; nextObject := nextObject l |}.

Definition with_lane (i : Z) (lane : executionSequence) (l : LaneState) : LaneState := {|
  sequences := sequences l; lanes := <[i := lane]> (lanes l); turns := turns l;
  skillStates := skillStates l; turnTail := turnTail l; nextObject := nextObject l |}.

Definition cancel_turn (t : SessionTurn) : SessionTurn := {|
  t_wait := t_wait t; t_done := t_done t; t_epoch := t_epoch t; t_lane := t_lane t;
  t_canceled := true; t_previous := t_previous t; t_inputIndex := t_inputIndex t;
  t_transcriptStart := t_transcriptStart t; t_durable := t_durable t;
  t_messageSeq := t_messageSeq t; t_skillState := t_skillState t |}.

(** [t.cancel()] on every turn of the list. *)
Definition cancel_turns (ids : list Z) (m : gmap Z SessionTurn) : gmap Z SessionTurn :=
  fold_right (fun id m => alter cancel_turn id m) m ids.

(** [for t := start; t != nil; t = t.previous]; as many steps as there are turns. *)
Fixpoint chain_from (fuel : nat) (m : gmap Z SessionTurn) (start : option Z) : list Z :=
  match fuel, start with
  | S fuel, Some id =>
      id :: match m !! id with Some t => chain_from fuel m (t_previous t) | None => [] end
  | _, _ => []
  end.

Definition lane_chain (l : LaneState) (lane : executionSequence) : list Z :=
  chain_from (S (size (turns l))) (turns l) (tail lane).

(** * Reserving *)

(** [ReserveTurn]: the plain FIFO chain, without a lane. *)
Definition ReserveTurn (s : Session) : Z * Session :=
  let '(e, s) := Epoch s in
  let l := lanest s in
  let id := (nextObject l + 1)%Z in
  let t := {| t_wait := turnTail l; t_done := false; t_epoch := e; t_lane := None;
              t_canceled := false; t_previous := None; t_inputIndex := 0; t_transcriptStart := 0;
              t_durable := ""; t_messageSeq := 0; t_skillState := None |} in
  (id, set_lanes {| sequences := sequences l; lanes := lanes l; turns := <[id := t]> (turns l);
                    skillStates := skillStates l; turnTail := Some id; nextObject := id |} s).

Definition new_lane (skill : Z) (pro : bool) : executionSequence := {|
  tail := None; active := None; transcript := []; billing := None; skills := skill;
  proactive := pro; messageIDs := ∅; memoryWritten := false; skillInputs := [] |}.

(** The lane of [key], made on first use with an empty skill state. *)
Definition get_lane (key : string) (pro : bool) (l : LaneState) : Z * executionSequence * LaneState :=
  match sequences l !! key with
  | Some i => (i, default (new_lane 0 pro) (lanes l !! i), l)
  | None =>
      let sk := (nextObject l + 1)%Z in
      let i := (nextObject l + 2)%Z in
      let lane := new_lane sk pro in
      (i, lane, {| sequences := <[key := i]> (sequences l); lanes := <[i := lane]> (lanes l);
                   turns := turns l; skillStates := <[sk := ∅]> (skillStates l);
                   turnTail := turnTail l; nextObject := i |})
  end.

Definition set_tail (t : option Z) (lane : executionSequence) : executionSequence := {|
  tail := t; active := active lane; transcript := transcript lane; billing := billing lane;
  skills := skills lane; proactive := proactive lane; messageIDs := messageIDs lane;
  memoryWritten := memoryWritten lane; skillInputs := skillInputs lane |}.

Definition ReserveSequenceTurn (key : string) (interrupt pro : bool) (s : Session) : Z * Session :=
  let s := init_epoch s in
  let '(i, lane, l) := get_lane key pro (lanest s) in
  let id := (nextObject l + 1)%Z in
  let t := {| t_wait := tail lane; t_done := false; t_epoch := epoch s; t_lane := Some i;
              t_canceled := false; t_previous := tail lane; t_inputIndex := 0;
              t_transcriptStart := 0; t_durable := ""; t_messageSeq := 0; t_skillState := None |} in
  let turns' := if interrupt
    then cancel_turns (option_list (active lane) ++ lane_chain l lane) (turns l)
    else turns l in
  (id, set_lanes {| sequences := sequences l; lanes := <[i := set_tail (Some id) lane]> (lanes l);
                    turns := <[id := t]> turns'; skillStates := skillStates l;
                    turnTail := turnTail l; nextObject := id |} s).

(** [t.Interrupted()]. *)
Definition Interrupted (id : option Z) (s : Session) : bool :=
  match id with
  | Some id => match turns (lanest s) !! id with
               | Some t => match t_lane t with Some _ => t_canceled t | None => false end
               | None => false
               end
  | None => false
  end.

(** [WithAuthority]: the write is admitted unless the turn is cancelled. *)
Definition WithAuthority (id : option Z) (write : res string unit) (s : Session) : res string unit :=
  if Interrupted id s then Err "context canceled" else write.

(** * Preparing a model call *)

Definition user_message (t : string) : ChatMessage := text_message "user" t.
Definition is_system (m : ChatMessage) : bool := bool_decide (Role m = "system").
Definition non_system (l : list ChatMessage) : list ChatMessage :=
  filter (fun m => is_system m = false) l.

(** What [PrepareTurnMessages] writes to its lane and its turn. *)
Definition prepare_lane (history : list (Z * ChatMessage)) (tid id skillID : Z) (durable : string)
    (bill : option Z) (t : SessionTurn) (lane : executionSequence)
    : list ChatMessage * SessionTurn * executionSequence :=
  let messages := map snd (filter (fun p => p.1 ∉ messageIDs lane) history) in
  let start := length (non_system messages) in
  let old := if proactive lane then [] else transcript lane in
  let task := old ++ [user_message durable] in
  (messages ++ old,
   {| t_wait := t_wait t; t_done := t_done t; t_epoch := t_epoch t; t_lane := t_lane t;
      t_canceled := t_canceled t; t_previous := t_previous t;
      t_inputIndex := start + length old; t_transcriptStart := start; t_durable := durable;
      t_messageSeq := id; t_skillState := Some skillID |},
   {| tail := tail lane; active := Some tid; transcript := task;
      billing := match billing lane with Some b => Some b | None => bill end;
      skills := skillID; proactive := proactive lane; messageIDs := {[id]} ∪ messageIDs lane;
      memoryWritten := if proactive lane then false else memoryWritten lane;
      skillInputs := if proactive lane then [] else skillInputs lane |}).

Definition PrepareTurnMessages (tid : option Z) (durable prompt : string) (bill : option Z)
    (now : Z) (s : Session) : (list ChatMessage * option Z * Z) * Session :=
  let turn := id ← tid; turns (lanest s) !! id in
  if match turn with Some t => negb (t_epoch t =? epoch s)%Z | None => false end
  then (([], bill, 0%Z), s) else
  let h := resync (hist s) in
  let history := numbered h in
  let '(id, h) := push (user_message durable) h in
  let s := touch now (set_hist h s) in
  let plain := ((map snd history ++ [user_message prompt], bill, id), s) in
  match tid, turn with
  | Some tid, Some t =>
      match t_lane t with
      | None => plain
      | Some i =>
          let l := lanest s in
          match lanes l !! i with
          | None => plain
          | Some lane =>
              let skillID := (nextObject l + 1)%Z in
              let active := if proactive lane then ∅
                            else default ∅ (skillStates l !! skills lane) in
              let '(messages, t, lane) :=
                prepare_lane history tid id skillID durable bill t lane in
              ((messages ++ [user_message prompt], billing lane, id),
               set_lanes {| sequences := sequences l; lanes := <[i := lane]> (lanes l);
                            turns := <[tid := t]> (turns l);
                            skillStates := <[skillID := active]> (skillStates l);
                            turnTail := turnTail l; nextObject := skillID |} s)
          end
      end
  | _, _ => plain
  end.

(** [transcript[i].Content = durable]. *)
Definition set_content (i : nat) (durable : string) (l : list ChatMessage) : list ChatMessage :=
  alter (fun m => {| Role := Role m; MContent := Text durable; ToolCalls := ToolCalls m;
                     ToolCallID := ToolCallID m |}) i l.

Definition set_transcript (tr : list ChatMessage) (lane : executionSequence) : executionSequence := {|
  tail := tail lane; active := active lane; transcript := tr; billing := billing lane;
  skills := skills lane; proactive := proactive lane; messageIDs := messageIDs lane;
  memoryWritten := memoryWritten lane; skillInputs := skillInputs lane |}.

(** The new lane transcript, or [None] when the checkpoint is kept. *)
Definition checkpoint (t : SessionTurn) (messages : list ChatMessage) : option (list ChatMessage) :=
  let tr := set_content (t_inputIndex t) (t_durable t) (non_system messages) in
  if (length tr <? t_transcriptStart t)%nat then None else Some (drop (t_transcriptStart t) tr).

Definition saveTranscript (tid : Z) (messages : list ChatMessage) (s : Session) : Session :=
  let l := lanest s in
  match turns l !! tid with
  | None => s
  | Some t =>
      match t_lane t with
      | None => s
      | Some i =>
          match lanes l !! i, checkpoint t messages with
          | Some lane, Some tr => set_lanes (with_lane i (set_transcript tr lane) l) s
          | _, _ => s
          end
      end
  end.

(** * Finishing *)

(** The lane after [finishSequence] of turn [tid]. *)
Definition finish_lane (tid : Z) (interrupted : bool) (lane : executionSequence)
    : executionSequence :=
  let last := bool_decide (tail lane = Some tid) in
  let clear := last || negb interrupted in
  {| tail := if last then None else tail lane;
     active := if bool_decide (active lane = Some tid) then None else active lane;
     transcript := if clear then [] else transcript lane;
     billing := if clear then None else billing lane;
     skills := skills lane; proactive := proactive lane;
     messageIDs := if clear then ∅ else messageIDs lane;
     memoryWritten := if clear then false else memoryWritten lane;
     skillInputs := if clear then [] else skillInputs lane |}.

Definition close_turn (laned : bool) (t : SessionTurn) : SessionTurn := {|
  t_wait := t_wait t; t_done := true; t_epoch := t_epoch t; t_lane := t_lane t;
  t_canceled := t_canceled t || laned; t_previous := if laned then None else t_previous t;
  t_inputIndex := t_inputIndex t; t_transcriptStart := t_transcriptStart t;
  t_durable := t_durable t; t_messageSeq := t_messageSeq t; t_skillState := t_skillState t |}.

(** [Done]: once, finish the lane and release the successor. *)
Definition Done (tid : Z) (s : Session) : Session :=
  let l := lanest s in
  match turns l !! tid with
  | None => s
  | Some t =>
      if t_done t then s else
      match t_lane t with
      | None => set_lanes (with_turns (insert tid (close_turn false t)) l) s
      | Some i =>
          let l := match lanes l !! i with
            | Some lane => with_lane i (finish_lane tid (t_canceled t) lane) l
            | None => l
            end in
          set_lanes (with_turns (insert tid (close_turn true t)) l) s
      end
  end.

(** Whether [Wait] returns. *)
Definition wait_over (tid : Z) (s : Session) : bool :=
  match turns (lanest s) !! tid with
  | None => true
  | Some t =>
      match t_wait t with
      | None => true
      | Some p => match turns (lanest s) !! p with Some q => t_done q | None => true end
      end
  end.

Definition cancelSequencesLocked (l : LaneState) : LaneState :=
  let ids := map_to_list (sequences l) ≫= fun p =>
    match lanes l !! p.2 with
    | Some lane => option_list (active lane) ++ lane_chain l lane
    | None => []
    end in
  with_turns (cancel_turns ids) l.

(** [t.memoryState(written)]. *)
Definition memoryState (tid : option Z) (written : bool) (s : Session) : bool * Session :=
  match (id ← tid; t ← turns (lanest s) !! id; i ← t_lane t;
         lane ← lanes (lanest s) !! i; Some (i, lane)) with
  | None => (written, s)
  | Some (i, lane) =>
      let w := memoryWritten lane || written in
      (w, set_lanes (with_lane i {| tail := tail lane; active := active lane;
           transcript := transcript lane; billing := billing lane; skills := skills lane;
           proactive := proactive lane; messageIDs := messageIDs lane; memoryWritten := w;
           skillInputs := skillInputs lane |} (lanest s)) s)
  end.

(** * Interrupted tool batches *)

Definition not_started : string := "Interrupted before execution: this tool was not started.".
Definition outcome_unknown : string :=
  "Interrupted while executing: outcome unknown. Side effects may already have occurred. Do not repeat this operation automatically; verify its status first.".

Definition tool_message (id text : string) : ChatMessage := {|
  Role := "tool"; MContent := Text text; ToolCalls := []; ToolCallID := id |}.

Definition is_tool_batch (m : ChatMessage) : bool :=
  bool_decide (Role m = "assistant") && negb (bool_decide (ToolCalls m = [])).

(** The loop from the end: stop at a tool batch, or at a message that is no tool message. *)
Fixpoint last_batch (l : list ChatMessage) : option (list ToolCall * list ChatMessage) :=
  match l with
  | [] => None
  | m :: l =>
      if is_tool_batch m then Some (ToolCalls m, [])
      else if negb (bool_decide (Role m = "tool")) then None
      else match last_batch l with
           | Some (calls, after) => Some (calls, after ++ [m])
           | None => None
           end
  end.

Definition completeInterruptedTranscript (messages : list ChatMessage) (started : gset string)
    : list ChatMessage :=
  match last_batch (rev messages) with
  | None => messages
  | Some (calls, after) =>
      let completed := map ToolCallID after in
      messages ++
      map (fun c => tool_message (tc_ID c)
             (if decide (tc_ID c ∈ started) then outcome_unknown else not_started))
        (filter (fun c => tc_ID c ∉ completed) calls)
  end.

(** * Interrupted batches are completed *)

Section interrupted.
Implicit Types (l : list ChatMessage) (started : gset string).

Lemma last_batch_tools l calls after :
  last_batch l = Some (calls, after) ->
  exists m rest, l = rev after ++ m :: rest /\ is_tool_batch m = true /\ calls = ToolCalls m /\
    Forall (fun m => Role m = "tool") after.
Proof.
  revert calls after; induction l as [|m l IH]; intros calls after; simpl; [done|].
  destruct (is_tool_batch m) eqn:Hb; [intros [= <- <-]; by exists m, l|].
  case_bool_decide as Ht; simpl; [|done].
  destruct (last_batch l) as [[c a]|]; [|done]. intros [= <- <-].
  destruct (IH _ _ eq_refl) as (m' & rest & -> & ? & ? & Hf). exists m', rest.
  rewrite rev_app_distr. split; [done|split; [done|split; [done|]]].
  apply Forall_app. split; [done|by constructor].
Qed.

(** Tool messages that follow do not change which batch is the last one. *)
Lemma last_batch_app tools l calls after :
  Forall (fun m => Role m = "tool") tools -> last_batch l = Some (calls, after) ->
  last_batch (rev tools ++ l) = Some (calls, after ++ tools).
Proof.
  intros Hf Hl. revert Hf. induction tools as [|m tools IH] using rev_ind; intros Hf.
  { by rewrite app_nil_r. }
  apply Forall_app in Hf as [Hf [Hm _]%Forall_cons_1].
  rewrite rev_app_distr. simpl. unfold is_tool_batch at 1. rewrite Hm. simpl.
  rewrite IH by done. by rewrite app_assoc.
Qed.

(** Interrupting a batch of tool calls leaves no call unanswered: the
    transcript is extended, never changed; each call of the trailing batch has
    an answer after it; the answers added are for exactly the calls that had
    none, and say whether the call may have run; completing twice is the same
    as completing once. *)
Theorem interrupted_batch_answered l started calls after :
  last_batch (rev l) = Some (calls, after) ->
  let result := completeInterruptedTranscript l started in
  exists added,
    result = l ++ added /\
    (forall c, c ∈ calls -> exists m, m ∈ after ++ added /\ ToolCallID m = tc_ID c) /\
    (forall m, m ∈ added -> exists c, c ∈ calls /\ (tc_ID c ∉ map ToolCallID after) /\
       m = tool_message (tc_ID c)
             (if decide (tc_ID c ∈ started) then outcome_unknown else not_started)) /\
    completeInterruptedTranscript result started = result.
Proof.
  intros Hb result. unfold result, completeInterruptedTranscript at 1 3. rewrite Hb.
  set (answer := fun c => tool_message (tc_ID c) _).
  set (missing := filter (fun c => tc_ID c ∉ map ToolCallID after) calls).
  exists (map answer missing). split; [done|].
  assert (forall c, c ∈ calls -> exists m, m ∈ after ++ map answer missing /\ ToolCallID m = tc_ID c) as Hall.
  { intros c Hc. destruct (decide (tc_ID c ∈ map ToolCallID after)) as [Hin|Hin].
    - apply list_elem_of_fmap in Hin as (m & E & Hm). exists m. rewrite elem_of_app. auto.
    - exists (answer c). rewrite elem_of_app. split; [right|done].
      apply list_elem_of_fmap. exists c. split; [done|]. by apply list_elem_of_filter. }
  split; [done|]. split.
  { intros m Hm. apply list_elem_of_fmap in Hm as (c & -> & Hc).
    apply list_elem_of_filter in Hc as [? ?]. by exists c. }
  unfold completeInterruptedTranscript. rewrite Hb. rewrite rev_app_distr.
  rewrite (last_batch_app _ _ calls after); [|by apply Forall_forall; intros m (c & -> & _)%list_elem_of_fmap|done].
  fold missing. rewrite filter_none; [apply app_nil_r|].
  apply Forall_forall. intros c Hc Hno. apply Hno.
  destruct (Hall c Hc) as (m & Hm & <-). by apply list_elem_of_fmap_2.
Qed.
End interrupted.

(** * Checkpoints *)

Lemma non_system_app l k : non_system (l ++ k) = non_system l ++ non_system k.
Proof. apply filter_app. Qed.

Lemma non_system_id l : Forall (fun m => is_system m = false) l -> non_system l = l.
Proof. apply filter_id. Qed.

Lemma set_content_middle l m k d :
  set_content (length l) d (l ++ m :: k) =
  l ++ {| Role := Role m; MContent := Text d; ToolCalls := ToolCalls m; ToolCallID := ToolCallID m |} :: k.
Proof. unfold set_content. by rewrite alter_app_r_alt, Nat.sub_diag by lia. Qed.

(** The lane's transcript holds no system message. *)
Definition lane_ok (lane : executionSequence) : Prop :=
  Forall (fun m => is_system m = false) (transcript lane).

Lemma prepare_checkpoint history tid id sk durable prompt bill t lane msgs t' lane' sys more :
  lane_ok lane -> Forall (fun m => is_system m = true) sys ->
  prepare_lane history tid id sk durable bill t lane = (msgs, t', lane') ->
  lane_ok lane' /\
  checkpoint t' (sys ++ msgs ++ user_message prompt :: more) = Some (transcript lane' ++ non_system more).
Proof.
  intros Hok Hsys. unfold prepare_lane. set (messages := map snd _).
  set (old := if proactive lane then [] else transcript lane).
  assert (Forall (fun m => is_system m = false) old) as Hold by (subst old; by case_match).
  intros [= <- <- <-]. split.
  { unfold lane_ok; simpl. apply Forall_app. split; [done|]. by constructor. }
  unfold checkpoint; cbn [t_inputIndex t_transcriptStart t_durable transcript].
  assert (non_system (sys ++ (messages ++ old) ++ user_message prompt :: more)
    = (non_system messages ++ old) ++ user_message prompt :: non_system more) as ->.
  { rewrite !non_system_app, (non_system_id old) by done.
    unfold non_system at 1. rewrite filter_none; [done|].
    eapply Forall_impl; [exact Hsys|]. simpl. intros ? ->. done. }
  rewrite <- length_app, set_content_middle, <- app_assoc.
  rewrite (proj2 (Nat.ltb_ge _ _)) by (rewrite length_app; lia).
  rewrite drop_app_length. by rewrite <- app_assoc.
Qed.

(** A task survives interruption without the throw-away prompt.  After a
    turn was prepared, saving the messages of the model call (system messages
    in front, the prepared messages, anything after them) makes the lane's
    transcript the prepared one, in which the durable text stands for the
    prompt, followed by what the call added; system messages are left out. *)
Theorem saveTranscript_checkpoint s s1 tid durable prompt bill now msgs b id i lane t sys more :
  turns (lanest s) !! tid = Some t -> t_epoch t = epoch s -> t_lane t = Some i ->
  lanes (lanest s) !! i = Some lane -> lane_ok lane ->
  PrepareTurnMessages (Some tid) durable prompt bill now s = ((msgs, b, id), s1) ->
  Forall (fun m => is_system m = true) sys ->
  exists lane1, lanes (lanest s1) !! i = Some lane1 /\ lane_ok lane1 /\
    last (transcript lane1) = Some (user_message durable) /\
    last msgs = Some (user_message prompt) /\
    lanes (lanest (saveTranscript tid (sys ++ msgs ++ more) s1)) !! i
      = Some (set_transcript (transcript lane1 ++ non_system more) lane1).
Proof.
  intros Ht He Hi Hlane Hok. unfold PrepareTurnMessages. cbn [mbind option_bind].
  rewrite Ht, He, Z.eqb_refl. cbn [negb]. set (h := resync (hist s)).
  destruct (push (user_message durable) h) as [seq h'].
  rewrite Hi. cbn [lanest touch set_hist]. rewrite Hlane.
  destruct (prepare_lane _ tid seq _ durable bill t lane) as [[ms t'] lane'] eqn:Hp.
  intros [= <- <- <- <-] Hsys.
  destruct (prepare_checkpoint _ _ _ _ _ prompt _ _ _ _ _ _ sys more Hok Hsys Hp) as [Hok' Hc].
  exists lane'. cbn [lanest set_lanes lanes]. rewrite lookup_insert_eq.
  split; [done|]. split; [done|]. split.
  { unfold prepare_lane in Hp. injection Hp as <- <- <-. simpl. apply last_snoc. }
  split; [apply last_snoc|].
  unfold saveTranscript. cbn [lanest set_lanes lanes turns]. rewrite lookup_insert_eq.
  assert (t_lane t' = Some i) as ->.
  { unfold prepare_lane in Hp. by injection Hp as <- <- <-. }
  rewrite lookup_insert_eq. rewrite <- (app_assoc ms). cbn [app]. rewrite Hc.
  cbn [lanest set_lanes with_lane lanes]. by rewrite lookup_insert_eq.
Qed.

(** * Interruption *)

Section queue.
Local Open Scope Z_scope.

(** The turns a lane's [tail] leads to. *)
Inductive queued (m : gmap Z SessionTurn) : option Z -> Z -> Prop :=
  | queued_here id : queued m (Some id) id
  | queued_previous id t x : m !! id = Some t -> queued m (t_previous t) x -> queued m (Some id) x.

(** A turn of a lane waits for the turn of the lane reserved just before it, or
    for none when all of those are done; the lane's tail is its last turn; its
    active turn is one of its turns. *)
Record lanes_wf (l : LaneState) : Prop := {
  wf_turn x t : turns l !! x = Some t -> x <= nextObject l;
  wf_turn_lane x t i : turns l !! x = Some t -> t_lane t = Some i -> is_Some (lanes l !! i);
  wf_lane i lane : lanes l !! i = Some lane -> i <= nextObject l;
  wf_seq k i : sequences l !! k = Some i -> is_Some (lanes l !! i);
  wf_previous x t p : turns l !! x = Some t -> t_previous t = Some p ->
    t_wait t = Some p /\ is_Some (t_lane t);
  wf_wait y t i p : turns l !! y = Some t -> t_lane t = Some i -> t_wait t = Some p ->
    p < y /\ (exists tp, turns l !! p = Some tp /\ t_lane tp = Some i) /\
    forall x tx, p < x < y -> turns l !! x = Some tx -> t_lane tx <> Some i;
  wf_first y t i x tx : turns l !! y = Some t -> t_lane t = Some i -> t_wait t = None ->
    x < y -> turns l !! x = Some tx -> t_lane tx = Some i -> t_done tx = true;
  wf_tail i lane p : lanes l !! i = Some lane -> tail lane = Some p ->
    (exists tp, turns l !! p = Some tp /\ t_lane tp = Some i) /\
    forall x tx, turns l !! x = Some tx -> t_lane tx = Some i -> x <= p;
  wf_idle i lane x tx : lanes l !! i = Some lane -> tail lane = None ->
    turns l !! x = Some tx -> t_lane tx = Some i -> t_done tx = true;
  wf_active i lane p : lanes l !! i = Some lane -> active lane = Some p ->
    exists tp, turns l !! p = Some tp /\ t_lane tp = Some i;
}.

Definition below (m : gmap Z SessionTurn) (x : Z) : gset Z := filter (fun k => k <= x) (dom m).

(** With as much fuel as turns the walk along [previous] is complete. *)
Lemma chain_from_complete m fuel start x :
  (forall x t p, m !! x = Some t -> t_previous t = Some p -> p < x /\ is_Some (m !! p)) ->
  is_Some (m !! start) -> (size (below m start) <= fuel)%nat ->
  queued m (Some start) x -> x ∈ chain_from fuel m (Some start).
Proof.
  intros Hprev. revert start x. induction fuel as [|fuel IH]; intros start x Hin Hf Hq.
  { exfalso. assert (start ∈ below m start) as Hs.
    { unfold below. apply elem_of_filter. split; [lia|]. by apply elem_of_dom. }
    assert (size (below m start) = 0)%nat as H0 by lia.
    apply size_empty_inv in H0. by apply (H0 start) in Hs. }
  inversion Hq as [|? t ? Ht Hq']; subst; simpl; [by left|]. right. rewrite Ht.
  destruct (t_previous t) as [p|] eqn:Hp; [|inversion Hq'].
  destruct (Hprev _ _ _ Ht Hp) as [Hlt Hpin]. apply IH; [done| |done].
  assert (below m p ⊂ below m start) as Hsub.
  { split.
    - intros k. unfold below. rewrite !elem_of_filter. intros [? ?]. split; [lia|done].
    - intros Hsub. specialize (Hsub start). unfold below in Hsub. rewrite !elem_of_filter in Hsub.
      destruct Hsub; [|lia]. split; [lia|]. by apply elem_of_dom. }
  apply subset_size in Hsub. lia.
Qed.

Lemma previous_older l x t p :
  lanes_wf l -> turns l !! x = Some t -> t_previous t = Some p -> p < x /\ is_Some (turns l !! p).
Proof.
  intros Hwf Hx Hp. destruct (wf_previous l Hwf x t p Hx Hp) as [Hw [i Hl]].
  destruct (wf_wait l Hwf x t i p Hx Hl Hw) as (? & (tp & ? & _) & _). eauto.
Qed.

Lemma lane_chain_complete l lane x i :
  lanes_wf l -> lanes l !! i = Some lane -> queued (turns l) (tail lane) x -> x ∈ lane_chain l lane.
Proof.
  intros Hwf Hi Hq. unfold lane_chain. destruct (tail lane) as [t|] eqn:Et; [|inversion Hq].
  apply chain_from_complete; [intros; by eapply previous_older| | |done].
  { destruct (wf_tail l Hwf i lane t Hi Et) as ((? & ? & _) & _). eauto. }
  rewrite <- (size_dom (turns l)). assert (below (turns l) t ⊆ dom (turns l)) as Hs.
  { intros k. unfold below. rewrite elem_of_filter. tauto. }
  apply subseteq_size in Hs. lia.
Qed.

(** The chain stays in the lane. *)
Lemma chain_from_lane l i fuel start x :
  lanes_wf l ->
  (forall p, start = Some p -> exists t, turns l !! p = Some t /\ t_lane t = Some i) ->
  x ∈ chain_from fuel (turns l) start -> exists t, turns l !! x = Some t /\ t_lane t = Some i.
Proof.
  intros Hwf. revert start. induction fuel as [|fuel IH]; intros [p|] Hs Hx; simpl in Hx;
    try by apply not_elem_of_nil in Hx.
  apply elem_of_cons in Hx as [->|Hx]; [by apply Hs|].
  destruct (Hs p eq_refl) as (t & Ht & Hl). rewrite Ht in Hx. apply (IH (t_previous t)); [|done].
  intros q Hq. destruct (wf_previous l Hwf p t q Ht Hq) as [Hw _].
  by destruct (wf_wait l Hwf p t i q Ht Hl Hw) as (_ & ? & _).
Qed.

Lemma lookup_cancel_turns ids m x :
  cancel_turns ids m !! x = if decide (x ∈ ids) then cancel_turn <$> m !! x else m !! x.
Proof.
  induction ids as [|id ids IH]; simpl; [done|].
  destruct (decide (x = id)) as [->|Hne].
  - rewrite lookup_alter_eq, IH, (decide_True (P := id ∈ id :: ids)) by by left.
    case_decide; [|done]. by destruct (m !! id).
  - rewrite lookup_alter_ne, IH by done. repeat case_decide; set_solver.
Qed.


(** Who owns the ledger and the transcript of a task.  A turn that completes,
    or that has no successor, clears them, so the next turn of the lane starts
    a new task with its own ledger and the whole conversation; a turn that was
    interrupted leaves them to its successor, which is billed on the same
    ledger and sees the task's transcript. *)
Theorem Done_handover s tid t i lane tid2 t2 durable prompt bill now :
  turns (lanest s) !! tid = Some t -> t_done t = false -> t_lane t = Some i ->
  lanes (lanest s) !! i = Some lane ->
  tid2 <> tid -> turns (lanest s) !! tid2 = Some t2 -> t_lane t2 = Some i -> t_epoch t2 = epoch s ->
  hist_ok (hist s) ->
  let '((msgs, b, _), _) := PrepareTurnMessages (Some tid2) durable prompt bill now (Done tid s) in
  if t_canceled t && negb (bool_decide (tail lane = Some tid)) then
    b = match billing lane with Some b => Some b | None => bill end /\
    msgs = map snd (filter (fun p => p.1 ∉ messageIDs lane) (numbered (hist s))) ++
           (if proactive lane then [] else transcript lane) ++ [user_message prompt]
  else
    b = bill /\ msgs = History (hist s) ++ [user_message prompt].
Proof.
  intros Ht Hd Hl Hi Hne Ht2 Hl2 He Hok. unfold Done. rewrite Ht, Hd, Hl, Hi.
  unfold PrepareTurnMessages. cbn [mbind option_bind lanest set_lanes with_turns with_lane turns lanes].
  rewrite lookup_insert_ne by done. rewrite Ht2.
  cbn [epoch hist set_lanes]. rewrite He, Z.eqb_refl. cbn [negb]. rewrite resync_ok by done.
  destruct (push (user_message durable) (hist s)) as [seq h'].
  rewrite Hl2. cbn [lanest touch set_hist set_lanes with_turns with_lane lanes nextObject skillStates].
  rewrite lookup_insert_eq. unfold prepare_lane.
  cbn [billing transcript proactive messageIDs finish_lane].
  destruct (t_canceled t), (bool_decide (tail lane = Some tid)); cbn [negb orb andb].
  1, 3, 4: split; [done|]; rewrite filter_id by (apply Forall_forall; set_solver);
    rewrite numbered_snd by done; by destruct (proactive lane); rewrite app_nil_r.
  split; [done|]. by rewrite <- app_assoc.
Qed.

(** ** Turns of a lane run one at a time, in arrival order *)

(** The fields of a turn the order depends on. *)
Definition order_of (t : SessionTurn) : option Z * option Z * option Z * bool :=
  (t_wait t, t_lane t, t_previous t, t_done t).

(** Same turns in the same order: only contents of turns and lanes differ. *)
Record same_order (l k : LaneState) : Prop := {
  so_turns x : order_of <$> turns l !! x = order_of <$> turns k !! x;
  so_lanes i : tail <$> lanes l !! i = tail <$> lanes k !! i;
  so_active i lane p : lanes k !! i = Some lane -> active lane = Some p ->
    exists tp, turns k !! p = Some tp /\ t_lane tp = Some i;
  so_seq k' i : sequences k !! k' = Some i -> is_Some (lanes k !! i);
  so_next : nextObject l <= nextObject k;
}.

Lemma so_turn l k x t :
  same_order l k -> turns k !! x = Some t ->
  exists t', turns l !! x = Some t' /\ t_wait t' = t_wait t /\ t_lane t' = t_lane t /\
    t_previous t' = t_previous t /\ t_done t' = t_done t.
Proof.
  intros Hso Ht. pose proof (so_turns _ _ Hso x) as E. rewrite Ht in E.
  destruct (turns l !! x) as [t'|]; [|done]. exists t'.
  unfold order_of in E. simpl in E. split; [done|]. by simplify_eq.
Qed.

Lemma so_turn' l k x t :
  same_order l k -> turns l !! x = Some t ->
  exists t', turns k !! x = Some t' /\ t_wait t' = t_wait t /\ t_lane t' = t_lane t /\
    t_previous t' = t_previous t /\ t_done t' = t_done t.
Proof.
  intros Hso Ht. pose proof (so_turns _ _ Hso x) as E. rewrite Ht in E.
  destruct (turns k !! x) as [t'|]; [|done]. exists t'.
  unfold order_of in E. simpl in E. split; [done|]. by simplify_eq.
Qed.

Lemma so_lane l k i lane :
  same_order l k -> lanes k !! i = Some lane ->
  exists lane', lanes l !! i = Some lane' /\ tail lane' = tail lane.
Proof.
  intros Hso Hi. pose proof (so_lanes _ _ Hso i) as E. rewrite Hi in E.
  destruct (lanes l !! i) as [lane'|]; [|done]. exists lane'. split; [done|]. by injection E.
Qed.

(** Translate facts on [k] to facts on [l] and back. *)
Ltac so_back Hso :=
  repeat match goal with
  | H : turns ?k !! ?x = Some ?t, H' : same_order _ ?k |- _ =>
      let t' := fresh "t'" in
      destruct (so_turn _ _ _ _ H' H) as (t' & ? & ? & ? & ? & ?); clear H
  | H : lanes ?k !! ?x = Some ?t, H' : same_order _ ?k |- _ =>
      let t' := fresh "lane'" in
      destruct (so_lane _ _ _ _ H' H) as (t' & ? & ?); clear H
  end.

Lemma same_order_wf l k : same_order l k -> lanes_wf l -> lanes_wf k.
Proof.
  intros Hso Hwf.
  assert (forall i, is_Some (lanes l !! i) -> is_Some (lanes k !! i)) as Hlk.
  { intros i. pose proof (so_lanes _ _ Hso i) as E.
    destruct (lanes l !! i), (lanes k !! i); intros [? ?]; try done; eauto. }
  assert (forall p i, (exists tp, turns l !! p = Some tp /\ t_lane tp = Some i) ->
    exists tp, turns k !! p = Some tp /\ t_lane tp = Some i) as Hown.
  { intros p i (tp & Hp & Hl). destruct (so_turn' _ _ _ _ Hso Hp) as (t' & ? & ? & ? & _).
    exists t'. split; [done|congruence]. }
  pose proof (so_next _ _ Hso). split.
  - intros x t Hx. so_back Hso. match goal with H : turns l !! x = _ |- _ =>
      pose proof (wf_turn l Hwf _ _ H) end. lia.
  - intros x t i Hx Hl. so_back Hso. apply Hlk. eapply (wf_turn_lane l Hwf); [eassumption|congruence].
  - intros i lane Hi. so_back Hso. match goal with H : lanes l !! i = _ |- _ =>
      pose proof (wf_lane l Hwf _ _ H) end. lia.
  - intros. by eapply so_seq.
  - intros x t p Hx Hp. so_back Hso. match goal with H : turns l !! x = Some ?t' |- _ =>
      destruct (wf_previous l Hwf x t' p H) as [? [? ?]]; [congruence|] end.
    split; [congruence|]. destruct (t_lane t); [eauto|congruence].
  - intros y t i p Hy Hl Hw. so_back Hso. match goal with H : turns l !! y = Some ?t' |- _ =>
      destruct (wf_wait l Hwf y t' i p H) as (? & ? & Hn); [congruence..|] end.
    split; [done|]. split; [by apply Hown|]. intros x tx Hx Htx ?. so_back Hso.
    match goal with H : turns l !! x = Some ?t' |- _ => apply (Hn x t' Hx H); congruence end.
  - intros y t i x tx Hy Hl Hw Hlt Hx Hlx. so_back Hso.
    match goal with H : turns l !! y = Some ?t1, H' : turns l !! x = Some ?t2 |- _ =>
      assert (t_done t2 = true) by (eapply (wf_first l Hwf y t1 i x t2); congruence || done) end. congruence.
  - intros i lane p Hi Ht. so_back Hso. match goal with H : lanes l !! i = Some ?l1 |- _ =>
      destruct (wf_tail l Hwf i l1 p H) as (? & Hmax); [congruence|] end.
    split; [by apply Hown|]. intros x tx Hx Hlx. so_back Hso. eapply Hmax; [eassumption|congruence].
  - intros i lane x tx Hi Ht Hx Hlx. so_back Hso.
    match goal with H : lanes l !! i = Some ?l1, H' : turns l !! x = Some ?t2 |- _ =>
      assert (t_done t2 = true) by (eapply (wf_idle l Hwf i l1 x t2); congruence || done) end. congruence.
  - intros. by eapply so_active.
Qed.

Lemma get_lane_wf key pro l i lane l' :
  lanes_wf l -> get_lane key pro l = (i, lane, l') ->
  lanes_wf l' /\ lanes l' !! i = Some lane /\ turns l' = turns l /\ nextObject l <= nextObject l'.
Proof.
  intros Hwf. unfold get_lane. destruct (sequences l !! key) as [j|] eqn:Hk.
  { intros [= <- <- <-]. destruct (wf_seq l Hwf _ _ Hk) as [lane' ->]. simpl. split; [done|].
    split; [done|]. split; [done|lia]. }
  intros [= <- <- <-]. cbn [lanes turns nextObject]. rewrite lookup_insert_eq.
  split; [|split; [done|split; [done|lia]]].
  assert (forall x t, turns l !! x = Some t -> t_lane t <> Some (nextObject l + 2)) as Hno.
  { intros x t Hx Hl. destruct (wf_turn_lane l Hwf x t _ Hx Hl) as [? Hi].
    apply (wf_lane l Hwf) in Hi. lia. }
  split; cbn [lanes turns nextObject sequences].
  - intros x t Hx. apply (wf_turn l Hwf) in Hx. lia.
  - intros x t j Hx Hl. rewrite lookup_insert_is_Some. right.
    split; [|by eapply wf_turn_lane]. intros <-. by apply (Hno x t).
  - intros j lane. destruct (decide (j = nextObject l + 2)) as [->|Hne]; [lia|].
    rewrite lookup_insert_ne by done. intros Hj. apply (wf_lane l Hwf) in Hj. lia.
  - intros k j. destruct (decide (k = key)) as [->|Hne].
    + rewrite lookup_insert_eq. intros [= <-]. rewrite lookup_insert_eq. eauto.
    + rewrite lookup_insert_ne by done. intros Hkj. rewrite lookup_insert_is_Some.
      destruct (wf_seq l Hwf _ _ Hkj) as [lane Hj]. right. split; [|by eauto].
      apply (wf_lane l Hwf) in Hj. lia.
  - apply (wf_previous l Hwf).
  - apply (wf_wait l Hwf).
  - apply (wf_first l Hwf).
  - intros j lane p. destruct (decide (j = nextObject l + 2)) as [->|Hne].
    { rewrite lookup_insert_eq. by intros [= <-]. }
    rewrite lookup_insert_ne by done. apply (wf_tail l Hwf).
  - intros j lane x tx. destruct (decide (j = nextObject l + 2)) as [->|Hne].
    { intros _ _ Hx Hl. by destruct (Hno x tx). }
    rewrite lookup_insert_ne by done. apply (wf_idle l Hwf).
  - intros j lane p. destruct (decide (j = nextObject l + 2)) as [->|Hne].
    { rewrite lookup_insert_eq. by intros [= <-]. }
    rewrite lookup_insert_ne by done. apply (wf_active l Hwf).
Qed.

(** A new last turn of a lane. *)
Lemma insert_turn_wf l i lane t :
  lanes_wf l -> lanes l !! i = Some lane ->
  t_wait t = tail lane -> t_previous t = tail lane -> t_lane t = Some i ->
  let id := nextObject l + 1 in
  lanes_wf {| sequences := sequences l; lanes := <[i := set_tail (Some id) lane]> (lanes l);
              turns := <[id := t]> (turns l); skillStates := skillStates l;
              turnTail := turnTail l; nextObject := id |}.
Proof.
  intros Hwf Hi Hw Hp Hl id.
  assert (forall x t0, turns l !! x = Some t0 -> x < id) as Hlt.
  { intros x t0 Hx. apply (wf_turn l Hwf) in Hx. lia. }
  assert (forall x t0, <[id := t]> (turns l) !! x = Some t0 ->
    (x = id /\ t0 = t) \/ (x < id /\ turns l !! x = Some t0)) as Hcase.
  { intros x t0 [[<- <-]|[? Hx]]%lookup_insert_Some; [by left|right].
    split; [by eapply Hlt|done]. }
  assert (forall p j, (exists tp, turns l !! p = Some tp /\ t_lane tp = Some j) ->
    exists tp, <[id := t]> (turns l) !! p = Some tp /\ t_lane tp = Some j) as Hown.
  { intros p j (tp & Hp' & ?). exists tp. rewrite lookup_insert_ne; [done|].
    apply Hlt in Hp'. lia. }
  split; cbn [lanes turns nextObject sequences].
  - intros x t0 [[-> ->]|[? Hx]]%Hcase; lia.
  - intros x t0 j [[-> ->]|[? Hx]]%Hcase Hj; rewrite lookup_insert_is_Some.
    + rewrite Hl in Hj. injection Hj as <-. by left.
    + destruct (decide (i = j)); [by left|right]. split; [done|]. by eapply wf_turn_lane.
  - intros j lane0 [[<- _]|[_ Hj]]%lookup_insert_Some; [apply (wf_lane l Hwf) in Hi; lia|].
    apply (wf_lane l Hwf) in Hj. lia.
  - intros k j Hk. rewrite lookup_insert_is_Some. destruct (decide (i = j)); [by left|right].
    split; [done|]. by eapply wf_seq.
  - intros x t0 p [[-> ->]|[? Hx]]%Hcase Hp0; [|by eapply wf_previous].
    split; [congruence|]. rewrite Hl. eauto.
  - intros y t0 j p [[-> ->]|[? Hy]]%Hcase Hj Hp0.
    + assert (j = i) as -> by congruence. rewrite Hw in Hp0.
      destruct (wf_tail l Hwf i lane p Hi Hp0) as [(tp & Htp & Hlp) Hmax].
      split; [by eapply Hlt|]. split; [apply Hown; eauto|].
      intros x tx [? ?] [[-> ->]|[? Hx]]%Hcase Hlx; [lia|]. specialize (Hmax x tx Hx Hlx). lia.
    + destruct (wf_wait l Hwf y t0 j p Hy Hj Hp0) as (? & ? & Hn). split; [done|].
      split; [by apply Hown|]. intros x tx Hx [[-> ->]|[? Hx']]%Hcase; [lia|]. by eapply Hn.
  - intros y t0 j x tx [[-> ->]|[? Hy]]%Hcase Hj Hw0 Hxy [[-> ->]|[? Hx]]%Hcase Hlx; try lia.
    + assert (j = i) as -> by congruence. eapply (wf_idle l Hwf i lane); [done| |done|done].
      congruence.
    + by eapply (wf_first l Hwf y t0 j x tx).
  - intros j lane0 p [[<- <-]|[? Hj]]%lookup_insert_Some.
    + intros [= <-]. split; [exists t; by rewrite lookup_insert_eq|].
      intros x tx [[-> ->]|[? Hx]]%Hcase _; lia.
    + intros Hp0. destruct (wf_tail l Hwf j lane0 p Hj Hp0) as [? Hmax]. split; [by apply Hown|].
      intros x tx [[-> ->]|[? Hx]]%Hcase Hlx; [congruence|by eapply Hmax].
  - intros j lane0 x tx [[<- <-]|[? Hj]]%lookup_insert_Some Ht; [done|].
    intros [[-> ->]|[? Hx]]%Hcase Hlx; [congruence|]. by eapply (wf_idle l Hwf j lane0).
  - intros j lane0 p [[<- <-]|[? Hj]]%lookup_insert_Some Ha; apply Hown.
    + by eapply (wf_active l Hwf i lane).
    + by eapply (wf_active l Hwf j lane0).
Qed.

Lemma cancel_turns_order ids m x : order_of <$> cancel_turns ids m !! x = order_of <$> m !! x.
Proof. rewrite lookup_cancel_turns. case_decide; [|done]. by destruct (m !! x). Qed.

Lemma cancel_turns_same_order ids l : lanes_wf l -> same_order l (with_turns (cancel_turns ids) l).
Proof.
  intros Hwf. split; cbn [with_turns turns lanes sequences nextObject].
  - intros x. by rewrite cancel_turns_order.
  - done.
  - intros i lane p Hi Ha. destruct (wf_active l Hwf i lane p Hi Ha) as (tp & Hp & Hl).
    rewrite lookup_cancel_turns, Hp. case_decide; [exists (cancel_turn tp)|exists tp]; by split.
  - intros. by eapply wf_seq.
  - lia.
Qed.

Lemma ReserveSequenceTurn_wf key int pro s id s' :
  lanes_wf (lanest s) -> ReserveSequenceTurn key int pro s = (id, s') -> lanes_wf (lanest s').
Proof.
  intros Hwf. unfold ReserveSequenceTurn.
  assert (lanest (init_epoch s) = lanest s) as -> by (unfold init_epoch; by case_match).
  destruct (get_lane key pro (lanest s)) as [[i lane] l] eqn:Hg.
  destruct (get_lane_wf _ _ _ _ _ _ Hwf Hg) as (Hwf' & Hi & _). intros [= <- <-].
  cbn [lanest set_lanes]. destruct int.
  - set (ids := option_list _ ++ _). set (k := with_turns (cancel_turns ids) l).
    apply (insert_turn_wf k i lane); try done. eapply same_order_wf; [|done].
    by apply cancel_turns_same_order.
  - by apply (insert_turn_wf l i lane).
Qed.

(** [l'] is [l] with the turn [tid] done, and perhaps unlinked from its lane. *)
Record closes (tid : Z) (l l' : LaneState) : Prop := {
  cl_turn x t' : turns l' !! x = Some t' ->
    exists t, turns l !! x = Some t /\ t_lane t' = t_lane t /\ t_wait t' = t_wait t /\
      (t_previous t' = None \/ t_previous t' = t_previous t) /\
      t_done t' = (t_done t || bool_decide (x = tid));
  cl_own p j : (exists tp, turns l !! p = Some tp /\ t_lane tp = Some j) ->
    exists tp, turns l' !! p = Some tp /\ t_lane tp = Some j;
  cl_lane j lane' : lanes l' !! j = Some lane' ->
    exists lane, lanes l !! j = Some lane /\
      (tail lane' = tail lane \/ (tail lane = Some tid /\ tail lane' = None)) /\
      (active lane' = None \/ active lane' = active lane);
  cl_lanes j : is_Some (lanes l !! j) -> is_Some (lanes l' !! j);
  cl_seq : sequences l' = sequences l;
  cl_next : nextObject l' = nextObject l;
}.

Lemma closes_wf tid l l' :
  lanes_wf l -> closes tid l l' ->
  (forall t i x tx, turns l !! tid = Some t -> t_lane t = Some i -> x < tid ->
     turns l !! x = Some tx -> t_lane tx = Some i -> t_done tx = true) ->
  lanes_wf l'.
Proof.
  intros Hwf Hcl Hall. pose proof (cl_turn _ _ _ Hcl) as Hc. pose proof (cl_own _ _ _ Hcl) as Hk.
  pose proof (cl_lane _ _ _ Hcl) as Hl.
  split; rewrite ?(cl_next _ _ _ Hcl), ?(cl_seq _ _ _ Hcl).
  - intros x t0 (t1 & ? & _)%Hc. by eapply wf_turn.
  - intros x t0 j (? & ? & E & _)%Hc. rewrite E. intros. eapply (cl_lanes _ _ _ Hcl), wf_turn_lane; eauto.
  - intros j lane' (lane & ? & _)%Hl. by eapply wf_lane.
  - intros k j Hk'. by eapply (cl_lanes _ _ _ Hcl), wf_seq.
  - intros x t0 p (? & ? & -> & -> & [->| ->] & _)%Hc; [done|]. by eapply wf_previous.
  - intros y t0 j p (ty & Hy & -> & -> & _)%Hc Hj Hp.
    destruct (wf_wait _ Hwf y _ j p Hy Hj Hp) as (? & ? & Hn).
    split; [done|]. split; [by apply Hk|]. intros x tx Hx (tx1 & Hx' & -> & _)%Hc. by eapply Hn.
  - intros y t0 j x tx (ty & Hy & -> & -> & _)%Hc Hj Hw Hlt (tx1 & Hx & -> & _ & _ & ->)%Hc Hlx.
    by erewrite (wf_first _ Hwf y _ j x).
  - intros j lane' p (lane & Hj & [->|[_ ->]] & _)%Hl; [|done]. intros Hp.
    destruct (wf_tail _ Hwf j lane p Hj Hp) as [? Hm].
    split; [by apply Hk|]. intros x tx (tx1 & Hx & -> & _)%Hc. by eapply Hm.
  - intros j lane' x tx (lane & Hj & Ht & _)%Hl Hn (tx' & Hx & -> & _ & _ & ->)%Hc Hlx.
    destruct Ht as [Ht|[Hlast _]]; [rewrite Ht in Hn; by erewrite (wf_idle _ Hwf j lane x)|].
    case_bool_decide; [by rewrite orb_true_r|].
    destruct (wf_tail _ Hwf j lane tid Hj Hlast) as [(t & Ht & Htl) Hm].
    assert (x <= tid) by (by eapply Hm). erewrite (Hall t j x); try done. lia.
  - intros j lane' p (lane & Hj & _ & [->| ->])%Hl Hp; [done|]. apply Hk.
    by eapply (wf_active _ Hwf j lane).
Qed.

Lemma insert_close_turn laned tid t (m : gmap Z SessionTurn) x t' :
  m !! tid = Some t -> <[tid := close_turn laned t]> m !! x = Some t' ->
  exists t, m !! x = Some t /\ t_lane t' = t_lane t /\ t_wait t' = t_wait t /\
    (t_previous t' = None \/ t_previous t' = t_previous t) /\
    t_done t' = (t_done t || bool_decide (x = tid)).
Proof.
  intros Ht [[<- <-]|[Hne Hx]]%lookup_insert_Some.
  - exists t. rewrite bool_decide_true, orb_true_r by done. destruct laned; repeat split; by auto.
  - exists t'. rewrite bool_decide_false, orb_false_r by done. repeat split; by auto.
Qed.

Lemma insert_own tid t t' (m : gmap Z SessionTurn) p j :
  m !! tid = Some t -> t_lane t' = t_lane t ->
  (exists tp, m !! p = Some tp /\ t_lane tp = Some j) ->
  exists tp, <[tid := t']> m !! p = Some tp /\ t_lane tp = Some j.
Proof.
  intros Ht El (tp & Hp & Hj). destruct (decide (p = tid)) as [->|Hne].
  - exists t'. rewrite lookup_insert_eq. split; [done|]. congruence.
  - exists tp. by rewrite lookup_insert_ne.
Qed.

Lemma Done_closes tid s t :
  turns (lanest s) !! tid = Some t -> t_done t = false -> closes tid (lanest s) (lanest (Done tid s)).
Proof.
  intros Ht Hd. unfold Done. rewrite Ht, Hd. destruct (t_lane t) as [i|].
  - assert (turns match lanes (lanest s) !! i with
      | Some lane => with_lane i (finish_lane tid (t_canceled t) lane) (lanest s)
      | None => lanest s end = turns (lanest s)) as E by by case_match.
    split; cbn [lanest set_lanes with_turns turns lanes sequences nextObject]; rewrite ?E.
    + intros x t'. by apply insert_close_turn.
    + intros p j. by eapply insert_own.
    + intros j lane'. destruct (lanes (lanest s) !! i) as [lane|] eqn:Hi; cbn [with_lane lanes];
        [|intros ?; exists lane'; auto].
      intros [[<- <-]|[? Hj]]%lookup_insert_Some; [|exists lane'; auto].
      exists lane. split; [done|]. simpl. repeat case_bool_decide; auto.
    + intros j Hj. case_match; [|done]. cbn [with_lane lanes].
      rewrite lookup_insert_is_Some. destruct (decide (i = j)); auto.
    + by case_match.
    + by case_match.
  - split; cbn [lanest set_lanes with_turns turns lanes sequences nextObject]; try done.
    + intros x t'. by apply insert_close_turn.
    + intros p j. by eapply insert_own.
    + intros j lane' Hj. exists lane'. auto.
Qed.

Lemma prepare_same_order tid durable prompt bill now s r s' :
  lanes_wf (lanest s) -> PrepareTurnMessages tid durable prompt bill now s = (r, s') ->
  same_order (lanest s) (lanest s').
Proof.
  intros Hwf. unfold PrepareTurnMessages.
  assert (same_order (lanest s) (lanest s)) as Hid.
  { split; [done|done| | |lia]; intros; [by eapply wf_active|by eapply wf_seq]. }
  destruct tid as [tid|]; cbn [mbind option_bind].
  2: { destruct (push _ _) as [seq h']. by intros [= _ <-]. }
  destruct (turns (lanest s) !! tid) as [t|] eqn:Ht.
  2: { destruct (push _ _) as [seq h']. by intros [= _ <-]. }
  destruct (negb _); [by intros [= _ <-]|]. destruct (push _ _) as [seq h'].
  destruct (t_lane t) as [i|] eqn:Hl; [|by intros [= _ <-]].
  cbn [lanest touch set_hist]. destruct (lanes (lanest s) !! i) as [lane|] eqn:Hi; [|by intros [= _ <-]].
  destruct (prepare_lane _ _ _ _ _ _ _ _) as [[ms t'] lane'] eqn:Hp. unfold prepare_lane in Hp.
  injection Hp as _ <- <-. intros [= _ <-]. cbn [lanest set_lanes].
  split; cbn [turns lanes sequences nextObject].
  - intros x. destruct (decide (x = tid)) as [->|Hne]; [|by rewrite lookup_insert_ne].
    by rewrite lookup_insert_eq, Ht.
  - intros j. destruct (decide (j = i)) as [->|Hne]; [|by rewrite lookup_insert_ne].
    by rewrite lookup_insert_eq, Hi.
  - intros j lane0 p [[<- <-]|[? Hj]]%lookup_insert_Some Ha; eapply insert_own; try done.
    + injection Ha as <-. eauto.
    + by eapply wf_active.
  - intros k j Hk. rewrite lookup_insert_is_Some. destruct (decide (i = j)); [by left|right].
    split; [done|]. by eapply wf_seq.
  - lia.
Qed.

Lemma save_same_order tid messages s :
  lanes_wf (lanest s) -> same_order (lanest s) (lanest (saveTranscript tid messages s)).
Proof.
  intros Hwf. unfold saveTranscript.
  assert (same_order (lanest s) (lanest s)) as Hid.
  { split; [done|done| | |lia]; intros; [by eapply wf_active|by eapply wf_seq]. }
  destruct (turns (lanest s) !! tid) as [t|]; [|done]. destruct (t_lane t) as [i|]; [|done].
  destruct (lanes (lanest s) !! i) as [lane|] eqn:Hi; [|done]. destruct (checkpoint _ _) as [tr|]; [|done].
  split; cbn [lanest set_lanes with_lane turns lanes sequences nextObject]; [done| | | |lia].
  - intros j. destruct (decide (j = i)) as [->|Hne]; [|by rewrite lookup_insert_ne].
    by rewrite lookup_insert_eq, Hi.
  - intros j lane0 p [[<- <-]|[? Hj]]%lookup_insert_Some Ha; by eapply wf_active.
  - intros k j Hk. rewrite lookup_insert_is_Some. destruct (decide (i = j)); [by left|right].
    split; [done|]. by eapply wf_seq.
Qed.

(** A session reset: the work of every lane is cancelled, the lanes are
    forgotten and the epoch moves on; turns reserved before still finish. *)
Definition cancel_all (s : Session) : Session :=
  let l := cancelSequencesLocked (lanest s) in
  set_epoch (u64_succ (epoch s)) (set_lanes {| sequences := ∅; lanes := lanes l; turns := turns l;
    skillStates := skillStates l; turnTail := turnTail l; nextObject := nextObject l |} s).

(** How adapters use turns, for a session and the turns that returned from
    [Wait]: reserve in arrival order, wait, then prepare, checkpoint and finish. *)
Inductive turn_step : Session * gset Z -> Session * gset Z -> Prop :=
  | step_reserve s b key interrupt pro id s' :
      ReserveSequenceTurn key interrupt pro s = (id, s') -> turn_step (s, b) (s', b)
  | step_wait s b id t :
      turns (lanest s) !! id = Some t -> wait_over id s = true -> turn_step (s, b) (s, {[id]} ∪ b)
  | step_prepare s b id durable prompt bill now r s' :
      id ∈ b -> PrepareTurnMessages (Some id) durable prompt bill now s = (r, s') ->
      turn_step (s, b) (s', b)
  | step_save s b id messages :
      id ∈ b -> turn_step (s, b) (saveTranscript id messages s, b)
  | step_done s b id : id ∈ b -> turn_step (s, b) (Done id s, b)
  | step_reset s b : turn_step (s, b) (cancel_all s, b).

(** Earlier turns of the lane are done once a turn has started. *)
Definition serial (l : LaneState) (b : gset Z) : Prop :=
  (forall y, y ∈ b -> y <= nextObject l) /\
  forall y t i x tx, turns l !! y = Some t -> t_lane t = Some i -> y ∈ b \/ t_done t = true ->
    x < y -> turns l !! x = Some tx -> t_lane tx = Some i -> t_done tx = true.

Lemma same_order_serial l k b : same_order l k -> serial l b -> serial k b.
Proof.
  intros Hso [Hb Hs]. split.
  - intros y Hy. specialize (Hb y Hy). pose proof (so_next _ _ Hso). lia.
  - intros y t i x tx Hy Hl Hst Hlt Hx Hlx.
    destruct (so_turn _ _ _ _ Hso Hy) as (t' & Hy' & _ & El & _ & Ed).
    destruct (so_turn _ _ _ _ Hso Hx) as (tx' & Hx' & _ & Elx & _ & Edx).
    rewrite <- Edx. eapply (Hs y t' i x); try done; try congruence.
Qed.

Lemma closes_serial tid l l' b : closes tid l l' -> tid ∈ b -> serial l b -> serial l' b.
Proof.
  intros Hcl Hin [Hb Hs]. split; [intros; rewrite (cl_next _ _ _ Hcl); by apply Hb|].
  intros y t i x tx Hy Hl Hst Hlt Hx Hlx.
  destruct (cl_turn _ _ _ Hcl _ _ Hy) as (t' & Hy' & El & _ & _ & Ed).
  destruct (cl_turn _ _ _ Hcl _ _ Hx) as (tx' & Hx' & Elx & _ & _ & Edx).
  rewrite Edx. apply orb_true_iff. left. eapply (Hs y t' i x); try done; try congruence.
  destruct Hst as [?|Hd]; [by left|]. rewrite Ed in Hd. apply orb_true_iff in Hd as [?|Hd]; [auto|].
  apply bool_decide_eq_true_1 in Hd as ->. by left.
Qed.

Lemma Done_id tid s :
  (forall t, turns (lanest s) !! tid = Some t -> t_done t = true) -> Done tid s = s.
Proof. intros H. unfold Done. destruct (turns (lanest s) !! tid) as [t|]; [|done]. by rewrite H. Qed.

Lemma reserve_serial key int pro s id s' b :
  lanes_wf (lanest s) -> ReserveSequenceTurn key int pro s = (id, s') ->
  serial (lanest s) b -> serial (lanest s') b.
Proof.
  intros Hwf. unfold ReserveSequenceTurn.
  assert (lanest (init_epoch s) = lanest s) as -> by (unfold init_epoch; by case_match).
  destruct (get_lane key pro (lanest s)) as [[i lane] l] eqn:Hg.
  destruct (get_lane_wf _ _ _ _ _ _ Hwf Hg) as (_ & _ & Et & Hn). intros [= <- <-].
  cbn [lanest set_lanes]. set (ids := option_list _ ++ _). rewrite Et. intros [Hb Hs].
  set (turns' := if int then _ else _).
  assert (forall x t, turns' !! x = Some t -> exists t0, turns (lanest s) !! x = Some t0 /\
    t_lane t0 = t_lane t /\ t_done t0 = t_done t) as Hc.
  { intros x t. subst turns'. destruct int; [|eauto]. rewrite lookup_cancel_turns.
    case_decide; [|eauto]. intros (t0 & ? & ->)%fmap_Some_1. eauto. }
  split; cbn [turns nextObject]; [intros y Hy%Hb; lia|].
  intros y t j x tx Hy Hl Hst Hlt Hx Hlx.
  assert (y <> nextObject l + 1) as Hy1.
  { intros ->. rewrite lookup_insert_eq in Hy. injection Hy as <-.
    destruct Hst as [?%Hb|Hd]; [lia|done]. }
  rewrite lookup_insert_ne in Hy by done. destruct (Hc _ _ Hy) as (t0 & Hy0 & El & Ed).
  assert (y <= nextObject l) by (apply (wf_turn _ Hwf) in Hy0; lia).
  rewrite lookup_insert_ne in Hx by lia. destruct (Hc _ _ Hx) as (tx0 & Hx0 & Elx & <-).
  eapply (Hs y t0 j x); try done; congruence.
Qed.

Lemma wait_serial s b id t :
  lanes_wf (lanest s) -> turns (lanest s) !! id = Some t -> wait_over id s = true ->
  serial (lanest s) b -> serial (lanest s) ({[id]} ∪ b).
Proof.
  intros Hwf Ht Hw [Hb Hs]. split.
  { intros y [->%elem_of_singleton|?]%elem_of_union; [by eapply wf_turn|by apply Hb]. }
  intros y t1 i x tx Hy Hl Hst Hlt Hx Hlx.
  assert (y = id \/ (y ∈ b \/ t_done t1 = true)) as [->|Hold] by set_solver; [|by eapply (Hs y t1 i x)].
  assert (t1 = t) as -> by congruence. unfold wait_over in Hw. rewrite Ht in Hw.
  destruct (t_wait t) as [p|] eqn:Hp; [|by eapply (wf_first _ Hwf id t i x)].
  destruct (wf_wait _ Hwf id t i p Ht Hl Hp) as (Hpid & (tp & Htp & Hlp) & Hno).
  rewrite Htp in Hw. destruct (decide (x = p)) as [->|Hne]; [congruence|].
  destruct (decide (x < p)); [eapply (Hs p tp i x); auto|].
  exfalso. apply (Hno x tx); [lia|done|done].
Qed.

Lemma cancel_all_order s : lanes_wf (lanest s) -> same_order (lanest s) (lanest (cancel_all s)).
Proof.
  intros Hwf. unfold cancel_all, cancelSequencesLocked. set (ids := _ ≫= _).
  pose proof (cancel_turns_same_order ids _ Hwf) as Hso.
  split; cbn [lanest set_epoch set_lanes turns lanes sequences nextObject with_turns].
  - apply (so_turns _ _ Hso).
  - done.
  - apply (so_active _ _ Hso).
  - done.
  - lia.
Qed.

Lemma turn_step_inv c c' :
  turn_step c c' -> lanes_wf (lanest c.1) /\ serial (lanest c.1) c.2 ->
  lanes_wf (lanest c'.1) /\ serial (lanest c'.1) c'.2.
Proof.
  assert (forall s s' b, (lanes_wf (lanest s) -> same_order (lanest s) (lanest s')) ->
    lanes_wf (lanest s) /\ serial (lanest s) b -> lanes_wf (lanest s') /\ serial (lanest s') b) as Hso.
  { intros s s' b H [Hwf Hs]. split; [eapply same_order_wf|eapply same_order_serial]; eauto. }
  destruct 1; cbn [fst snd].
  - intros [? ?]. split; [by eapply ReserveSequenceTurn_wf|by eapply reserve_serial].
  - intros [? ?]. split; [done|by eapply wait_serial].
  - apply Hso. intros. by eapply prepare_same_order.
  - apply Hso. by apply save_same_order.
  - intros [Hwf Hs]. destruct (turns (lanest s) !! id) as [t|] eqn:Ht.
    2: { rewrite Done_id; [done|]. intros ? ?; congruence. }
    destruct (t_done t) eqn:Hd; [rewrite Done_id; [done|]; intros ? ?; congruence|].
    pose proof (Done_closes id s t Ht Hd) as Hcl. split.
    + eapply closes_wf; [done..|]. intros t1 i x tx Hy Hl Hlt Hx Hlx.
      destruct Hs as [_ Hs]. eapply (Hs id t1 i x); auto.
    + by eapply closes_serial.
  - apply Hso. by apply cancel_all_order.
Qed.

Lemma empty_lanes_wf : lanes_wf empty_lanes.
Proof.
  split; intros; by repeat match goal with
    | H : context [empty_lanes] |- _ => rewrite lookup_empty in H end.
Qed.


(** ** Concrete runs *)

Definition no_turn : SessionTurn := {|
  t_wait := None; t_done := false; t_epoch := 0; t_lane := None; t_canceled := false;
  t_previous := None; t_inputIndex := 0; t_transcriptStart := 0; t_durable := "";
  t_messageSeq := 0; t_skillState := None |}.

(** One sender: a turn is reserved and prepared, then an interrupting one arrives. *)
Definition run0 : Session := new_session "c" "" "" 0.
Definition run1 : Session := (ReserveSequenceTurn "sender:1" false false run0).2.
Definition run2 : Session := (PrepareTurnMessages (Some 3) "hi" "hi, with notes" (Some 7) 1 run1).2.
Definition run3 : Session := (ReserveSequenceTurn "sender:1" true false run2).2.

Lemma run1_wf : lanes_wf (lanest run1).
Proof. apply (ReserveSequenceTurn_wf "sender:1" false false run0 3); [apply empty_lanes_wf|by vm_compute]. Qed.

Lemma run2_wf : lanes_wf (lanest run2).
Proof.
  eapply same_order_wf; [|apply run1_wf].
  eapply prepare_same_order; [apply run1_wf|apply surjective_pairing].
Qed.


(** A turn that calls a tool, is interrupted in it, and leaves the task to the next. *)
Lemma interrupted_batch_answered_witness :
  let call id := {| tc_ID := id; tc_Type := "function"; tc_Name := "f"; tc_Arguments := "{}" |} in
  let l := [user_message "go"; {| Role := "assistant"; MContent := NoContent;
              ToolCalls := [call "a"; call "b"; call "c"]; ToolCallID := "" |}; tool_message "a" "ok"] in
  last_batch (rev l) = Some ([call "a"; call "b"; call "c"], [tool_message "a" "ok"]) /\
  exists added, completeInterruptedTranscript l {["b"]} = l ++ added /\
    completeInterruptedTranscript (l ++ added) {["b"]} = l ++ added.
Proof.
  intros call l. split; [reflexivity|].
  destruct (interrupted_batch_answered l {["b"]} [call "a"; call "b"; call "c"] [tool_message "a" "ok"])
    as (added & E & _ & _ & Hidem); [reflexivity|].
  exists added. split; [exact E|]. rewrite <- E. exact Hidem.
Defined.

Lemma saveTranscript_checkpoint_witness :
  exists lane, lanes (lanest (saveTranscript 3
    ([text_message "system" "rules"] ++ ([] ++ [user_message "hi, with notes"]) ++ [text_message "assistant" "hello"]) run2))
    !! 2 = Some lane /\ transcript lane = [user_message "hi"; text_message "assistant" "hello"].
Proof.
  destruct (saveTranscript_checkpoint run1 run2 3 "hi" "hi, with notes" (Some 7) 1
    [user_message "hi, with notes"] (Some 7) 1 2 (default (new_lane 0 false) (lanes (lanest run1) !! 2))
    (default no_turn (turns (lanest run1) !! 3))
    [text_message "system" "rules"] [text_message "assistant" "hello"])
    as (lane & Hl & _ & _ & _ & Hs);
    [by vm_compute|by vm_compute|by vm_compute|by vm_compute|by constructor|by vm_compute|by repeat constructor|].
  eexists. split; [exact Hs|]. vm_compute in Hl. by injection Hl as <-.
Defined.

(** The interrupted turn finishes; its successor inherits the ledger 7. *)
Lemma Done_handover_witness :
  let r := PrepareTurnMessages (Some 5) "again" "again" (Some 9) 2 (Done 3 run3) in
  r.1.1.2 = Some 7 /\ length r.1.1.1 = 2%nat.
Proof.
  pose (lane := default (new_lane 0 false) (lanes (lanest run3) !! 2)).
  pose (t := default no_turn (turns (lanest run3) !! 3)).
  pose (t2 := default no_turn (turns (lanest run3) !! 5)).
  assert (turns (lanest run3) !! 3 = Some t) as H1 by by vm_compute.
  assert (lanes (lanest run3) !! 2 = Some lane) as H2 by by vm_compute.
  assert (turns (lanest run3) !! 5 = Some t2) as H3 by by vm_compute.
  assert (t_done t = false /\ t_lane t = Some 2 /\ t_lane t2 = Some 2 /\ t_epoch t2 = epoch run3)
    as (H4 & H5 & H6 & H7) by by vm_compute.
  assert (hist_ok (hist run3)) as H8 by by vm_compute.
  assert (t_canceled t && negb (bool_decide (tail lane = Some 3)) = true) as H9 by by vm_compute.
  assert (proactive lane = false /\ billing lane = Some 7 /\ transcript lane = [user_message "hi"])
    as (H10 & H11 & H12) by by vm_compute.
  assert (map snd (filter (fun p => p.1 ∉ messageIDs lane) (numbered (hist run3))) = []) as H13 by by vm_compute.
  clearbody t t2 lane.
  pose proof (Done_handover run3 3 t 2 lane 5 t2 "again" "again" (Some 9) 2 H1 H4 H5 H2
    ltac:(lia) H3 H6 H7 H8) as H.
  rewrite H9, H10, H11, H12, H13 in H.
  destruct (PrepareTurnMessages _ _ _ _ _ _) as [[[msgs b] id] s']. by destruct H as [-> ->].
Defined.

End queue.
