(* ===== verification/Session.v ===== *)
(** The life of a session: runs, extractions, pending turns and resets
    ([BeginRun], [CancelActiveRun], [BeginExtraction], [CancelExtractions],
    [EnqueuePendingTurn], the delivery failure and prompt trace, [Clear] and
    [ResetSession] of [internal/llm/session.go]).

    A reset has to stop everything that is in flight: the run, the turns, the
    private and the group compaction, background extraction and distillation.
    The main theorem says what each of them meets afterwards. *)

From S2P Require Import Prelude GoStrings SessionKey SummaryStore GroupMessage SessionState.
From S2P Require Import History Barrier BotLoop GroupCompact Sequence.

Local Open Scope string_scope.
Local Open Scope list_scope.

(** * Small state *)

Definition GroupName (s : Session) : string := groupName s.

Definition SetGroupName (name : string) (s : Session) : Session :=
  let name := TrimSpace name in
  if decide (name = "") then s else
  {| ConversationID := ConversationID s; CreatedAt := CreatedAt s; UpdatedAt := UpdatedAt s;
     epoch := epoch s; groupName := name; hist := hist s; activeSkills := activeSkills s;
     compact := compact s; tasks := tasks s; bots := bots s; lanest := lanest s;
     pendingTurns := pendingTurns s; extractionThreshold := extractionThreshold s;
     deliveryFailure := deliveryFailure s; lastSystemPrompt := lastSystemPrompt s;
     lastModelName := lastModelName s |}.

Definition nl : string := String (Ascii.ascii_of_nat 10) "".

Definition FormatDeliveryContext (f : DeliveryFailure) : string :=
  let reason := TrimSpace (df_Wording f) in
  let reason := if decide (reason = "") then TrimSpace (df_Message f) else reason in
  let reason := if bool_decide (reason = "") && negb (df_RetCode f =? 0)%Z
                then "retcode " +:+ pretty (df_RetCode f) else reason in
  let reason := if decide (reason = "") then "unknown delivery error" else reason in
  let platform := TrimSpace (df_Platform f) in
  let platform := if decide (platform = "") then "onebot" else platform in
  "<delivery_context>" +:+ nl +:+
  "Your previous assistant response was not delivered to the user/group." +:+ nl +:+
  "Platform: " +:+ platform +:+ nl +:+ "Reason: " +:+ reason +:+ nl +:+
  "Do not assume the user saw or received that response." +:+ nl +:+ "</delivery_context>".

Definition SetDeliveryFailure (f : DeliveryFailure) (s : Session) : Session :=
  set_delivery (Some f) s.

Definition TakeDeliveryFailure (s : Session) : option DeliveryFailure * Session :=
  match deliveryFailure s with
  | None => (None, s)
  | Some f => (Some f, set_delivery None s)
  end.

Definition set_trace (systemPrompt modelName : string) (s : Session) : Session := {|
  ConversationID := ConversationID s; CreatedAt := CreatedAt s; UpdatedAt := UpdatedAt s;
  epoch := epoch s; groupName := groupName s; hist := hist s; activeSkills := activeSkills s;
  compact := compact s; tasks := tasks s; bots := bots s; lanest := lanest s;
  pendingTurns := pendingTurns s; extractionThreshold := extractionThreshold s;
  deliveryFailure := deliveryFailure s; lastSystemPrompt := systemPrompt;
  lastModelName := modelName |}.

Definition SetLastPromptTrace (systemPrompt modelName : string) (s : Session) : Session :=
  set_trace systemPrompt modelName s.
Definition LastPromptTrace (s : Session) : string * string := (lastSystemPrompt s, lastModelName s).

(** [t.IsValid(s)]. *)
Definition turn_IsValid (t : option SessionTurn) (s : Session) : bool * Session :=
  match t with
  | None => (true, s)
  | Some t => let '(e, s) := Epoch s in ((t_epoch t =? e)%Z, s)
  end.

(** * Runs *)

Definition set_run (cancel : option Z) (id : Z) (cancelled : gset Z) (t : TaskState) : TaskState := {|
  activeCancel := cancel; activeRunID := id; cancelledRuns := cancelled;
  nextExtractionID := nextExtractionID t; extractionCancels := extractionCancels t;
  extractionBarriers := extractionBarriers t; extractions := extractions t;
  nextGroupDistillID := nextGroupDistillID t; groupDistillBarriers := groupDistillBarriers t;
  distillations := distillations t |}.

Definition cancel_active (t : TaskState) : TaskState :=
  match activeCancel t with
  | Some r => set_run None (activeRunID t) ({[r]} ∪ cancelledRuns t) t
  | None => t
  end.

(** The run's context is named by its ID. *)
Definition BeginRun (s : Session) : (Z * Z) * Session :=
  let t := cancel_active (tasks s) in
  let id := u64_succ (activeRunID t) in
  let s := init_epoch (set_tasks (set_run (Some id) id (cancelledRuns t) t) s) in
  ((id, epoch s), s).

(** The cleanup [BeginRun] returns. *)
Definition EndRun (id : Z) (s : Session) : Session :=
  let t := tasks s in
  set_tasks (set_run (if (activeRunID t =? id)%Z then None else activeCancel t) (activeRunID t)
               ({[id]} ∪ cancelledRuns t) t) s.

Definition CancelActiveRun (s : Session) : Session :=
  set_tasks (cancel_active (tasks s)) (set_lanes (cancelSequencesLocked (lanest s)) s).

(** * Extractions *)

Definition set_extractions (next : Z) (cancels barriers : gset Z)
    (heap : gmap Z sessionExtractionBarrier) (t : TaskState) : TaskState := {|
  activeCancel := activeCancel t; activeRunID := activeRunID t; cancelledRuns := cancelledRuns t;
  nextExtractionID := next; extractionCancels := cancels; extractionBarriers := barriers;
  extractions := heap; nextGroupDistillID := nextGroupDistillID t;
  groupDistillBarriers := groupDistillBarriers t; distillations := distillations t |}.

Definition BeginExtraction (s : Session) : (Z * Z) * Session :=
  let s := init_epoch s in
  let t := tasks s in
  let id := u64_succ (nextExtractionID t) in
  ((id, epoch s),
   set_tasks (set_extractions id ({[id]} ∪ extractionCancels t) ({[id]} ∪ extractionBarriers t)
     (<[id := {| xb_epoch := epoch s; xb := new_barrier |}]> (extractions t)) t) s).

Definition cancel_xb (b : sessionExtractionBarrier) : sessionExtractionBarrier :=
  set_xb (set_ctx_err (xb b)) b.

(** The cleanup [BeginExtraction] returns. *)
Definition EndExtraction (id : Z) (s : Session) : Session :=
  let t := tasks s in
  set_tasks (set_extractions (nextExtractionID t) (extractionCancels t ∖ {[id]})
    (extractionBarriers t ∖ {[id]})
    (alter (fun b => cancel_xb (xb_Close b)) id (extractions t)) t) s.

(** [cancel()] on every registered extraction, which leaves the register. *)
Definition cancel_extractions (t : TaskState) : TaskState :=
  set_extractions (nextExtractionID t) ∅ (extractionBarriers t)
    (map_imap (fun id b => Some (if decide (id ∈ extractionCancels t) then cancel_xb b else b))
       (extractions t)) t.

(** [AbortAndWait] on each barrier, up to its wait. *)
Fixpoint abort_extractions (ids : list Z) (t : TaskState) : list (Z * nat) * TaskState :=
  match ids with
  | [] => ([], t)
  | id :: ids =>
      match extractions t !! id with
      | None => abort_extractions ids t
      | Some b =>
          let '(w, b) := xb_AbortAndWait b in
          let '(ws, t) := abort_extractions ids
            (set_extractions (nextExtractionID t) (extractionCancels t) (extractionBarriers t)
               (<[id := b]> (extractions t)) t) in
          (match w with Some ch => (id, ch) :: ws | None => ws end, t)
      end
  end.

(** After the waits the aborted barriers leave the register. *)
Definition forget_extractions (ids : list Z) (s : Session) : Session :=
  let t := tasks s in
  set_tasks (set_extractions (nextExtractionID t) (extractionCancels t)
    (extractionBarriers t ∖ list_to_set ids) (extractions t) t) s.

(** The channels waited for, and the state once none is. *)
Definition CancelExtractions (s : Session) : list (Z * nat) * Session :=
  let t := cancel_extractions (tasks s) in
  let ids := elements (extractionBarriers t) in
  let '(waits, t) := abort_extractions ids t in
  (waits, forget_extractions ids (set_tasks t s)).

(** * Pending turns *)

Section pending.
(** [rand.IntN]. *)
Context (IntN : Z -> Z).

Definition threshold (minTurns maxTurns old : Z) : Z :=
  (if (old <? minTurns) || (maxTurns <? old)
   then minTurns + (if 1 <? maxTurns - minTurns + 1 then IntN (maxTurns - minTurns + 1) else 0)
   else old)%Z.

Definition EnqueuePendingTurn (items : list PendingExtractionItem) (minTurns maxTurns now : Z)
    (s : Session) : option (Z * list PendingExtractionItem) * Session :=
  if decide (items = []) then (None, s) else
  let minTurns := if (minTurns <=? 0)%Z then 3%Z else minTurns in
  let maxTurns := if (maxTurns <? minTurns)%Z then minTurns else maxTurns in
  let t := threshold minTurns maxTurns (extractionThreshold s) in
  let turns := pendingTurns s ++ [items] in
  let s := touch now (set_pending turns t s) in
  if (Z.of_nat (length turns) <? t)%Z then (None, s) else
  let s := init_epoch (set_pending [] 0 s) in
  (Some (epoch s, concat turns), s).
End pending.

Definition PendingTurnCount (s : Session) : nat := length (pendingTurns s).

(** * Clearing and resetting *)

Definition Clear (now : Z) (s : Session) : Session :=
  let h := hist s in
  let c := compact s in
  {| ConversationID := ConversationID s; CreatedAt := CreatedAt s; UpdatedAt := now;
     epoch := epoch s; groupName := groupName s;
     hist := {| History := []; historySeq := []; nextMsgSeq := nextMsgSeq h;
                privateCompacting := privateCompacting h; privateCompact := None |};
     activeSkills := ∅;
     compact := set_compact_fields "" [] (groupCompactSequence c)
       (u64_succ (groupCompactGeneration c)) [] (prevGroupCompactSummary c)
       (prevGroupSummaryGroups c) (lastCommittedMessageIDs c) (lastCommittedSenderIDs c)
       (validCommittedSources c) (revokedMessageIDs c);
     tasks := tasks s; bots := reset_bots (bots s); lanest := lanest s;
     pendingTurns := []; extractionThreshold := 0; deliveryFailure := None;
     lastSystemPrompt := ""; lastModelName := "" |}.

(** [ResetSession] up to its waits: the barriers it aborts, the channels it
    then waits for, and the state of the session. *)
Definition reset_begin (now : Z) (s : Session)
    : list Z * list (Z * nat) * list (Z * nat) * Session :=
  let h := hist s in
  let c := compact s in
  let l := cancelSequencesLocked (lanest s) in
  let t := cancel_extractions (cancel_active (tasks s)) in
  let ids := elements (extractionBarriers t) in
  let dids := elements (groupDistillBarriers t) in
  let '(waits, t) := abort_extractions ids (unregister_distillations t) in
  let '(dwaits, t) := abort_distillations dids t in
  (ids, waits, dwaits,
   {| ConversationID := ConversationID s; CreatedAt := CreatedAt s; UpdatedAt := now;
      epoch := u64_succ (epoch s); groupName := groupName s;
      hist := {| History := []; historySeq := []; nextMsgSeq := nextMsgSeq h;
                 privateCompacting := false; privateCompact := None |};
      activeSkills := ∅;
      compact := set_compact_fields "" [] (groupCompactSequence c)
        (u64_succ (groupCompactGeneration c)) [] "" [] [] []
        (validCommittedSources c) (revokedMessageIDs c);
      tasks := t; bots := reset_bots (bots s);
      lanest := {| sequences := ∅; lanes := lanes l; turns := turns l; skillStates := skillStates l;
                   turnTail := turnTail l; nextObject := nextObject l |};
      pendingTurns := []; extractionThreshold := 0; deliveryFailure := None;
      lastSystemPrompt := ""; lastModelName := "" |}).

(** The rest of [ResetSession], once the waits are over. *)
Definition reset_end (saveHook save : gmap string SummaryRecord -> option string) (ids : list Z)
    (store : option Store) (s : Session) : option string * Session * option Store :=
  let s := forget_extractions ids s in
  match store with
  | Some st =>
      if decide (ConversationID s = "") then (None, s, Some st) else
      let '(err, st) := Delete saveHook save (ConversationID s) st in (err, s, Some st)
  | None => (None, s, None)
  end.

(** A reset that nothing interleaves with. *)
Definition ResetSession (saveHook save : gmap string SummaryRecord -> option string) (now : Z)
    (store : option Store) (s : Session) : option string * Session * option Store :=
  let '(ids, _, _, s) := reset_begin now s in reset_end saveHook save ids store s.

(** * One run at a time *)

Section runs.
Local Open Scope Z_scope.

(** What changes the active run. *)
Inductive run_op :=
  | OpBeginRun
  | OpEndRun (id : Z)
  | OpCancelActiveRun
  | OpReset (now : Z)
  | OpBeginExtraction
  | OpEndExtraction (id : Z)
  | OpCancelExtractions.

Definition run_step (s : Session) (o : run_op) : Session :=
  match o with
  | OpBeginRun => (BeginRun s).2
  | OpEndRun id => EndRun id s
  | OpCancelActiveRun => CancelActiveRun s
  | OpReset now => (reset_begin now s).2
  | OpBeginExtraction => (BeginExtraction s).2
  | OpEndExtraction id => EndExtraction id s
  | OpCancelExtractions => (CancelExtractions s).2
  end.

Definition run_ops (s : Session) (l : list run_op) : Session := fold_left run_step l s.

(** A run that was started and whose context is not cancelled. *)
Definition live_run (id : Z) (t : TaskState) : Prop :=
  1 <= id <= activeRunID t /\ id ∉ cancelledRuns t.

Definition run_fields (t : TaskState) : option Z * Z * gset Z :=
  (activeCancel t, activeRunID t, cancelledRuns t).

(** Every live run is the registered one. *)
Definition runs_ok (t : TaskState) : Prop :=
  0 <= activeRunID t /\ (forall r, activeCancel t = Some r -> r = activeRunID t) /\
  forall id, live_run id t -> activeCancel t = Some id.

Lemma abort_extractions_runs ids t : run_fields (abort_extractions ids t).2 = run_fields t.
Proof.
  revert t; induction ids as [|i ids IH]; intros t; simpl; [done|].
  destruct (extractions t !! i); [|apply IH]. destruct (xb_AbortAndWait _) as [w b].
  match goal with |- context [abort_extractions ids ?t] => specialize (IH t); destruct (abort_extractions ids t) end.
  simpl in *. by rewrite IH.
Qed.

Lemma abort_distillations_runs ids t : run_fields (abort_distillations ids t).2 = run_fields t.
Proof.
  revert t; induction ids as [|i ids IH]; intros t; simpl; [done|].
  destruct (distillations t !! i); [|apply IH]. destruct (gb_AbortAndWait _) as [w b].
  match goal with |- context [abort_distillations ids ?t] => specialize (IH t); destruct (abort_distillations ids t) end.
  simpl in *. by rewrite IH.
Qed.

Lemma runs_ok_fields t t' : run_fields t = run_fields t' -> runs_ok t -> runs_ok t'.
Proof.
  unfold run_fields, runs_ok, live_run. intros [= -> -> ->]. done.
Qed.

Lemma reset_tasks_runs now s :
  run_fields (tasks (reset_begin now s).2) = run_fields (cancel_active (tasks s)).
Proof.
  unfold reset_begin.
  set (t := unregister_distillations _). set (ids := elements (extractionBarriers _)).
  pose proof (abort_extractions_runs ids t). destruct (abort_extractions ids t) as [w1 t1].
  set (dids := elements _). pose proof (abort_distillations_runs dids t1).
  destruct (abort_distillations dids t1) as [w2 t2]. cbn [snd] in *.
  etrans; [eassumption|]. by etrans; [eassumption|].
Qed.

Lemma cancel_active_ok t : runs_ok t -> runs_ok (cancel_active t) /\
  activeRunID (cancel_active t) = activeRunID t /\ forall id, ~ live_run id (cancel_active t).
Proof.
  intros (H0 & Ha & H). unfold cancel_active, runs_ok, live_run.
  destruct (activeCancel t) as [r|] eqn:Hr; simpl.
  - assert (forall id, ~ ((1 <= id <= activeRunID t) /\ id ∉ {[r]} ∪ cancelledRuns t)) as Hno.
    { intros id [? Hid]. assert (Some r = Some id) by (apply H; split; [done|set_solver]).
      set_solver. }
    split; [|done]. split; [done|]. split; [done|]. intros id Hl. by destruct (Hno id).
  - rewrite Hr. split; [by split|]. split; [done|]. intros id Hl. apply H in Hl. congruence.
Qed.

Lemma run_step_ok s o :
  runs_ok (tasks s) -> activeRunID (tasks s) + 1 < u64_max ->
  runs_ok (tasks (run_step s o)) /\
  activeRunID (tasks s) <= activeRunID (tasks (run_step s o)) <= activeRunID (tasks s) + 1.
Proof.
  intros Hok Hmax. destruct (cancel_active_ok _ Hok) as (Hok' & Hid & Hno).
  assert (forall s, tasks (init_epoch s) = tasks s) as Hi by (intros ?; unfold init_epoch; by case_match).
  assert (forall t, run_fields t = run_fields (tasks s) -> runs_ok t /\
    activeRunID (tasks s) <= activeRunID t <= activeRunID (tasks s) + 1) as Hsame.
  { intros t E. split; [by eapply runs_ok_fields|]. injection E as _ -> _. lia. }
  destruct o; cbn [run_step].
  - unfold BeginRun. cbn [snd]. rewrite Hi. cbn [tasks set_tasks]. rewrite Hid.
    destruct Hok as (? & ? & ?). rewrite u64_succ_small by done.
    unfold runs_ok, live_run. simpl. split; [|lia]. split; [lia|]. split; [by intros ? [= <-]|].
    intros id [Hr Hc]. destruct (decide (id = activeRunID (tasks s) + 1)) as [->|Hne]; [done|].
    exfalso. apply (Hno id). split; [rewrite Hid; lia|done].
  - unfold EndRun. cbn [tasks set_tasks]. simpl. split; [|lia]. destruct Hok as (H0 & Ha & H).
    split; simpl; [done|]. split; [case_match; [done|apply Ha]|]. intros id' [Hr Hc]. simpl in *.
    assert (activeCancel (tasks s) = Some id') as Hac by (apply H; split; [done|set_solver]).
    destruct (activeRunID (tasks s) =? id) eqn:E; [|done]. apply Z.eqb_eq in E.
    apply Ha in Hac. set_solver.
  - unfold CancelActiveRun. cbn [tasks set_tasks]. split; [done|]. rewrite Hid. lia.
  - pose proof (reset_tasks_runs now s) as E. split; [by eapply runs_ok_fields|].
    injection E as _ -> _. rewrite Hid. lia.
  - unfold BeginExtraction. cbn [snd tasks set_tasks]. apply Hsame. by rewrite Hi.
  - by apply Hsame.
  - unfold CancelExtractions. set (t := cancel_extractions _).
    pose proof (abort_extractions_runs (elements (extractionBarriers t)) t) as E.
    destruct (abort_extractions _ t) as [w t']. apply Hsame. exact E.
Qed.

Lemma run_ops_ok l s :
  runs_ok (tasks s) -> activeRunID (tasks s) + Z.of_nat (length l) < u64_max ->
  runs_ok (tasks (run_ops s l)) /\
  activeRunID (tasks (run_ops s l)) <= activeRunID (tasks s) + Z.of_nat (length l).
Proof.
  revert s; induction l as [|o l IH]; intros s Hok Hmax; [simpl; split; [done|lia]|]. simpl in Hmax.
  destruct (run_step_ok s o) as [Hok' Hb]; [done|lia|].
  destruct (IH (run_step s o)) as [? ?]; [done|lia|]. cbn [run_ops fold_left length] in *. split; [done|].
  unfold run_ops in *. lia.
Qed.

(** A session runs at most one agent loop.  However runs begin, end, are
    cancelled or reset, two runs whose contexts are not cancelled are the same
    run, and it is the one [activeCancel] cancels: so cancelling the active
    run, resetting the session or beginning another run leaves none of the
    earlier runs alive. *)
Theorem single_run s l :
  tasks s = empty_tasks -> Z.of_nat (length l) + 1 < u64_max ->
  let s' := run_ops s l in
  (forall i j, live_run i (tasks s') -> live_run j (tasks s') -> i = j) /\
  (forall i, ~ live_run i (tasks (CancelActiveRun s'))) /\
  (forall i now, ~ live_run i (tasks (reset_begin now s').2)) /\
  (forall i, live_run i (tasks (BeginRun s').2) -> i = (BeginRun s').1.1).
Proof.
  intros Hs Hl s'.
  assert (runs_ok (tasks s)) as Hok0.
  { rewrite Hs. split; [done|]. split; [done|]. unfold live_run. simpl. lia. }
  destruct (run_ops_ok l s Hok0) as [Hok Hmax]; [rewrite Hs; simpl; lia|]. fold s' in Hok, Hmax.
  rewrite Hs in Hmax. simpl in Hmax.
  destruct (cancel_active_ok _ Hok) as (_ & Hid & Hno). split; [|split; [|split]].
  - intros i j Hi Hj. destruct Hok as (_ & _ & H). apply H in Hi, Hj. congruence.
  - apply Hno.
  - intros i now. pose proof (reset_tasks_runs now s') as E. specialize (Hno i).
    unfold live_run in *. injection E as _ -> ->. done.
  - intros i Hi. destruct (run_step_ok s' OpBeginRun) as [(_ & _ & H) _]; [done|lia|].
    apply H in Hi. unfold run_step, BeginRun in Hi |- *. cbn [fst snd] in *.
    assert (forall s, tasks (init_epoch s) = tasks s) as Hi' by (intros ?; unfold init_epoch; by case_match).
    rewrite Hi' in Hi. by injection Hi as <-.
Qed.

Lemma single_run_witness :
  let s := run_ops (new_session "c" "" "" 0) [OpBeginRun; OpBeginRun; OpEndRun 1] in
  live_run 2 (tasks s) /\ forall i, live_run i (tasks s) -> i = 2.
Proof.
  intros s. assert (live_run 2 (tasks s)) as H2 by (split; [by vm_compute|apply (bool_decide_unpack _); by vm_compute]).
  split; [done|]. intros i Hi.
  exact (proj1 (single_run (new_session "c" "" "" 0) [OpBeginRun; OpBeginRun; OpEndRun 1] eq_refl eq_refl) i 2 Hi H2).
Defined.
End runs.

(** * Pending turns are batched, not lost *)

Section batches.
Local Open Scope Z_scope.
Context (IntN : Z -> Z).

(** A call of [EnqueuePendingTurn]. *)
Record enqueue := { en_items : list PendingExtractionItem; en_min : Z; en_max : Z; en_now : Z }.

(** The bounds a call works with. *)
Definition eff_min (e : enqueue) : Z := if en_min e <=? 0 then 3 else en_min e.
Definition eff_max (e : enqueue) : Z := if en_max e <? eff_min e then eff_min e else en_max e.

Definition enqueue_one (e : enqueue) (s : Session) : option (Z * list PendingExtractionItem) * Session :=
  EnqueuePendingTurn IntN (en_items e) (en_min e) (en_max e) (en_now e) s.

(** The batches of a sequence of calls, in order. *)
Fixpoint enqueue_all (l : list enqueue) (s : Session) : list (Z * list PendingExtractionItem) * Session :=
  match l with
  | [] => ([], s)
  | e :: l =>
      let '(b, s) := enqueue_one e s in
      let '(bs, s) := enqueue_all l s in
      (option_list b ++ bs, s)
  end.

Lemma threshold_bounds lo hi old :
  (forall w, 1 < w -> 0 <= IntN w < w) -> lo <= hi -> lo <= threshold IntN lo hi old <= hi.
Proof.
  intros HI Hlh. unfold threshold. destruct ((old <? lo) || (hi <? old)) eqn:E.
  - destruct (1 <? hi - lo + 1) eqn:Hw; [|lia]. apply Z.ltb_lt in Hw. specialize (HI _ Hw). lia.
  - apply orb_false_iff in E as [E1 E2]. apply Z.ltb_ge in E1, E2. lia.
Qed.

Lemma pending_init s : pendingTurns (init_epoch s) = pendingTurns s.
Proof. unfold init_epoch. by case_match. Qed.

Lemma enqueue_one_items e s b s' :
  enqueue_one e s = (b, s') ->
  concat (map snd (option_list b)) ++ concat (pendingTurns s') = concat (pendingTurns s) ++ en_items e.
Proof.
  unfold enqueue_one, EnqueuePendingTurn. case_decide as He.
  { intros [= <- <-]. by rewrite He, app_nil_r. }
  case_match; intros [= <- <-]; rewrite ?pending_init; cbn [option_list map snd concat pendingTurns touch set_pending];
    rewrite ?app_nil_r, concat_app; simpl; by rewrite ?app_nil_r.
Qed.

(** Background extraction sees every completed turn exactly once.  Over any
    sequence of calls, even with bounds that change between them, the batches
    handed out followed by what is still pending are the items enqueued, in
    order; a batch is cut only after at least the minimum number of turns, and
    what stays pending is below the maximum. *)
Theorem pending_turns_batched l s :
  (forall w, 1 < w -> 0 <= IntN w < w) ->
  (let '(batches, s') := enqueue_all l s in
   concat (map snd batches) ++ concat (pendingTurns s')
   = concat (pendingTurns s) ++ concat (map en_items l)) /\
  forall e, en_items e <> [] ->
    match enqueue_one e s with
    | (Some (ep, items), s') =>
        eff_min e <= Z.of_nat (length (pendingTurns s)) + 1 /\ pendingTurns s' = [] /\
        items = concat (pendingTurns s) ++ en_items e /\ ep = epoch s'
    | (None, s') => Z.of_nat (length (pendingTurns s')) < eff_max e
    end.
Proof.
  intros HI. split.
  - revert s; induction l as [|e l IH]; intros s; simpl; [by rewrite !app_nil_r|].
    destruct (enqueue_one e s) as [b s1] eqn:He. apply enqueue_one_items in He.
    specialize (IH s1). destruct (enqueue_all l s1) as [bs s2].
    rewrite map_app, concat_app, <- app_assoc, IH, app_assoc, He. by rewrite <- app_assoc.
  - intros e He. unfold enqueue_one, EnqueuePendingTurn. rewrite decide_False by done.
    fold (eff_min e). fold (eff_max e).
    assert (eff_min e <= eff_max e) as Hm by (unfold eff_max; destruct (Z.ltb_spec (en_max e) (eff_min e)); lia).
    pose proof (threshold_bounds _ _ (extractionThreshold s) HI Hm) as Ht.
    rewrite length_app. simpl (length [_]). destruct (_ <? _) eqn:Hlt.
    + cbn [pendingTurns touch set_pending]. rewrite length_app. simpl. apply Z.ltb_lt in Hlt. lia.
    + apply Z.ltb_ge in Hlt. rewrite pending_init. split; [lia|]. split; [done|]. split; [|done].
      rewrite concat_app. simpl. by rewrite app_nil_r.
Qed.
End batches.

Lemma pending_turns_batched_witness :
  let item m := {| pi_Owner := "u"; pi_OwnerType := "user"; pi_ScopeType := "private"; pi_GroupID := "";
    pi_SpeakerID := "u"; pi_SpeakerName := "U"; pi_Route := ("onebot", ""); pi_Message := text_message "user" m;
    pi_MessageID := m; pi_ImageDescription := "" |} in
  let e m := {| en_items := [item m]; en_min := 2; en_max := 2; en_now := 0%Z |} in
  let '(batches, s') := enqueue_all (fun _ => 0%Z) [e "a"; e "b"; e "c"] (new_session "c" "" "" 0) in
  concat (map snd batches) ++ concat (pendingTurns s') = [item "a"; item "b"; item "c"].
Proof.
  intros item e.
  exact (proj1 (pending_turns_batched (fun _ => 0%Z) [e "a"; e "b"; e "c"] (new_session "c" "" "" 0)
    ltac:(intros; lia))).
Defined.

(** * A reset stops everything in flight *)

Section reset.
Local Open Scope Z_scope.

Lemma abort_extractions_spec ids t ws t' :
  NoDup ids -> abort_extractions ids t = (ws, t') ->
  forall id b, extractions t !! id = Some b ->
    (id ∈ ids -> extractions t' !! id = Some (xb_AbortAndWait b).2 /\
       forall ch, (xb_AbortAndWait b).1 = Some ch -> (id, ch) ∈ ws) /\
    (id ∉ ids -> extractions t' !! id = Some b).
Proof.
  revert t ws t'; induction ids as [|i ids IH]; intros t ws t' Hnd; simpl.
  { intros [= <- <-] id b Hb. split; [set_solver|done]. }
  apply NoDup_cons in Hnd as [Hi Hnd].
  destruct (extractions t !! i) as [bi|] eqn:Hbi.
  - destruct (xb_AbortAndWait bi) as [w b'] eqn:Hab.
    destruct (abort_extractions ids _) as [ws0 t0] eqn:Hrec. intros [= <- <-] id b Hb.
    specialize (IH _ _ _ Hnd Hrec). simpl in IH.
    destruct (decide (id = i)) as [->|Hne].
    + rewrite Hbi in Hb. injection Hb as ->. rewrite Hab. simpl. split; [|set_solver].
      intros _. destruct (IH i b') as [_ Hno]; [by rewrite lookup_insert_eq|].
      split; [by apply Hno|]. intros ch ->. by left.
    + destruct (IH id b) as [Hyes Hno]; [by rewrite lookup_insert_ne|]. split.
      * intros [|Hin]%elem_of_cons; [done|]. destruct (Hyes Hin) as [? Hw]. split; [done|].
        intros ch Hch. destruct w; [right|]; auto.
      * intros Hin. apply Hno. set_solver.
  - intros Hrec id b Hb. destruct (IH _ _ _ Hnd Hrec id b Hb) as [Hyes Hno].
    assert (id <> i) by congruence. split; [|set_solver].
    intros [|Hin]%elem_of_cons; [done|by apply Hyes].
Qed.

Lemma abort_extractions_distillations ids t :
  distillations (abort_extractions ids t).2 = distillations t.
Proof.
  revert t; induction ids as [|i ids IH]; intros t; simpl; [done|].
  destruct (extractions t !! i); [|apply IH]. destruct (xb_AbortAndWait _) as [w b].
  match goal with |- context [abort_extractions ids ?t] => specialize (IH t); destruct (abort_extractions ids t) end.
  simpl in *. by rewrite IH.
Qed.

Lemma abort_distillations_extractions ids t :
  extractions (abort_distillations ids t).2 = extractions t.
Proof.
  revert t; induction ids as [|i ids IH]; intros t; simpl; [done|].
  destruct (distillations t !! i); [|apply IH]. destruct (gb_AbortAndWait _) as [w b].
  match goal with |- context [abort_distillations ids ?t] => specialize (IH t); destruct (abort_distillations ids t) end.
  simpl in *. by rewrite IH.
Qed.

(** An aborted extraction barrier admits no write, whatever the epoch. *)
Lemma xb_AbortAndWait_stops b :
  aborted (xb (xb_AbortAndWait b).2) = true /\
  (forall e, (xb_TryBeginCommit e (xb_AbortAndWait b).2).1 = false) /\
  (state (xb b) = barrierWriting -> (xb_AbortAndWait b).1 = Some (done (xb b))).
Proof.
  unfold xb_AbortAndWait, xb_TryBeginCommit, begin_core, abort_core, xb_bad. simpl.
  destruct (decide (state (xb b) = barrierWriting)) as [E|E]; simpl; [rewrite E|]; naive_solver.
Qed.

Lemma cancel_extractions_lookup t id b :
  extractions t !! id = Some b -> exists b', extractions (cancel_extractions t) !! id = Some b' /\
    state (xb b') = state (xb b) /\ done (xb b') = done (xb b).
Proof.
  intros Hb. cbn [cancel_extractions set_extractions extractions]. rewrite map_lookup_imap, Hb. simpl.
  case_decide; eexists; by split.
Qed.

(** The barriers after a reset's aborts. *)
Lemma reset_barriers now s ids ws ds s' :
  reset_begin now s = (ids, ws, ds, s') ->
  (forall id b, id ∈ extractionBarriers (tasks s) -> extractions (tasks s) !! id = Some b ->
    exists b', extractions (tasks s') !! id = Some b' /\ aborted (xb b') = true /\
      (forall e, (xb_TryBeginCommit e b').1 = false) /\
      (state (xb b) = barrierWriting -> (id, done (xb b)) ∈ ws)) /\
  (forall id b, id ∈ groupDistillBarriers (tasks s) -> distillations (tasks s) !! id = Some b ->
    exists b', distillations (tasks s') !! id = Some b' /\ aborted (gb b') = true /\
      (gb_TryBeginCommit b').1 = false /\
      (state (gb b) = barrierWriting -> exists ch, (id, ch) ∈ ds)).
Proof.
  unfold reset_begin.
  assert (forall t, extractionBarriers (cancel_extractions (cancel_active t)) = extractionBarriers t /\
    groupDistillBarriers (cancel_extractions (cancel_active t)) = groupDistillBarriers t /\
    distillations (cancel_extractions (cancel_active t)) = distillations t /\
    extractions (cancel_active t) = extractions t) as Ht.
  { intros t. unfold cancel_active. by destruct (activeCancel t). }
  destruct (Ht (tasks s)) as (-> & -> & Hd & He).
  set (t := cancel_extractions _) in *.
  destruct (abort_extractions _ (unregister_distillations t)) as [w1 t1] eqn:H1.
  destruct (abort_distillations _ t1) as [w2 t2] eqn:H2. intros [= <- <- <- <-]. cbn [tasks].
  pose proof (abort_extractions_spec _ _ _ _ (NoDup_elements _) H1) as S1.
  pose proof (abort_distillations_spec _ _ _ _ (NoDup_elements _) H2) as S2.
  split; intros id b Hid Hb.
  - rewrite <- He in Hb. destruct (cancel_extractions_lookup _ _ _ Hb) as (b0 & Hb0 & Es & Ed).
    destruct (S1 id b0 Hb0) as [[Hl Hw] _]; [by apply elem_of_elements|].
    pose proof (abort_distillations_extractions (elements (groupDistillBarriers (tasks s))) t1) as E2.
    rewrite H2 in E2. cbn [snd] in E2.
    exists (xb_AbortAndWait b0).2. rewrite E2. destruct (xb_AbortAndWait_stops b0) as (? & ? & Hs).
    split; [done|]. split; [done|]. split; [done|]. intros Hwr.
    rewrite <- Ed. apply Hw, Hs. by rewrite Es.
  - pose proof (abort_extractions_distillations (elements (extractionBarriers (tasks s)))
      (unregister_distillations t)) as E1. rewrite H1 in E1. cbn [snd] in E1.
    destruct (S2 id b) as [[Hl Hw] _].
    { rewrite E1. cbn [unregister_distillations distillations]. by rewrite Hd. }
    { by apply elem_of_elements. }
    exists (gb_AbortAndWait b).2. destruct (gb_AbortAndWait_stops b) as (? & ? & Hs).
    split; [done|]. split; [done|]. split; [done|]. intros Hwr.
    destruct (gb_AbortAndWait b).1 as [ch|] eqn:Hch; [exists ch; by apply Hw|].
    by destruct (proj1 Hs eq_refl).
Qed.

(** The other fields after a reset. *)
Lemma reset_fields now s ids ws ds s' :
  reset_begin now s = (ids, ws, ds, s') ->
  epoch s' = u64_succ (epoch s) /\ lanest s' = lanest (cancel_all s) /\
  bots s' = reset_bots (bots s) /\ History (hist s') = [] /\ historySeq (hist s') = [] /\
  groupCompactSummary (compact s') = "" /\ groupCompactBuffer (compact s') = [] /\
  groupCompactGeneration (compact s') = u64_succ (groupCompactGeneration (compact s)) /\
  pendingTurns s' = [] /\ deliveryFailure s' = None /\ privateCompacting (hist s') = false.
Proof.
  unfold reset_begin. destruct (abort_extractions _ _) as [w1 t1].
  destruct (abort_distillations _ t1) as [w2 t2]. intros [= <- <- <- <-]. done.
Qed.

Lemma u64_succ_ne n : is_u64 n -> u64_succ n <> n.
Proof. intros. apply u64_add_ne; [done|]. unfold u64_max. lia. Qed.


(** Two turns, a run and an extraction caught in a write are in flight. *)
Definition busy : Session :=
  let s := (BeginRun (new_session "group:1" "old" "" 0)).2 in
  let s := (BeginExtraction s).2 in
  let s := (ReserveSequenceTurn "sender:1" false false s).2 in
  let t := tasks s in
  set_tasks (set_extractions (nextExtractionID t) (extractionCancels t) (extractionBarriers t)
    (alter (fun b => (xb_TryBeginCommit 1 b).2) 1 (extractions t)) t) s.


(** A reset cancels every turn of the lanes it forgets. *)
Lemma cancel_all_turns s key i lane x t :
  lanes_wf (lanest s) -> sequences (lanest s) !! key = Some i -> lanes (lanest s) !! i = Some lane ->
  turns (lanest s) !! x = Some t -> queued (turns (lanest s)) (tail lane) x \/ active lane = Some x ->
  turns (lanest (cancel_all s)) !! x = Some (cancel_turn t).
Proof.
  intros Hwf Hk Hi Hx Hq. unfold cancel_all, cancelSequencesLocked.
  cbn [lanest set_epoch set_lanes turns with_turns].
  rewrite lookup_cancel_turns, decide_True; [by rewrite Hx|].
  apply list_elem_of_bind. exists (key, i). rewrite elem_of_map_to_list. split; [|done]. simpl.
  rewrite Hi, elem_of_app. destruct Hq as [Hq|Ha]; [right; by eapply lane_chain_complete|left].
  rewrite Ha. by left.
Qed.

(** ** What a reset and a clear leave behind *)

(** [ResetSession] keeps the committed sources, so a distillation that begins
    after it, for a batch committed before it, is still admitted. *)
Lemma reset_keeps_sources s now snap :
  is_revoked snap (compact s) = false ->
  let s' := (reset_begin now s).2 in
  groupCompactSummary (compact s') = "" /\
  exists id, (BeginGroupDistillation snap s').1 = Some id.
Proof.
  intros Hr s'. subst s'. unfold reset_begin. destruct (abort_extractions _ _) as [w1 t1].
  destruct (abort_distillations _ t1) as [w2 t2]. cbn [snd]. split; [done|].
  unfold BeginGroupDistillation. cbn [compact]. change (is_revoked snap _) with (is_revoked snap (compact s)).
  rewrite Hr. by eexists.
Qed.

(** [Clear] keeps the previous summary, so withdrawing a message of the last
    committed batch brings a summary of before the clear back. *)
Lemma Clear_keeps_previous s now now2 id :
  contains (TrimSpace id) (lastCommittedMessageIDs (compact s)) = true -> TrimSpace id <> "" ->
  GroupRunningSummary (Clear now s) = "" /\
  GroupRunningSummary (DropGroupCompactMessage None id now2 (Clear now s)).2
  = prevGroupCompactSummary (compact s).
Proof.
  intros Hp Hid. split; [done|].
  unfold DropGroupCompactMessage, DropGroupCompactSlot, DropGroupCompactSlotChecked.
  rewrite (bool_decide_false (TrimSpace id = "")), andb_false_r by done.
  destruct (drop_locked 0 _ _ _) as [[d bs] c] eqn:Hd. destruct (abort_distillations _ _) as [w t].
  unfold drop_locked in Hd. rewrite (bool_decide_false (TrimSpace id = "")) in Hd by done.
  assert (polluted (TrimSpace id) (compact (Clear now s)) = true) as Hp'.
  { unfold polluted. cbn [compact Clear set_compact_fields lastCommittedMessageIDs]. by rewrite Hp. }
  rewrite Hp' in Hd. cbn [negb andb] in Hd. injection Hd as _ _ <-. done.
Qed.
End reset.
