(* ===== verification/PublicReply.v ===== *)
(** Public replies: [internal/llm/public_replies.go].

    An attempt may send replies before it ends.  Each is recorded in the history
    when its delivery is confirmed; when the attempt commits its final answer
    the provisional copies give way to it, in one step, so that a reader sees
    what was said once.  A log belongs to one epoch of the session. *)

From S2P Require Import Prelude GoStrings GroupMessage SessionState History.

Local Open Scope string_scope.
Local Open Scope list_scope.

Record PublicReplyLog := {
  pl_epoch : Z;
  closed : bool;
  ids : list Z;
  texts : list string;
  fallbackText : string;
  finalAccepted : bool;
}.

Definition NewPublicReplyLog (e : Z) : PublicReplyLog := {|
  pl_epoch := e; closed := false; ids := []; texts := []; fallbackText := ""; finalAccepted := false |}.

(** [WithEpochCommit]: whether the commit is run; [s.Epoch()] may initialise. *)
Definition WithEpochCommit (e : Z) (s : Session) : bool * Session :=
  if (e =? 0)%Z then (true, s) else let '(cur, s) := Epoch s in ((cur =? e)%Z, s).

Definition assistant_message (text : string) : ChatMessage := text_message "assistant" text.

(** The flag is what the [compact] callback is called with, if it is. *)
Definition Record_ (text : string) (now : Z) (p : PublicReplyLog) (s : Session)
    : option bool * PublicReplyLog * Session :=
  if decide (TrimSpace text = "") then (None, p, s) else
  let '(run, s) := WithEpochCommit (pl_epoch p) s in
  if negb run then (None, p, s) else
  let '(id, s) := AddMessageAtEpoch (assistant_message text) (pl_epoch p) now s in
  if (id =? 0)%Z then (None, p, s) else
  (Some (negb (closed p)),
   if closed p then p else
     {| pl_epoch := pl_epoch p; closed := closed p; ids := ids p ++ [id]; texts := texts p ++ [text];
        fallbackText := fallbackText p; finalAccepted := finalAccepted p |},
   s).

Definition join_nl (l : list string) : string := Join l (String (Ascii.ascii_of_nat 10) "").

Definition log_Text (p : PublicReplyLog) : string := join_nl (texts p).

(** Dropping the provisional replies from the history. *)
Definition drop_handles (l : list Z) (h : HistoryState) : HistoryState :=
  fold_left (fun h id => drop_handle id h) l h.

Definition commitFinalLocked (text : string) (interrupted : bool) (now : Z) (p : PublicReplyLog)
    (s : Session) : bool * PublicReplyLog * Session :=
  if negb (pl_epoch p =? 0)%Z && negb (epoch s =? pl_epoch p)%Z then (false, p, s) else
  if negb (bool_decide (fallbackText p = "")) && bool_decide (fallbackText p = text)
  then (true, p, s) else
  let s := if interrupted then s else set_hist (drop_handles (ids p) (hist s)) s in
  (true,
   {| pl_epoch := pl_epoch p; closed := true; ids := []; texts := texts p;
      fallbackText := fallbackText p; finalAccepted := finalAccepted p |},
   (addMessageLocked (assistant_message text) now s).2).

Definition CommitFinal (text : string) (interrupted : bool) (now : Z) (p : PublicReplyLog)
    (s : Session) : bool * PublicReplyLog * Session :=
  if finalAccepted p then (false, p, s) else
  let '(ok, p, s) := commitFinalLocked text interrupted now p s in
  if negb ok then (false, p, s) else
  (true, {| pl_epoch := pl_epoch p; closed := closed p; ids := ids p; texts := texts p;
            fallbackText := fallbackText p; finalAccepted := true |}, s).

Definition CommitDelivered (now : Z) (p : PublicReplyLog) (s : Session) : PublicReplyLog * Session :=
  let '(run, s) := WithEpochCommit (pl_epoch p) s in
  if negb run then (p, s) else
  if closed p || (length (texts p) =? 0)%nat then (p, s) else
  let text := join_nl (texts p) in
  let '(ok, p, s) := commitFinalLocked text false now p s in
  if negb ok then (p, s) else
  ({| pl_epoch := pl_epoch p; closed := closed p; ids := ids p; texts := texts p;
      fallbackText := text; finalAccepted := finalAccepted p |}, s).

Definition log_Finish (interrupted : bool) (p : PublicReplyLog) (s : Session) : PublicReplyLog * Session :=
  if closed p then (p, s) else
  ({| pl_epoch := pl_epoch p; closed := true; ids := ids p; texts := texts p;
      fallbackText := fallbackText p; finalAccepted := finalAccepted p |},
   if interrupted then s else set_hist (drop_handles (ids p) (hist s)) s).

(** * Dropping handles is filtering *)

Section drops.
Local Open Scope Z_scope.

Lemma numbered_NoDup h : hist_ok h -> NoDup (map fst (numbered h)).
Proof.
  intros [Hl Hh]. unfold numbered. replace (map fst _) with (historySeq h);
    [by eapply handles_NoDup|]. symmetry. apply fst_zip. lia.
Qed.

Lemma drop_handle_filter h id :
  hist_ok h -> numbered (drop_handle id h) = filter (fun p => p.1 ∉ [id]) (numbered h).
Proof.
  intros Hok. destruct (drop_handle_spec h id Hok) as [[Hno ->]|(l1 & m & l2 & _ & E & ->)].
  - symmetry. apply filter_id, Forall_forall. intros [x m] Hp Hx. apply list_elem_of_singleton in Hx.
    simpl in Hx. subst x. apply message_of_spec in Hp; [|done]. congruence.
  - pose proof (numbered_NoDup h Hok) as Hnd. rewrite E in *.
    rewrite map_app in Hnd. simpl in Hnd. apply NoDup_app in Hnd as (_ & H1 & H2).
    apply NoDup_cons in H2 as [H2 _].
    rewrite filter_app, filter_cons_False by (simpl; intros Hn; apply Hn; by left).
    rewrite !filter_id; [done| |]; apply Forall_forall; intros q Hq Hx;
      apply list_elem_of_singleton in Hx.
    + apply H2. rewrite <- Hx. by apply list_elem_of_fmap_2.
    + apply (H1 q.1); [by apply list_elem_of_fmap_2|]. rewrite Hx. by left.
Qed.

Lemma drop_handles_filter l h :
  hist_ok h -> hist_ok (drop_handles l h) /\
  numbered (drop_handles l h) = filter (fun p => p.1 ∉ l) (numbered h) /\
  nextMsgSeq (drop_handles l h) = nextMsgSeq h.
Proof.
  revert h; induction l as [|id l IH]; intros h Hok; simpl.
  - split; [done|]. split; [|done]. symmetry. apply filter_id, Forall_forall. set_solver.
  - pose proof (drop_handle_ok id h Hok) as Hok'. destruct (IH _ Hok') as (? & -> & Hn).
    split; [done|]. split.
    + rewrite drop_handle_filter, list_filter_filter by done.
      apply list_filter_iff. set_solver.
    + cbn [drop_handles fold_left] in *. rewrite Hn. unfold drop_handle. by case_match.
Qed.
End drops.

(** * What was said is said once *)

Section replies.
Local Open Scope Z_scope.

(** While the attempt runs it replies, and others add messages. *)
Inductive log_op :=
  | Reply (text : string) (now : Z)
  | Other (msg : ChatMessage) (now : Z).

Definition log_step (c : PublicReplyLog * Session) (o : log_op) : PublicReplyLog * Session :=
  match o with
  | Reply text now => let '(_, p, s) := Record_ text now c.1 c.2 in (p, s)
  | Other msg now => (c.1, AddMessage msg now c.2)
  end.

Definition log_run (c : PublicReplyLog * Session) (l : list log_op) : PublicReplyLog * Session :=
  fold_left log_step l c.

(** The replies, which blank texts are not, and the others' messages. *)
Definition reply_of (o : log_op) : list string :=
  match o with Reply text _ => if decide (TrimSpace text = "") then [] else [text] | Other _ _ => [] end.
Definition other_of (o : log_op) : list ChatMessage :=
  match o with Reply _ _ => [] | Other msg _ => [from_core msg] end.
Definition said_of (o : log_op) : list ChatMessage := map assistant_message (reply_of o) ++ other_of o.

(** The log agrees with the history. *)
Record log_ok (h0 : HistoryState) (done : list log_op) (p : PublicReplyLog) (s : Session) : Prop := {
  lo_hist : hist_ok (hist s);
  lo_epoch : epoch s = pl_epoch p;
  lo_open : closed p = false /\ fallbackText p = "" /\ finalAccepted p = false;
  lo_texts : texts p = done ≫= reply_of;
  lo_next : nextMsgSeq (hist s) = nextMsgSeq h0 + Z.of_nat (length (done ≫= said_of));
  lo_ids : forall id, id ∈ ids p -> id <= nextMsgSeq (hist s);
  lo_all : History (hist s) = History h0 ++ (done ≫= said_of);
  lo_others : map snd (filter (fun q => q.1 ∉ ids p) (numbered (hist s)))
    = History h0 ++ (done ≫= other_of);
}.

Lemma numbered_le h q : hist_ok h -> q ∈ numbered h -> q.1 <= nextMsgSeq h.
Proof.
  intros [_ Hh] Hq. destruct q as [x m]. apply elem_of_zip_l in Hq.
  by apply (handles_elem _ _ _ _ Hh) in Hq as [_ ?].
Qed.

Lemma numbered_push h m c r : hist_ok h ->
  numbered {| History := History h ++ [m]; historySeq := historySeq h ++ [nextMsgSeq h + 1];
              nextMsgSeq := nextMsgSeq h + 1; privateCompacting := c; privateCompact := r |}
  = numbered h ++ [(nextMsgSeq h + 1, m)].
Proof. intros [Hl _]. unfold numbered; simpl. by rewrite zip_with_app. Qed.

Lemma filter_ids_push h l : hist_ok h ->
  filter (fun q => q.1 ∉ l ++ [nextMsgSeq h + 1]) (numbered h) = filter (fun q => q.1 ∉ l) (numbered h).
Proof.
  intros Hok. apply filter_elem_iff. intros q Hq. pose proof (numbered_le h q Hok Hq).
  rewrite not_elem_of_app, list_elem_of_singleton. split; [tauto|]. intros ?. split; [done|lia].
Qed.

Lemma log_step_ok h0 done p s o :
  log_ok h0 done p s -> pl_epoch p <> 0 -> room 1 (hist s) ->
  log_ok h0 (done ++ [o]) (log_step (p, s) o).1 (log_step (p, s) o).2 /\
  pl_epoch (log_step (p, s) o).1 = pl_epoch p.
Proof.
  intros [Hok He (Hcl & Hf & Ha) Ht Hn Hids Hall Hoth] He0 Hr.
  assert (forall A (f : log_op -> list A), (done ++ [o]) ≫= f = (done ≫= f) ++ f o) as Hb.
  { intros A f. rewrite bind_app. simpl. by rewrite app_nil_r. }
  pose proof (hist_ok_next _ Hok) as Hpos.
  destruct o as [text now|msg now]; unfold log_step; cbn [fst snd].
  - unfold Record_. case_decide as Hblank.
    { assert (said_of (Reply text now) = [] /\ reply_of (Reply text now) = []) as [E1 E2]
        by (unfold said_of; simpl; by rewrite decide_True).
      split; [|done]. split; rewrite ?Hb, ?E1, ?E2; simpl; rewrite ?app_nil_r; auto. }
    assert (said_of (Reply text now) = [assistant_message text] /\ reply_of (Reply text now) = [text])
      as [E1 E2] by (unfold said_of; simpl; by rewrite decide_False).
    unfold WithEpochCommit, Epoch, init_epoch. rewrite <- He in *.
    rewrite (proj2 (Z.eqb_neq _ _) He0), Z.eqb_refl. cbn [negb].
    unfold AddMessageAtEpoch. rewrite Z.eqb_refl, andb_false_r. unfold addMessageLocked.
    change (from_core (assistant_message text)) with (assistant_message text).
    destruct (push_ok (assistant_message text) (hist s) Hok Hr) as [Ep Hp]. rewrite Ep in *. cbn [snd] in Hp.
    rewrite (proj2 (Z.eqb_neq _ _)) by lia. rewrite Hcl. cbn [negb fst snd]. split; [|done].
    split; rewrite ?Hb, ?E1, ?E2; cbn [other_of hist epoch touch set_hist pl_epoch closed ids texts
      fallbackText finalAccepted nextMsgSeq History].
    + done.
    + done.
    + done.
    + by rewrite Ht.
    + rewrite length_app. simpl. lia.
    + intros id [Hid|Hid]%elem_of_app; [apply Hids in Hid; lia|].
      apply list_elem_of_singleton in Hid. lia.
    + rewrite Hall. simpl. by rewrite <- app_assoc.
    + rewrite numbered_push, filter_app, filter_ids_push by done.
      rewrite (filter_none _ [_]); [by rewrite app_nil_r, app_nil_r|].
      constructor; [|done]. simpl. set_solver.
  - unfold AddMessage, AddMessageTracked, AddMessageAtEpoch. cbn [Z.eqb negb andb].
    unfold addMessageLocked.
    destruct (push_ok (from_core msg) (hist s) Hok Hr) as [Ep Hp]. rewrite Ep in *. cbn [snd] in Hp |- *.
    split; [|done].
    split; rewrite ?Hb; cbn [reply_of said_of other_of hist epoch touch set_hist nextMsgSeq History].
    + done.
    + done.
    + done.
    + by rewrite app_nil_r.
    + rewrite length_app. simpl. lia.
    + intros id Hid%Hids. lia.
    + rewrite Hall. simpl. by rewrite <- app_assoc.
    + rewrite numbered_push, filter_app, map_app, Hoth by done.
      rewrite (filter_id _ [_]); [by rewrite <- app_assoc|].
      constructor; [|done]. simpl. intros Hid%Hids. lia.
Qed.

Lemma said_of_length o : (length (said_of o) <= 1)%nat.
Proof. unfold said_of. destruct o; simpl; [case_decide|]; simpl; lia. Qed.

Lemma log_run_ok l : forall h0 done p s,
  log_ok h0 done p s -> pl_epoch p <> 0 -> room (S (length l)) (hist s) ->
  log_ok h0 (done ++ l) (log_run (p, s) l).1 (log_run (p, s) l).2 /\
  pl_epoch (log_run (p, s) l).1 = pl_epoch p /\ room 1 (hist (log_run (p, s) l).2).
Proof.
  induction l as [|o l IH]; intros h0 done p s Hok He Hr; [by rewrite app_nil_r|].
  unfold room in *. simpl in Hr.
  destruct (log_step_ok h0 done p s o Hok He) as [Hok' He']; [unfold room; lia|].
  cbn [log_run fold_left]. revert Hok' He'. destruct (log_step (p, s) o) as [p1 s1].
  cbn [fst snd]. intros Hok' He'.
  destruct (IH h0 (done ++ [o]) p1 s1) as (H1 & H2 & H3); [done|congruence| |].
  { rewrite (lo_next _ _ _ _ Hok'), bind_app, length_app. pose proof (lo_next _ _ _ _ Hok).
    pose proof (said_of_length o). simpl. rewrite app_nil_r. lia. }
  rewrite <- app_assoc in H1. split; [exact H1|]. split; [etrans; [exact H2|exact He']|exact H3].
Qed.

Lemma Join_nonempty l sep : l <> [] -> Forall (fun s => s <> "") l -> Join l sep <> "".
Proof.
  destruct l as [|x [|y l]]; [done| |]; intros _ [Hx _]%Forall_cons; simpl; [done|].
  destruct x; [done|]. by simpl.
Qed.

Lemma replies_nonempty (l : list log_op) : Forall (fun s => s <> "") (l ≫= reply_of).
Proof.
  apply Forall_forall. intros x (o & Hx & _)%list_elem_of_bind. destruct o; simpl in Hx; [|set_solver].
  case_decide; [set_solver|]. apply list_elem_of_singleton in Hx as ->. intros ->. by vm_compute in H.
Qed.

(** Committing a final answer to an open log. *)
Lemma commitFinal_ok h0 done p s text i now :
  log_ok h0 done p s -> room 1 (hist s) ->
  exists s', commitFinalLocked text i now p s =
    (true, {| pl_epoch := pl_epoch p; closed := true; ids := []; texts := texts p;
              fallbackText := ""; finalAccepted := false |}, s') /\
    History (hist s') = History h0 ++ (done ≫= if i then said_of else other_of) ++ [assistant_message text] /\
    epoch s' = epoch s.
Proof.
  intros [Hok He (Hcl & Hf & Ha) Ht Hn Hids Hall Hoth] Hr. unfold commitFinalLocked.
  rewrite He, Z.eqb_refl, andb_false_r, Hf, Ha. cbn [negb andb bool_decide]. eexists. split; [done|].
  assert (forall h, hist_ok h -> room 1 h ->
    History (push (assistant_message text) h).2 = History h ++ [assistant_message text]) as Hpush.
  { intros h Hh Hh'. by destruct (push_ok (assistant_message text) h Hh Hh') as [-> _]. }
  unfold addMessageLocked. change (from_core (assistant_message text)) with (assistant_message text).
  destruct i.
  - specialize (Hpush _ Hok Hr). destruct (push _ (hist s)) as [id h']. cbn [snd hist touch set_hist epoch] in *.
    by rewrite Hpush, Hall, <- app_assoc.
  - destruct (drop_handles_filter (ids p) (hist s) Hok) as (Hok' & Hnum & Hnext).
    cbn [hist set_hist]. unfold room in Hpush, Hr. rewrite <- Hnext in Hr. specialize (Hpush _ Hok' Hr).
    destruct (push _ (drop_handles _ _)) as [id h']. cbn [snd hist touch set_hist epoch] in *.
    by rewrite Hpush, <- (numbered_snd _ Hok'), Hnum, Hoth, <- app_assoc.
Qed.

End replies.

