(* ===== verification/SessionManager.v ===== *)
(** The session manager: [SessionManager] of [internal/llm/session.go].

    Conversations are found by ID under any of their platform spellings.  A
    session is shared by pointer, so the manager maps keys to pointers into a
    heap of sessions; the heap is shared by the managers of an instance that is
    rebuilt ([TransferSessionsTo]). *)

From S2P Require Import Prelude GoStrings SessionKey SummaryStore GroupMessage SessionState.
From S2P Require Import GroupCompact Session.

Local Open Scope string_scope.
Local Open Scope list_scope.

Record SessionManager := {
  sessions : gmap string Z;
  groupNames : gmap string string;
  groupSummaryStore : option Store;
  MaxHistory : Z;
  TTL : Z;
}.

(** The sessions by pointer; [next_session] is the next fresh pointer. *)
Record Heap := { cells : gmap Z Session; next_session : Z }.

Definition with_sessions (m : gmap string Z) (sm : SessionManager) : SessionManager := {|
  sessions := m; groupNames := groupNames sm; groupSummaryStore := groupSummaryStore sm;
  MaxHistory := MaxHistory sm; TTL := TTL sm |}.

Definition update_cell (p : Z) (f : Session -> Session) (h : Heap) : Heap := {|
  cells := alter f p (cells h); next_session := next_session h |}.

Definition minHistory : Z := 4.
Definition hour : Z := 3600000000000.

(** [maxContext] is [MAX_CONTEXT_MESSAGES] when it parses as an integer;
    [database] says that the scope reads its configuration from a database. *)
Definition NewSessionManager (maxContext : option Z) (database : bool) : SessionManager := {|
  sessions := ∅; groupNames := ∅; groupSummaryStore := None;
  MaxHistory := match maxContext with
    | Some n => if (minHistory <=? n)%Z && negb database then n else 50%Z
    | None => 50%Z
    end;
  TTL := (24 * hour)%Z |}.

Definition SetGroupSummaryStore (store : option Store) (sm : SessionManager) : SessionManager := {|
  sessions := sessions sm; groupNames := groupNames sm; groupSummaryStore := store;
  MaxHistory := MaxHistory sm; TTL := TTL sm |}.

(** The sessions and names of the old manager win; sessions keep their pointer. *)
Definition TransferSessionsTo (sm next : SessionManager) : SessionManager * SessionManager :=
  ({| sessions := ∅; groupNames := ∅; groupSummaryStore := groupSummaryStore sm;
      MaxHistory := MaxHistory sm; TTL := TTL sm |},
   {| sessions := sessions sm ∪ sessions next; groupNames := groupNames sm ∪ groupNames next;
      groupSummaryStore := groupSummaryStore next; MaxHistory := MaxHistory next; TTL := TTL next |}).

(** * Finding a session *)

Definition key_of (sessionID : string) : string :=
  let canonicalID := CanonicalSessionKey sessionID in
  if decide (canonicalID = "") then sessionID else canonicalID.

(** The first of the keys that is present, with the key. *)
Fixpoint first_key (keys : list string) (m : gmap string Z) : option (string * Z) :=
  match keys with
  | [] => None
  | k :: keys => match m !! k with Some p => Some (k, p) | None => first_key keys m end
  end.

(** The canonical key, the ID itself, then the other spellings. *)
Definition find_session (sessionID : string) (m : gmap string Z) : option Z :=
  snd <$> first_key (key_of sessionID :: sessionID :: SessionKeyAliases sessionID) m.

Definition Get (sessionID : string) (sm : SessionManager) : option Z :=
  find_session (TrimSpace sessionID) (sessions sm).

Definition Count (sm : SessionManager) : nat := size (sessions sm).

Definition GetGroupName (sessionID : string) (h : Heap) (sm : SessionManager) : string :=
  let sessionID := TrimSpace sessionID in
  let canonicalID := key_of sessionID in
  let names := filter (fun n => n <> "") (omap (fun k => groupNames sm !! k)
                 (canonicalID :: sessionID :: SessionKeyAliases sessionID)) in
  match names with
  | n :: _ => n
  | [] => match first_key [canonicalID; sessionID] (sessions sm) with
          | Some (_, p) => match cells h !! p with Some s => GroupName s | None => "" end
          | None => ""
          end
  end.

(** * Creating *)

Section create.
Context `{UnicodeCase}.

Definition is_group_key (canonicalID : string) : bool :=
  let s := ToLower canonicalID in HasPrefix s "group:" || Contains s ":group:".

(** The summary a new session starts from. *)
Definition restored_summary (canonicalID : string) (sm : SessionManager) : string :=
  match groupSummaryStore sm with
  | Some st => if is_group_key canonicalID then
                 match SummaryStore.Get canonicalID st with
                 | Ok (Some record) => rec_Summary record
                 | _ => ""
                 end
               else ""
  | None => ""
  end.

(** The part of [GetOrCreate] under the write lock: the double check, which
    moves a session found under another spelling to its canonical key, then
    the new session. *)
Definition create_locked (sessionID : string) (now : Z) (h : Heap) (sm : SessionManager)
    : Z * Heap * SessionManager :=
  let canonicalID := key_of sessionID in
  match first_key (canonicalID :: sessionID :: SessionKeyAliases sessionID) (sessions sm) with
  | Some (k, p) =>
      (p, h, if decide (k = canonicalID) then sm
             else with_sessions (<[canonicalID := p]> (delete k (sessions sm))) sm)
  | None =>
      let gName := default "" (groupNames sm !! canonicalID) in
      let gName := if decide (gName = "") then default "" (groupNames sm !! sessionID) else gName in
      let p := next_session h in
      (p, {| cells := <[p := new_session sessionID (restored_summary canonicalID sm) gName now]> (cells h);
             next_session := (p + 1)%Z |},
       with_sessions (<[canonicalID := p]> (sessions sm)) sm)
  end.

(** The read-locked attempt, then the write-locked one. *)
Definition GetOrCreate (sessionID : string) (now : Z) (h : Heap) (sm : SessionManager)
    : Z * Heap * SessionManager :=
  let sessionID := TrimSpace sessionID in
  match find_session sessionID (sessions sm) with
  | Some p => (p, h, sm)
  | None => create_locked sessionID now h sm
  end.

Definition Create (sessionID : string) (now : Z) (h : Heap) (sm : SessionManager)
    : Z * Heap * SessionManager := GetOrCreate sessionID now h sm.
End create.

Definition SetGroupName (sessionID name : string) (h : Heap) (sm : SessionManager)
    : Heap * SessionManager :=
  let name := TrimSpace name in
  if decide (name = "") then (h, sm) else
  let sessionID := TrimSpace sessionID in
  let canonicalID := key_of sessionID in
  (match first_key [canonicalID; sessionID] (sessions sm) with
   | Some (_, p) => update_cell p (Session.SetGroupName name) h
   | None => h
   end,
   {| sessions := sessions sm;
      groupNames := <[sessionID := name]> (<[canonicalID := name]> (groupNames sm));
      groupSummaryStore := groupSummaryStore sm; MaxHistory := MaxHistory sm; TTL := TTL sm |}).

(** * Resetting, deleting, expiring *)

(** [ResetGroupCompact] looks up without the fallback for an empty key. *)
Definition ResetGroupCompact (sessionID : string) (now : Z) (h : Heap) (sm : SessionManager)
    : bool * list (Z * nat) * Heap :=
  let sessionID := TrimSpace sessionID in
  match first_key (CanonicalSessionKey sessionID :: sessionID :: SessionKeyAliases sessionID)
          (sessions sm) with
  | Some (_, p) =>
      match cells h !! p with
      | Some s => let '(waits, s) := GroupCompact.ResetGroupCompact now s in
                  (true, waits, update_cell p (fun _ => s) h)
      | None => (true, [], h)
      end
  | None => (false, [], h)
  end.

Section reset.
Context (saveHook save : gmap string SummaryRecord -> option string).

Definition ResetSession (sessionID : string) (now : Z) (h : Heap) (sm : SessionManager)
    : option string * Heap * SessionManager :=
  let sessionID := TrimSpace sessionID in
  let store := groupSummaryStore sm in
  match find_session sessionID (sessions sm) with
  | Some p =>
      match cells h !! p with
      | Some s =>
          let '(err, s, store) := Session.ResetSession saveHook save now store s in
          (err, update_cell p (fun _ => s) h, SetGroupSummaryStore store sm)
      | None => (None, h, sm)
      end
  | None =>
      match store with
      | Some st => let '(err, st) := SummaryStore.Delete saveHook save (key_of sessionID) st in
                   (err, h, SetGroupSummaryStore (Some st) sm)
      | None => (None, h, sm)
      end
  end.
End reset.

Definition Delete (sessionID : string) (sm : SessionManager) : SessionManager :=
  let sessionID := TrimSpace sessionID in
  let canonicalID := CanonicalSessionKey sessionID in
  let m := sessions sm in
  let m := if decide (canonicalID = "") then m else delete canonicalID m in
  with_sessions (fold_right delete (delete sessionID m) (SessionKeyAliases sessionID)) sm.

(** Sessions not updated for longer than [TTL]. *)
Definition expired (now : Z) (h : Heap) (sm : SessionManager) (p : Z) : bool :=
  match cells h !! p with Some s => (TTL sm <? time_sub now (UpdatedAt s))%Z | None => false end.

Definition Cleanup (now : Z) (h : Heap) (sm : SessionManager) : SessionManager :=
  with_sessions (filter (fun kp => expired now h sm kp.2 = false) (sessions sm)) sm.

(** * Listing *)

(** Most recently updated first, then by ID. *)
Definition session_less (a b : Session) : bool :=
  if (UpdatedAt a =? UpdatedAt b)%Z then string_less (ConversationID a) (ConversationID b)
  else time_after (UpdatedAt a) (UpdatedAt b).

Definition all_sessions (h : Heap) (sm : SessionManager) : list Session :=
  omap (fun kp => cells h !! kp.2) (map_to_list (sessions sm)).

(** [None] is the panic of a slice whose end, an overflowed sum, precedes its start. *)
Definition ListSessions (offset limit : Z) (h : Heap) (sm : SessionManager) : option (list Session) :=
  let entries := sort_stable session_less (all_sessions h sm) in
  let len := Z.of_nat (length entries) in
  let offset := if (offset <? 0)%Z then 0%Z else offset in
  let limit := if (limit <=? 0)%Z then len else limit in
  if (len <=? offset)%Z then Some [] else
  let end_ := Z.min (i64 (offset + limit)) len in
  if (end_ <? offset)%Z then None
  else Some (take (Z.to_nat (end_ - offset)) (drop (Z.to_nat offset) entries)).

(** * One session per conversation *)

Section manager.

(** Keys are canonical, sessions are not shared between keys, and pointers are
    allocated. *)
Record mgr_ok (h : Heap) (sm : SessionManager) : Prop := {
  mo_key k p : sessions sm !! k = Some p -> CanonicalSessionKey k = k;
  mo_inj k k' p : sessions sm !! k = Some p -> sessions sm !! k' = Some p -> k = k';
  mo_cell k p : sessions sm !! k = Some p -> is_Some (cells h !! p);
  mo_fresh p : is_Some (cells h !! p) -> (p < next_session h)%Z;
}.

Lemma CanonicalSessionKey_TrimSpace id : CanonicalSessionKey (TrimSpace id) = CanonicalSessionKey id.
Proof. unfold CanonicalSessionKey. by rewrite (TrimSpace_id (TrimSpace id)) by apply TrimSpace_trimmed. Qed.

Lemma key_of_trimmed id : key_of (TrimSpace id) = CanonicalSessionKey id.
Proof.
  unfold key_of. rewrite CanonicalSessionKey_TrimSpace. case_decide as E; [|done].
  destruct (CanonicalSessionKey_canonical id) as [(_ & ? & _)|[-> H]]; [done|exact H].
Qed.

Lemma first_key_None keys (m : gmap string Z) :
  (forall k, k ∈ keys -> m !! k = None) -> first_key keys m = None.
Proof.
  induction keys as [|k keys IH]; intros H; [done|]. simpl.
  rewrite H by by left. apply IH. intros. apply H. by right.
Qed.

(** Where keys are canonical, only the canonical key matters. *)
Lemma first_key_canonical id (m : gmap string Z) :
  (forall k p, m !! k = Some p -> CanonicalSessionKey k = k) ->
  first_key (CanonicalSessionKey id :: TrimSpace id :: SessionKeyAliases (TrimSpace id)) m
  = (fun p => (CanonicalSessionKey id, p)) <$> m !! CanonicalSessionKey id.
Proof.
  intros Hk. cbn [first_key]. destruct (m !! CanonicalSessionKey id) as [p|] eqn:E; [done|].
  cbn [fmap option_fmap option_map].
  assert (forall k, CanonicalSessionKey k = CanonicalSessionKey id -> m !! k = None) as Hno.
  { intros k Hk'. destruct (m !! k) as [p|] eqn:Ek; [|done]. apply Hk in Ek as Ek'. congruence. }
  apply (first_key_None (TrimSpace id :: SessionKeyAliases (TrimSpace id))).
  intros k [->|Ha]%elem_of_cons; apply Hno; [apply CanonicalSessionKey_TrimSpace|].
  apply SessionKeyAliases_class in Ha as (_ & _ & ->). apply CanonicalSessionKey_TrimSpace.
Qed.

Lemma find_session_canonical h sm id :
  mgr_ok h sm -> find_session (TrimSpace id) (sessions sm) = sessions sm !! CanonicalSessionKey id.
Proof.
  intros Hok. unfold find_session. rewrite key_of_trimmed, first_key_canonical by apply Hok.
  by destruct (sessions sm !! _).
Qed.

Lemma Get_canonical h sm id : mgr_ok h sm -> Get id sm = sessions sm !! CanonicalSessionKey id.
Proof. apply find_session_canonical. Qed.

Context `{UnicodeCase}.

Lemma GetOrCreate_spec h sm id now :
  mgr_ok h sm ->
  GetOrCreate id now h sm =
    match sessions sm !! CanonicalSessionKey id with
    | Some p => (p, h, sm)
    | None =>
        let k := CanonicalSessionKey id in
        let gName := default "" (groupNames sm !! k) in
        let gName := if decide (gName = "") then default "" (groupNames sm !! TrimSpace id) else gName in
        let p := next_session h in
        (p, {| cells := <[p := new_session (TrimSpace id) (restored_summary k sm) gName now]> (cells h);
               next_session := (p + 1)%Z |},
         with_sessions (<[k := p]> (sessions sm)) sm)
    end.
Proof.
  intros Hok. unfold GetOrCreate. rewrite (find_session_canonical h) by done.
  destruct (sessions sm !! CanonicalSessionKey id) as [p|] eqn:E; [done|].
  unfold create_locked. rewrite key_of_trimmed, first_key_canonical by apply Hok. by rewrite E.
Qed.

Lemma GetOrCreate_ok h sm id now p h' sm' :
  mgr_ok h sm -> GetOrCreate id now h sm = (p, h', sm') ->
  mgr_ok h' sm' /\ sessions sm' !! CanonicalSessionKey id = Some p /\
  (forall k, k <> CanonicalSessionKey id -> sessions sm' !! k = sessions sm !! k).
Proof.
  intros Hok. rewrite GetOrCreate_spec by done.
  destruct (sessions sm !! CanonicalSessionKey id) as [q|] eqn:E; [by intros [= <- <- <-]|].
  cbn zeta. intros [= <- <- <-]. destruct Hok as [Hk Hi Hc Hf].
  cbn [sessions with_sessions]. rewrite lookup_insert_eq. split; [|split; [done|]].
  2: { intros k Hne. by rewrite lookup_insert_ne. }
  assert (forall k p, sessions sm !! k = Some p -> p <> next_session h) as Hnew.
  { intros k p Hp ->. apply Hc, Hf in Hp. lia. }
  split; cbn [sessions with_sessions cells next_session].
  - intros k p [[<- _]|[_ ?]]%lookup_insert_Some; [apply CanonicalSessionKey_idemp|by eapply Hk].
  - intros k k' p [[<- <-]|[? Hp]]%lookup_insert_Some [[<- Hp']|[? Hp']]%lookup_insert_Some; try done.
    + by apply Hnew in Hp'.
    + subst. by apply Hnew in Hp.
    + by eapply Hi.
  - intros k p [[<- <-]|[? Hp]]%lookup_insert_Some; rewrite lookup_insert_is_Some; [by left|].
    right. split; [|by eapply Hc]. apply not_eq_sym. by eapply Hnew.
  - intros p [<-|[? Hp]]%lookup_insert_is_Some; [lia|]. apply Hf in Hp. lia.
Qed.

Lemma mgr_ok_sub h sm m h' sm' :
  mgr_ok h sm -> sessions sm' = m -> m ⊆ sessions sm ->
  (forall p, is_Some (cells h' !! p) <-> is_Some (cells h !! p)) -> next_session h' = next_session h ->
  mgr_ok h' sm'.
Proof.
  intros [Hk Hi Hc Hf] E Hsub Hcells Hn. subst m.
  assert (forall k p, sessions sm' !! k = Some p -> sessions sm !! k = Some p) as Hin.
  { intros k p Hp. by eapply lookup_weaken. }
  split.
  - intros k p Hp%Hin. by eapply Hk.
  - intros k k' p Hp%Hin Hp'%Hin. by eapply Hi.
  - intros k p Hp%Hin. apply Hcells. by eapply Hc.
  - intros p Hp%Hcells. rewrite Hn. by apply Hf.
Qed.

(** What callers do to a manager, and to the sessions they hold. *)
Inductive mgr_op :=
  | OCreate (id : string) (now : Z)
  | ODelete (id : string)
  | OCleanup (now : Z)
  | OName (id name : string)
  | OResetCompact (id : string) (now : Z)
  | OReset (id : string) (now : Z)
  | OSession (p : Z) (f : Session -> Session).

Context (saveHook save : gmap string SummaryRecord -> option string).

Definition mgr_step (c : Heap * SessionManager) (o : mgr_op) : Heap * SessionManager :=
  let '(h, sm) := c in
  match o with
  | OCreate id now => let '(_, h, sm) := GetOrCreate id now h sm in (h, sm)
  | ODelete id => (h, Delete id sm)
  | OCleanup now => (h, Cleanup now h sm)
  | OName id name => SetGroupName id name h sm
  | OResetCompact id now => let '(_, _, h) := ResetGroupCompact id now h sm in (h, sm)
  | OReset id now => let '(_, h, sm) := ResetSession saveHook save id now h sm in (h, sm)
  | OSession p f => (update_cell p f h, sm)
  end.

Definition mgr_run (c : Heap * SessionManager) (l : list mgr_op) : Heap * SessionManager :=
  fold_left mgr_step l c.

Lemma fold_delete_subseteq (keys : list string) (m : gmap string Z) : fold_right delete m keys ⊆ m.
Proof.
  induction keys as [|k keys IH]; simpl; [done|]. etrans; [apply delete_subseteq|exact IH].
Qed.

Lemma update_cell_dom p f h q : is_Some (cells (update_cell p f h) !! q) <-> is_Some (cells h !! q).
Proof. cbn [update_cell cells]. apply lookup_alter_is_Some. Qed.

Lemma mgr_step_ok h sm o : mgr_ok h sm -> mgr_ok (mgr_step (h, sm) o).1 (mgr_step (h, sm) o).2.
Proof.
  intros Hok.
  assert (forall h' sm', sessions sm' ⊆ sessions sm ->
    (h' = h \/ exists p f, h' = update_cell p f h) -> mgr_ok h' sm') as Hsub.
  { intros h' sm' Hs Hh. eapply mgr_ok_sub; [done|done|done| |].
    - intros q. destruct Hh as [->|(p & f & ->)]; [done|apply update_cell_dom].
    - by destruct Hh as [->|(p & f & ->)]. }
  destruct o as [id now|id|now|id name|id now|id now|p f]; cbn [mgr_step].
  - destruct (GetOrCreate id now h sm) as [[p h'] sm'] eqn:E. by eapply GetOrCreate_ok in E as [? _].
  - apply Hsub; [|by left]. unfold Delete. cbn [sessions with_sessions].
    etrans; [apply fold_delete_subseteq|]. etrans; [apply delete_subseteq|].
    case_decide; [done|apply delete_subseteq].
  - apply Hsub; [|by left]. apply map_filter_subseteq.
  - unfold SetGroupName. case_decide; [by apply Hsub; [|left]|].
    apply Hsub; [done|]. destruct (first_key _ _) as [[k p]|]; [right; eauto|by left].
  - unfold ResetGroupCompact. destruct (first_key _ _) as [[k p]|]; [|by apply Hsub; [|left]].
    destruct (cells h !! p); [|by apply Hsub; [|left]].
    destruct (GroupCompact.ResetGroupCompact now s) as [ws s']. apply Hsub; [done|right; eauto].
  - unfold ResetSession. destruct (find_session _ _) as [p|].
    + destruct (cells h !! p); [|by apply Hsub; [|left]].
      destruct (Session.ResetSession _ _ _ _ _) as [[e s'] st]. apply Hsub; [done|right; eauto].
    + destruct (groupSummaryStore sm) as [st|]; [|by apply Hsub; [|left]].
      destruct (SummaryStore.Delete _ _ _ _) as [e st']. by apply Hsub; [|left].
  - apply Hsub; [done|right; eauto].
Qed.

Definition empty_heap : Heap := {| cells := ∅; next_session := 0 |}.

Lemma new_mgr_ok c b : mgr_ok empty_heap (NewSessionManager c b).
Proof. split; simpl; intros *; rewrite ?lookup_empty; try done. Qed.

Lemma mgr_run_ok l h sm :
  mgr_ok h sm -> mgr_ok (mgr_run (h, sm) l).1 (mgr_run (h, sm) l).2.
Proof.
  revert h sm; induction l as [|o l IH]; intros h sm Hok; [done|]. cbn [mgr_run fold_left].
  pose proof (mgr_step_ok h sm o Hok). destruct (mgr_step (h, sm) o) as [h' sm']. by apply IH.
Qed.

(** Two managers whose sessions are disjoint transfer into one. *)
Lemma TransferSessionsTo_ok h sm next :
  mgr_ok h sm -> mgr_ok h next ->
  (forall k k' p, sessions sm !! k = Some p -> sessions next !! k' <> Some p) ->
  mgr_ok h (TransferSessionsTo sm next).2 /\ sessions (TransferSessionsTo sm next).1 = ∅ /\
  forall k p, sessions sm !! k = Some p -> sessions (TransferSessionsTo sm next).2 !! k = Some p.
Proof.
  intros [Hk Hi Hc Hf] [Hk' Hi' Hc' _] Hd. unfold TransferSessionsTo. cbn [fst snd sessions].
  split; [|split; [done|intros; by apply lookup_union_Some_l]].
  split; cbn [sessions]; [| | |done].
  - intros k p [Hp|[_ Hp]]%lookup_union_Some_raw; eauto.
  - intros k k' p [Hp|[_ Hp]]%lookup_union_Some_raw [Hq|[_ Hq]]%lookup_union_Some_raw; eauto.
    + by destruct (Hd k k' p).
    + by destruct (Hd k' k p).
  - intros k p [Hp|[_ Hp]]%lookup_union_Some_raw; eauto.
Qed.

(** Deleting by any spelling deletes the canonical key only. *)
Lemma Delete_spec h sm id :
  mgr_ok h sm -> sessions (Delete id sm) = delete (CanonicalSessionKey id) (sessions sm).
Proof.
  intros Hok. unfold Delete. cbn [sessions with_sessions]. rewrite CanonicalSessionKey_TrimSpace.
  assert (forall keys m, m ⊆ sessions sm -> (forall k, k ∈ keys -> CanonicalSessionKey k = CanonicalSessionKey id) ->
    m !! CanonicalSessionKey id = None -> fold_right delete m keys = m) as Hfold.
  { intros keys m Hm Hkeys Hno. induction keys as [|k keys IH]; [done|]. simpl.
    rewrite IH by (intros; apply Hkeys; by right). apply delete_id.
    destruct (m !! k) as [p|] eqn:Ek; [|done]. exfalso.
    pose proof (lookup_weaken _ _ _ _ Ek Hm) as Ek'. apply (mo_key _ _ Hok) in Ek'.
    rewrite (Hkeys k) in Ek' by by left. congruence. }
  assert (forall m, m ⊆ sessions sm -> m !! CanonicalSessionKey id = None -> delete (TrimSpace id) m = m) as Hid.
  { intros m Hm Hno. apply (Hfold [TrimSpace id]); [done| |done].
    intros k ->%list_elem_of_singleton. apply CanonicalSessionKey_TrimSpace. }
  case_decide as E.
  - destruct (CanonicalSessionKey_canonical id) as [(_ & ? & _)|[_ Ht]]; [done|]. rewrite Ht, E.
    unfold SessionKeyAliases. rewrite decide_True; [done|]. by vm_compute.
  - assert (delete (CanonicalSessionKey id) (sessions sm) ⊆ sessions sm) as Hs by apply delete_subseteq.
    assert (delete (CanonicalSessionKey id) (sessions sm) !! CanonicalSessionKey id = None) as Hn
      by apply lookup_delete_eq.
    rewrite Hid by done. apply Hfold; [done| |done].
    intros k (_ & _ & ->)%SessionKeyAliases_class. apply CanonicalSessionKey_TrimSpace.
Qed.

(** A conversation has one session, however it is spelled.  In every state
    a manager reaches, creating under one spelling and looking up or creating
    under any other of the same conversation give the same session; other
    conversations keep theirs, which is never shared; and deleting under any
    spelling removes exactly this one. *)
Theorem one_session_per_conversation l c b id id' now now' :
  CanonicalSessionKey id' = CanonicalSessionKey id ->
  let '(h, sm) := mgr_run (empty_heap, NewSessionManager c b) l in
  let '(p, h1, sm1) := GetOrCreate id now h sm in
  is_Some (cells h1 !! p) /\ Get id' sm1 = Some p /\ GetOrCreate id' now' h1 sm1 = (p, h1, sm1) /\
  (forall o, CanonicalSessionKey o <> CanonicalSessionKey id ->
     Get o sm1 = Get o sm /\ Get o sm1 <> Some p /\ Get o (Delete id' sm1) = Get o sm1) /\
  Get id' (Delete id sm1) = None.
Proof.
  intros Hid. pose proof (mgr_run_ok l _ _ (new_mgr_ok c b)) as Hok.
  destruct (mgr_run (empty_heap, NewSessionManager c b) l) as [h sm]. cbn [fst snd] in Hok.
  destruct (GetOrCreate id now h sm) as [[p h1] sm1] eqn:E.
  destruct (GetOrCreate_ok _ _ _ _ _ _ _ Hok E) as (Hok1 & Hp & Hoth).
  assert (forall x, mgr_ok h1 (Delete x sm1)) as Hdel by (intros x; by apply (mgr_step_ok h1 sm1 (ODelete x))).
  split; [by eapply mo_cell|]. split; [by rewrite (Get_canonical h1), Hid|].
  split; [by rewrite GetOrCreate_spec, Hid, Hp by done|]. split.
  - intros o Ho. rewrite (Get_canonical h1 sm1), (Get_canonical h sm) by done.
    split; [by apply Hoth|]. split.
    + intros Hop. apply Ho. by eapply (mo_inj _ _ Hok1).
    + rewrite (Get_canonical h1), (Delete_spec h1), Hid by auto. by apply lookup_delete_ne.
  - rewrite (Get_canonical h1), (Delete_spec h1), Hid by auto. apply lookup_delete_eq.
Qed.
End manager.

(** * Creating under one spelling restores the persisted summary *)

Section restore.
Context `{UnicodeCaseLaws}.

Lemma is_group_key_group g : is_group_key ("group:" +:+ g) = true.
Proof.
  unfold is_group_key. rewrite ToLower_app by done. unfold HasPrefix.
  by rewrite CutPrefix_app.
Qed.

Lemma summary_id_of_session_key id g :
  CanonicalSessionKey id = "group:" +:+ g -> SummaryStore.CanonicalSessionID id = "group:" +:+ g.
Proof.
  unfold CanonicalSessionKey, SummaryStore.CanonicalSessionID. case_decide; [done|].
  destruct (cut_any group_prefixes (TrimSpace id)) as [c|] eqn:E; [done|].
  destruct (cut_any private_prefixes (TrimSpace id)); [done|done].
Qed.

(** A group conversation survives a restart.  When a group session is first
    used after a restart, under any of its spellings, it starts with the running
    summary the store holds for the conversation, whichever spelling that was
    saved under, and with nothing else: no history, no buffered message. *)
Theorem restart_restores_summary h sm st id id2 g r now :
  mgr_ok h sm -> groupSummaryStore sm = Some st -> wf st -> blockedErr st = None ->
  CanonicalSessionKey id = "group:" +:+ g -> CanonicalSessionKey id2 = "group:" +:+ g ->
  SummaryStore.Get id2 st = Ok (Some r) -> Get id sm = None ->
  exists s, let '(p, h', sm') := GetOrCreate id now h sm in
    cells h' !! p = Some s /\ Get id2 sm' = Some p /\
    GroupRunningSummary s = rec_Summary r /\ epoch s = 1%Z /\
    History (hist s) = [] /\ groupCompactBuffer (compact s) = [].
Proof.
  intros Hok Hst Hwf Hb Hid Hid2 Hget Hnone. rewrite (Get_canonical h) in Hnone by done.
  destruct (GetOrCreate id now h sm) as [[p h'] sm'] eqn:E.
  destruct (GetOrCreate_ok _ _ _ _ _ _ _ Hok E) as (Hok' & Hp & _).
  rewrite GetOrCreate_spec, Hnone in E by done. cbn zeta in E. injection E as <- <- <-.
  eexists. cbn [cells]. rewrite lookup_insert_eq. split; [done|].
  split; [by rewrite (Get_canonical _ _ _ Hok'), Hid2, <- Hid|].
  split; [|done]. unfold GroupRunningSummary. cbn [new_session compact empty_compact groupCompactSummary].
  unfold restored_summary. rewrite Hst, Hid, is_group_key_group.
  rewrite Get_wf in Hget by done. rewrite (summary_id_of_session_key _ _ Hid2) in Hget.
  rewrite Get_wf by done.
  assert (SummaryStore.CanonicalSessionID ("group:" +:+ g) = "group:" +:+ g) as ->.
  { apply summary_id_of_session_key. rewrite <- Hid. apply CanonicalSessionKey_idemp. }
  by injection Hget as ->.
Qed.
End restore.

(** * Paging *)

Section paging.
Local Open Scope Z_scope.

Lemma session_less_asym a b : session_less a b = true -> session_less b a = false.
Proof.
  unfold session_less, time_after. rewrite (Z.eqb_sym (UpdatedAt b)).
  destruct (Z.eqb_spec (UpdatedAt a) (UpdatedAt b)).
  - apply string_less_asym.
  - rewrite Z.ltb_lt, Z.ltb_ge. lia.
Qed.

Lemma session_less_trans a b c :
  session_less b a = false -> session_less c b = false -> session_less c a = false.
Proof.
  unfold session_less, time_after.
  destruct (Z.eqb_spec (UpdatedAt b) (UpdatedAt a)),
           (Z.eqb_spec (UpdatedAt c) (UpdatedAt b)),
           (Z.eqb_spec (UpdatedAt c) (UpdatedAt a)); rewrite ?Z.ltb_ge; try lia.
  apply string_less_trans.
Qed.

(** Pages of the session list.  Listing with no limit returns every session
    once, most recent first; any window inside the integer range is the
    corresponding slice of that list (empty past the end); a limit that makes
    the end of the slice overflow panics. *)
Theorem ListSessions_pages h sm offset limit :
  Z.of_nat (length (all_sessions h sm)) < 2 ^ 63 ->
  exists all, ListSessions 0 0 h sm = Some all /\ all ≡ₚ all_sessions h sm /\
    ordered session_less all /\
    (0 <= offset -> 0 < limit -> offset + limit < 2 ^ 63 ->
     ListSessions offset limit h sm = Some (take (Z.to_nat limit) (drop (Z.to_nat offset) all))) /\
    (0 < offset < Z.of_nat (length all) -> limit < 2 ^ 63 -> 2 ^ 63 <= offset + limit ->
     ListSessions offset limit h sm = None).
Proof.
  set (all := sort_stable session_less (all_sessions h sm)). intros Hlen.
  assert (all ≡ₚ all_sessions h sm) as Hperm by apply sort_stable_perm.
  rewrite <- Hperm in Hlen. exists all. split; [|split; [done|split; [|split]]].
  - unfold ListSessions. fold all. cbn [Z.ltb Z.leb Z.compare].
    destruct (Z.leb_spec (Z.of_nat (length all)) 0).
    + assert (length all = 0)%nat as ->%nil_length_inv by lia. done.
    + rewrite i64_small by lia. rewrite Z.add_0_l, Z.min_id, Z.sub_0_r.
      rewrite (proj2 (Z.ltb_ge _ _)) by lia. rewrite Nat2Z.id. simpl. by rewrite firstn_all.
  - apply sort_stable_ordered; [apply session_less_asym|apply session_less_trans].
  - intros Ho Hl Hs. unfold ListSessions. fold all.
    rewrite (proj2 (Z.ltb_ge offset 0)), (proj2 (Z.leb_gt limit 0)) by lia.
    destruct (Z.leb_spec (Z.of_nat (length all)) offset).
    + by rewrite drop_ge, take_nil by lia.
    + rewrite i64_small by lia. rewrite (proj2 (Z.ltb_ge _ _)) by lia. f_equal.
      destruct (Z.le_ge_cases (offset + limit) (Z.of_nat (length all))).
      * rewrite Z.min_l by lia. f_equal. lia.
      * rewrite Z.min_r by lia. rewrite !take_ge by (rewrite length_drop; lia). done.
  - intros Ho Hl Hs. unfold ListSessions. fold all.
    rewrite (proj2 (Z.ltb_ge offset 0)), (proj2 (Z.leb_gt limit 0)), (proj2 (Z.leb_gt _ offset)) by lia.
    assert (i64 (offset + limit) = offset + limit - 2 ^ 64) as ->.
    { unfold i64. enough ((offset + limit + 2 ^ 63) `mod` 2 ^ 64 = offset + limit + 2 ^ 63 - 2 ^ 64) by lia.
      symmetry. apply (Z.mod_unique _ _ 1); lia. }
    rewrite (proj2 (Z.ltb_lt _ offset)); [done|]. lia.
Qed.
End paging.

(** * Concrete managers *)

Definition mgr1 : Heap * SessionManager :=
  let '(_, h, sm) := GetOrCreate (H := ascii_case) "aiocqhttp:group:7" 5 empty_heap
                       (NewSessionManager (Some 8%Z) false) in (h, sm).

Lemma one_session_per_conversation_witness :
  Get " qq:group:7" mgr1.2 = Some 0%Z /\ Get "group:8" mgr1.2 <> Some 0%Z.
Proof.
  pose proof (one_session_per_conversation (H := ascii_case) (fun _ => None) (fun _ => None) [] (Some 8%Z) false
    "aiocqhttp:group:7" " qq:group:7" 5 6 ltac:(by vm_compute)) as Hone.
  cbn [mgr_run fold_left] in Hone.
  assert (GetOrCreate (H := ascii_case) "aiocqhttp:group:7" 5 empty_heap (NewSessionManager (Some 8%Z) false)
    = (0%Z, mgr1.1, mgr1.2)) as E by by vm_compute.
  rewrite E in Hone. destruct Hone as (_ & Hg & _ & Ho & _). split; [exact Hg|].
  apply (Ho "group:8"). by vm_compute.
Defined.

Lemma restart_restores_summary_witness :
  exists s, let '(p, h', _) := GetOrCreate (H := ascii_case) "aiocqhttp:group:7" 5 empty_heap
      (SetGroupSummaryStore (Some store0) (NewSessionManager None false)) in
    cells h' !! p = Some s /\ GroupRunningSummary s = "old".
Proof.
  destruct (@restart_restores_summary ascii_case ascii_case_laws empty_heap
    (SetGroupSummaryStore (Some store0) (NewSessionManager None false)) store0
    "aiocqhttp:group:7" "onebot:group:7" "7" {| rec_SessionID := "group:7"; rec_Summary := "old";
      rec_CreatedAt := 1; rec_UpdatedAt := 2 |} 5) as (s & Hs);
    [split; simpl; intros *; by rewrite ?lookup_empty|done|apply wf_NewStore|by vm_compute..|].
  exists s. destruct (GetOrCreate _ _ _ _) as [[p h'] sm']. by destruct Hs as (? & _ & ? & _).
Defined.

Lemma ListSessions_pages_witness :
  exists all, ListSessions 0 0 mgr1.1 mgr1.2 = Some all /\
    ListSessions 0 1 mgr1.1 mgr1.2 = Some (take 1 all).
Proof.
  destruct (ListSessions_pages mgr1.1 mgr1.2 0 1) as (all & Hall & _ & _ & Hp & _); [by vm_compute|].
  exists all. split; [exact Hall|]. by rewrite Hp.
Defined.
