(* ===== verification/Access.v ===== *)
(** Access control: principals and the persistent [AccessStore] of
    [internal/security/access.go].

    The store keeps, per principal, whether it is locked and the record of its
    recent blocked submissions.  Every operation loads the whole file, and an
    update writes it back atomically; what load and save report is the
    environment's choice ([faults]). *)

From S2P Require Import Prelude GoStrings.

Local Open Scope string_scope.
Local Open Scope list_scope.

(** * Principals *)

Record Principal := { pr_Platform : string; pr_UserID : string }.

#[global] Instance Principal_eq_dec : EqDecision Principal.
Proof. solve_decision. Defined.

Section principals.
Context `{UnicodeCase}.

Definition CanonicalPlatform (platform : string) : string :=
  let p := ToLower (TrimSpace platform) in
  if decide (p ∈ ["onebot"; "aiocqhttp"; "cqhttp"; "qq"]) then "qq"
  else if decide (p = "") then "unknown" else p.

Definition NewPrincipal (platform userID : string) : res string Principal :=
  let platform := CanonicalPlatform platform in
  let userID := TrimSpace userID in
  if bool_decide (platform = "") || bool_decide (userID = "")
     || (64 <? slen platform)%nat || (256 <? slen userID)%nat
  then Err "invalid security principal"
  else Ok {| pr_Platform := platform; pr_UserID := userID |}.
End principals.

Definition Key (p : Principal) : string := pr_Platform p +:+ ":" +:+ pr_UserID p.

(** * Records *)

Inductive AccessState := StateUnset | AccessActive | AccessLocked.

#[global] Instance AccessState_eq_dec : EqDecision AccessState.
Proof. solve_decision. Defined.

Record AccessRecord := {
  ar_Principal : Principal;
  ar_State : AccessState;
  ar_Reason : string;
  ar_LockedAt : Z;
  ar_UpdatedAt : Z;
  ar_StrikeTimes : list Z;
  ar_LastBlockedHash : string;
  ar_LastBlockedAt : Z;
}.

(** The zero value, which a missing map entry reads as. *)
Definition zero_record : AccessRecord := {|
  ar_Principal := {| pr_Platform := ""; pr_UserID := "" |}; ar_State := StateUnset;
  ar_Reason := ""; ar_LockedAt := 0; ar_UpdatedAt := 0; ar_StrikeTimes := [];
  ar_LastBlockedHash := ""; ar_LastBlockedAt := 0 |}.

Abbreviation accessFile := (gmap string AccessRecord) (only parsing).

(** * The store *)

(** What acquiring the lock file and reading, and then writing, report. *)
Record faults := { load_error : option string; save_error : option string }.
Definition no_faults : faults := {| load_error := None; save_error := None |}.

Definition update {A} (env : faults) (fn : accessFile -> A * accessFile) (zero : A) (file : accessFile)
    : A * option string * accessFile :=
  match load_error env with
  | Some e => (zero, Some e, file)
  | None =>
      let '(a, file') := fn file in
      match save_error env with
      | Some e => (a, Some e, file)
      | None => (a, None, file')
      end
  end.

Definition IsLocked (env : faults) (p : Principal) (file : accessFile)
    : res string (bool * AccessRecord) :=
  match load_error env with
  | Some e => Err e
  | None =>
      match file !! Key p with
      | Some r => Ok (bool_decide (ar_State r = AccessLocked), r)
      | None => Ok (false, zero_record)
      end
  end.

Definition LastBlockedHash (env : faults) (p : Principal) (cutoff : Z) (file : accessFile)
    : res string string :=
  match load_error env with
  | Some e => Err e
  | None =>
      match file !! Key p with
      | Some r => if time_is_zero (ar_LastBlockedAt r) || time_before (ar_LastBlockedAt r) cutoff
                  then Ok "" else Ok (ar_LastBlockedHash r)
      | None => Ok ""
      end
  end.

(** Locked records, the most recent lock first. *)
Definition ListLocked (env : faults) (file : accessFile) : res string (list AccessRecord) :=
  match load_error env with
  | Some e => Err e
  | None => Ok (sort_stable (fun a b => time_after (ar_LockedAt a) (ar_LockedAt b))
                  (filter (fun r => ar_State r = AccessLocked) (map snd (map_to_list file))))
  end.

Definition truncate (value : string) (limit : nat) : string :=
  let value := TrimSpace value in
  if (slen value <=? limit)%nat then value else stake limit value.

Definition lock_record (p : Principal) (reason : string) (now : Z) (r : AccessRecord) : AccessRecord := {|
  ar_Principal := p; ar_State := AccessLocked; ar_Reason := truncate reason 512;
  ar_LockedAt := if time_is_zero (ar_LockedAt r) then now else ar_LockedAt r;
  ar_UpdatedAt := now; ar_StrikeTimes := ar_StrikeTimes r;
  ar_LastBlockedHash := ar_LastBlockedHash r; ar_LastBlockedAt := ar_LastBlockedAt r |}.

Definition Lock (env : faults) (p : Principal) (reason : string) (now : Z) (file : accessFile)
    : option string * accessFile :=
  let '(_, e, file) := update env (fun f =>
      (tt, <[Key p := lock_record p reason now (default zero_record (f !! Key p))]> f)) tt file in
  (e, file).

Definition unlock_record (now : Z) (r : AccessRecord) : AccessRecord := {|
  ar_Principal := ar_Principal r; ar_State := AccessActive; ar_Reason := ""; ar_LockedAt := 0;
  ar_UpdatedAt := now; ar_StrikeTimes := []; ar_LastBlockedHash := ""; ar_LastBlockedAt := 0 |}.

Definition Unlock (env : faults) (p : Principal) (now : Z) (file : accessFile)
    : option string * accessFile :=
  let '(_, e, file) := update env (fun f =>
      (tt, match f !! Key p with
           | Some r => <[Key p := unlock_record now r]> f
           | None => f
           end)) tt file in
  (e, file).

Definition lock_reason : string := "repeated active attempts to evade watchdog blocks".

(** The record after a blocked submission, the number of strikes and whether
    the submission locks. *)
Definition submit (p : Principal) (hash : string) (encoded : bool) (now window lockThreshold : Z)
    (r : AccessRecord) : Z * bool * AccessRecord :=
  let cutoff := (now - window)%Z in
  let kept := filter (fun at_ => time_after at_ cutoff = true) (ar_StrikeTimes r) in
  let hasPriorBlock := negb (time_is_zero (ar_LastBlockedAt r)) && time_after (ar_LastBlockedAt r) cutoff in
  let repeated := negb (bool_decide (hash = "")) && bool_decide (hash = ar_LastBlockedHash r) && hasPriorBlock in
  let times := if hasPriorBlock && (repeated || encoded) then kept ++ [now] else kept in
  let strikes := Z.of_nat (length times) in
  let locks := ((0 <? lockThreshold) && (lockThreshold <=? strikes))%Z in
  (strikes, locks, {|
    ar_Principal := p;
    ar_State := if locks then AccessLocked
                else if decide (ar_State r = StateUnset) then AccessActive else ar_State r;
    ar_Reason := if locks then lock_reason else ar_Reason r;
    ar_LockedAt := if locks then now else ar_LockedAt r;
    ar_UpdatedAt := now; ar_StrikeTimes := times; ar_LastBlockedHash := hash;
    ar_LastBlockedAt := now |}).

Definition RecordBlockedSubmission (env : faults) (p : Principal) (hash : string) (encoded : bool)
    (now window lockThreshold : Z) (file : accessFile) : Z * bool * option string * accessFile :=
  let '((strikes, locked), e, file) := update env (fun f =>
      let '(n, l, r) := submit p hash encoded now window lockThreshold
                          (default zero_record (f !! Key p)) in
      ((n, l), <[Key p := r]> f)) (0%Z, false) file in
  (strikes, locked, e, file).

(** * What strikes and locks *)

Section strikes.
Local Open Scope Z_scope.

(** A blocked submission: its hash, whether it was an encoded evasion, its time. *)
Record submission := { s_hash : string; s_encoded : bool; s_now : Z }.

(** The specification: a submission strikes when the one before it was within
    the window and it repeats its payload or evades by encoding. *)
Definition strikes_after (window : Z) (prev cur : submission) : bool :=
  (s_now cur - window <? s_now prev) &&
  (negb (bool_decide (s_hash cur = "")) && bool_decide (s_hash cur = s_hash prev) || s_encoded cur).

Fixpoint strike_times (window : Z) (prev : option submission) (l : list submission) : list Z :=
  match l with
  | [] => []
  | x :: l =>
      (match prev with
       | Some y => if strikes_after window y x then [s_now x] else []
       | None => []
       end) ++ strike_times window (Some x) l
  end.

(** The strikes that count at time [now]. *)
Definition in_window (window now : Z) (times : list Z) : list Z :=
  filter (fun at_ => now - window < at_) times.

(** Times are set and do not go back. *)
Fixpoint timed (from : Z) (l : list submission) : Prop :=
  match l with [] => True | x :: l => 0 < s_now x /\ from <= s_now x /\ timed (s_now x) l end.

(** A principal's submissions, with the locks they cause. *)
Definition submit_all (p : Principal) (window n : Z) (l : list submission) (r : AccessRecord)
    : list bool * AccessRecord :=
  fold_left (fun c x => let '(_, b, r) := submit p (s_hash x) (s_encoded x) (s_now x) window n c.2 in
                        (c.1 ++ [b], r)) l ([], r).

(** The record after [l], as the specification has it. *)
Definition record_of (window : Z) (l : list submission) (r : AccessRecord) : Prop :=
  match last l with
  | None => ar_StrikeTimes r = [] /\ ar_LastBlockedAt r = 0
  | Some x =>
      ar_StrikeTimes r = in_window window (s_now x) (strike_times window None l) /\
      ar_LastBlockedHash r = s_hash x /\ ar_LastBlockedAt r = s_now x
  end.

Lemma strike_times_snoc window prev l x :
  strike_times window prev (l ++ [x]) =
  strike_times window prev l ++
    match (match last l with Some y => Some y | None => prev end) with
    | Some y => if strikes_after window y x then [s_now x] else []
    | None => []
    end.
Proof.
  revert prev; induction l as [|y l IH]; intros prev; simpl; [by rewrite app_nil_r|].
  rewrite IH. rewrite <- app_assoc. do 2 f_equal.
  destruct l as [|z l]; [done|]. rewrite (last_cons_cons y).
  destruct (last (z :: l)) eqn:E; [done|]. by apply last_None in E.
Qed.

Lemma in_window_later window a b times :
  a <= b -> in_window window b (in_window window a times) = in_window window b times.
Proof.
  intros Hab. unfold in_window. rewrite list_filter_filter. apply list_filter_iff. intros x. lia.
Qed.

Lemma submit_spec p window n l r x :
  0 < window -> record_of window l r -> 0 < s_now x ->
  (forall y, last l = Some y -> 0 < s_now y <= s_now x) ->
  let times := in_window window (s_now x) (strike_times window None (l ++ [x])) in
  submit p (s_hash x) (s_encoded x) (s_now x) window n r =
  (Z.of_nat (length times), (0 <? n) && (n <=? Z.of_nat (length times)),
   (submit p (s_hash x) (s_encoded x) (s_now x) window n r).2) /\
  record_of window (l ++ [x]) (submit p (s_hash x) (s_encoded x) (s_now x) window n r).2.
Proof.
  intros Hw Hr Hx Hlast. cbn zeta. rewrite strike_times_snoc.
  assert (forall times, filter (fun at_ => time_after at_ (s_now x - window) = true) times
    = in_window window (s_now x) times) as Ef.
  { intros times. apply list_filter_iff. intros t. unfold time_after. rewrite Z.ltb_lt. lia. }
  unfold record_of. rewrite last_snoc, strike_times_snoc. unfold record_of in Hr. unfold submit. rewrite Ef.
  destruct (last l) as [y|] eqn:Hy.
  - destruct Hr as (Ht & Hh & Ha). destruct (Hlast y eq_refl) as [Hy0 Hyx]. rewrite Ht, Hh, Ha.
    rewrite in_window_later by done.
    assert (negb (time_is_zero (s_now y)) = true) as -> by (apply negb_true_iff, Z.eqb_neq; lia).
    unfold time_after. cbn [andb]. unfold strikes_after.
    destruct (s_now x - window <? s_now y); cbn [andb]; rewrite ?andb_false_r, ?andb_true_r; cbn [orb].
    + destruct (_ || _); unfold in_window; rewrite filter_app.
      * rewrite (filter_id _ [s_now x]) by (constructor; [lia|done]). repeat split.
      * rewrite filter_nil, app_nil_r. repeat split.
    + rewrite app_nil_r. repeat split.
  - apply last_None in Hy as ->. destruct Hr as [Ht Ha]. rewrite Ht, Ha. simpl. repeat split.
Qed.

Lemma submit_all_snoc p window n l x r :
  submit_all p window n (l ++ [x]) r =
  let '(bs, r) := submit_all p window n l r in
  let '(_, b, r) := submit p (s_hash x) (s_encoded x) (s_now x) window n r in (bs ++ [b], r).
Proof.
  unfold submit_all. rewrite fold_left_app. simpl. by destruct (fold_left _ l _) as [bs r'].
Qed.

Lemma timed_snoc from l x :
  timed from (l ++ [x]) <->
  timed from l /\ 0 < s_now x /\ match last l with Some y => s_now y <= s_now x | None => from <= s_now x end.
Proof.
  revert from; induction l as [|y l IH]; intros from; simpl; [tauto|].
  rewrite IH. destruct l as [|z l]; [simpl; tauto|]. rewrite (last_cons_cons y).
  destruct (last (z :: l)) eqn:E; [tauto|]. by apply last_None in E.
Qed.

Lemma timed_last from l y : timed from l -> last l = Some y -> 0 < s_now y.
Proof.
  revert from; induction l as [|x l IH]; intros from; [done|]. simpl. intros (? & _ & Ht).
  destruct l as [|z l]; [by intros [= <-]|]. rewrite last_cons_cons. by eapply IH.
Qed.

Lemma timed_sorted from l :
  Forall (fun t => 0 < t /\ from <= t) (map s_now l) -> StronglySorted Z.le (map s_now l) -> timed from l.
Proof.
  revert from. induction l as [|x l IH]; intros from Hp Hs; [done|].
  apply Forall_cons in Hp as [[Hx Hfx] Hp]. apply StronglySorted_inv in Hs as [Hs Hle].
  split; [done|]. split; [done|]. apply IH; [|done].
  apply Forall_and. split; [|done]. eapply Forall_impl; [exact Hp|]. simpl. tauto.
Qed.

(** The locks of a run, by the specification. *)
Definition lock_at (window n : Z) (l : list submission) (k : nat) : bool :=
  match l !! k with
  | Some x => n <=? Z.of_nat (length (in_window window (s_now x) (strike_times window None (take (S k) l))))
  | None => false
  end.

(** A record without strikes: a fresh or an unlocked one. *)
Definition clean (r : AccessRecord) : Prop :=
  ar_StrikeTimes r = [] /\ ar_LastBlockedAt r = 0 /\ ar_State r <> AccessLocked.

Lemma submit_all_spec p window n l r0 :
  0 < window -> 0 < n -> timed 0 l -> clean r0 ->
  let '(bs, r) := submit_all p window n l r0 in
  bs = map (lock_at window n l) (seq 0 (length l)) /\ record_of window l r /\
  (ar_State r = AccessLocked <-> true ∈ bs).
Proof.
  intros Hw Hn Ht (C1 & C2 & C3). revert Ht. induction l as [|x l IH] using rev_ind; intros Ht.
  { split; [done|]. split; [done|]. simpl. split; [done|set_solver]. }
  apply timed_snoc in Ht as (Ht & Hx & Hlast). specialize (IH Ht). rewrite submit_all_snoc.
  destruct (submit_all p window n l r0) as [bs r]. destruct IH as (-> & Hr & Hst).
  destruct (submit_spec p window n l r x Hw Hr Hx) as [E Hr'].
  { intros y Hy. rewrite Hy in Hlast. split; [by eapply timed_last|done]. }
  destruct (submit p (s_hash x) (s_encoded x) (s_now x) window n r) as [[m b] r'] eqn:Es.
  cbn [snd] in *. injection E as _ Eb. rewrite (proj2 (Z.ltb_lt 0 n)) in Eb by done. cbn [andb] in Eb.
  assert (lock_at window n (l ++ [x]) (length l) = b) as Elast.
  { unfold lock_at. rewrite list_lookup_middle, take_ge by (rewrite ?length_app; simpl; lia). done. }
  split; [|split; [done|]].
  - rewrite length_app, seq_app, map_app. cbn [seq map Nat.add length]. rewrite Elast. f_equal.
    apply map_ext_in. intros k Hk%in_seq. unfold lock_at.
    rewrite lookup_app_l, take_app_le by lia. done.
  - rewrite elem_of_app, list_elem_of_singleton, <- Hst.
    unfold submit in Es. cbn zeta in Es. injection Es as _ Eb' <-. cbn [ar_State]. rewrite Eb'.
    destruct b; [tauto|]. case_decide as Hz; [|intuition congruence]. rewrite Hz. intuition congruence.
Qed.

Lemma strike_times_length window prev l : (length (strike_times window prev l) <= length l)%nat.
Proof.
  revert prev; induction l as [|x l IH]; intros prev; simpl; [done|]. rewrite length_app.
  specialize (IH (Some x)). destruct prev; [destruct (strikes_after _ _ _)|]; simpl; lia.
Qed.

(** Repeating one payload within the window strikes every time. *)
Lemma strike_times_repeat window h from prev l :
  h <> "" -> s_hash prev = h -> Forall (fun x => s_hash x = h /\ from - window < s_now prev /\
    from - window < s_now x /\ s_now x <= from) l ->
  length (in_window window from (strike_times window (Some prev) l)) = length l.
Proof.
  intros Hh. revert prev; induction l as [|x l IH]; intros prev Hp Hl; [done|].
  apply Forall_cons in Hl as [(Hx & Hprev & Hw & Hle) Hl]. simpl.
  unfold strikes_after. rewrite Hx, Hp, (bool_decide_false (h = "")), bool_decide_true by done.
  rewrite (proj2 (Z.ltb_lt _ _)) by lia. cbn [negb andb orb]. unfold in_window.
  rewrite filter_app, (filter_id _ [s_now x]) by (constructor; [lia|done]). simpl. f_equal.
  apply IH; [done|]. eapply Forall_impl; [exact Hl|]. simpl. tauto.
Qed.

(** The store after a principal's submissions. *)
Definition store_all (p : Principal) (window n : Z) (l : list submission) (file : accessFile) : accessFile :=
  fold_left (fun f x => let '(_, _, _, f) :=
    RecordBlockedSubmission no_faults p (s_hash x) (s_encoded x) (s_now x) window n f in f) l file.

Lemma store_all_lookup p window n l file :
  l <> [] ->
  store_all p window n l file =
    <[Key p := (submit_all p window n l (default zero_record (file !! Key p))).2]> file.
Proof.
  induction l as [|x l IH] using rev_ind; [done|]. intros _.
  unfold store_all. rewrite fold_left_app. cbn [fold_left]. fold (store_all p window n l file).
  rewrite submit_all_snoc. unfold RecordBlockedSubmission, update. cbn [load_error save_error no_faults].
  destruct (decide (l = [])) as [->|Hl].
  - cbn [store_all submit_all fold_left]. by destruct (submit _ _ _ _ _ _ _) as [[m b] r].
  - rewrite IH by done. rewrite lookup_insert_eq. cbn [default].
    destruct (submit_all p window n l _) as [bs r]. cbn [snd]. unfold id.
    destruct (submit _ _ _ _ _ _ r) as [[m b] r']. cbn [snd]. apply insert_insert_eq.
Qed.

Lemma store_all_record p window n l :
  l <> [] -> store_all p window n l ∅ = {[Key p := (submit_all p window n l zero_record).2]}.
Proof. intros Hl. by rewrite store_all_lookup, lookup_empty. Qed.

(** [n] submissions never lock; [n + 1] copies of a payload in the window do. *)
Lemma lock_at_early window n l k : Z.of_nat k < n -> lock_at window n l k = false.
Proof.
  intros Hk. unfold lock_at. destruct (l !! k) as [x|] eqn:Ex; [|done]. apply Z.leb_gt.
  destruct l as [|y l]; [done|]. cbn [take strike_times app].
  pose proof (strike_times_length window (Some y) (take k l)) as H. rewrite length_take in H.
  assert (length (in_window window (s_now x) (strike_times window (Some y) (take k l)))
    <= length (strike_times window (Some y) (take k l)))%nat by apply length_filter. lia.
Qed.

Lemma few_never_lock window n l :
  Z.of_nat (length l) <= n -> true ∉ map (lock_at window n l) (seq 0 (length l)).
Proof.
  intros Hl (k & Hk & Hin)%list_elem_of_fmap. apply elem_of_seq in Hin. by rewrite lock_at_early in Hk by lia.
Qed.

Lemma repeats_lock window n l x :
  0 < n -> Z.of_nat (length l) = n + 1 -> last l = Some x ->
  s_hash x <> "" -> Forall (fun y => s_hash y = s_hash x /\ s_now y <= s_now x /\
    s_now x - window < s_now y) l -> last (map (lock_at window n l) (seq 0 (length l))) = Some true.
Proof.
  intros Hn Hl Hx Hh Hall. rewrite last_lookup, length_map, length_seq, list_lookup_fmap.
  assert (seq 0 (length l) !! pred (length l) = Some (pred (length l))) as ->.
  { apply lookup_seq_lt. destruct l; [done|]. simpl. lia. }
  simpl. f_equal. unfold lock_at. rewrite <- last_lookup, Hx. apply Z.leb_le.
  rewrite take_ge by (destruct l; simpl; lia).
  destruct l as [|y l]; [done|]. apply Forall_cons in Hall as [(Hy & Hyle & Hyw) Hall]. simpl.
  rewrite (strike_times_repeat window (s_hash x)); [simpl in Hl; lia|done|done|].
  eapply Forall_impl; [exact Hall|]. simpl. tauto.
Qed.

(** So the [n + 1]st copy is the first to lock. *)
Lemma repeats_lock_last window n l h :
  0 < n -> Z.of_nat (length l) = n + 1 -> h <> "" -> Forall (fun y => s_hash y = h) l ->
  StronglySorted Z.le (map s_now l) -> (forall t t', t ∈ map s_now l -> t' ∈ map s_now l -> t - window < t') ->
  map (lock_at window n l) (seq 0 (length l)) = repeat false (Z.to_nat n) ++ [true].
Proof.
  intros Hn Hlen Hh Hhash Hs Hw. destruct l as [|x l _] using rev_ind; [simpl in Hlen; lia|].
  apply Forall_app in Hhash as [Hhash Hx]. rewrite Forall_singleton in Hx. rewrite map_app in Hs, Hw.
  assert (Hlast : last (map (lock_at window n (l ++ [x])) (seq 0 (length (l ++ [x])))) = Some true).
  { apply (repeats_lock window n _ x); [done|done|apply last_snoc|by rewrite Hx|].
    apply Forall_app. split; [|apply Forall_singleton; split; [done|split; [lia|]]].
    - apply Forall_forall. intros y Hy. rewrite Forall_forall in Hhash. split; [rewrite Hx; by apply Hhash|].
      assert (Hin : s_now y ∈ map s_now l) by (apply list_elem_of_fmap; by exists y).
      apply StronglySorted_app in Hs as (Hle & _ & _). split; [apply Hle; [done|by left]|].
      apply Hw; apply elem_of_app; [right; by left|by left].
    - apply Hw; apply elem_of_app; right; by left. }
  rewrite length_app in Hlen. simpl in Hlen.
  rewrite length_app in Hlast |- *. cbn [length] in *. rewrite Nat.add_1_r, seq_S, map_app in Hlast |- *.
  cbn [map Nat.add] in *. rewrite last_snoc in Hlast. injection Hlast as ->. f_equal.
  replace (Z.to_nat n) with (length l) by lia.
  assert (He : Forall (fun k => lock_at window n (l ++ [x]) k = false) (seq 0 (length l))).
  { apply Forall_forall. intros k Hk%elem_of_seq. apply lock_at_early. lia. }
  clear -He. revert He. generalize 0%nat. induction (length l) as [|k IH]; intros from He; [done|].
  cbn [seq map repeat] in *. apply Forall_cons in He as [-> He]. f_equal. by apply IH.
Qed.

(** Locking follows the specification of strikes.  A blocked submission is a
    strike when the one before it was within the window and it repeats its
    payload or evades by encoding; it locks when the strikes still in the
    window reach the threshold, and only then.  So [n] submissions never lock,
    while [n + 1] copies of one payload within the window do; the principal's
    record is the only one in the store that changes, and it is locked exactly
    when some submission locked. *)
Theorem strikes_lock p window n l :
  0 < window -> 0 < n -> timed 0 l -> l <> [] ->
  let '(locks, r) := submit_all p window n l zero_record in
  store_all p window n l ∅ = {[Key p := r]} /\
  locks = map (lock_at window n l) (seq 0 (length l)) /\
  (IsLocked no_faults p (store_all p window n l ∅) = Ok (bool_decide (true ∈ locks), r)) /\
  (Z.of_nat (length l) <= n -> true ∉ locks) /\
  (forall x first, Z.of_nat (length l) = n + 1 -> last l = Some x -> l !! 0%nat = Some first ->
     s_hash x <> "" -> Forall (fun y => s_hash y = s_hash x /\ s_now y <= s_now x /\
       s_now x - window < s_now y) l -> last locks = Some true).
Proof.
  intros Hw Hn Ht Hne. rewrite store_all_record by done.
  pose proof (submit_all_spec p window n l zero_record Hw Hn Ht ltac:(done)) as Hspec.
  destruct (submit_all p window n l zero_record) as [locks r]. destruct Hspec as (-> & _ & Hst).
  split; [done|]. split; [done|]. split.
  { unfold IsLocked. cbn [load_error no_faults snd]. rewrite lookup_singleton_eq.
    do 2 f_equal. by apply bool_decide_ext. }
  split; [apply few_never_lock|]. intros x first Hl Hx _. by apply repeats_lock.
Qed.

Lemma RecordBlockedSubmission_other env p q hash encoded now window n file : Key q <> Key p ->
  (RecordBlockedSubmission env p hash encoded now window n file).2 !! Key q = file !! Key q.
Proof.
  intros Hq. unfold RecordBlockedSubmission, update. destruct (load_error env); [done|].
  destruct (submit _ _ _ _ _ _ _) as [[? ?] ?]. destruct (save_error env); [done|]. cbn [snd].
  by rewrite lookup_insert_ne.
Qed.

(** Unlocking gives a clean slate, and faults change nothing.  After an
    unlock the principal is not locked and its later submissions lock exactly
    as those of a new principal would; a lock holds whatever else is submitted
    or locked; an operation that reports an error leaves the store as it was,
    and none touches another principal's record. *)
Theorem lock_unlock env p file now :
  (let '(e, file') := Unlock env p now file in
   (e <> None -> file' = file) /\
   (e = None -> (exists r, IsLocked no_faults p file' = Ok (false, r)) /\
      forall window n l, 0 < window -> 0 < n -> timed 0 l -> l <> [] ->
        (exists r, IsLocked no_faults p (store_all p window n l file') = Ok (existsb id (map (lock_at window n l) (seq 0 (length l))), r)))) /\
  (forall reason, let '(e, file') := Lock env p reason now file in
   (e <> None -> file' = file) /\
   (e = None -> forall env2 hash encoded now2 window n,
      let '(_, _, _, file2) := RecordBlockedSubmission env2 p hash encoded now2 window n file' in
      exists r, IsLocked no_faults p file2 = Ok (true, r))) /\
  (forall q reason hash encoded window n, Key q <> Key p ->
     (Unlock env p now file).2 !! Key q = file !! Key q /\
     (Lock env p reason now file).2 !! Key q = file !! Key q /\
     (RecordBlockedSubmission env p hash encoded now window n file).2 !! Key q = file !! Key q).
Proof.
  split; [|split].
  - destruct (Unlock env p now file) as [e file'] eqn:E. unfold Unlock, update in E.
    destruct (load_error env) as [e1|]; [injection E as <- <-; by split|].
    destruct (save_error env) as [e1|]; injection E as <- <-; split; try done; intros _.
    set (file' := match file !! Key p with Some _ => _ | None => _ end).
    assert (clean (default zero_record (file' !! Key p))) as Hc.
    { subst file'. destruct (file !! Key p) as [r|] eqn:Hr; [by rewrite lookup_insert_eq|].
      by rewrite Hr. }
    split.
    + unfold IsLocked. cbn [load_error no_faults].
      destruct (file' !! Key p) as [r|]; [|by eexists]. exists r. do 2 f_equal.
      apply bool_decide_eq_false. by destruct Hc as (_ & _ & ?).
    + intros window n l Hw Hn Ht Hl. rewrite store_all_lookup by done.
      pose proof (submit_all_spec p window n l _ Hw Hn Ht Hc) as Hs.
      destruct (submit_all p window n l _) as [bs r]. destruct Hs as (-> & _ & Hst).
      exists r. unfold IsLocked. cbn [load_error no_faults snd]. rewrite lookup_insert_eq. do 2 f_equal.
      apply eq_true_iff_eq. rewrite bool_decide_eq_true, existsb_exists, Hst. split.
      * intros Hin. exists true. by rewrite <- list_elem_of_In.
      * intros (b & Hin & Hb). rewrite <- list_elem_of_In in Hin. by destruct b.
  - intros reason. destruct (Lock env p reason now file) as [e file'] eqn:E. unfold Lock, update in E.
    destruct (load_error env) as [e1|]; [injection E as <- <-; by split|].
    destruct (save_error env) as [e1|]; injection E as <- <-; split; try done; intros _.
    intros env2 hash encoded now2 window n. unfold RecordBlockedSubmission, update, IsLocked.
    cbn [load_error no_faults]. destruct (load_error env2); [eexists; by rewrite lookup_insert_eq|].
    rewrite lookup_insert_eq. unfold submit. cbn [default]. unfold id.
    destruct (save_error env2); [eexists; by rewrite lookup_insert_eq|].
    eexists. rewrite lookup_insert_eq. do 3 f_equal. cbn [ar_State lock_record].
    destruct (_ && _)%Z; done.
  - intros q reason hash encoded window n Hq. rewrite RecordBlockedSubmission_other by done.
    unfold Unlock, Lock, update. destruct (load_error env); [done|]. destruct (save_error env); [done|]. cbn [snd].
    split; [destruct (file !! Key p); by rewrite ?lookup_insert_ne|]. by rewrite lookup_insert_ne.
Qed.
End strikes.

(** A key tells principals apart as long as the platform name has no colon,
    which [NewPrincipal] does not ask: with one, two principals share a record. *)
Lemma Key_collision :
  Key {| pr_Platform := "a:b"; pr_UserID := "c" |} = Key {| pr_Platform := "a"; pr_UserID := "b:c" |}.
Proof. reflexivity. Qed.

(** * Concrete runs *)

Definition mallory : Principal := {| pr_Platform := "qq"; pr_UserID := "666" |}.
Definition attack (t : Z) : submission := {| s_hash := "h"; s_encoded := false; s_now := t |}.

Lemma strikes_lock_witness :
  IsLocked no_faults mallory (store_all mallory 100 3 [attack 1; attack 2; attack 3; attack 4]%Z ∅)
  = Ok (true, (submit_all mallory 100 3 [attack 1; attack 2; attack 3; attack 4]%Z zero_record).2) /\
  last (submit_all mallory 100 3 [attack 1; attack 2; attack 3; attack 4]%Z zero_record).1 = Some true.
Proof.
  pose proof (strikes_lock mallory 100 3 [attack 1; attack 2; attack 3; attack 4]%Z) as H.
  destruct (submit_all _ _ _ _ zero_record) as [locks r] eqn:E.
  destruct H as (_ & _ & Hl & _ & Hlast); [lia..|simpl; lia|done|]. cbn [fst snd].
  assert (locks = [false; false; false; true]) as El.
  { change locks with (locks, r).1. rewrite <- E. by vm_compute. }
  split; [rewrite El in Hl; exact Hl|].
  apply (Hlast (attack 4) (attack 1)); [done..|]. repeat constructor; simpl; lia.
Defined.

Lemma lock_unlock_witness :
  (Unlock no_faults mallory 9 (Lock no_faults mallory "spam" 5 ∅).2).1 = None /\
  exists r, IsLocked no_faults mallory (Unlock no_faults mallory 9 (Lock no_faults mallory "spam" 5 ∅).2).2
            = Ok (false, r).
Proof.
  destruct (lock_unlock no_faults mallory (Lock no_faults mallory "spam" 5 ∅).2 9) as [H _].
  destruct (Unlock _ _ _ _) as [e file'] eqn:E.
  assert (e = None) as -> by by (injection E).
  split; [done|]. by destruct H as [_ [H _]].
Defined.
