(* ===== verification/Risk.v ===== *)
(** Risk classification: [internal/security/signals.go] and
    [internal/security/classifier_llm.go].

    What a classifier reports (error texts without the values they quote), the
    canonical forms of its vocabulary, and the classifier that asks a language
    model.  The model's answer and the JSON
    decoder are parameters. *)

From S2P Require Import Prelude GoStrings Access.

Local Open Scope string_scope.
Local Open Scope list_scope.

(** * Vocabulary *)

(** A string type in the code: a constant, or any other text. *)
Inductive RiskCategory :=
  | RiskCategoryNone | RiskCategoryPromptInjection | RiskCategoryMaliciousExecution
  | RiskCategoryDataExfiltration | RiskCategoryPolitics | RiskCategoryPornography
  | RiskCategoryViolenceTerrorism | RiskCategoryContraband | RiskCategoryFraudGambling
  | RiskCategoryHarassmentManipulation | OtherCategory (s : string).

Inductive RiskLevel :=
  | RiskLevelNone | RiskLevelMedium | RiskLevelHigh | RiskLevelCritical | OtherLevel (s : string).

#[global] Instance RiskCategory_eq_dec : EqDecision RiskCategory.
Proof. solve_decision. Defined.
#[global] Instance RiskLevel_eq_dec : EqDecision RiskLevel.
Proof. solve_decision. Defined.

Definition category_IsValid (c : RiskCategory) : bool :=
  match c with OtherCategory _ => false | _ => true end.
Definition level_IsValid (l : RiskLevel) : bool :=
  match l with OtherLevel _ => false | _ => true end.

Definition RiskLevelSeverity (l : RiskLevel) : Z :=
  match l with
  | RiskLevelCritical => 3
  | RiskLevelHigh => 2
  | RiskLevelMedium => 1
  | RiskLevelNone => 0
  | OtherLevel _ => -1
  end.

Section vocabulary.
Context `{UnicodeCase}.

Definition NormalizeRiskCategory (s : string) : RiskCategory * bool :=
  let s := ToLower (TrimSpace s) in
  if decide (s ∈ ["none"]) then (RiskCategoryNone, true)
  else if decide (s ∈ ["prompt_injection"; "promptinjection"; "jailbreak"])
    then (RiskCategoryPromptInjection, true)
  else if decide (s ∈ ["malicious_execution"; "maliciousexecution"; "execution"; "command_execution"])
    then (RiskCategoryMaliciousExecution, true)
  else if decide (s ∈ ["data_exfiltration"; "dataexfiltration"; "exfiltration"; "leak"])
    then (RiskCategoryDataExfiltration, true)
  else if decide (s ∈ ["politics"; "political"; "political_sensitive"])
    then (RiskCategoryPolitics, true)
  else if decide (s ∈ ["pornography"; "pornography_vulgarity"; "vulgarity"; "erotic"])
    then (RiskCategoryPornography, true)
  else if decide (s ∈ ["violence_terrorism"; "violence"; "terrorism"])
    then (RiskCategoryViolenceTerrorism, true)
  else if decide (s ∈ ["contraband"; "illegal_contraband"; "contraband_goods"])
    then (RiskCategoryContraband, true)
  else if decide (s ∈ ["fraud_gambling"; "fraud"; "gambling"])
    then (RiskCategoryFraudGambling, true)
  else if decide (s ∈ ["harassment_manipulation"; "harassment"; "manipulation"; "abuse"])
    then (RiskCategoryHarassmentManipulation, true)
  else if decide (s ∈ ["platform_policy"; "platformpolicy"; "tencent_compliance"; "tencentcompliance"])
    then (RiskCategoryHarassmentManipulation, true)
  else (OtherCategory s, false).

Definition NormalizeRiskLevel (s : string) : RiskLevel * bool :=
  let s := ToLower (TrimSpace s) in
  if decide (s ∈ ["none"]) then (RiskLevelNone, true)
  else if decide (s ∈ ["low"; "medium"; "med"]) then (RiskLevelMedium, true)
  else if decide (s ∈ ["high"]) then (RiskLevelHigh, true)
  else if decide (s ∈ ["critical"; "crit"]) then (RiskLevelCritical, true)
  else (OtherLevel s, false).
End vocabulary.

(** * Results *)

Inductive WatchdogStage := StageUnset | StageIngress | StageToolArgument | StageToolResult | StageModelOutput.
Inductive WatchdogSource :=
  | SourceUnset | SourceUserDirect | SourceUserQuote | SourceGroupContext | SourceToolArgument
  | SourceToolResult | SourceModelOutput | SourceVisionResult | SourcePlatformMeta.

#[global] Instance WatchdogStage_eq_dec : EqDecision WatchdogStage.
Proof. solve_decision. Defined.
#[global] Instance WatchdogSource_eq_dec : EqDecision WatchdogSource.
Proof. solve_decision. Defined.

Definition stage_string (s : WatchdogStage) : string :=
  match s with
  | StageUnset => "" | StageIngress => "INGRESS" | StageToolArgument => "TOOL_ARGUMENT"
  | StageToolResult => "TOOL_RESULT" | StageModelOutput => "MODEL_OUTPUT"
  end.
Definition source_string (s : WatchdogSource) : string :=
  match s with
  | SourceUnset => "" | SourceUserDirect => "USER_DIRECT" | SourceUserQuote => "USER_QUOTE_REPLY_CONTEXT"
  | SourceGroupContext => "GROUP_CONTEXT" | SourceToolArgument => "TOOL_ARGUMENT"
  | SourceToolResult => "TOOL_RESULT" | SourceModelOutput => "MODEL_OUTPUT"
  | SourceVisionResult => "VISION_RESULT" | SourcePlatformMeta => "PLATFORM_METADATA"
  end.

Record ClassificationInput := {
  ci_EvaluationID : string;
  ci_Instance : string;
  ci_Session : string;
  ci_Content : string;
  ci_Normalized : string;
  ci_Stage : WatchdogStage;
  ci_Origin : WatchdogSource;
  ci_Principal : Principal;
  ci_LastBlockedHash : string;
  ci_HasPriorBlock : bool;
}.

Record ClassificationResult := {
  Category : RiskCategory;
  Level : RiskLevel;
  Origin : WatchdogSource;
  cr_Reason : string;
}.

Definition Validate (r : ClassificationResult) : option string :=
  if negb (category_IsValid (Category r)) then Some "invalid risk category" else
  if negb (level_IsValid (Level r)) then Some "invalid risk level" else
  if decide (Category r = RiskCategoryNone) then
    if decide (Level r = RiskLevelNone) then None
    else Some "category none requires risk_level none"
  else if decide (Level r = RiskLevelNone) then Some "non-none category cannot have risk_level none"
  else None.

Definition IsRisky (r : ClassificationResult) : bool :=
  negb (bool_decide (Category r = RiskCategoryNone)) && negb (bool_decide (Level r = RiskLevelNone)).

Definition IsSevere (r : ClassificationResult) : bool := bool_decide (Level r = RiskLevelCritical).

(** [Classifier]: a classification or an error. *)
Abbreviation Classifier := (ClassificationInput -> res string ClassificationResult) (only parsing).

(** * Asking a language model *)

(** [strings.ReplaceAll] of a one-byte pattern. *)
Definition replace_byte (c : Ascii.ascii) (by_ : string) (s : string) : string :=
  of_bytes (flat_map (fun b => if Ascii.eqb b c then to_bytes by_ else [b]) (to_bytes s)).

Definition EscapeXML (s : string) : string :=
  let s := replace_byte (byte_of 38) "&amp;" s in
  let s := replace_byte (byte_of 60) "&lt;" s in
  let s := replace_byte (byte_of 62) "&gt;" s in
  let s := replace_byte (byte_of 34) "&quot;" s in
  replace_byte (byte_of 39) "&apos;" s.

(** The text between code fences, if there are any. *)
Definition fence : string := "```".
Definition until_fence (s : string) : string :=
  match Index s fence with Some i => stake i s | None => s end.

Definition json_text (rawText : string) : string :=
  let jsonText := TrimSpace rawText in
  let jsonText := match Index jsonText (fence +:+ "json") with
    | Some i => until_fence (sdrop (i + 7) jsonText)
    | None => match Index jsonText fence with
              | Some i => until_fence (sdrop (i + 3) jsonText)
              | None => jsonText
              end
    end in
  TrimSpace jsonText.

Record llmResponsePayload := {
  lp_Category : option string;
  lp_RiskLevel : option string;
  lp_Reason : option string;
}.

(** The content of a model's message: nothing, text, or parts. *)
Inductive MessageContent := NilContent | TextContent (s : string) | OtherContent.

Record LLMClassifier (Provider : Type) := { lc_provider : option Provider; lc_model : string; lc_timeout : Z }.
Arguments lc_provider {_} _.
Arguments lc_model {_} _.
Arguments lc_timeout {_} _.

Definition DefaultClassifierTimeout : Z := (15 * second)%Z.

Definition NewLLMClassifier {Provider} (provider : option Provider) (model : string) (timeout : Z)
    : LLMClassifier Provider := {|
  lc_provider := provider;
  lc_model := if decide (model = "") then "default" else model;
  lc_timeout := if (timeout <=? 0)%Z then DefaultClassifierTimeout else timeout |}.

Definition Timeout {Provider} (l : option (LLMClassifier Provider)) : Z :=
  match l with
  | Some l => if (lc_timeout l <=? 0)%Z then DefaultClassifierTimeout else lc_timeout l
  | None => DefaultClassifierTimeout
  end.

Section classify.
Context `{UnicodeCase} {Provider : Type}.
(** [provider.Chat] under a timeout, for a model, a user prompt and a trace
    id: the response message ([None]: no response) or an error; and
    [json.Unmarshal] into the payload. *)
Context (Chat : Provider -> Z -> string -> string -> string -> res string (option MessageContent)).
Context (Unmarshal : string -> res string llmResponsePayload).

Definition nl : string := String (Ascii.ascii_of_nat 10) "".

Definition user_prompt (i : ClassificationInput) : string :=
  let body := "Content (Stage: " +:+ stage_string (ci_Stage i) +:+ ", Origin: "
    +:+ source_string (ci_Origin i) +:+ "):" +:+ nl +:+ "<content>" +:+ nl
    +:+ EscapeXML (ci_Normalized i) +:+ nl +:+ "</content>" in
  if decide (ci_EvaluationID i = "") then body
  else "Evaluation ID: " +:+ ci_EvaluationID i +:+ nl +:+ body.

Definition read_payload (i : ClassificationInput) (p : llmResponsePayload)
    : res string ClassificationResult :=
  match lp_Category p with
  | None => Err "missing required field: category"
  | Some c =>
      if decide (TrimSpace c = "") then Err "empty required field: category" else
      match lp_RiskLevel p with
      | None => Err "missing required field: risk_level"
      | Some l =>
          if decide (TrimSpace l = "") then Err "empty required field: risk_level" else
          let '(category, okCat) := NormalizeRiskCategory c in
          if negb okCat then Err "unknown category from llm" else
          let '(level, okLvl) := NormalizeRiskLevel l in
          if negb okLvl then Err "unknown risk_level from llm" else
          let r := {| Category := category; Level := level; Origin := ci_Origin i;
                      cr_Reason := default "" (lp_Reason p) |} in
          match Validate r with
          | Some e => Err ("invalid structured classification output: " +:+ e)
          | None => Ok r
          end
      end
  end.

Definition Classify (l : LLMClassifier Provider) (i : ClassificationInput) : res string ClassificationResult :=
  match lc_provider l with
  | None => Err "llm provider unavailable"
  | Some provider =>
      match Chat provider (lc_timeout l) (lc_model l) (user_prompt i) (ci_EvaluationID i) with
      | Err e => Err ("llm classification failed: " +:+ e)
      | Ok None | Ok (Some NilContent) => Err "empty llm classification response"
      | Ok (Some OtherContent) => Err "unexpected non-string response from llm"
      | Ok (Some (TextContent rawText)) =>
          match Unmarshal (json_text rawText) with
          | Err e => Err ("parse llm classification json: " +:+ e)
          | Ok p => read_payload i p
          end
      end
  end.
End classify.

(** * Escaping is safe and loses nothing *)

Section escaping.

(** Undoing [EscapeXML]: the entities it writes, read back. *)
Definition entities : list (list Ascii.ascii * Ascii.ascii) :=
  [(to_bytes "&amp;", byte_of 38); (to_bytes "&lt;", byte_of 60); (to_bytes "&gt;", byte_of 62);
   (to_bytes "&quot;", byte_of 34); (to_bytes "&apos;", byte_of 39)].

Fixpoint read_entity (es : list (list Ascii.ascii * Ascii.ascii)) (l : list Ascii.ascii)
    : option (Ascii.ascii * list Ascii.ascii) :=
  match es with
  | [] => None
  | (e, c) :: es => match cut_prefix e l with Some rest => Some (c, rest) | None => read_entity es l end
  end.

Fixpoint unescape (fuel : nat) (l : list Ascii.ascii) : list Ascii.ascii :=
  match fuel, l with
  | S fuel, b :: l' =>
      match read_entity entities l with
      | Some (c, rest) => c :: unescape fuel rest
      | None => b :: unescape fuel l'
      end
  | _, _ => []
  end.

Definition UnescapeXML (s : string) : string := of_bytes (unescape (slen s) (to_bytes s)).

(** What one byte becomes. *)
Definition escape_byte (b : Ascii.ascii) : list Ascii.ascii :=
  if Ascii.eqb b (byte_of 38) then to_bytes "&amp;"
  else if Ascii.eqb b (byte_of 60) then to_bytes "&lt;"
  else if Ascii.eqb b (byte_of 62) then to_bytes "&gt;"
  else if Ascii.eqb b (byte_of 34) then to_bytes "&quot;"
  else if Ascii.eqb b (byte_of 39) then to_bytes "&apos;"
  else [b].

(** One replacement, on bytes; the replacements compose byte by byte. *)
Definition replace_bytes (c : Ascii.ascii) (by_ : string) (l : list Ascii.ascii) : list Ascii.ascii :=
  flat_map (fun b => if Ascii.eqb b c then to_bytes by_ else [b]) l.

Lemma replace_bytes_app c by_ l k : replace_bytes c by_ (l ++ k) = replace_bytes c by_ l ++ replace_bytes c by_ k.
Proof. apply flat_map_app. Qed.

Definition escape_steps (l : list Ascii.ascii) : list Ascii.ascii :=
  replace_bytes (byte_of 39) "&apos;" (replace_bytes (byte_of 34) "&quot;"
    (replace_bytes (byte_of 62) "&gt;" (replace_bytes (byte_of 60) "&lt;"
      (replace_bytes (byte_of 38) "&amp;" l)))).

Lemma escape_steps_one b : escape_steps [b] = escape_byte b.
Proof.
  apply (bool_decide_unpack _), Is_true_true_2. revert b.
  apply byte_forall. vm_compute. reflexivity.
Qed.

Lemma EscapeXML_bytes s : to_bytes (EscapeXML s) = flat_map escape_byte (to_bytes s).
Proof.
  trans (escape_steps (to_bytes s)).
  { unfold EscapeXML, replace_byte, escape_steps, replace_bytes. by rewrite !to_of_bytes. }
  induction (to_bytes s) as [|b l IH]; [done|]. change (b :: l) with ([b] ++ l).
  assert (Happ : forall l k, escape_steps (l ++ k) = escape_steps l ++ escape_steps k)
    by (intros; unfold escape_steps; by rewrite !replace_bytes_app).
  rewrite Happ, IH, escape_steps_one. simpl. done.
Qed.

Lemma read_entity_None es l : Forall (fun ec => cut_prefix ec.1 l = None) es -> read_entity es l = None.
Proof. induction 1 as [|[e c] es He _ IH]; [done|]. simpl in *. by rewrite He. Qed.

(** Reading back what one byte became. *)
Lemma read_escaped b rest :
  if bool_decide (escape_byte b = [b]) then read_entity entities (escape_byte b ++ rest) = None
  else read_entity entities (escape_byte b ++ rest) = Some (b, rest).
Proof.
  unfold escape_byte.
  destruct (Ascii.eqb_spec b (byte_of 38)) as [->|H1]; [done|].
  destruct (Ascii.eqb_spec b (byte_of 60)) as [->|H2]; [done|].
  destruct (Ascii.eqb_spec b (byte_of 62)) as [->|H3]; [done|].
  destruct (Ascii.eqb_spec b (byte_of 34)) as [->|H4]; [done|].
  destruct (Ascii.eqb_spec b (byte_of 39)) as [->|H5]; [done|].
  rewrite bool_decide_true by done.
  assert (E : forall p, cut_prefix (byte_of 38 :: p) (b :: rest) = None).
  { intros p. cbn [cut_prefix]. destruct (Ascii.eqb_spec (byte_of 38) b) as [Eb|]; [by destruct H1|done]. }
  change ([b] ++ rest) with (b :: rest). apply read_entity_None.
  constructor; [exact (E (to_bytes "amp;"))|]. constructor; [exact (E (to_bytes "lt;"))|].
  constructor; [exact (E (to_bytes "gt;"))|]. constructor; [exact (E (to_bytes "quot;"))|].
  constructor; [exact (E (to_bytes "apos;"))|constructor].
Qed.

Lemma escape_byte_nonempty b : escape_byte b <> [].
Proof. unfold escape_byte. repeat case_match; done. Qed.

Lemma unescape_escaped l fuel :
  (length (flat_map escape_byte l) <= fuel)%nat -> unescape fuel (flat_map escape_byte l) = l.
Proof.
  revert l. induction fuel as [|fuel IH]; intros [|b l] Hl; try done.
  - simpl in Hl. rewrite length_app in Hl. pose proof (escape_byte_nonempty b).
    destruct (escape_byte b); simpl in Hl; [done|lia].
  - pose proof (read_escaped b (flat_map escape_byte l)) as Hr. simpl flat_map in *.
    rewrite length_app in Hl. pose proof (escape_byte_nonempty b) as Hne.
    destruct (escape_byte b) as [|c e] eqn:He; [done|]. simpl length in Hl.
    case_bool_decide as Hb.
    + simplify_eq. simpl app in *. cbn [unescape]. rewrite Hr, IH by (simpl in *; lia). done.
    + simpl app in *. cbn [unescape]. rewrite Hr, IH by lia. done.
Qed.

(** The bytes with which content could end its element or open a tag. *)
Definition delimiters : list Ascii.ascii := map byte_of [60; 62; 34; 39].

Lemma escape_byte_safe b d : d ∈ delimiters -> d ∉ escape_byte b.
Proof.
  intros Hd. assert (E : forallb (fun d => negb (bool_decide (d ∈ escape_byte b))) delimiters = true).
  { revert b. apply byte_forall. vm_compute. reflexivity. }
  rewrite forallb_forall in E. apply list_elem_of_In in Hd. specialize (E d Hd). by case_bool_decide.
Qed.
End escaping.

(** The content placed in the classifier's prompt cannot leave its
    element: escaped text holds no angle bracket and no quote, whatever the
    content; and nothing is lost, since reading the entities back gives the
    content, byte for byte (so different contents give different prompts). *)
Theorem EscapeXML_roundtrip (s : string) :
  (forall d, d ∈ delimiters -> d ∉ to_bytes (EscapeXML s)) /\ UnescapeXML (EscapeXML s) = s.
Proof.
  split.
  - intros d Hd Hin. rewrite EscapeXML_bytes in Hin.
    apply list_elem_of_In, in_flat_map in Hin as (b & _ & Hb).
    by apply (escape_byte_safe b d Hd), list_elem_of_In.
  - unfold UnescapeXML, slen. rewrite EscapeXML_bytes, unescape_escaped by done. apply of_to_bytes.
Qed.

(** * What a classification may be *)

Section classified.
Context `{UnicodeCaseLaws} {Provider : Type}.
Context (Chat : Provider -> Z -> string -> string -> string -> res string (option MessageContent)).
Context (Unmarshal : string -> res string llmResponsePayload).

(** The canonical names. *)
Definition category_string (c : RiskCategory) : string :=
  match c with
  | RiskCategoryNone => "none" | RiskCategoryPromptInjection => "prompt_injection"
  | RiskCategoryMaliciousExecution => "malicious_execution"
  | RiskCategoryDataExfiltration => "data_exfiltration" | RiskCategoryPolitics => "politics"
  | RiskCategoryPornography => "pornography" | RiskCategoryViolenceTerrorism => "violence_terrorism"
  | RiskCategoryContraband => "contraband" | RiskCategoryFraudGambling => "fraud_gambling"
  | RiskCategoryHarassmentManipulation => "harassment_manipulation" | OtherCategory s => s
  end.
Definition level_string (l : RiskLevel) : string :=
  match l with
  | RiskLevelNone => "none" | RiskLevelMedium => "medium" | RiskLevelHigh => "high"
  | RiskLevelCritical => "critical" | OtherLevel s => s
  end.

Lemma NormalizeRiskCategory_canonical c : category_IsValid c = true ->
  NormalizeRiskCategory (category_string c) = (c, true).
Proof. by destruct c. Qed.

Lemma NormalizeRiskLevel_canonical l : level_IsValid l = true ->
  NormalizeRiskLevel (level_string l) = (l, true).
Proof. by destruct l. Qed.

(** A valid result is in the vocabulary, and its two halves agree on whether
    there is a risk. *)
Definition well_formed (r : ClassificationResult) : Prop :=
  category_IsValid (Category r) = true /\ level_IsValid (Level r) = true /\
  (Category r = RiskCategoryNone <-> Level r = RiskLevelNone).

Lemma Validate_spec r : Validate r = None <-> well_formed r.
Proof.
  unfold Validate, well_formed. destruct (category_IsValid _); [|naive_solver].
  destruct (level_IsValid _); [|naive_solver]. simpl. repeat case_decide; naive_solver.
Qed.

Lemma IsRisky_spec r : well_formed r -> IsRisky r = true <-> Level r <> RiskLevelNone.
Proof. intros (Hc & Hl & Hiff). unfold IsRisky. repeat case_bool_decide; naive_solver. Qed.

Lemma Classify_well_formed l i r : Classify Chat Unmarshal l i = Ok r ->
  well_formed r /\ Origin r = ci_Origin i.
Proof.
  unfold Classify, read_payload. intros Hc.
  destruct (lc_provider l) as [prov|]; [|done]. destruct (Chat _ _ _ _ _) as [[[| |]|]|]; [done| |done..].
  destruct (Unmarshal _) as [p|]; [|done].
  destruct (lp_Category p) as [c|]; [|done]. case_decide; [done|].
  destruct (lp_RiskLevel p) as [lv|]; [|done]. case_decide; [done|].
  destruct (NormalizeRiskCategory c) as [cat [|]]; [|done]. cbn [negb] in Hc.
  destruct (NormalizeRiskLevel lv) as [lev [|]]; [|done]. cbn [negb] in Hc.
  destruct (Validate _) eqn:E; [done|]. rewrite <- Validate_spec. by simplify_eq.
Qed.

End classified.
