(* ===== verification/AuditLog.v ===== *)
(** The audit trail: [AuditEvent] and the [AuditStore] of
    [internal/security/watchdog.go].

    The store is a file of JSON lines, bounded to a number of lines; an append
    rewrites it atomically.  What reading and writing report is the
    environment's choice; the JSON codec and the hash are parameters. *)

From S2P Require Import Prelude GoStrings Access Risk Normalize.

Local Open Scope string_scope.
Local Open Scope list_scope.

(** * Events *)

Inductive WatchdogAction :=
  | ActionUnset | WatchdogPass | WatchdogWarn | WatchdogFilter | WatchdogBlock | WatchdogStrike | WatchdogLock.

#[global] Instance WatchdogAction_eq_dec : EqDecision WatchdogAction.
Proof. solve_decision. Defined.

Record AuditEvent := {
  ev_ID : string;
  ev_At : Z;
  ev_Principal : Principal;
  ev_Instance : string;
  ev_Session : string;
  ev_Tool : string;
  ev_Stage : WatchdogStage;
  ev_Source : WatchdogSource;
  ev_Action : WatchdogAction;
  ev_Reason : string;
  ev_Hash : string;
  ev_Preview : string;
  ev_Encoded : bool;
  ev_Category : RiskCategory;
  ev_RiskLevel : RiskLevel;
}.

(** * The store *)

Definition audit_limit (limit : Z) : Z := if (limit <=? 0)%Z then 1000%Z else limit.

Section audit_store.
(** [json.Marshal] and [json.Unmarshal] of an event, and [ContentHash] of the
    time's text and the event's hash. *)
Context (Marshal : AuditEvent -> string) (Unmarshal : string -> option AuditEvent).
Context (event_hash : Z -> string -> string).

(** The file's text, its absence, or a failure to read it; a failure to write. *)
Record audit_env := { ae_now : Z; ae_read_error : option string; ae_write_error : option string }.

Definition stamp (now : Z) (event : AuditEvent) : AuditEvent :=
  let at_ := if time_is_zero (ev_At event) then now else ev_At event in
  {| ev_ID := if decide (ev_ID event = "") then stake 16 (event_hash at_ (ev_Hash event)) else ev_ID event;
     ev_At := at_; ev_Principal := ev_Principal event; ev_Instance := ev_Instance event;
     ev_Session := ev_Session event; ev_Tool := ev_Tool event; ev_Stage := ev_Stage event;
     ev_Source := ev_Source event; ev_Action := ev_Action event; ev_Reason := ev_Reason event;
     ev_Hash := ev_Hash event; ev_Preview := ev_Preview event; ev_Encoded := ev_Encoded event;
     ev_Category := ev_Category event; ev_RiskLevel := ev_RiskLevel event |}.

Definition append_line (limit : Z) (existing line : string) : string :=
  let lines := SplitLines (TrimSpace existing) in
  let lines := if decide (lines = [""]) then [] else lines in
  let lines := lines ++ [line] in
  let lines := if (limit <? Z.of_nat (length lines))%Z
               then drop (length lines - Z.to_nat limit) lines else lines in
  Join lines (of_bytes [newline]) +:+ of_bytes [newline].

(** [existing] is empty when there is no file. *)
Definition Append (env : audit_env) (limit : Z) (event : AuditEvent) (existing : string)
    : option string * string :=
  let event := stamp (ae_now env) event in
  match ae_read_error env with
  | Some e => (Some e, existing)
  | None =>
      match ae_write_error env with
      | Some e => (Some e, existing)
      | None => (None, append_line limit existing (Marshal event))
      end
  end.

Definition List_ (env : audit_env) (limit : Z) (data : string) : res string (list AuditEvent) :=
  match ae_read_error env with
  | Some e => Err e
  | None =>
      let lines := filter (fun line => TrimSpace line <> "") (SplitLines (TrimSpace data)) in
      let result := omap Unmarshal lines in
      let n := Z.of_nat (length result) in
      let limit := if (limit <=? 0)%Z || (n <? limit)%Z then n else limit in
      if (limit =? 0)%Z then Ok [] else Ok (drop (length result - Z.to_nat limit) result)
  end.

(** * The file is the last events *)

(** Text that is UTF-8. *)
Definition utf8 (s : string) : Prop := string_of_runes (code_points s) = s.

Definition utf8_event (e : AuditEvent) : Prop :=
  Forall utf8 [ev_ID e; pr_Platform (ev_Principal e); pr_UserID (ev_Principal e); ev_Instance e; ev_Session e;
               ev_Tool e; ev_Reason e; ev_Hash e; ev_Preview e; category_string (ev_Category e);
               level_string (ev_RiskLevel e)].

(** What [encoding/json] documents of an event's line: an object between
    braces, on one line, that is read back when the event's texts are UTF-8. *)
Class AuditCodec := {
  codec_object e : exists m, to_bytes (Marshal e) = byte_of 123 :: m ++ [byte_of 125];
  codec_line e : newline ∉ to_bytes (Marshal e);
  codec_roundtrip e : utf8_event e -> Unmarshal (Marshal e) = Some e;
}.
Context `{AuditCodec}.

Definition file_of (es : list AuditEvent) : string :=
  match es with [] => "" | _ => Join (map Marshal es) (of_bytes [newline]) +:+ of_bytes [newline] end.

Lemma Marshal_ends es : es <> [] -> exists m m',
  to_bytes (Join (map Marshal es) (of_bytes [newline])) = byte_of 123 :: m /\
  to_bytes (Join (map Marshal es) (of_bytes [newline])) = m' ++ [byte_of 125].
Proof.
  induction es as [|e es IH]; [done|]. intros _. destruct (codec_object e) as [b Hb].
  destruct es as [|e' es].
  - exists (b ++ [byte_of 125]), (byte_of 123 :: b). simpl. by rewrite Hb.
  - destruct IH as (m & m' & E & E'); [done|]. cbn [map] in *. rewrite Join_cons by done.
    rewrite !to_bytes_app, Hb. exists ((b ++ [byte_of 125]) ++ to_bytes (of_bytes [newline]) ++ byte_of 123 :: m).
    exists ((byte_of 123 :: b ++ [byte_of 125]) ++ to_bytes (of_bytes [newline]) ++ m').
    rewrite E at 1. rewrite E'. split; [done|]. by rewrite <- !app_assoc.
Qed.

Lemma file_of_trim es : es <> [] -> TrimSpace (file_of es) = Join (map Marshal es) (of_bytes [newline]).
Proof.
  intros Hne. destruct (Marshal_ends es Hne) as (m & m' & E & E'). destruct es; [done|].
  apply TrimSpace_snoc_newline; [by eapply plain_ends_trimmed|]. intros E0. by rewrite E0 in E.
Qed.

Lemma file_of_lines es : es <> [] -> SplitLines (TrimSpace (file_of es)) = map Marshal es.
Proof.
  intros Hne. rewrite file_of_trim by done. apply SplitLines_Join; [by destruct es|].
  apply Forall_map, Forall_forall. intros e _. apply codec_line.
Qed.

Lemma Marshal_nonblank e : TrimSpace (Marshal e) <> "".
Proof.
  destruct (codec_object e) as [m Hm]. rewrite TrimSpace_id.
  - intros E. by rewrite E in Hm.
  - eapply plain_ends_trimmed; [exact Hm|by rewrite Hm; change (byte_of 123 :: m ++ ?x) with ((byte_of 123 :: m) ++ x)|done..].
Qed.

Lemma append_line_spec limit es e : (0 < limit)%Z ->
  append_line limit (file_of es) (Marshal e) = file_of (lastn (Z.to_nat limit) (es ++ [e])).
Proof.
  intros Hl. unfold append_line.
  assert (Hlines : (if decide (SplitLines (TrimSpace (file_of es)) = [""]) then []
                    else SplitLines (TrimSpace (file_of es))) = map Marshal es).
  { destruct es as [|e0 es]; [by rewrite decide_True|]. rewrite file_of_lines by done.
    rewrite decide_False; [done|]. intros E. injection E as E _. by apply (Marshal_nonblank e0); rewrite E. }
  cbn zeta. rewrite Hlines. change [Marshal e] with (map Marshal [e]). rewrite <- map_app.
  set (k := es ++ [e]). assert (Hk : k <> []) by by destruct es.
  assert (Hd : (if (limit <? Z.of_nat (length (map Marshal k)))%Z
                then drop (length (map Marshal k) - Z.to_nat limit) (map Marshal k) else map Marshal k)
               = map Marshal (lastn (Z.to_nat limit) k)).
  { rewrite length_map. destruct (limit <? _)%Z eqn:E; boolp.
    - unfold lastn. by rewrite skipn_map.
    - rewrite lastn_all by lia. done. }
  rewrite Hd. unfold file_of. destruct (lastn _ k) eqn:E; [|done].
  apply (f_equal length) in E. rewrite length_lastn in E. unfold k in E. rewrite length_app in E. simpl in E. lia.
Qed.

Lemma omap_Marshal es : Forall utf8_event es -> omap Unmarshal (map Marshal es) = es.
Proof. induction 1 as [|e es He _ IH]; [done|]. cbn. by rewrite codec_roundtrip, IH. Qed.

Lemma List_file_of env n es : ae_read_error env = None -> Forall utf8_event es ->
  List_ env n (file_of es) =
    Ok (if (n <=? 0)%Z then es else lastn (Z.to_nat n) es).
Proof.
  intros He Hu. unfold List_. rewrite He.
  assert (Hr : omap Unmarshal (filter (fun line => TrimSpace line <> "") (SplitLines (TrimSpace (file_of es)))) = es).
  { destruct es as [|e es]; [done|]. rewrite file_of_lines by done. rewrite filter_id, omap_Marshal; [done..|].
    apply Forall_map, Forall_forall. intros e' _. apply Marshal_nonblank. }
  cbn zeta. rewrite Hr. unfold lastn.
  destruct (n <=? 0)%Z eqn:E; boolp; cbn [orb].
  - destruct (_ =? 0)%Z eqn:E0; boolp; [by destruct es|]. by rewrite Nat2Z.id, Nat.sub_diag.
  - destruct (Z.of_nat (length es) <? n)%Z eqn:E1; boolp.
    + rewrite (proj2 (Nat.sub_0_le (length es) (Z.to_nat n))) by lia. rewrite drop_0.
      destruct (_ =? 0)%Z eqn:E0; boolp; [by destruct es|]. by rewrite Nat2Z.id, Nat.sub_diag.
    + rewrite (proj2 (Z.eqb_neq n 0)) by lia. done.
Qed.

(** ** The trail, as a bounded list *)

(** Appends, each in its environment. *)
Definition run_appends (limit : Z) (ops : list (audit_env * AuditEvent)) (file : string) : string :=
  fold_left (fun f op => (Append op.1 limit op.2 f).2) ops file.

(** The specification: the recorded events, the last [limit] of them. *)
Definition trail (limit : Z) (ops : list (audit_env * AuditEvent)) (es : list AuditEvent) : list AuditEvent :=
  fold_left (fun es op =>
    match ae_read_error op.1, ae_write_error op.1 with
    | None, None => lastn (Z.to_nat limit) (es ++ [stamp (ae_now op.1) op.2])
    | _, _ => es
    end) ops es.

Lemma run_appends_spec limit ops es : (0 < limit)%Z ->
  run_appends limit ops (file_of es) = file_of (trail limit ops es).
Proof.
  intros Hl. unfold run_appends, trail. revert es.
  induction ops as [|[env e] ops IH]; intros es; [done|]. cbn [fold_left fst snd]. rewrite <- IH. f_equal.
  unfold Append. destruct (ae_read_error env); [done|]. destruct (ae_write_error env); [done|].
  cbn [snd]. by apply append_line_spec.
Qed.

Lemma trail_length limit ops es : (0 <= limit)%Z -> (Z.of_nat (length es) <= limit)%Z ->
  (Z.of_nat (length (trail limit ops es)) <= limit)%Z.
Proof.
  intros Hl. unfold trail. revert es. induction ops as [|[env e] ops IH]; intros es Hes; [done|].
  cbn [fold_left fst snd]. apply IH. destruct (ae_read_error env), (ae_write_error env); [done..|].
  rewrite length_lastn. lia.
Qed.

Lemma trail_utf8 limit ops es : Forall utf8_event es ->
  Forall (fun op => utf8_event (stamp (ae_now op.1) op.2)) ops -> Forall utf8_event (trail limit ops es).
Proof.
  intros Hes Hops. unfold trail. revert es Hes. induction Hops as [|[env e] ops He _ IH]; intros es Hes; [done|].
  cbn [fold_left fst snd]. apply IH. destruct (ae_read_error env), (ae_write_error env); [done..|].
  unfold lastn. apply Forall_drop, Forall_app. by rewrite Forall_singleton.
Qed.
End audit_store.

(** The audit file is a bounded log of events: after any appends, some of
    which may fail, what is listed is exactly the most recent recorded events,
    oldest first, at most the store's limit and at most as many as asked for;
    a failed append loses nothing. *)
Theorem audit_trail Marshal Unmarshal event_hash (codec : AuditCodec Marshal Unmarshal)
    (limit n : Z) (ops : list (audit_env * AuditEvent)) (env : audit_env) :
  ae_read_error env = None ->
  Forall (fun op => utf8_event (stamp event_hash (ae_now op.1) op.2)) ops ->
  List_ Unmarshal env n (run_appends Marshal event_hash (audit_limit limit) ops "") =
    Ok (let es := trail event_hash (audit_limit limit) ops [] in
        if (n <=? 0)%Z then es else lastn (Z.to_nat n) es) /\
  (Z.of_nat (length (trail event_hash (audit_limit limit) ops [])) <= audit_limit limit)%Z.
Proof.
  intros He Hops. assert (Hl : (0 < audit_limit limit)%Z).
  { unfold audit_limit. destruct (limit <=? 0)%Z eqn:E; boolp; lia. }
  change "" with (file_of Marshal []). rewrite (run_appends_spec Marshal Unmarshal) by done. split.
  - apply (List_file_of Marshal Unmarshal); [done|]. by eapply trail_utf8.
  - apply trail_length; [lia|]. simpl. lia.
Qed.

(** ** A codec *)

Section a_codec.

#[local] Instance level_countable : Countable RiskLevel.
Proof.
  refine (inj_countable'
    (fun l => match l with RiskLevelNone => inl 0 | RiskLevelMedium => inl 1 | RiskLevelHigh => inl 2
              | RiskLevelCritical => inl 3 | OtherLevel s => inr s end)
    (fun x => match x with inl 0 => RiskLevelNone | inl 1 => RiskLevelMedium | inl 2 => RiskLevelHigh
              | inl _ => RiskLevelCritical | inr s => OtherLevel s end) _). by intros [].
Defined.

#[local] Instance category_countable : Countable RiskCategory.
Proof.
  refine (inj_countable'
    (fun c => match c with RiskCategoryNone => inl 0 | RiskCategoryPromptInjection => inl 1
      | RiskCategoryMaliciousExecution => inl 2 | RiskCategoryDataExfiltration => inl 3
      | RiskCategoryPolitics => inl 4 | RiskCategoryPornography => inl 5 | RiskCategoryViolenceTerrorism => inl 6
      | RiskCategoryContraband => inl 7 | RiskCategoryFraudGambling => inl 8
      | RiskCategoryHarassmentManipulation => inl 9 | OtherCategory s => inr s end)
    (fun x => match x with inl 0 => RiskCategoryNone | inl 1 => RiskCategoryPromptInjection
      | inl 2 => RiskCategoryMaliciousExecution | inl 3 => RiskCategoryDataExfiltration
      | inl 4 => RiskCategoryPolitics | inl 5 => RiskCategoryPornography | inl 6 => RiskCategoryViolenceTerrorism
      | inl 7 => RiskCategoryContraband | inl 8 => RiskCategoryFraudGambling
      | inl _ => RiskCategoryHarassmentManipulation | inr s => OtherCategory s end) _). by intros [].
Defined.

#[local] Instance stage_countable : Countable WatchdogStage.
Proof.
  refine (inj_countable' stage_string
    (fun s => if decide (s = "INGRESS") then StageIngress else if decide (s = "TOOL_ARGUMENT") then StageToolArgument
      else if decide (s = "TOOL_RESULT") then StageToolResult
      else if decide (s = "MODEL_OUTPUT") then StageModelOutput else StageUnset) _). by intros [].
Defined.

#[local] Instance source_countable : Countable WatchdogSource.
Proof.
  refine (inj_countable' source_string
    (fun s => if decide (s = "USER_DIRECT") then SourceUserDirect
      else if decide (s = "USER_QUOTE_REPLY_CONTEXT") then SourceUserQuote
      else if decide (s = "GROUP_CONTEXT") then SourceGroupContext
      else if decide (s = "TOOL_ARGUMENT") then SourceToolArgument
      else if decide (s = "TOOL_RESULT") then SourceToolResult
      else if decide (s = "MODEL_OUTPUT") then SourceModelOutput
      else if decide (s = "VISION_RESULT") then SourceVisionResult
      else if decide (s = "PLATFORM_METADATA") then SourcePlatformMeta else SourceUnset) _). by intros [].
Defined.

#[local] Instance action_countable : Countable WatchdogAction.
Proof.
  refine (inj_countable'
    (fun a => match a with ActionUnset => 0 | WatchdogPass => 1 | WatchdogWarn => 2 | WatchdogFilter => 3
              | WatchdogBlock => 4 | WatchdogStrike => 5 | WatchdogLock => 6 end)
    (fun n => match n with 0 => ActionUnset | 1 => WatchdogPass | 2 => WatchdogWarn | 3 => WatchdogFilter
              | 4 => WatchdogBlock | 5 => WatchdogStrike | _ => WatchdogLock end) _). by intros [].
Defined.

Definition event_tuple (e : AuditEvent) :=
  (ev_ID e, ev_At e, (pr_Platform (ev_Principal e), pr_UserID (ev_Principal e)), (ev_Instance e, ev_Session e, ev_Tool e),
   (ev_Stage e, ev_Source e, ev_Action e), (ev_Reason e, ev_Hash e, ev_Preview e),
   (ev_Encoded e, ev_Category e, ev_RiskLevel e)).

Definition tuple_event t : AuditEvent :=
  let '(i, a, (p, u), (ins, ses, tool), (st, so, ac), (r, h, pv), (en, c, l)) := t in
  {| ev_ID := i; ev_At := a; ev_Principal := {| pr_Platform := p; pr_UserID := u |}; ev_Instance := ins;
     ev_Session := ses; ev_Tool := tool; ev_Stage := st; ev_Source := so; ev_Action := ac; ev_Reason := r;
     ev_Hash := h; ev_Preview := pv; ev_Encoded := en; ev_Category := c; ev_RiskLevel := l |}.

(** A number's bits as the object's text. *)
Fixpoint bits (p : positive) : list Ascii.ascii :=
  match p with xH => [] | xO p => byte_of 48 :: bits p | xI p => byte_of 49 :: bits p end.
Fixpoint unbits (l : list Ascii.ascii) : positive :=
  match l with
  | [] => xH
  | c :: l => if Ascii.eqb c (byte_of 48) then xO (unbits l) else xI (unbits l)
  end.

Lemma unbits_bits p : unbits (bits p) = p.
Proof. induction p as [p IH|p IH|]; [simpl; by rewrite IH..|done]. Qed.

Definition encode_event (e : AuditEvent) : string :=
  of_bytes (byte_of 123 :: bits (encode (event_tuple e)) ++ [byte_of 125]).
Definition decode_event (s : string) : option AuditEvent :=
  tuple_event <$> decode (unbits (drop 1 (take (slen s - 1) (to_bytes s)))).

#[local] Instance event_codec : AuditCodec encode_event decode_event.
Proof.
  constructor.
  - intros e. eexists. unfold encode_event. by rewrite to_of_bytes.
  - intros e. unfold encode_event. rewrite to_of_bytes. rewrite not_elem_of_cons, not_elem_of_app. split; [done|].
    split; [|set_solver]. induction (encode (event_tuple e)) as [p IH|p IH|]; simpl;
      rewrite ?not_elem_of_cons; [done..|apply not_elem_of_nil].
  - intros e _. unfold decode_event, encode_event, slen. rewrite !to_of_bytes. cbn [length].
    rewrite length_app. cbn [length]. rewrite Nat.add_1_r. cbn [Nat.sub]. cbn [take].
    rewrite take_app_length' by done. cbn [drop]. rewrite drop_0, unbits_bits, decode_encode.
    simpl. f_equal. by destruct e as [? ? []].
Qed.

Definition noted (id : string) (at_ : Z) : AuditEvent := {|
  ev_ID := id; ev_At := at_; ev_Principal := {| pr_Platform := "qq"; pr_UserID := "7" |}; ev_Instance := "";
  ev_Session := ""; ev_Tool := ""; ev_Stage := StageIngress; ev_Source := SourceUserDirect;
  ev_Action := WatchdogBlock; ev_Reason := ""; ev_Hash := "h"; ev_Preview := "p"; ev_Encoded := false;
  ev_Category := RiskCategoryNone; ev_RiskLevel := RiskLevelNone |}.

Definition calm (now : Z) : audit_env := {| ae_now := now; ae_read_error := None; ae_write_error := None |}.

(** Three appends, the second of which fails, to a file of at most one line. *)
Lemma audit_trail_witness :
  List_ decode_event (calm 9) 0 (run_appends encode_event (fun _ h => h) 1
    [(calm 5, noted "a" 1); ({| ae_now := 6; ae_read_error := None; ae_write_error := Some "full" |}, noted "b" 2);
     (calm 7, noted "c" 0)] "") = Ok [noted "c" 7].
Proof.
  refine (proj1 (audit_trail encode_event decode_event (fun _ h => h) event_codec 1 0
    [(calm 5, noted "a" 1); ({| ae_now := 6; ae_read_error := None; ae_write_error := Some "full" |}, noted "b" 2);
     (calm 7, noted "c" 0)] (calm 9) eq_refl _)).
  repeat (constructor; [repeat (constructor; [by vm_compute|]); constructor|]). constructor.
Defined.
End a_codec.
