(* ===== verification/Controller.v ===== *)
(** The security controller and the engine's gate:
    [internal/security/mode.go], [internal/security/controller.go] and
    [internal/llm/security_gate.go].

    A controller holds the shared access and audit stores, a watchdog and the
    shared mode.  Access control applies in every mode; content is inspected in
    aggressive mode only. *)

From S2P Require Import Prelude GoStrings Access Normalize Risk AuditLog Watchdog.

Local Open Scope string_scope.
Local Open Scope list_scope.

(** * Modes *)

Inductive ControlMode := ControlModeOff | ControlModeSimple | ControlModeAggressive.

#[global] Instance ControlMode_eq_dec : EqDecision ControlMode.
Proof. solve_decision. Defined.

Definition mode_string (m : ControlMode) : string :=
  match m with ControlModeOff => "off" | ControlModeSimple => "simple" | ControlModeAggressive => "aggressive" end.

Section modes.
Context `{UnicodeCase}.

Definition ParseControlMode (raw : string) : ControlMode :=
  let s := ToLower (TrimSpace raw) in
  if decide (s = "off") then ControlModeOff
  else if decide (s = "aggressive") then ControlModeAggressive
  else if decide (s = "simple") then ControlModeSimple
  else ControlModeSimple.

Definition IsValidControlMode (raw : string) : bool :=
  bool_decide (ToLower (TrimSpace raw) ∈ ["off"; "simple"; "aggressive"]).
End modes.

(** * Controllers *)

(** The mode is an atomic pointer the controllers of all runtimes share: a
    location among the modes. *)
Record Controller := {
  c_Access : bool;
  c_Audit : option Z;
  c_Watchdog : option Watchdog;
  c_mode : option positive;
}.

Abbreviation modes := (gmap positive ControlMode) (only parsing).

(** [NewController], with a location for its mode that is not in use. *)
Definition NewController (l : positive) (ms : modes) : Controller * modes :=
  ({| c_Access := true; c_Audit := Some 1000%Z; c_Watchdog := Some (NewWatchdog true (Some 1000%Z)); c_mode := Some l |},
   <[l := ControlModeSimple]> ms).

Definition Mode (c : option Controller) (ms : modes) : ControlMode :=
  match c with
  | Some c => match c_mode c with Some l => default ControlModeSimple (ms !! l) | None => ControlModeSimple end
  | None => ControlModeSimple
  end.

Definition set_watchdog (c : Controller) (w : option Watchdog) : Controller := {|
  c_Access := c_Access c; c_Audit := c_Audit c; c_Watchdog := w; c_mode := c_mode c |}.

Section controllers.
Context `{UnicodeCase} {Provider : Type}.
Context (Chat : Provider -> Z -> string -> string -> string -> res string (option MessageContent)).
Context (Unmarshal : string -> res string llmResponsePayload).

(** A location not in use is allocated when the controller has no pointer. *)
Definition SetMode (c : option Controller) (raw : string) (fresh : positive) (ms : modes)
    : option Controller * modes :=
  match c with
  | None => (None, ms)
  | Some c =>
      let parsed := ParseControlMode raw in
      match c_mode c with
      | Some l => (Some c, <[l := parsed]> ms)
      | None => (Some {| c_Access := c_Access c; c_Audit := c_Audit c; c_Watchdog := c_Watchdog c;
                         c_mode := Some fresh |}, <[fresh := parsed]> ms)
      end
  end.

(** The setters pass to the watchdog, when there is one. *)
Definition on_watchdog (f : Watchdog -> Watchdog) (c : option Controller) : option Controller :=
  match c with
  | Some c => Some (set_watchdog c (f <$> c_Watchdog c))
  | None => None
  end.

Definition Controller_ClassifierTimeout (c : option Controller) : Z :=
  match c with
  | Some c => match c_Watchdog c with Some w => ClassifierTimeout w | None => DefaultClassifierTimeout end
  | None => DefaultClassifierTimeout
  end.
Definition Controller_SetClassifierTimeout c d := on_watchdog (fun w => SetClassifierTimeout w d) c.
Definition Controller_SetClassifier c cls := on_watchdog (fun w => SetClassifier w cls) c.
Definition Controller_SetLLMProvider c provider model :=
  on_watchdog (fun w => SetLLMProvider Chat Unmarshal w provider model) c.
Definition Controller_SetInstanceProviderWithTimeout c inst provider model timeout :=
  on_watchdog (fun w => SetInstanceProviderWithTimeout Chat Unmarshal w inst provider model timeout) c.
Definition Controller_SetInstanceClassifier c inst cls := on_watchdog (fun w => SetInstanceClassifier w inst cls) c.
Definition Controller_RemoveInstanceProvider c inst := on_watchdog (fun w => RemoveInstanceProvider w inst) c.

(** A controller of its own watchdog, on the shared stores and mode. *)
Definition runtime_controller (c : Controller) (provider : option Provider) (model : string) (timeout : Z)
    : Controller :=
  let wd := NewWatchdog (c_Access c) (c_Audit c) in
  let wd := if (0 <? timeout)%Z then SetClassifierTimeout wd timeout else wd in
  let wd := match provider with
            | Some _ => SetLLMProviderWithTimeout Chat Unmarshal wd provider model timeout
            | None => wd
            end in
  {| c_Access := c_Access c; c_Audit := c_Audit c; c_Watchdog := Some wd; c_mode := c_mode c |}.

Definition ForRuntimeWithTimeout (c : option Controller) (provider : option Provider) (model : string) (timeout : Z)
    : option Controller :=
  (fun c => runtime_controller c provider model timeout) <$> c.
Definition ForRuntime (c : option Controller) (provider : option Provider) (model : string) : option Controller :=
  ForRuntimeWithTimeout c provider model (Controller_ClassifierTimeout c).

(** The parent, with the instance's provider registered, and the child. *)
Definition ForInstanceWithTimeout (c : option Controller) (inst : string) (provider : option Provider)
    (model : string) (timeout : Z) : option Controller * option Controller :=
  let c := if decide (inst = "") then c else Controller_SetInstanceProviderWithTimeout c inst provider model timeout in
  (c, (fun c => runtime_controller c provider model timeout) <$> c).
Definition ForInstance (c : option Controller) (inst : string) (provider : option Provider) (model : string)
    : option Controller * option Controller :=
  ForInstanceWithTimeout c inst provider model (Controller_ClassifierTimeout c).
End controllers.

(** * Access *)

(** Why access is refused: [ErrLocked], or another error. *)
Inductive access_error := ErrLocked | AccessUnavailable (e : string).
Definition error_text (e : access_error) : string :=
  match e with ErrLocked => "principal is globally locked" | AccessUnavailable e => e end.

Definition CheckAccess (c : option Controller) (env : faults) (p : Principal) (file : accessFile)
    : option access_error :=
  match c with
  | None => None
  | Some c =>
      if negb (c_Access c) then Some (AccessUnavailable "access control unavailable") else
      match IsLocked env p file with
      | Err e => Some (AccessUnavailable e)
      | Ok (locked, _) => if locked : bool then Some ErrLocked else None
      end
  end.

Section access.
Context `{Externals}.

Definition append_event (c : Controller) (env : audit_env) (ev : AuditEvent) (st : Stores) : Stores :=
  match c_Audit c with
  | Some limit =>
      {| st_access := st_access st;
         st_audit := (Append json_event (fun at_ h => ContentHash (time_String at_ +:+ h)) env limit ev (st_audit st)).2 |}
  | None => st
  end.

(** The event of an administrative change. *)
Definition admin_event (m : AuditEvent) (id_ : string) (p : Principal) (stage : WatchdogStage)
    (source : WatchdogSource) (action : WatchdogAction) (reason hash : string) : AuditEvent := {|
  ev_ID := id_; ev_At := ev_At m; ev_Principal := p; ev_Instance := ev_Instance m; ev_Session := ev_Session m;
  ev_Tool := ev_Tool m; ev_Stage := stage; ev_Source := source; ev_Action := action; ev_Reason := reason;
  ev_Hash := hash; ev_Preview := ev_Preview m; ev_Encoded := ev_Encoded m; ev_Category := ev_Category m;
  ev_RiskLevel := ev_RiskLevel m |}.

Definition empty_event : AuditEvent := {|
  ev_ID := ""; ev_At := 0; ev_Principal := {| pr_Platform := ""; pr_UserID := "" |}; ev_Instance := "";
  ev_Session := ""; ev_Tool := ""; ev_Stage := StageUnset; ev_Source := SourceUnset; ev_Action := ActionUnset;
  ev_Reason := ""; ev_Hash := ""; ev_Preview := ""; ev_Encoded := false; ev_Category := OtherCategory "";
  ev_RiskLevel := OtherLevel "" |}.

Definition LockWithMeta (c : option Controller) (env : eval_env) (p : Principal) (reason : string)
    (meta : AuditEvent) (st : Stores) : option string * Stores :=
  match c with
  | None => (Some "access control unavailable", st)
  | Some c =>
      if negb (c_Access c) then (Some "access control unavailable", st) else
      let '(err, file) := Access.Lock (en_record env) p reason (en_recorded env) (st_access st) in
      let st := {| st_access := file; st_audit := st_audit st |} in
      match err with
      | Some e => (Some e, st)
      | None =>
          let id_ := if decide (ev_ID meta = "") then GenerateEvaluationID (en_random env) StageToolResult else ev_ID meta in
          let stage := if decide (ev_Stage meta = StageUnset) then StageToolResult else ev_Stage meta in
          let source := if decide (ev_Source meta = SourceUnset) then SourceToolResult else ev_Source meta in
          (None, append_event c (en_append env)
                   (admin_event meta id_ p stage source WatchdogLock reason (ContentHash reason)) st)
      end
  end.

Definition Controller_Lock (c : option Controller) (env : eval_env) (p : Principal) (reason : string) (st : Stores)
    : option string * Stores :=
  LockWithMeta c env p reason (admin_event empty_event "" (ev_Principal empty_event) StageIngress SourceUserDirect
    ActionUnset "" "") st.

Definition Controller_Unlock (c : option Controller) (env : eval_env) (p : Principal) (st : Stores) : option string * Stores :=
  match c with
  | None => (Some "access control unavailable", st)
  | Some c =>
      if negb (c_Access c) then (Some "access control unavailable", st) else
      let '(err, file) := Access.Unlock (en_record env) p (en_recorded env) (st_access st) in
      let st := {| st_access := file; st_audit := st_audit st |} in
      match err with
      | Some e => (Some e, st)
      | None => (None, append_event c (en_append env)
                   (admin_event empty_event "" p StageIngress SourceUserDirect WatchdogPass "manual unlock"
                      (ContentHash (Key p))) st)
      end
  end.

Definition Controller_IsLocked (c : option Controller) (env : faults) (p : Principal) (file : accessFile) : bool :=
  match c with
  | Some c => c_Access c && match IsLocked env p file with Ok (locked, _) => locked | Err _ => false end
  | None => false
  end.

Definition RejectInspectorMsg : string := "FrostAgent 错误：Request rejected by security inspector: 不合适的内容！".
Definition RejectGatewayMsg : string := "FrostAgent 错误：Request rejected by security gateway: 您已被封禁，请联系管理员。".
Definition RejectFailureMsg : string := "FrostAgent 错误：Request rejected by security service: 安全审查服务暂时不可用，请稍后重试。".

Definition RejectMessage (c : option Controller) (env : faults) (p : Principal) (d : WatchdogDecision)
    (file : accessFile) : string :=
  if Controller_IsLocked c env p file then RejectGatewayMsg
  else if bool_decide (d_Action d = WatchdogLock) || bool_decide (d_Reason d = error_text ErrLocked)
    then RejectGatewayMsg
  else if d_IsFailure d then RejectFailureMsg
  else RejectInspectorMsg.
End access.

(** * The gates *)

Section gates.
Context `{Externals} `{UnicodeTables}.

(** What reading the lock reports, and the evaluation's environment. *)
Record gate_env := { ge_check : faults; ge_eval : eval_env }.

Definition pass_decision (id_ : string) : WatchdogDecision := decision WatchdogPass "" None id_ None.

(** The event of a locked principal's message. *)
Definition locked_event (meta : AuditEvent) (p : Principal) (r : AccessRecord) (content : string) : AuditEvent :=
  admin_event meta (ev_ID meta) p StageIngress SourceUserDirect WatchdogBlock (ar_Reason r) (ContentHash content).

Definition GateIngressWithContext (c : option Controller) (ms : modes) (env : gate_env) (p : Principal)
    (content : string) (meta : AuditEvent) (st : Stores) : WatchdogDecision * Stores :=
  match c with
  | None => (pass_decision "", st)
  | Some ctl =>
      let meta := with_id (evaluation_id (ge_eval env) StageIngress meta) meta in
      let id_ := ev_ID meta in
      if negb (c_Access ctl) then
        (decision WatchdogBlock "security control unavailable" None id_ (Some ("unconfigured", "access store is nil")), st)
      else
        match IsLocked (ge_check env) p (st_access st) with
        | Err e =>
            (decision WatchdogBlock ("access-control state unavailable: " +:+ SafeErrorSummary e) None id_
               (Some (ErrorType e, SafeErrorSummary e)), st)
        | Ok (locked, record) =>
            if locked : bool then
              let ev := locked_event meta p record content in
              (decision WatchdogBlock (error_text ErrLocked) (Some ev) id_ None,
               append_event ctl (en_append (ge_eval env)) ev st)
            else if negb (bool_decide (Mode c ms = ControlModeAggressive)) then (pass_decision id_, st)
            else
              match c_Watchdog ctl with
              | None => (decision WatchdogBlock "security control unavailable" None id_
                           (Some ("unconfigured", "watchdog is nil")), st)
              | Some w => EvaluateWithContext (Some w) (ge_eval env) p StageIngress SourceUserDirect content meta st
              end
        end
  end.

Definition GateIngressDryRun (c : option Controller) (ms : modes) (env : gate_env) (p : Principal)
    (content : string) (meta : AuditEvent) (st : Stores) : WatchdogDecision * Stores :=
  match c with
  | None => (pass_decision "", st)
  | Some ctl =>
      let meta := with_id (evaluation_id (ge_eval env) StageIngress meta) meta in
      let id_ := ev_ID meta in
      if negb (c_Access ctl) then (decision WatchdogBlock "security control unavailable" None "" None, st) else
      match IsLocked (ge_check env) p (st_access st) with
      | Err _ => (decision WatchdogBlock "access-control state unavailable" None "" None, st)
      | Ok (locked, record) =>
          if locked : bool then
            (decision WatchdogBlock (error_text ErrLocked) (Some (locked_event meta p record content)) id_ None, st)
          else if negb (bool_decide (Mode c ms = ControlModeAggressive)) then (pass_decision id_, st)
          else
            match c_Watchdog ctl with
            | None => (decision WatchdogBlock "security control unavailable" None "" None, st)
            | Some w => EvaluateDryRunWithContext (Some w) (ge_eval env) p StageIngress SourceUserDirect content meta st
            end
      end
  end.

Definition Controller_Evaluate (c : option Controller) (ms : modes) (env : eval_env) (p : Principal)
    (stage : WatchdogStage) (source : WatchdogSource) (content : string) (meta : AuditEvent) (st : Stores)
    : WatchdogDecision * Stores :=
  match c with
  | None => (pass_decision "", st)
  | Some ctl =>
      let meta := with_id (evaluation_id env stage meta) meta in
      if negb (bool_decide (Mode c ms = ControlModeAggressive)) then (pass_decision (ev_ID meta), st) else
      match c_Watchdog ctl with
      | None => (decision WatchdogBlock "security control unavailable" None (ev_ID meta)
                   (Some ("unconfigured", "watchdog is nil")), st)
      | Some w => EvaluateWithContext (Some w) env p stage source content meta st
      end
  end.

Definition Controller_EvaluateDryRun (c : option Controller) (ms : modes) (env : eval_env) (p : Principal)
    (stage : WatchdogStage) (source : WatchdogSource) (content : string) (meta : AuditEvent) (st : Stores)
    : WatchdogDecision * Stores :=
  match c with
  | None => (pass_decision "", st)
  | Some ctl =>
      let meta := with_id (evaluation_id env stage meta) meta in
      if negb (bool_decide (Mode c ms = ControlModeAggressive)) then (pass_decision (ev_ID meta), st) else
      match c_Watchdog ctl with
      | None => (decision WatchdogBlock "security control unavailable" None "" None, st)
      | Some w => EvaluateDryRunWithContext (Some w) env p stage source content meta st
      end
  end.

Definition EvaluateContext c ms env p source content meta st :=
  Controller_Evaluate c ms env p StageIngress source content meta st.
Definition EvaluateContextDryRun c ms env p source content meta st :=
  Controller_EvaluateDryRun c ms env p StageIngress source content meta st.

(** ** The engine's gate *)

(** What the engine's gate reads of a run and of the engine. *)
Record run_scope := {
  run_ActorPlatform : string;
  run_RoutePlatform : string;
  run_ActorUserID : string;
  run_InstanceID : string;
  run_SessionID : string;
  run_Mock : bool;
}.
Record engine_gate := { eg_Security : option Controller; eg_InstanceID : string }.

Context `{UnicodeCase}.

Definition runPrincipal (run : run_scope) : res string Principal :=
  let platform := if decide (run_ActorPlatform run = "") then run_RoutePlatform run else run_ActorPlatform run in
  NewPrincipal platform (run_ActorUserID run).

Definition securityAccess (e : engine_gate) (env : faults) (run : run_scope) (file : accessFile)
    : option access_error :=
  match eg_Security e with
  | None => None
  | Some c =>
      match runPrincipal run with
      | Err err => Some (AccessUnavailable err)
      | Ok p => CheckAccess (Some c) env p file
      end
  end.

Definition BanUserToolName : string := "ban_user".

Definition tool_event (run : run_scope) (e : engine_gate) (tool : string) : AuditEvent :=
  let inst := if decide (eg_InstanceID e = "") then run_InstanceID run else eg_InstanceID e in
  {| ev_ID := ""; ev_At := 0; ev_Principal := ev_Principal empty_event; ev_Instance := inst;
     ev_Session := run_SessionID run; ev_Tool := tool; ev_Stage := StageUnset; ev_Source := SourceUnset;
     ev_Action := ActionUnset; ev_Reason := ""; ev_Hash := ""; ev_Preview := ""; ev_Encoded := false;
     ev_Category := OtherCategory ""; ev_RiskLevel := OtherLevel "" |}.

Definition zero_decision : WatchdogDecision := decision ActionUnset "" None "" None.

Definition securityEvaluate (e : engine_gate) (ms : modes) (env : gate_env) (run : run_scope)
    (stage : WatchdogStage) (source : WatchdogSource) (content tool : string) (st : Stores)
    : bool * WatchdogDecision * Stores :=
  match eg_Security e with
  | None => (false, zero_decision, st)
  | Some c =>
      let evalID := GenerateEvaluationID (en_random (ge_eval env)) stage in
      match securityAccess e (ge_check env) run (st_access st) with
      | Some ErrLocked => (true, decision WatchdogBlock "access denied / locked" None evalID None, st)
      | Some (AccessUnavailable err) =>
          (true, decision WatchdogBlock ("access control unavailable: " +:+ SafeErrorSummary err) None evalID
                   (Some (ErrorType err, SafeErrorSummary err)), st)
      | None =>
          if negb (bool_decide (Mode (Some c) ms = ControlModeAggressive)) || bool_decide (tool = BanUserToolName)
          then (false, pass_decision "", st) else
          match c_Watchdog c with
          | None => (true, decision WatchdogBlock "watchdog unconfigured" None evalID
                             (Some ("unconfigured", "watchdog is nil")), st)
          | Some w =>
              match runPrincipal run with
              | Err err => (true, decision WatchdogBlock "invalid principal" None evalID
                                    (Some (ErrorType err, SafeErrorSummary err)), st)
              | Ok p =>
                  let '(d, st) := evaluateWithContext (Some w) (ge_eval env) p stage source content
                                    (tool_event run e tool) (run_Mock run) st in
                  (Blocks (d_Action d), d, st)
              end
          end
      end
  end.

Definition securityBlocks (e : engine_gate) (ms : modes) (env : gate_env) (run : run_scope)
    (stage : WatchdogStage) (source : WatchdogSource) (content tool : string) (st : Stores) : bool :=
  (securityEvaluate e ms env run stage source content tool st).1.1.
End gates.

(** * Locked out *)

Section locked_out.
Context `{Externals} `{UnicodeTables} `{UnicodeCase}.

Lemma append_event_access c env ev st : st_access (append_event c env ev st) = st_access st.
Proof. unfold append_event. by destruct (c_Audit c). Qed.

Lemma CheckAccess_refused c env p file :
  (exists e, IsLocked env p file = Err e) \/ (exists r, IsLocked env p file = Ok (true, r)) ->
  is_Some (CheckAccess (Some c) env p file).
Proof.
  intros Hl. unfold CheckAccess. destruct (negb (c_Access c)); [done|].
  by destruct Hl as [[e ->]|[r ->]].
Qed.

(** C24: a locked principal gets through nowhere.  While a principal is locked,
    or the store cannot tell, every gate refuses it - ingress, its dry run, and
    the engine's check of each model output and tool call - whatever the mode,
    the watchdog, the classifier and the content are; no gate changes an access
    record then; and a locked principal is told so. *)
Theorem locked_out_everywhere (c : Controller) (ms : modes) (env : gate_env) (p : Principal) (st : Stores) :
  (exists e, IsLocked (ge_check env) p (st_access st) = Err e) \/
  (exists r, IsLocked (ge_check env) p (st_access st) = Ok (true, r)) ->
  is_Some (CheckAccess (Some c) (ge_check env) p (st_access st)) /\
  (forall content meta, let '(d, st') := GateIngressWithContext (Some c) ms env p content meta st in
     Blocks (d_Action d) = true /\ st_access st' = st_access st /\
     (forall r, c_Access c = true -> IsLocked (ge_check env) p (st_access st) = Ok (true, r) ->
        RejectMessage (Some c) (ge_check env) p d (st_access st') = RejectGatewayMsg)) /\
  (forall content meta, let '(d, st') := GateIngressDryRun (Some c) ms env p content meta st in
     Blocks (d_Action d) = true /\ st' = st) /\
  (forall inst run stage source content tool, runPrincipal run = Ok p ->
     let '(blocked, d, st') := securityEvaluate {| eg_Security := Some c; eg_InstanceID := inst |} ms env run
                                 stage source content tool st in
     blocked = true /\ Blocks (d_Action d) = true /\ st' = st).
Proof.
  intros Hl. split; [by apply CheckAccess_refused|]. split; [|split].
  - intros content meta. unfold GateIngressWithContext.
    destruct (c_Access c) eqn:Ha; cbn [negb]; [|repeat split; done].
    destruct Hl as [[e He]|[r Hr]].
    + rewrite He. repeat split; intros; congruence.
    + rewrite Hr. cbn [d_Action decision]. split; [done|]. split; [apply append_event_access|].
      intros r' _ _. unfold RejectMessage, Controller_IsLocked. by rewrite append_event_access, Ha, Hr.
  - intros content meta. unfold GateIngressDryRun. destruct (c_Access c); [|done]. cbn [negb].
    by destruct Hl as [[e ->]|[r ->]].
  - intros inst run stage source content tool Hp. unfold securityEvaluate, securityAccess. cbn [eg_Security].
    rewrite Hp. destruct (CheckAccess_refused c _ _ _ Hl) as [e ->]. by destruct e.
Qed.
End locked_out.

(** * A persistent attacker *)

Section attack.
Context `{Externals} `{UnicodeTables}.
Local Open Scope Z_scope.

(** The classifier rates a content critical, in both of its forms. *)
Definition rates_critical (classify : Classifier) (content : string) : Prop :=
  forall i, ci_Content i = content -> ci_Normalized i ∈ [(normalizeBounded content).1; content] ->
    exists c, classify i = Ok c /\ Level c = RiskLevelCritical.

Lemma assessed_critical w id_ p stage source content meta last classify :
  ClassifierForInstance w (ev_Instance meta) = Some classify -> rates_critical classify content ->
  let a := assessed w id_ p stage source content meta last in
  as_failure a = None /\ Level (merged a) = RiskLevelCritical.
Proof.
  intros Hc Hr. cbn zeta. unfold assessed, assess. rewrite Hc. set (i := classifier_input _ _ _ _ _ _ _).
  destruct (Hr i eq_refl) as (n & -> & Hn); [by left|].
  destruct (negb (normalizeBounded content).2).
  { split; [done|]. unfold merged. cbn [as_raw as_norm]. by case_match. }
  destruct (Hr (raw_input i) eq_refl) as (r & -> & Hr'); [right; by left|].
  split; [done|]. unfold merged. cbn [as_raw as_norm]. by case_match.
Qed.

(** One more critical message of a principal that is not locked. *)
Lemma gate_critical c ms w env p content meta st classify r0 :
  c_Access c = true -> Mode (Some c) ms = ControlModeAggressive -> c_Watchdog c = Some w -> wd_access w = true ->
  ClassifierForInstance w (ev_Instance meta) = Some classify -> rates_critical classify content ->
  len content <= MaxInspectionSize ->
  ge_check env = no_faults -> en_load (ge_eval env) = no_faults -> en_record (ge_eval env) = no_faults ->
  IsLocked no_faults p (st_access st) = Ok (false, r0) ->
  exists encoded, let h := ContentHash (normalizeBounded content).1 in
    let '(strikes, locked, r) := submit p h encoded (en_recorded (ge_eval env)) (wd_strikeWindow w) (wd_lockAfter w)
                                   (default zero_record (st_access st !! Key p)) in
    let '(d, st') := GateIngressWithContext (Some c) ms env p content meta st in
    st_access st' = <[Key p := r]> (st_access st) /\
    d_Action d = if locked : bool then WatchdogLock else if 0 <? strikes then WatchdogStrike else WatchdogBlock.
Proof.
  intros Ha Hm Hw Hwa Hcls Hr Hlen E1 E2 E3 Hl. unfold GateIngressWithContext.
  rewrite Ha, E1, Hl, Hm, Hw. cbn [negb]. rewrite (bool_decide_true (ControlModeAggressive = _)) by done. cbn [negb].
  unfold EvaluateWithContext, evaluateWithContext. rewrite (proj2 (Z.ltb_ge _ _)) by done. rewrite Hwa, E2.
  set (id1 := evaluation_id _ _ _).
  assert (Hlast : exists last, LastBlockedHash no_faults p (en_checked (ge_eval env) - wd_strikeWindow w) (st_access st) = Ok last).
  { unfold LastBlockedHash. cbn [load_error no_faults]. destruct (st_access st !! Key p); [case_match|]; eauto. }
  destruct Hlast as [last ->]. set (m := with_id _ (with_id _ _)).
  assert (Hcls' : ClassifierForInstance w (ev_Instance m) = Some classify) by done.
  unfold inspect. destruct (normalizeBounded content) as [n ev] eqn:En.
  destruct (assessed_critical w (ev_ID m) p StageIngress SourceUserDirect content m last classify Hcls' Hr) as [Hf Hc].
  unfold assessed, classifier_input in Hf, Hc. rewrite En in Hf, Hc. cbn [fst snd] in Hf, Hc |- *.
  set (a := assess _ _ _) in *. rewrite Hf.
  match goal with |- context [respond w (ge_eval env) false p SourceUserDirect ?h ?e a ?f] => exists e end.
  destruct (submit _ _ _ _ _ _ _) as [[strikes locked] r] eqn:Es.
  unfold respond. rewrite Hf, Hc. unfold critical_response. rewrite (bool_decide_true (SourceUserDirect = _)) by done.
  rewrite Hwa. cbn [negb andb]. unfold RecordBlockedSubmission, update. rewrite E3.
  cbn [load_error save_error no_faults]. rewrite Es. cbn [r_Action r_Access d_Action].
  split; [|done]. case_match; [done|]. by rewrite audit_unless_access.
Qed.

(** The same message, again and again. *)
Definition gate_run (c : Controller) (ms : modes) (p : Principal) (content : string) (meta : AuditEvent)
    (envs : list gate_env) (st : Stores) : list WatchdogDecision * Stores :=
  fold_left (fun x env => let '(d, st) := GateIngressWithContext (Some c) ms env p content meta x.2 in (x.1 ++ [d], st))
    envs ([], st).

Definition recorded_at (env : gate_env) : Z := en_recorded (ge_eval env).

Lemma gate_run_snoc c ms p content meta envs env st :
  gate_run c ms p content meta (envs ++ [env]) st =
  let '(ds, st) := gate_run c ms p content meta envs st in
  let '(d, st) := GateIngressWithContext (Some c) ms env p content meta st in (ds ++ [d], st).
Proof. unfold gate_run. rewrite fold_left_app. cbn [fold_left]. by destruct (fold_left _ envs _). Qed.

(** Nothing fails in this environment. *)
Definition undisturbed (env : gate_env) : Prop :=
  ge_check env = no_faults /\ en_load (ge_eval env) = no_faults /\ en_record (ge_eval env) = no_faults.

Definition is_lock (d : WatchdogDecision) : bool := bool_decide (d_Action d = WatchdogLock).

Context (c : Controller) (ms : gmap positive ControlMode) (w : Watchdog) (p : Principal) (content : string) (meta : AuditEvent).
Context (classify : Classifier).
Context (Ha : c_Access c = true) (Hm : Mode (Some c) ms = ControlModeAggressive).
Context (Hw : c_Watchdog c = Some w) (Hwa : wd_access w = true).
Context (Hcls : ClassifierForInstance w (ev_Instance meta) = Some classify) (Hr : rates_critical classify content).
Context (Hlen : len content <= MaxInspectionSize).
Context (Hwin : 0 < wd_strikeWindow w) (Hn : 0 < wd_lockAfter w).

(** The store before a run's submissions [l], and whether it is locked. *)
Lemma store_all_locked file l :
  file !! Key p = None -> timed 0 l ->
  let bs := map (lock_at (wd_strikeWindow w) (wd_lockAfter w) l) (seq 0 (length l)) in
  exists r, IsLocked no_faults p (store_all p (wd_strikeWindow w) (wd_lockAfter w) l file) = Ok (bool_decide (true ∈ bs), r).
Proof.
  intros Hf Ht. cbn zeta. unfold IsLocked. cbn [load_error no_faults].
  destruct (decide (l = [])) as [->|Hl].
  { cbn [store_all fold_left]. rewrite Hf. eexists. by rewrite bool_decide_eq_false_2 by apply not_elem_of_nil. }
  rewrite store_all_lookup, lookup_insert_eq, Hf by done. cbn [default]. eexists. do 2 f_equal.
  pose proof (submit_all_spec p (wd_strikeWindow w) (wd_lockAfter w) l zero_record Hwin Hn Ht ltac:(done)) as Hs.
  destruct (submit_all _ _ _ _ _) as [bs r]. destruct Hs as (-> & _ & Hst). cbn [snd].
  by apply bool_decide_ext.
Qed.

Lemma gate_run_submissions file log envs :
  file !! Key p = None -> Forall undisturbed envs ->
  (forall l, map s_now l = map recorded_at envs -> timed 0 l) ->
  Z.of_nat (length envs) <= wd_lockAfter w + 1 ->
  exists l, map s_now l = map recorded_at envs /\
    Forall (fun x => s_hash x = ContentHash (normalizeBounded content).1) l /\
    let '(ds, st) := gate_run c ms p content meta envs {| st_access := file; st_audit := log |} in
    st_access st = store_all p (wd_strikeWindow w) (wd_lockAfter w) l file /\
    map is_lock ds = map (lock_at (wd_strikeWindow w) (wd_lockAfter w) l) (seq 0 (length l)) /\
    Forall (fun d => Blocks (d_Action d) = true) ds.
Proof.
  intros Hf. induction envs as [|env envs IH] using rev_ind; intros Hu Ht Hk.
  { exists []. done. }
  apply Forall_app in Hu as [Hu (U1 & U2 & U3)%Forall_singleton]. rewrite length_app in Hk. simpl in Hk.
  destruct IH as (l & Hl & Hh & Hrun); [done| |lia|].
  { intros l Hl. specialize (Ht (l ++ [{| s_hash := ""; s_encoded := false; s_now := recorded_at env |}])).
    rewrite !map_app, Hl in Ht. specialize (Ht eq_refl). by apply timed_snoc in Ht as [? _]. }
  rewrite gate_run_snoc. destruct (gate_run c ms p content meta envs _) as [ds st]. destruct Hrun as (Hst & Hds & Hbl).
  assert (Hll : length l = length envs) by (apply (f_equal length) in Hl; by rewrite !length_map in Hl).
  assert (Htl : timed 0 l).
  { specialize (Ht (l ++ [{| s_hash := ""; s_encoded := false; s_now := recorded_at env |}])).
    rewrite !map_app, Hl in Ht. specialize (Ht eq_refl). by apply timed_snoc in Ht as [? _]. }
  destruct (store_all_locked file l Hf Htl) as [r0 Hlocked].
  rewrite bool_decide_eq_false_2 in Hlocked by (apply few_never_lock; lia).
  rewrite <- Hst in Hlocked.
  destruct (gate_critical c ms w env p content meta st classify r0) as [encoded Hg]; try done. cbn zeta in Hg.
  set (x := {| s_hash := ContentHash (normalizeBounded content).1; s_encoded := encoded; s_now := recorded_at env |}).
  exists (l ++ [x]). split; [by rewrite !map_app, Hl|]. split; [by apply Forall_app; rewrite Forall_singleton|].
  assert (Hrec : default zero_record (st_access st !! Key p)
    = (submit_all p (wd_strikeWindow w) (wd_lockAfter w) l zero_record).2).
  { rewrite Hst. destruct (decide (l = [])) as [->|Hne]; [cbn [store_all fold_left]; by rewrite Hf|].
    by rewrite store_all_lookup, lookup_insert_eq, Hf. }
  rewrite Hrec in Hg.
  assert (Htx : timed 0 (l ++ [x])) by (apply Ht; by rewrite !map_app, Hl).
  pose proof (submit_all_spec p _ _ l zero_record Hwin Hn Htl ltac:(done)) as Hs.
  pose proof (submit_all_spec p _ _ (l ++ [x]) zero_record Hwin Hn Htx ltac:(done)) as Hsx.
  rewrite submit_all_snoc in Hsx. destruct (submit_all _ _ _ _ _) as [bs r'] eqn:Eall. cbn [snd] in Hg.
  cbn [s_hash s_encoded s_now x] in Hsx. unfold recorded_at in Hsx.
  destruct (submit _ _ _ _ _ _ r') as [[strikes locked] r] eqn:Es.
  destruct (GateIngressWithContext _ _ _ _ _ _ _) as [d st']. destruct Hg as [Hst' Hd].
  destruct Hs as (Hbs & _). destruct Hsx as (Hbsx & _). split; [|split].
  - rewrite Hst'. unfold store_all at 1. rewrite fold_left_app. fold (store_all p (wd_strikeWindow w) (wd_lockAfter w) l file).
    rewrite <- Hst. cbn [fold_left]. unfold RecordBlockedSubmission, update. cbn [load_error save_error no_faults].
    rewrite Hrec. cbn [snd s_hash s_encoded s_now x]. unfold recorded_at. by rewrite Es.
  - rewrite map_app, Hds, <- Hbs, <- Hbsx. cbn [map]. do 2 f_equal. unfold is_lock. rewrite Hd.
    destruct locked; [done|]. by destruct (_ <? _).
  - apply Forall_app. split; [done|]. apply Forall_singleton. rewrite Hd. destruct locked; [done|].
    by destruct (_ <? _).
Qed.
End attack.

(** C22: an attacker who keeps sending a message is locked out, end to end.  In
    aggressive mode, when the instance's classifier rates a content critical and
    nothing fails, a principal without a record who sends it one time more than
    the threshold within the window is blocked each time, is not locked before
    the last of them, and is locked by it; from then on the store says so, and
    ingress refuses whatever the principal sends, in every mode. *)
Theorem persistent_attacker_locked_out `{Externals} `{UnicodeTables} c ms w p content meta classify file log envs :
  c_Access c = true -> Mode (Some c) ms = ControlModeAggressive -> c_Watchdog c = Some w -> wd_access w = true ->
  ClassifierForInstance w (ev_Instance meta) = Some classify -> rates_critical classify content ->
  (len content <= MaxInspectionSize)%Z -> ContentHash (normalizeBounded content).1 <> "" ->
  (0 < wd_strikeWindow w)%Z -> (0 < wd_lockAfter w)%Z -> file !! Key p = None ->
  Forall undisturbed envs -> Z.of_nat (length envs) = (wd_lockAfter w + 1)%Z ->
  StronglySorted Z.le (map recorded_at envs) ->
  (forall env env', env ∈ envs -> env' ∈ envs -> 0 < recorded_at env /\
     recorded_at env - wd_strikeWindow w < recorded_at env')%Z ->
  let '(ds, st) := gate_run c ms p content meta envs {| st_access := file; st_audit := log |} in
  Forall (fun d => Blocks (d_Action d) = true) ds /\
  map is_lock ds = repeat false (Z.to_nat (wd_lockAfter w)) ++ [true] /\
  (exists r, IsLocked no_faults p (st_access st) = Ok (true, r)) /\
  (forall ms' content' meta' env, undisturbed env ->
     Blocks (d_Action (GateIngressWithContext (Some c) ms' env p content' meta' st).1) = true).
Proof.
  intros Ha Hm Hw Hwa Hcls Hr Hlen Hh Hwin Hn Hf Hu Hk Hsorted Hwindow.
  assert (Ht : forall l, map s_now l = map recorded_at envs -> timed 0 l).
  { intros l El. apply (timed_sorted 0); rewrite El; [|done].
    apply Forall_map, Forall_forall. intros e He. destruct (Hwindow e e He He). simpl. lia. }
  destruct (gate_run_submissions c ms w p content meta classify Ha Hm Hw Hwa Hcls Hr Hlen Hwin Hn file log envs)
    as (l & Hl & Hhash & Hrun); [done..|lia|].
  destruct (gate_run c ms p content meta envs _) as [ds st]. destruct Hrun as (Hst & Hds & Hbl).
  assert (Hll : length l = length envs) by (apply (f_equal length) in Hl; by rewrite !length_map in Hl).
  assert (Hlocks : map is_lock ds = repeat false (Z.to_nat (wd_lockAfter w)) ++ [true]).
  { rewrite Hds. eapply repeats_lock_last; [done|lia|exact Hh|done|by rewrite Hl|].
    rewrite Hl. intros t t' (e & -> & He)%list_elem_of_fmap (e' & -> & He')%list_elem_of_fmap.
    by apply Hwindow. }
  assert (Hlocked : exists r, IsLocked no_faults p (st_access st) = Ok (true, r)).
  { rewrite Hst. destruct (store_all_locked w p Hwin Hn file l Hf (Ht l Hl)) as [r ->].
    exists r. rewrite bool_decide_eq_true_2; [done|]. rewrite <- Hds, Hlocks. apply elem_of_app. right. by left. }
  split; [done|]. split; [done|]. split; [done|]. intros ms' content' meta' env (Hc & _).
  unfold GateIngressWithContext. rewrite Ha, Hc. cbn [negb]. by destruct Hlocked as [r ->].
Qed.

(** * A run *)

#[local] Existing Instance sample_externals.
#[local] Existing Instance ascii_tables.
#[local] Existing Instance ascii_case.

Definition sample_controller : Controller := {|
  c_Access := true; c_Audit := Some 2%Z; c_Watchdog := Some sample_watchdog; c_mode := Some 1%positive |}.
Definition aggressive : gmap positive ControlMode := {[1%positive := ControlModeAggressive]}.
Definition gate_at (t : Z) : gate_env := {| ge_check := no_faults; ge_eval := at_time t |}.

Lemma sample_critical : rates_critical rm_classifier "rm -rf /".
Proof.
  intros i Hc Hn. assert (En : (normalizeBounded "rm -rf /").1 = "rm -rf /") by by vm_compute.
  rewrite En in Hn. rewrite !elem_of_cons, elem_of_nil in Hn.
  assert (E : ci_Normalized i = "rm -rf /") by (destruct Hn as [?|[?|[]]]; done).
  unfold rm_classifier. rewrite E. eexists. split; [by vm_compute|done].
Qed.

Lemma persistent_attacker_locked_out_witness :
  let '(ds, st) := gate_run sample_controller aggressive eve "rm -rf /" no_event (map gate_at [1; 2; 3; 4]%Z)
                     no_stores in
  map is_lock ds = [false; false; false; true] /\
  Blocks (d_Action (GateIngressWithContext (Some sample_controller) ∅ (gate_at 9) eve "hello" no_event st).1) = true.
Proof.
  assert (Hlen : (len "rm -rf /" <= MaxInspectionSize)%Z) by (by vm_compute).
  assert (Hhash : ContentHash (normalizeBounded "rm -rf /").1 <> "") by (by vm_compute).
  assert (Hcls : ClassifierForInstance sample_watchdog (ev_Instance no_event) = Some rm_classifier) by done.
  assert (Hmode : Mode (Some sample_controller) aggressive = ControlModeAggressive) by (by vm_compute).
  assert (Hu : Forall undisturbed (map gate_at [1; 2; 3; 4]%Z)).
  { repeat (constructor; [done|]). constructor. }
  assert (Hs : StronglySorted Z.le (map recorded_at (map gate_at [1; 2; 3; 4]%Z))).
  { repeat constructor; unfold recorded_at; simpl; lia. }
  assert (Hw : forall e e', e ∈ map gate_at [1; 2; 3; 4]%Z -> e' ∈ map gate_at [1; 2; 3; 4]%Z ->
    (0 < recorded_at e /\ recorded_at e - wd_strikeWindow sample_watchdog < recorded_at e')%Z).
  { intros e e' (t & -> & Ht)%list_elem_of_fmap (t' & -> & Ht')%list_elem_of_fmap.
    change (0 < t /\ t - 15 * (60 * 10 ^ 9) < t')%Z. set_unfold in Ht. set_unfold in Ht'. lia. }
  pose proof (fun c1 c2 c3 c4 c5 c6 => persistent_attacker_locked_out sample_controller aggressive sample_watchdog eve
    "rm -rf /" no_event rm_classifier ∅ "" (map gate_at [1; 2; 3; 4]%Z) c1 Hmode c2 c3 Hcls sample_critical Hlen Hhash
    c4 c5 c6 Hu) as Hp.
  specialize (Hp eq_refl eq_refl eq_refl eq_refl eq_refl (lookup_empty _) eq_refl Hs Hw).
  change {| st_access := ∅; st_audit := "" |} with no_stores in Hp.
  destruct (gate_run _ _ _ _ _ _ _) as [ds st]. destruct Hp as (_ & Hl & _ & Hb).
  split; [exact Hl|]. by apply Hb.
Defined.

Lemma locked_out_everywhere_witness :
  Blocks (d_Action (GateIngressWithContext (Some sample_controller) ∅ (gate_at 9) eve "hello" no_event
    {| st_access := (Access.Lock no_faults eve "spam" 5 ∅).2; st_audit := "" |}).1) = true.
Proof.
  assert (Hl : exists r, IsLocked no_faults eve (Access.Lock no_faults eve "spam" 5 ∅).2 = Ok (true, r)).
  { eexists. by vm_compute. }
  destruct (locked_out_everywhere sample_controller ∅ (gate_at 9) eve
    {| st_access := (Access.Lock no_faults eve "spam" 5 ∅).2; st_audit := "" |} (or_intror Hl)) as (_ & Hg & _).
  specialize (Hg "hello" no_event). destruct (GateIngressWithContext _ _ _ _ _ _ _) as [d st']. apply Hg.
Defined.
