(* ===== verification/Brain.v ===== *)
(** Long-term memories: [internal/memory/models.go], [store.go], [reader.go] and
    the filter of [gateway.go].

    A private store keeps the memories of all users in one file, which every
    operation loads and saves under the store's mutex.  The file is not replaced
    atomically: a write that fails may leave anything.  A reflection merges
    memories and drops outdated ones; the merged ones are archived. *)

From S2P Require Import Prelude GoStrings SessionKey SummaryStore SessionState Barrier.

Local Open Scope string_scope.
Local Open Scope list_scope.

(** * Memories *)

Definition VisibilityPrivate : string := "private".
Definition VisibilityPublic : string := "public".
Definition ScopePrivate : string := "private".
Definition ScopeGroup : string := "group".
Definition GroupOwnerExplicit : string := "group".
Definition SourceMediaImage : string := "image".
Definition SourceExtract : string := "extract".
Definition SourceManual : string := "manual".
Definition SourceReflect : string := "reflect".
Definition SourceCompact : string := "compact".
Definition SourceDistill : string := "distill".

Record MemoryEntry := {
  me_ID : string;
  me_Owner : string;
  me_OwnerType : string;
  me_ScopeType : string;
  me_GroupID : string;
  me_Content : string;
  me_SummaryNeedsRefresh : bool;
  me_Summary : string;
  me_Evidence : string;
  me_SourceMedia : string;
  me_SourceMessageID : string;
  me_SourceSenderID : string;
  me_Tags : list string;
  me_Source : string;
  me_Visibility : string;
  me_CreatedAt : Z;
  me_UpdatedAt : Z;
  me_AccessCount : Z;
  me_MergedFrom : list string;
}.
#[export] Instance MemoryEntry_eq_dec : EqDecision MemoryEntry.
Proof. solve_decision. Defined.

Record MemoryMergeArchive := {
  ar_MergedID : string;
  ar_Owner : string;
  ar_Sources : list MemoryEntry;
  ar_MergedAt : Z;
}.

Record BrainData := { Entries : list MemoryEntry; MergeArchives : list MemoryMergeArchive }.

(** Setters. *)
Definition with_owner (owner ownerType : string) (e : MemoryEntry) : MemoryEntry := {|
  me_ID := me_ID e; me_Owner := owner; me_OwnerType := ownerType; me_ScopeType := me_ScopeType e; me_GroupID := me_GroupID e;
  me_Content := me_Content e; me_SummaryNeedsRefresh := me_SummaryNeedsRefresh e; me_Summary := me_Summary e;
  me_Evidence := me_Evidence e; me_SourceMedia := me_SourceMedia e; me_SourceMessageID := me_SourceMessageID e;
  me_SourceSenderID := me_SourceSenderID e; me_Tags := me_Tags e; me_Source := me_Source e; me_Visibility := me_Visibility e;
  me_CreatedAt := me_CreatedAt e; me_UpdatedAt := me_UpdatedAt e; me_AccessCount := me_AccessCount e; me_MergedFrom := me_MergedFrom e |}.
Definition owned_by (owner : string) (e : MemoryEntry) : MemoryEntry := with_owner owner (me_OwnerType e) e.

Definition accessed (now : Z) (e : MemoryEntry) : MemoryEntry := {|
  me_ID := me_ID e; me_Owner := me_Owner e; me_OwnerType := me_OwnerType e; me_ScopeType := me_ScopeType e; me_GroupID := me_GroupID e;
  me_Content := me_Content e; me_SummaryNeedsRefresh := me_SummaryNeedsRefresh e; me_Summary := me_Summary e;
  me_Evidence := me_Evidence e; me_SourceMedia := me_SourceMedia e; me_SourceMessageID := me_SourceMessageID e;
  me_SourceSenderID := me_SourceSenderID e; me_Tags := me_Tags e; me_Source := me_Source e; me_Visibility := me_Visibility e;
  me_CreatedAt := me_CreatedAt e; me_UpdatedAt := now; me_AccessCount := i64 (me_AccessCount e + 1); me_MergedFrom := me_MergedFrom e |}.

(** * The file *)

Inductive brain_file :=
  | BrainMissing
  | BrainUnreadable (e : error)
  | BrainMalformed (e : error)
  | BrainDecoded (b : BrainData).

Definition on_entries (f : list MemoryEntry -> list MemoryEntry) (b : BrainData) : BrainData :=
  {| Entries := f (Entries b); MergeArchives := MergeArchives b |}.

Definition load (f : brain_file) : res error BrainData :=
  match f with
  | BrainMissing => Ok {| Entries := []; MergeArchives := [] |}
  | BrainUnreadable e => Err ("failed to read brain: " +:+ e)
  | BrainMalformed e => Err ("failed to parse brain: " +:+ e)
  | BrainDecoded b => Ok (on_entries (map (fun e => owned_by (CanonicalOwner (me_Owner e)) e)) b)
  end.

(** A failing write: its error, and what it leaves of the file. *)
Definition write_fault : Type := option (error * brain_file).

Definition save (fault : write_fault) (b : BrainData) (f : brain_file) : option error * brain_file :=
  match fault with
  | Some (e, rest) => (Some e, rest)
  | None => (None, BrainDecoded b)
  end.

(** * Saving *)

Definition ErrConditionFailed : error := "save condition check failed".

(** An entry as it is stored. *)
Definition stamped (now : Z) (e : MemoryEntry) : MemoryEntry := {|
  me_ID := me_ID e; me_Owner := CanonicalOwner (me_Owner e);
  me_OwnerType := if decide (me_OwnerType e = "") then "user" else me_OwnerType e;
  me_ScopeType := me_ScopeType e; me_GroupID := me_GroupID e;
  me_Content := me_Content e; me_SummaryNeedsRefresh := me_SummaryNeedsRefresh e; me_Summary := me_Summary e;
  me_Evidence := me_Evidence e; me_SourceMedia := me_SourceMedia e; me_SourceMessageID := me_SourceMessageID e;
  me_SourceSenderID := me_SourceSenderID e; me_Tags := me_Tags e; me_Source := me_Source e;
  me_Visibility := if decide (me_Visibility e = "") then VisibilityPrivate else me_Visibility e;
  me_CreatedAt := if time_is_zero (me_CreatedAt e) then now else me_CreatedAt e; me_UpdatedAt := now;
  me_AccessCount := me_AccessCount e; me_MergedFrom := me_MergedFrom e |}.

(** What a save finds: is the context over, what the validator says, the epoch
    of the barrier's session, the time. *)
Record save_env := { sv_cancelled : bool; sv_validator : option bool; sv_epoch : Z; sv_now : Z; sv_fault : write_fault }.

Section save.
Context `{CommitBarrier B}.

Definition append_entries (env : save_env) (entries : list MemoryEntry) (f : brain_file) : option error * brain_file :=
  match load f with
  | Err e => (Some e, f)
  | Ok b => save (sv_fault env) (on_entries (fun l => l ++ map (stamped (sv_now env)) entries) b) f
  end.

Definition SaveEntriesConditionallyContext (env : save_env) (entries : list MemoryEntry) (barrier : option B) (f : brain_file)
    : option error * option B * brain_file :=
  if bool_decide (entries = []) then (None, barrier, f) else
  if sv_cancelled env then (Some ErrConditionFailed, barrier, f) else
  if bool_decide (sv_validator env = Some false) then (Some ErrConditionFailed, barrier, f) else
  match barrier with
  | None => let '(r, f) := append_entries env entries f in (r, None, f)
  | Some b =>
      let '(begun, b) := TryBeginCommit (sv_epoch env) b in
      if negb begun then (Some ErrConditionFailed, Some b, f) else
      let '(r, f) := append_entries env entries f in (r, Some (EndCommit (sv_epoch env) b), f)
  end.
End save.

(** * Searching *)

Section search.
Context `{UnicodeCase}.

Definition matchEntry (queryLower : string) (e : MemoryEntry) : bool :=
  Contains (ToLower (me_Content e)) queryLower || existsb (fun tag => Contains (ToLower tag) queryLower) (me_Tags e).

(** At most [limit] of a list, all when it is not positive. *)
Definition limited {A} (limit : Z) (l : list A) : list A :=
  if (limit <=? 0)%Z then l else take (Z.to_nat limit) l.

Definition found_in (query : string) (limit : Z) (l : list MemoryEntry) : list MemoryEntry :=
  limited limit (filter (fun e => matchEntry (ToLower query) e = true) l).

Definition Search (query : string) (limit : Z) (f : brain_file) : res error (list MemoryEntry) :=
  match load f with
  | Err e => Err e
  | Ok b => Ok (found_in query limit (Entries b))
  end.

(** The best a search term does among the tags: an exact match ends the search. *)
Fixpoint tag_score (stLower : string) (score : Z) (tags : list string) : Z :=
  match tags with
  | [] => score
  | et :: tags =>
      let tagLower := ToLower (TrimSpace et) in
      if bool_decide (tagLower = stLower) then 3 else
      tag_score stLower (if (score <? 2)%Z && Contains tagLower stLower then 2 else score) tags
  end.

Definition term_score (e : MemoryEntry) (st : string) : Z :=
  let stLower := ToLower (TrimSpace st) in
  if bool_decide (stLower = "") then 0 else
  let score := tag_score stLower 0 (me_Tags e) in
  if (score =? 0)%Z && Contains (ToLower (me_Content e)) stLower then 1 else score.

Definition tagMatchScore (e : MemoryEntry) (searchTags : list string) : Z :=
  fold_left (fun score st => score + term_score e st)%Z searchTags 0%Z.

Definition ranked_in (tags : list string) (limit : Z) (l : list MemoryEntry) : list MemoryEntry :=
  let scored := filter (fun es => (0 < es.2)%Z) (map (fun e => (e, tagMatchScore e tags)) l) in
  limited limit (map fst (sort_stable (fun x y => (y.2 <? x.2)%Z) scored)).

Definition SearchByTags (tags : list string) (limit : Z) (f : brain_file) : res error (list MemoryEntry) :=
  match load f with
  | Err e => Err e
  | Ok b => Ok (ranked_in tags limit (Entries b))
  end.

(** ** Recall *)

Definition FilterPrivate (currentUser : string) (l : list MemoryEntry) : list MemoryEntry :=
  filter (fun e => me_Source e <> SourceCompact /\ OwnersMatch (me_Owner e) currentUser = true) l.

Definition Limit (limit : Z) (l : list MemoryEntry) : list MemoryEntry :=
  if (limit <=? 0)%Z || (Z.of_nat (length l) <=? limit)%Z then l else take (Z.to_nat limit) l.
End search.

Definition ListByOwner (owner : string) (f : brain_file) : res error (list MemoryEntry) :=
  match load f with
  | Err e => Err e
  | Ok b => Ok (filter (fun e => OwnersMatch (me_Owner e) owner = true) (Entries b))
  end.

Definition ListAll (f : brain_file) : res error (list MemoryEntry) :=
  match load f with Err e => Err e | Ok b => Ok (Entries b) end.

Definition ListMergeArchives (f : brain_file) : res error (list MemoryMergeArchive) :=
  match load f with Err e => Err e | Ok b => Ok (MergeArchives b) end.

(** * Editing *)

Definition not_found (id : string) : error := "memory " +:+ id +:+ " not found".

(** The first entry of an ID, removed or replaced; [None] when there is none. *)
Fixpoint edit_first (id : string) (edit : MemoryEntry -> list MemoryEntry) (l : list MemoryEntry) : option (list MemoryEntry) :=
  match l with
  | [] => None
  | e :: l => if bool_decide (me_ID e = id) then Some (edit e ++ l) else cons e <$> edit_first id edit l
  end.

Definition edit_file (fault : write_fault) (id : string) (edit : MemoryEntry -> list MemoryEntry) (f : brain_file)
    : option error * brain_file :=
  match load f with
  | Err e => (Some e, f)
  | Ok b =>
      match edit_first id edit (Entries b) with
      | None => (Some (not_found id), f)
      | Some l => save fault (on_entries (fun _ => l) b) f
      end
  end.

Definition Delete (fault : write_fault) (id : string) : brain_file -> option error * brain_file :=
  edit_file fault id (fun _ => []).

(** The editable fields are the content and the tags. *)
Definition updated (refresh : bool) (now : Z) (u e : MemoryEntry) : MemoryEntry :=
  let changed := negb (bool_decide (me_Content u = me_Content e)) in {|
  me_ID := me_ID u; me_Owner := me_Owner e; me_OwnerType := me_OwnerType e; me_ScopeType := me_ScopeType e; me_GroupID := me_GroupID e;
  me_Content := me_Content u;
  me_SummaryNeedsRefresh := if changed then true else me_SummaryNeedsRefresh e;
  me_Summary := if changed && refresh then "" else me_Summary e;
  me_Evidence := me_Evidence e; me_SourceMedia := me_SourceMedia e; me_SourceMessageID := me_SourceMessageID e;
  me_SourceSenderID := me_SourceSenderID e; me_Tags := me_Tags u; me_Source := me_Source e; me_Visibility := me_Visibility e;
  me_CreatedAt := me_CreatedAt e; me_UpdatedAt := now; me_AccessCount := me_AccessCount e; me_MergedFrom := me_MergedFrom e |}.

Definition UpdateEntry (refreshEditedSummaries : bool) (fault : write_fault) (now : Z) (u : MemoryEntry)
    : brain_file -> option error * brain_file :=
  edit_file fault (me_ID u) (fun e => [updated refreshEditedSummaries now u e]).

Definition IncrementAccessCount (fault : write_fault) (now : Z) (memoryIDs : list string) (f : brain_file) : option error * brain_file :=
  if bool_decide (memoryIDs = []) then (None, f) else
  match load f with
  | Err e => (Some e, f)
  | Ok b =>
      let targets := filter (fun id => id <> "") memoryIDs in
      if negb (existsb (fun e => bool_decide (me_ID e ∈ targets)) (Entries b)) then (None, f) else
      save fault (on_entries (map (fun e => if decide (me_ID e ∈ targets) then accessed now e else e)) b) f
  end.

Definition RecordRecall (fault : write_fault) (now : Z) (l : list MemoryEntry) : brain_file -> option error * brain_file :=
  IncrementAccessCount fault now (filter (fun id => id <> "") (map me_ID l)).

(** ** Import

    [existing] are the identifiers before the import: it is not extended. *)
Fixpoint import_entries (overwrite : bool) (existing : gset string) (l : list MemoryEntry) (imported skipped : nat) (entries : list MemoryEntry)
    : list MemoryEntry * nat * nat :=
  match entries with
  | [] => (l, imported, skipped)
  | e :: entries =>
      if decide (me_ID e ∈ existing) then
        if overwrite then
          match edit_first (me_ID e) (fun _ => [e]) l with
          | Some l => import_entries overwrite existing l (S imported) skipped entries
          | None => import_entries overwrite existing l imported skipped entries
          end
        else import_entries overwrite existing l imported (S skipped) entries
      else import_entries overwrite existing (l ++ [e]) (S imported) skipped entries
  end.

Definition importDataLocked (fault : write_fault) (entries : list MemoryEntry) (overwrite : bool) (f : brain_file)
    : res error (nat * nat) * brain_file :=
  match load f with
  | Err e => (Err ("load brain: " +:+ e), f)
  | Ok b =>
      let '(l, imported, skipped) := import_entries overwrite (list_to_set (map me_ID (Entries b))) (Entries b) 0 0 entries in
      let '(r, f) := save fault (on_entries (fun _ => l) b) f in
      (match r with Some e => Err ("save after import: " +:+ e) | None => Ok (imported, skipped) end, f)
  end.

(** * Reflection *)

Definition maxMergeSources : nat := 8.
Definition maxMergedContent : nat := 1200.
Definition maxMergedTags : nat := 8.

Record validatedMerge := { vm_Sources : list MemoryEntry; vm_Content : string; vm_Tags : list string }.

Definition sameMergeSource (current snapshot : MemoryEntry) : bool :=
  bool_decide (me_ID current = me_ID snapshot) && OwnersMatch (me_Owner current) (me_Owner snapshot) &&
  bool_decide (me_Content current = me_Content snapshot /\ me_Tags current = me_Tags snapshot /\
               me_Source current = me_Source snapshot /\ me_SourceMedia current = me_SourceMedia snapshot /\
               me_Visibility current = me_Visibility snapshot /\ me_CreatedAt current = me_CreatedAt snapshot /\
               me_UpdatedAt current = me_UpdatedAt snapshot /\ me_AccessCount current = me_AccessCount snapshot /\
               me_MergedFrom current = me_MergedFrom snapshot).

Definition buildMergedEntry (id owner : string) (m : validatedMerge) (sources : list MemoryEntry) (now : Z) : MemoryEntry := {|
  me_ID := id; me_Owner := owner; me_OwnerType := ""; me_ScopeType := ""; me_GroupID := "";
  me_Content := vm_Content m; me_SummaryNeedsRefresh := false; me_Summary := ""; me_Evidence := "";
  me_SourceMedia := if existsb (fun s => bool_decide (me_SourceMedia s = SourceMediaImage)) sources then SourceMediaImage else "";
  me_SourceMessageID := ""; me_SourceSenderID := ""; me_Tags := vm_Tags m; me_Source := SourceReflect;
  me_Visibility := if forallb (fun s => bool_decide (me_Visibility s = VisibilityPublic)) sources then VisibilityPublic else VisibilityPrivate;
  me_CreatedAt := now; me_UpdatedAt := now;
  me_AccessCount := fold_left (fun c s => Z.max c (me_AccessCount s)) sources 0%Z;
  me_MergedFrom := sort_stable string_less (map me_ID sources) |}.

(** What the loop over the proposed merges carries; the identifiers that the
    generator will give. *)
Record cycle := {
  cy_existing : gset string;
  cy_consumed : gset string;
  cy_merged : list MemoryEntry;
  cy_archives : list MemoryMergeArchive;
  cy_ids : list string;
}.

(** Until an identifier is new; [None] if the generator gives no new one. *)
Fixpoint fresh_id (existing : gset string) (ids : list string) : option (string * list string) :=
  match ids with
  | [] => None
  | id :: ids => if decide (id ∈ existing) then fresh_id existing ids else Some (id, ids)
  end.

Definition well_shaped (m : validatedMerge) : bool :=
  negb ((length (vm_Sources m) <? 2)%nat || (maxMergeSources <? length (vm_Sources m))%nat ||
        bool_decide (TrimSpace (vm_Content m) = "") || (maxMergedContent <? rune_count (vm_Content m))%nat ||
        bool_decide (vm_Tags m = []) || (maxMergedTags <? length (vm_Tags m))%nat).

(** The entries by identifier, the last one of each. *)
Definition by_id (l : list MemoryEntry) : gmap string MemoryEntry := fold_left (fun m e => <[me_ID e := e]> m) l ∅.

Inductive fate := Kept (e : MemoryEntry) | Merged | Outdated.

(** The two stores differ in which entries a reflection is about, in what it does
    to those it keeps, and in the owner and scope of a merged entry. *)
Section reflection.
Context (mine : MemoryEntry -> bool) (settle : MemoryEntry -> MemoryEntry).
Context (owner_of : list MemoryEntry -> string) (scoped : MemoryEntry -> MemoryEntry).

(** The sources as they are now, if they are as they were in the snapshot. *)
Fixpoint current_sources (current : gmap string MemoryEntry) (consumed seen : gset string) (l : list MemoryEntry)
    : option (list MemoryEntry) :=
  match l with
  | [] => Some []
  | snapshot :: l =>
      match current !! me_ID snapshot with
      | None => None
      | Some e =>
          if negb (mine e) || bool_decide (me_ID e ∈ seen) || bool_decide (me_ID e ∈ consumed) || negb (sameMergeSource e snapshot)
          then None else cons e <$> current_sources current consumed ({[me_ID e]} ∪ seen) l
      end
  end.

Definition merge_step (now : Z) (current : gmap string MemoryEntry) (cy : cycle) (m : validatedMerge) : option cycle :=
  if negb (well_shaped m) then Some cy else
  match current_sources current (cy_consumed cy) ∅ (vm_Sources m) with
  | None => Some cy
  | Some sources =>
      match fresh_id (cy_existing cy) (cy_ids cy) with
      | None => None
      | Some (id, ids) =>
          let owner := owner_of sources in
          Some {| cy_existing := {[id]} ∪ cy_existing cy;
                  cy_consumed := list_to_set (map me_ID sources) ∪ cy_consumed cy;
                  cy_merged := cy_merged cy ++ [scoped (buildMergedEntry id owner m sources now)];
                  cy_archives := cy_archives cy ++ [{| ar_MergedID := id; ar_Owner := owner; ar_Sources := sources; ar_MergedAt := now |}];
                  cy_ids := ids |}
      end
  end.

Fixpoint merge_all (now : Z) (current : gmap string MemoryEntry) (cy : cycle) (l : list validatedMerge) : option cycle :=
  match l with
  | [] => Some cy
  | m :: l => match merge_step now current cy m with Some cy => merge_all now current cy l | None => None end
  end.

Definition unmodified (snapshots : option (gmap string MemoryEntry)) (e : MemoryEntry) : bool :=
  match snapshots with
  | None => true
  | Some s => match s !! me_ID e with Some snap => sameMergeSource e snap | None => false end
  end.

Definition fate_of (consumed outdated : gset string) (snapshots : option (gmap string MemoryEntry)) (e : MemoryEntry) : fate :=
  if negb (mine e) then Kept e else
  if decide (me_ID e ∈ consumed) then Merged else
  if decide (me_ID e ∈ outdated) then (if unmodified snapshots e then Outdated else Kept (settle e)) else
  Kept (settle e).

(** No source of a merge is outdated. *)
Definition outdated_set (merges : list validatedMerge) (outdatedIDs : list string) : gset string :=
  list_to_set outdatedIDs ∖ list_to_set (map me_ID (concat (map vm_Sources merges))).

(** What becomes of a brain, with the cycle and each entry's fate. *)
Definition reflect_brain (merges : list validatedMerge) (outdatedIDs : list string)
    (snapshots : option (gmap string MemoryEntry)) (now : Z) (ids : list string) (b : BrainData)
    : option (BrainData * cycle * list fate) :=
  cy ← merge_all now (by_id (Entries b))
    {| cy_existing := list_to_set (map me_ID (Entries b)); cy_consumed := ∅; cy_merged := []; cy_archives := []; cy_ids := ids |} merges;
  let fates := map (fate_of (cy_consumed cy) (outdated_set merges outdatedIDs) snapshots) (Entries b) in
  Some ({| Entries := omap (fun f => match f with Kept e => Some e | _ => None end) fates ++ cy_merged cy;
           MergeArchives := MergeArchives b ++ cy_archives cy |}, cy, fates).
End reflection.

Record reflectionApplyResult := {
  Remaining : list MemoryEntry;
  RemovedIDs : list string;
  OutdatedIDs : list string;
  MergedEntries : list MemoryEntry;
  MergedSourceCount : nat;
}.

(** The identifiers of the entries that were not kept, or only of the outdated. *)
Definition dropped_ids (outdated_only : bool) (fates : list fate) (l : list MemoryEntry) : list string :=
  omap (fun fe => match fe.1 with
                  | Kept _ => None
                  | Merged => if outdated_only then None else Some (me_ID fe.2)
                  | Outdated => Some (me_ID fe.2)
                  end) (combine fates l).

(** [None] when the generator of identifiers repeats itself forever. *)
Definition applyReflectionWithMerges (fault : write_fault) (owner : string) (merges : list validatedMerge) (outdatedIDs : list string)
    (snapshots : option (gmap string MemoryEntry)) (now : Z) (ids : list string) (f : brain_file)
    : option (res error reflectionApplyResult * brain_file) :=
  match load f with
  | Err e => Some (Err e, f)
  | Ok b =>
      let mine e := OwnersMatch (me_Owner e) owner in
      '(b', cy, fates) ← reflect_brain mine (owned_by (CanonicalOwner owner)) (fun _ => CanonicalOwner owner) id
        merges outdatedIDs snapshots now ids b;
      let '(r, f) := save fault b' f in
      Some (match r with
            | Some e => Err e
            | None => Ok {| Remaining := filter (fun e => mine e = true) (Entries b');
                            RemovedIDs := dropped_ids false fates (Entries b);
                            OutdatedIDs := dropped_ids true fates (Entries b);
                            MergedEntries := cy_merged cy; MergedSourceCount := size (cy_consumed cy) |}
            end, f)
  end.

(** * A reflection loses nothing *)

Lemma by_id_spec l e : NoDup (map me_ID l) -> (by_id l !! me_ID e = Some e <-> e ∈ l).
Proof.
  intros Hnd. split.
  - unfold by_id. enough (Hg : forall (acc : gmap string MemoryEntry),
      fold_left (fun m e => <[me_ID e := e]> m) l acc !! me_ID e = Some e -> e ∈ l \/ acc !! me_ID e = Some e).
    { intros [?|Hn]%Hg; [done|]. by rewrite lookup_empty in Hn. }
    clear Hnd. induction l as [|x l IH]; intros acc; cbn [fold_left]; [by right|]. intros [?|Hx]%IH; [left; by right|].
    destruct (decide (me_ID x = me_ID e)) as [E|E]; [|rewrite lookup_insert_ne in Hx by done; by right].
    rewrite E, lookup_insert_eq in Hx. injection Hx as ->. left. by left.
  - unfold by_id. intros He. enough (Hg : forall (acc : gmap string MemoryEntry),
      fold_left (fun m e => <[me_ID e := e]> m) l acc !! me_ID e = Some e) by done.
    induction l as [|x l IH]; intros acc; [by apply elem_of_nil in He|]. apply NoDup_cons in Hnd as [Hx Hnd]. cbn [fold_left].
    apply elem_of_cons in He as [->|He]; [|by apply IH]. clear IH.
    assert (Hout : forall l (acc : gmap string MemoryEntry), me_ID x ∉ map me_ID l ->
      fold_left (fun m e => <[me_ID e := e]> m) l acc !! me_ID x = acc !! me_ID x).
    { clear. induction l as [|y l IH]; intros acc Hx; [done|]. cbn [fold_left]. cbn in Hx. rewrite not_elem_of_cons in Hx.
      destruct Hx as [Hne Hx]. rewrite IH by done. by rewrite lookup_insert_ne by done. }
    rewrite Hout by done. by rewrite lookup_insert_eq.
Qed.

Lemma by_id_ID l id e : by_id l !! id = Some e -> me_ID e = id.
Proof.
  unfold by_id. enough (Hg : forall (acc : gmap string MemoryEntry), (forall id e, acc !! id = Some e -> me_ID e = id) ->
    fold_left (fun m e => <[me_ID e := e]> m) l acc !! id = Some e -> me_ID e = id).
  { apply Hg. intros ? ?. by rewrite lookup_empty. }
  induction l as [|x l IH]; intros acc Hacc; cbn [fold_left]; [by apply Hacc|]. apply IH. intros i y.
  destruct (decide (me_ID x = i)) as [E|E]; [rewrite E, lookup_insert_eq; by intros [= <-]|]. rewrite lookup_insert_ne by done. apply Hacc.
Qed.

Section lossless.
Context (mine : MemoryEntry -> bool) (settle : MemoryEntry -> MemoryEntry).
Context (owner_of : list MemoryEntry -> string) (scoped : MemoryEntry -> MemoryEntry).
Context (settle_ID : forall e, me_ID (settle e) = me_ID e) (scoped_ID : forall e, me_ID (scoped e) = me_ID e).
Implicit Types (e s : MemoryEntry) (m : validatedMerge) (b : BrainData).

Lemma sameMergeSource_ID s snap : sameMergeSource s snap = true -> me_ID s = me_ID snap.
Proof. unfold sameMergeSource. intros [[Hid%bool_decide_eq_true _]%andb_true_iff _]%andb_true_iff. done. Qed.

Lemma current_sources_spec current consumed seen l sources :
  current_sources mine current consumed seen l = Some sources ->
  Forall2 (fun s snap => sameMergeSource s snap = true) sources l /\ NoDup (map me_ID sources) /\
  forall s, s ∈ sources -> current !! me_ID s = Some s /\ mine s = true /\ ~ me_ID s ∈ seen /\ ~ me_ID s ∈ consumed.
Proof.
  revert seen sources. induction l as [|snap l IH]; intros seen sources; cbn [current_sources].
  { intros [= <-]. split; [constructor|]. split; [constructor|]. by intros s ?%elem_of_nil. }
  destruct (current !! me_ID snap) as [e|] eqn:Ee; [|done]. destruct (mine e) eqn:Hm; [|done]. cbn [negb orb].
  case_bool_decide as Hs; [done|]. case_bool_decide as Hc; [done|]. destruct (sameMergeSource e snap) eqn:Hsame; [|done].
  cbn [negb orb]. destruct (current_sources mine current consumed _ l) as [ss|] eqn:E; [|done]. intros [= <-].
  destruct (IH _ _ E) as (Hall & Hnd & Hss). split; [by constructor|]. split.
  - cbn. constructor; [|done]. intros (s & Hid & Hin)%list_elem_of_fmap. destruct (Hss s Hin) as (_ & _ & Hseen & _). set_solver.
  - intros s [->|Hin]%elem_of_cons; [split_and!; [by rewrite (sameMergeSource_ID _ _ Hsame)|done..]|].
    destruct (Hss s Hin) as (? & ? & ? & ?). set_solver.
Qed.

Lemma fresh_id_spec existing ids id rest : fresh_id existing ids = Some (id, rest) -> id ∉ existing.
Proof. induction ids as [|i ids IH]; cbn [fresh_id]; [done|]. case_decide; [done|]. by intros [= <- _]. Qed.

(** A merged entry and its archive. *)
Definition archived_as (now : Z) (merges : list validatedMerge) e (a : MemoryMergeArchive) : Prop := exists m, m ∈ merges /\
  well_shaped m = true /\ Forall2 (fun s snap => sameMergeSource s snap = true) (ar_Sources a) (vm_Sources m) /\
  ar_Owner a = owner_of (ar_Sources a) /\ ar_MergedAt a = now /\
  e = scoped (buildMergedEntry (ar_MergedID a) (ar_Owner a) m (ar_Sources a) now).

Record cycle_ok (now : Z) (l : list MemoryEntry) (merges : list validatedMerge) (cy : cycle) : Prop := {
  co_consumed id : id ∈ cy_consumed cy <-> exists a s, a ∈ cy_archives cy /\ s ∈ ar_Sources a /\ me_ID s = id;
  co_sources a s : a ∈ cy_archives cy -> s ∈ ar_Sources a -> s ∈ l /\ mine s = true;
  co_archives : Forall2 (archived_as now merges) (cy_merged cy) (cy_archives cy);
  co_existing : cy_existing cy = list_to_set (map me_ID l) ∪ list_to_set (map me_ID (cy_merged cy));
  co_ids : NoDup (map me_ID l) -> NoDup (map me_ID l ++ map me_ID (cy_merged cy));
  co_once : NoDup (concat (map (fun a => map me_ID (ar_Sources a)) (cy_archives cy)));
}.

Lemma merge_step_ok now l merges cy m cy' : NoDup (map me_ID l) -> cycle_ok now l merges cy -> m ∈ merges ->
  merge_step mine owner_of scoped now (by_id l) cy m = Some cy' -> cycle_ok now l merges cy'.
Proof.
  intros Hnd Hok Hm. unfold merge_step. destruct (well_shaped m) eqn:Hw; [|by intros [= <-]]. cbn [negb].
  destruct (current_sources _ _ _ _ _) as [ss|] eqn:Es; [|by intros [= <-]].
  destruct (fresh_id _ _) as [[id rest]|] eqn:Ef; [|done]. intros [= <-].
  destruct (current_sources_spec _ _ _ _ _ Es) as (Hall & Hnss & Hss). apply fresh_id_spec in Ef.
  destruct Hok as [Hcon Hsrc Harc Hex Hids Honce]. constructor; cbn [cy_consumed cy_archives cy_merged cy_existing].
  - intros i. rewrite elem_of_union, Hcon, elem_of_list_to_set, list_elem_of_fmap. setoid_rewrite elem_of_app.
    setoid_rewrite list_elem_of_singleton. split.
    + intros [(s & -> & Hs)|(a & s & Ha & Hs & <-)]; [|by eauto 10]. eexists _, s. split; [by right|]. done.
    + intros (a & s & [Ha| ->] & Hs & <-); [right; by eauto|left; by eauto].
  - intros a s. rewrite elem_of_app, list_elem_of_singleton. intros [Ha| ->] Hs; [by eapply Hsrc|]. cbn in Hs.
    destruct (Hss s Hs) as (Hcur & Hmine & _). split; [|done]. by apply by_id_spec.
  - apply Forall2_app; [done|]. constructor; [|constructor]. by exists m.
  - rewrite Hex, map_app, list_to_set_app_L. cbn. rewrite scoped_ID. cbn. set_solver.
  - intros _. rewrite map_app, app_assoc. apply NoDup_app. split; [by apply Hids|]. cbn. rewrite scoped_ID. cbn.
    split; [|apply NoDup_singleton]. intros i Hi ->%list_elem_of_singleton. apply Ef. rewrite Hex. set_solver.
  - rewrite map_app, concat_app. apply NoDup_app. split; [done|]. cbn. rewrite app_nil_r. split; [|done].
    intros i Hi (s & -> & Hs)%list_elem_of_fmap. destruct (Hss s Hs) as (_ & _ & _ & Hnc). apply Hnc, Hcon.
    apply list_elem_of_In, in_concat in Hi as (ids & Hids' & Hi). apply in_map_iff in Hids' as (a & <- & Ha).
    apply in_map_iff in Hi as (s' & Hid & Hs'). exists a, s'. split_and!; [by apply list_elem_of_In|by apply list_elem_of_In|done].
Qed.

Lemma merge_all_ok now l merges ms cy cy' : NoDup (map me_ID l) -> cycle_ok now l merges cy -> (forall m, m ∈ ms -> m ∈ merges) ->
  merge_all mine owner_of scoped now (by_id l) cy ms = Some cy' -> cycle_ok now l merges cy'.
Proof.
  intros Hnd. revert cy. induction ms as [|m ms IH]; intros cy Hok Hms; cbn [merge_all]; [by intros [= <-]|].
  destruct (merge_step _ _ _ _ _ _ _) as [cy1|] eqn:E; [|done]. apply IH.
  - eapply merge_step_ok; [done..| |exact E]. apply Hms. by left.
  - intros x Hx. apply Hms. by right.
Qed.

(** What a reflection makes of a brain. *)
Record lossless (now : Z) (merges : list validatedMerge) (outdatedIDs : list string)
    (snapshots : option (gmap string MemoryEntry)) b b' (new : list MemoryMergeArchive) : Prop := {
  ll_archives : MergeArchives b' = MergeArchives b ++ new;
  ll_entry e : e ∈ Entries b ->
    (mine e = false /\ e ∈ Entries b') \/
    (mine e = true /\ (settle e ∈ Entries b' \/ (exists a, a ∈ new /\ e ∈ ar_Sources a) \/
       (me_ID e ∈ outdatedIDs /\ unmodified snapshots e = true)));
  ll_archive a : a ∈ new -> (exists x, x ∈ Entries b' /\ archived_as now merges x a) /\
    forall s, s ∈ ar_Sources a -> s ∈ Entries b /\ mine s = true /\ forall x, x ∈ Entries b' -> me_ID x <> me_ID s;
  ll_origin x : x ∈ Entries b' -> (exists e, e ∈ Entries b /\ x = (if mine e then settle e else e)) \/
                                  exists a, a ∈ new /\ archived_as now merges x a;
  ll_ids : NoDup (map me_ID (Entries b'));
}.

Lemma NoDup_ID l x y : NoDup (map me_ID l) -> x ∈ l -> y ∈ l -> me_ID x = me_ID y -> x = y.
Proof.
  intros Hnd [i Hi]%list_elem_of_lookup [j Hj]%list_elem_of_lookup E.
  assert (i = j) as ->; [|congruence]. apply (NoDup_lookup _ _ _ (me_ID x) Hnd); apply list_lookup_fmap_Some;
    [by exists x|exists y; by rewrite E].
Qed.

Lemma NoDup_omap_ids (g : MemoryEntry -> option MemoryEntry) l : (forall e x, g e = Some x -> me_ID x = me_ID e) ->
  NoDup (map me_ID l) -> NoDup (map me_ID (omap g l)).
Proof.
  intros Hg. induction l as [|e l IH]; [done|]. cbn [map]. intros [He Hnd]%NoDup_cons. cbn. destruct (g e) as [x|] eqn:Ex; [|by apply IH].
  cbn. constructor; [|by apply IH]. intros (y & Hid & (z & Hz & Hzy)%list_elem_of_omap)%list_elem_of_fmap.
  apply He, list_elem_of_fmap. exists z. split; [|done]. rewrite <- (Hg _ _ Ex), Hid. by apply Hg.
Qed.

Lemma omap_map {A B C} (f : A -> B) (g : B -> option C) l : omap g (map f l) = omap (fun x => g (f x)) l.
Proof. induction l as [|x l IH]; [done|]. cbn. rewrite IH. done. Qed.

Theorem reflect_brain_lossless merges outdatedIDs snapshots now ids b b' cy fates : NoDup (map me_ID (Entries b)) ->
  reflect_brain mine settle owner_of scoped merges outdatedIDs snapshots now ids b = Some (b', cy, fates) ->
  lossless now merges outdatedIDs snapshots b b' (cy_archives cy).
Proof.
  intros Hnd. unfold reflect_brain. destruct (merge_all _ _ _ _ _ _ _) as [c|] eqn:Em; [|done]. cbn [mbind option_bind].
  intros [= <- <- <-].
  assert (Hok : cycle_ok now (Entries b) merges c).
  { eapply merge_all_ok; [done| |by intros m|exact Em].
    constructor; cbn [cy_consumed cy_archives cy_merged cy_existing map concat]; [set_solver|set_solver|constructor|set_solver| |constructor].
    by rewrite app_nil_r. }
  destruct Hok as [Hcon Hsrc Harc _ Hids _]. specialize (Hids Hnd).
  set (out := outdated_set merges outdatedIDs). rewrite omap_map.
  set (kept := omap _ (Entries b)).
  assert (Hkept : forall x, x ∈ kept <-> exists e, e ∈ Entries b /\ fate_of mine settle (cy_consumed c) out snapshots e = Kept x).
  { intros x. unfold kept. rewrite list_elem_of_omap. split; intros (e & He & Hx); exists e; (split; [done|]);
      destruct (fate_of _ _ _ _ _ _); naive_solver. }
  assert (Hfate : forall e x, fate_of mine settle (cy_consumed c) out snapshots e = Kept x ->
    (mine e = false /\ x = e) \/ (mine e = true /\ x = settle e /\ me_ID e ∉ cy_consumed c)).
  { intros e x. unfold fate_of. destruct (mine e); cbn [negb]; [|naive_solver]. case_decide; [done|].
    case_decide; [destruct (unmodified _ _)|]; naive_solver. }
  constructor; cbn [Entries MergeArchives]; [done|..].
  - intros e He. destruct (mine e) eqn:Hm.
    + right. split; [done|]. destruct (fate_of mine settle (cy_consumed c) out snapshots e) as [x| |] eqn:Ef.
      * left. apply elem_of_app. left. apply Hkept. exists e. split; [done|]. destruct (Hfate _ _ Ef) as [[? _]|(_ & -> & _)]; congruence.
      * right. left. unfold fate_of in Ef. rewrite Hm in Ef. cbn [negb] in Ef. case_decide as Hc; [|case_decide; [by destruct (unmodified snapshots e)|done]].
        apply Hcon in Hc as (a & s & Ha & Hs & Hid). exists a. split; [done|]. destruct (Hsrc _ _ Ha Hs) as [Hsl _].
        by rewrite (NoDup_ID _ _ _ Hnd He Hsl (eq_sym Hid)).
      * right. right. unfold fate_of in Ef. rewrite Hm in Ef. cbn [negb] in Ef. case_decide; [done|]. case_decide as Ho; [|done].
        destruct (unmodified snapshots e) eqn:Hu; [|done]. split; [|done]. unfold out, outdated_set in Ho. set_solver.
    + left. split; [done|]. apply elem_of_app. left. apply Hkept. exists e. split; [done|]. unfold fate_of. by rewrite Hm.
  - intros a Ha. split.
    + apply list_elem_of_lookup in Ha as [i Hi]. destruct (Forall2_lookup_r _ _ _ _ _ Harc Hi) as (x & Hx & Hax). exists x.
      split; [|done]. apply elem_of_app. right. by eapply list_elem_of_lookup_2.
    + intros s Hs. destruct (Hsrc _ _ Ha Hs) as [Hsl Hms]. split; [done|]. split; [done|]. intros x [Hx|Hx]%elem_of_app Hid.
      * apply Hkept in Hx as (e & He & Hf). assert (Hes : me_ID e = me_ID s).
        { rewrite <- Hid. by destruct (Hfate _ _ Hf) as [[_ ->]|(_ & -> & _)]. }
        pose proof (NoDup_ID _ _ _ Hnd He Hsl Hes) as ->. destruct (Hfate _ _ Hf) as [[? _]|(_ & _ & Hn)]; [congruence|].
        apply Hn, Hcon. by exists a, s.
      * apply NoDup_app in Hids as (_ & Hdis & _). apply (Hdis (me_ID s)); [by apply list_elem_of_fmap_2|].
        rewrite <- Hid. by apply list_elem_of_fmap_2.
  - intros x [Hx|Hx]%elem_of_app.
    + left. apply Hkept in Hx as (e & He & Hf). exists e. split; [done|]. by destruct (Hfate _ _ Hf) as [[-> ->]|(-> & -> & _)].
    + right. apply list_elem_of_lookup in Hx as [i Hi]. destruct (Forall2_lookup_l _ _ _ _ _ Harc Hi) as (a & Ha & Hax). exists a.
      split; [by eapply list_elem_of_lookup_2|done].
  - rewrite map_app. apply NoDup_app in Hids as (Hn1 & Hdis & Hn2). apply NoDup_app. split; [|split; [|done]].
    + apply NoDup_omap_ids; [|done]. intros e x Hx. destruct (fate_of _ _ _ _ _ e) as [y| |] eqn:Ef; [|done..]. injection Hx as ->.
      by destruct (Hfate _ _ Ef) as [[_ ->]|(_ & -> & _)].
    + intros i (x & -> & Hx)%list_elem_of_fmap. apply Hkept in Hx as (e & He & Hf).
      assert (me_ID x = me_ID e) as -> by (by destruct (Hfate _ _ Hf) as [[_ ->]|(_ & -> & _)]).
      apply Hdis. by apply list_elem_of_fmap_2.
Qed.
End lossless.

(** * A reflection ends *)

Section supply.
Implicit Types (existing : gset string) (ids : list string).

(** How many new identifiers the generator has to give. *)
Definition supply existing ids : nat := length (filter (fun id => id ∉ existing) ids).

Lemma supply_insert existing ids id : id ∉ ids -> supply ({[id]} ∪ existing) ids = supply existing ids.
Proof.
  unfold supply. intros Hid. f_equal. induction ids as [|i ids IH]; [done|]. rewrite not_elem_of_cons in Hid. destruct Hid as [Hne Hid].
  rewrite !filter_cons, IH by done. destruct (decide (i ∉ existing)), (decide (i ∉ {[id]} ∪ existing)); set_solver.
Qed.

Lemma fresh_id_total existing ids : NoDup ids -> 0 < supply existing ids -> exists id rest,
  fresh_id existing ids = Some (id, rest) /\ NoDup rest /\ supply existing ids <= S (supply ({[id]} ∪ existing) rest).
Proof.
  induction ids as [|i ids IH]; [by cbn; lia|]. intros [Hi Hnd]%NoDup_cons. unfold supply at 1 2. rewrite filter_cons. cbn [fresh_id].
  destruct (decide (i ∈ existing)) as [He|He].
  - rewrite decide_False by tauto. intros Hs. by apply IH.
  - rewrite decide_True by done. cbn [length]. intros _. exists i, ids. rewrite supply_insert by done. unfold supply. split_and!; [done..|lia].
Qed.

Lemma merge_all_total mine owner_of scoped now current cy merges : NoDup (cy_ids cy) ->
  length merges <= supply (cy_existing cy) (cy_ids cy) -> is_Some (merge_all mine owner_of scoped now current cy merges).
Proof.
  revert cy. induction merges as [|m merges IH]; intros cy Hnd Hs; cbn [merge_all]; [eauto|]. cbn [length] in Hs.
  unfold merge_step. destruct (negb (well_shaped m)); [apply IH; [done|lia]|].
  destruct (current_sources _ _ _ _ _); [|apply IH; [done|lia]].
  destruct (fresh_id_total (cy_existing cy) (cy_ids cy) Hnd) as (id & rest & -> & Hnd' & Hs'); [lia|].
  apply IH; cbn [cy_ids cy_existing]; [done|lia].
Qed.
End supply.

Lemma reflect_brain_total mine settle owner_of scoped merges outdatedIDs snapshots now ids b : NoDup ids ->
  length merges <= supply (list_to_set (map me_ID (Entries b))) ids ->
  is_Some (reflect_brain mine settle owner_of scoped merges outdatedIDs snapshots now ids b).
Proof.
  intros Hnd Hs. unfold reflect_brain. edestruct merge_all_total as [cy ->]; [exact Hnd|exact Hs|]. by eexists.
Qed.

(** * Saves and barriers *)

Section barriers.
Context `{CommitBarrierLaws B}.
Implicit Types (env : save_env) (f : brain_file) (b : B).

(** A save happens as a whole, between the two halves of its barrier, or not
    at all.  If it reports success the entries were appended to what the file
    said; if it reports that its condition failed the file is untouched; and if
    its barrier was aborted before, nothing is written.  A save that wrote leaves
    its barrier ended, so that an abort that waited for it goes on. *)
Theorem save_whole_or_not env entries b f r ob f' : entries <> [] ->
  SaveEntriesConditionallyContext env entries (Some b) f = (r, ob, f') ->
  (r = None -> exists d, load f = Ok d /\ f' = BrainDecoded (on_entries (fun l => l ++ map (stamped (sv_now env)) entries) d) /\
     state (core b) = barrierPending /\ aborted (core b) = false) /\
  (f' <> f -> aborted (core b) = false /\ exists x, ob = Some x /\ state (core x) <> barrierWriting) /\
  (aborted (core b) = true -> r = Some ErrConditionFailed /\ f' = f).
Proof.
  intros Hne. unfold SaveEntriesConditionallyContext. rewrite bool_decide_false by done.
  destruct (sv_cancelled env); [by intros [= <- <- <-]|]. case_bool_decide; [by intros [= <- <- <-]|].
  destruct (TryBeginCommit (sv_epoch env) b) as [[] b1] eqn:Eb; cbn [negb]; [|by intros [= <- <- <-]].
  destruct (TryBeginCommit_true _ _ _ Eb) as (Hp & Ha & Hc).
  assert (Hw : state (core (EndCommit (sv_epoch env) b1)) <> barrierWriting).
  { apply EndCommit_writing. by rewrite Hc. }
  unfold append_entries, save. destruct (load f) as [d|e] eqn:El.
  - destruct (sv_fault env) as [[e rest]|]; intros [= <- <- <-]; split_and!; try done; eauto; congruence.
  - intros [= <- <- <-]. split_and!; [done|done|congruence].
Qed.
End barriers.

(** * What a user is reminded of *)

Section recall.
Context `{UnicodeCase}.
Implicit Types (f : brain_file) (e : MemoryEntry) (user : string).

(** A memory a user may see. *)
Definition visible user e : Prop := me_Source e <> SourceCompact /\ OwnersMatch (me_Owner e) user = true.

Lemma limited_nonpositive {A} (n : Z) (l : list A) : (n <= 0)%Z -> limited n l = l.
Proof. intros Hn. unfold limited. by rewrite (proj2 (Z.leb_le _ _)). Qed.

Lemma ordered_filter {A} (less : A -> A -> bool) (P : A -> Prop) `{forall x, Decision (P x)} l : ordered less l -> ordered less (filter P l).
Proof.
  induction l as [|x l IH]; [done|]. intros [Hx Hl]. rewrite filter_cons. case_decide; [|by apply IH]. split; [|by apply IH].
  rewrite Forall_forall in *. intros y [_ Hy]%list_elem_of_filter. by apply Hx.
Qed.

Lemma ordered_map {A B} (less : A -> A -> bool) (less' : B -> B -> bool) (g : A -> B) l :
  (forall x y, x ∈ l -> y ∈ l -> less' (g x) (g y) = less x y) -> ordered less l -> ordered less' (map g l).
Proof.
  induction l as [|x l IH]; [done|]. intros Hg [Hx Hl]. split.
  - apply Forall_map. rewrite Forall_forall in *. intros y Hy. cbn. rewrite Hg by (first [by left|by right]). by apply Hx.
  - apply IH; [|done]. intros ? ? ? ?. apply Hg; by right.
Qed.

Lemma ordered_split {A} (less : A -> A -> bool) l1 l2 x y : ordered less (l1 ++ l2) -> x ∈ l1 -> y ∈ l2 -> less y x = false.
Proof.
  induction l1 as [|z l1 IH]; [by intros _ ?%elem_of_nil|]. cbn. intros [Hz Hl] [->|Hx]%elem_of_cons Hy; [|by apply IH].
  rewrite Forall_forall in Hz. apply Hz, elem_of_app. by right.
Qed.

(** A user is reminded of their own memories, the most relevant first, and
    of no one else's, however many of those match.  What the filter and the limit
    leave of a search by tags are memories of the user that match, in the order
    of their scores; and if one is left out, the limit is used up by memories of
    the user that score at least as high. *)
Theorem recall_own tags n user f found : SearchByTags tags 0 f = Ok found -> let shown := Limit n (FilterPrivate user found) in
  (forall e, e ∈ shown -> visible user e /\ (0 < tagMatchScore e tags)%Z) /\
  ordered (fun x y => (tagMatchScore y tags <? tagMatchScore x tags)%Z) shown /\
  forall e d, load f = Ok d -> e ∈ Entries d -> visible user e -> (0 < tagMatchScore e tags)%Z -> ~ e ∈ shown ->
    Z.of_nat (length shown) = n /\ forall x, x ∈ shown -> (tagMatchScore e tags <= tagMatchScore x tags)%Z.
Proof.
  intros Hf shown. subst shown. revert Hf. unfold SearchByTags, ranked_in. destruct (load f) as [d|] eqn:El; [|done].
  rewrite limited_nonpositive by lia. intros [= <-].
  set (scored := filter _ _) in *. set (sorted := sort_stable _ scored) in *.
  assert (Hin : forall e s, (e, s) ∈ sorted <-> e ∈ Entries d /\ s = tagMatchScore e tags /\ (0 < s)%Z).
  { intros e s. unfold sorted. rewrite sort_stable_perm. unfold scored. rewrite list_elem_of_filter, list_elem_of_fmap. cbn. naive_solver. }
  set (own := FilterPrivate user (map fst sorted)). set (shown := Limit n own).
  assert (Hown : forall e, e ∈ own <-> visible user e /\ e ∈ Entries d /\ (0 < tagMatchScore e tags)%Z).
  { intros e. unfold own, FilterPrivate. rewrite list_elem_of_filter, list_elem_of_fmap. fold (visible user e). split.
    - intros (Hv & [e' s] & -> & Hes). apply Hin in Hes as (? & -> & ?). done.
    - intros (Hv & He & Hs). split; [done|]. exists (e, tagMatchScore e tags). split; [done|]. by apply Hin. }
  assert (Hord : ordered (fun x y => (tagMatchScore y tags <? tagMatchScore x tags)%Z) own).
  { apply ordered_filter. apply (ordered_map (fun x y : MemoryEntry * Z => (y.2 <? x.2)%Z)).
    - intros [x sx] [y sy] (_ & -> & _)%Hin (_ & -> & _)%Hin. done.
    - apply sort_stable_ordered; intros; lia. }
  assert (Hshown : exists rest, own = shown ++ rest /\ (rest <> [] -> Z.of_nat (length shown) = n)).
  { unfold shown, Limit. destruct (Z.leb_spec n 0), (Z.leb_spec (Z.of_nat (length own)) n); cbn [orb];
      try (exists []; by rewrite app_nil_r). exists (drop (Z.to_nat n) own). rewrite take_drop. split; [done|].
    intros _. rewrite length_take. lia. }
  clearbody shown. destruct Hshown as (rest & Hsplit & Hlen). rewrite Hsplit in Hown, Hord. split_and!.
  - intros e He. destruct (proj1 (Hown e)) as (? & _ & ?); [apply elem_of_app; by left|done].
  - clear -Hord. induction shown as [|x l IH]; [done|]. destruct Hord as [Hx Hl]. split; [|by apply IH].
    rewrite Forall_app in Hx. by destruct Hx.
  - intros e d' [= <-] He Hv Hs Hout. assert (Hr : e ∈ rest).
    { destruct (proj1 (elem_of_app shown rest e) (proj2 (Hown e) (conj Hv (conj He Hs)))); [done|done]. }
    split; [apply Hlen; by intros ->; apply elem_of_nil in Hr|]. intros x Hx.
    pose proof (ordered_split _ _ _ _ _ Hord Hx Hr) as Hle. cbn in Hle. lia.
Qed.
End recall.

(** * Examples *)

Module BrainDemo.
#[local] Existing Instance ascii_case.

Definition memory (id owner content : string) (tags : list string) : MemoryEntry := {|
  me_ID := id; me_Owner := owner; me_OwnerType := "user"; me_ScopeType := ScopePrivate; me_GroupID := "";
  me_Content := content; me_SummaryNeedsRefresh := false; me_Summary := ""; me_Evidence := ""; me_SourceMedia := "";
  me_SourceMessageID := ""; me_SourceSenderID := ""; me_Tags := tags; me_Source := SourceExtract; me_Visibility := VisibilityPrivate;
  me_CreatedAt := 5; me_UpdatedAt := 5; me_AccessCount := 0; me_MergedFrom := [] |}.

Definition m1 := memory "m1" "7" "likes tea" ["tea"].
Definition m2 := memory "m2" "qq:user:7" "drinks green tea" ["green tea"; "drinks"].
Definition m3 := memory "m3" "8" "grows tea" ["tea"].
Definition brain : brain_file := BrainDecoded {| Entries := [m1; m2; m3]; MergeArchives := [] |}.

(** A user's search finds the exact tag first, and not the other user's memory. *)
Example recall_ex : match SearchByTags ["Tea"] 0 brain with Ok l => map me_ID (Limit 2 (FilterPrivate "7" l)) = ["m1"; "m2"] | Err _ => False end.
Proof. vm_compute. reflexivity. Qed.

Lemma recall_own_witness : exists found, SearchByTags ["tea"] 0 brain = Ok found /\
  (forall e, e ∈ Limit 1 (FilterPrivate "7" found) -> visible "7" e) /\ length (Limit 1 (FilterPrivate "7" found)) = 1.
Proof.
  exists [m1; m3; owned_by "7" m2]. split; [vm_compute; reflexivity|]. split; [|vm_compute; reflexivity].
  destruct (recall_own ["tea"] 1 "7" brain [m1; m3; owned_by "7" m2]) as [Hv _]; [vm_compute; reflexivity|]. intros e He. by apply Hv.
Defined.

(** An import that lists a new identifier twice stores it twice; a reflection that
    merges the second then drops both, and archives one. *)
Definition twice : brain_file := (importDataLocked None [memory "m4" "7" "has a cat" ["cat"]; memory "m4" "7" "has a dog" ["dog"]] false brain).2.
Definition pets : validatedMerge := {|
  vm_Sources := [memory "m4" "7" "has a dog" ["dog"]; m1]; vm_Content := "likes tea and has a dog"; vm_Tags := ["tea"; "dog"] |}.

Example import_twice_loses : match twice, applyReflectionWithMerges None "7" [pets] [] None 9 ["mem_1"] twice with
  | BrainDecoded b, Some (_, BrainDecoded b') =>
      map me_ID (Entries b) = ["m1"; "m2"; "m3"; "m4"; "m4"] /\ map me_Content (Entries b') = ["drinks green tea"; "grows tea"; "likes tea and has a dog"] /\
      map (fun a => map me_Content (ar_Sources a)) (MergeArchives b') = [["has a dog"; "likes tea"]]
  | _, _ => False
  end.
Proof. vm_compute. split_and!; reflexivity. Qed.

Definition calm : save_env := {| sv_cancelled := false; sv_validator := Some true; sv_epoch := 1; sv_now := 9; sv_fault := None |}.
Definition saved := SaveEntriesConditionallyContext calm [m3] (Some xb0) BrainMissing.

Lemma save_whole_or_not_witness : saved.1.1 = None /\ saved.2 <> BrainMissing /\ aborted (core xb0) = false.
Proof.
  split; [vm_compute; reflexivity|]. assert (Hw : saved.2 <> BrainMissing) by (vm_compute; discriminate). split; [done|].
  destruct (save_whole_or_not calm [m3] xb0 BrainMissing saved.1.1 saved.1.2 saved.2) as (_ & Ha & _); [done|vm_compute; reflexivity|].
  by apply Ha.
Defined.
End BrainDemo.
