(* ===== verification/Reflector.v ===== *)
(** Reflection: [internal/memory/reflector.go].

    A model reads the memories of a user (or of a group) and answers with topics,
    outdated memories and merges.  The answer is a proposal: what it may do to
    the store is decided here and in [Brain.reflect_brain]. *)

From S2P Require Import Prelude GoStrings SessionKey SummaryStore SessionState Barrier Brain Catalog.

Local Open Scope string_scope.
Local Open Scope list_scope.

Record reflectMerge := { rm_SourceIDs : list string; rm_Content : string; rm_Tags : list string }.
Record reflectMemberName := { mn_UserID : string; mn_PreferredName : string; mn_SourceIDs : list string }.
Record reflectResult := {
  rr_Topics : list MemoryTopic;
  rr_OutdatedIDs : list string;
  rr_Merges : list reflectMerge;
  rr_MemberNames : list reflectMemberName;
}.

Definition maxReflectionMerges : nat := 10.

(** * The merges of an answer *)

Section merges.
Context `{UnicodeCase}.

Definition cleanMergeTags : list string -> list string := clean_tags maxMergedTags ∅.

(** How often each known memory is named, and which are. *)
Record survey := { su_usage : gmap string nat; su_protected : gset string }.

Definition mention (id : string) (st : survey) : survey :=
  {| su_usage := <[id := S (default 0 (su_usage st !! id))]> (su_usage st); su_protected := {[id]} ∪ su_protected st |}.

(** The distinct identifiers of a proposal, and whether they are all well-formed
    and known. *)
Fixpoint survey_ids (known : gmap string MemoryEntry) (seen : gset string) (raw : list string) (st : survey)
    : list string * bool * survey :=
  match raw with
  | [] => ([], true, st)
  | rawID :: raw =>
      let id := TrimSpace rawID in
      if bool_decide (id = "") || bool_decide (id ∈ seen) then
        let '(ids, _, st) := survey_ids known seen raw st in (ids, false, st)
      else match known !! id with
           | None => let '(ids, _, st) := survey_ids known ({[id]} ∪ seen) raw st in (id :: ids, false, st)
           | Some _ => let '(ids, valid, st) := survey_ids known ({[id]} ∪ seen) raw (mention id st) in (id :: ids, valid, st)
           end
  end.

Definition survey_candidate (known : gmap string MemoryEntry) (c : reflectMerge) (st : survey) : list string * bool * survey :=
  let '(ids, valid, st) := survey_ids known ∅ (rm_SourceIDs c) st in
  (ids, valid && negb ((length ids <? 2)%nat || (maxMergeSources <? length ids)%nat), st).

Fixpoint survey_all (known : gmap string MemoryEntry) (candidates : list reflectMerge) (st : survey) : list (list string * bool) * survey :=
  match candidates with
  | [] => ([], st)
  | c :: candidates =>
      let '(ids, valid, st) := survey_candidate known c st in
      let '(l, st) := survey_all known candidates st in ((ids, valid) :: l, st)
  end.

(** The [i]-th proposal, if it is accepted. *)
Definition judge (known : gmap string MemoryEntry) (usage : gmap string nat) (requestedOutdated : gset string)
    (i : nat) (c : reflectMerge) (ids : list string) (valid : bool) : option validatedMerge :=
  let content := TrimSpace (rm_Content c) in
  let tags := cleanMergeTags (rm_Tags c) in
  if valid && (i <? maxReflectionMerges)%nat &&
     forallb (fun id => negb ((1 <? default 0 (usage !! id))%nat || bool_decide (id ∈ requestedOutdated))) ids &&
     negb (bool_decide (content = "") || (maxMergedContent <? rune_count content)%nat) &&
     negb (bool_decide (tags = []))
  then Some {| vm_Sources := omap (known !!.) ids; vm_Content := content; vm_Tags := tags |}
  else None.

Fixpoint judge_all (known : gmap string MemoryEntry) (usage : gmap string nat) (requestedOutdated : gset string)
    (i : nat) (candidates : list reflectMerge) (surveyed : list (list string * bool)) : list (option validatedMerge) :=
  match candidates, surveyed with
  | c :: candidates, (ids, valid) :: surveyed =>
      judge known usage requestedOutdated i c ids valid :: judge_all known usage requestedOutdated (S i) candidates surveyed
  | _, _ => []
  end.

Definition no_mentions : survey := {| su_usage := ∅; su_protected := ∅ |}.

Definition validateReflectionMerges (entries : list MemoryEntry) (candidates : list reflectMerge) (requestedOutdated : gset string)
    : list validatedMerge * gset string * nat :=
  let known := by_id entries in
  let '(surveyed, st) := survey_all known candidates no_mentions in
  let judged := judge_all known (su_usage st) requestedOutdated 0 candidates surveyed in
  (omap id judged, su_protected st, length (filter (fun o => o = None) judged)).

(** ** The outdated memories of an answer *)

Definition requested_outdated (allowed : gset string) (raw : list string) : gset string :=
  list_to_set (filter (fun id => id ∈ allowed) (map TrimSpace raw)).

Fixpoint outdated_ids (allowed protected seen : gset string) (raw : list string) : list string :=
  match raw with
  | [] => []
  | rawID :: raw =>
      let id := TrimSpace rawID in
      if bool_decide (id ∈ allowed) && negb (bool_decide (id ∈ protected)) && negb (bool_decide (id ∈ seen))
      then id :: outdated_ids allowed protected ({[id]} ∪ seen) raw
      else outdated_ids allowed protected seen raw
  end.
End merges.

(** * Applying an answer *)

Definition TrimPrefix (s p : string) : string := default s (CutPrefix s p).
Definition TrimSuffix (s p : string) : string :=
  match cut_prefix (rev (to_bytes p)) (rev (to_bytes s)) with Some r => of_bytes (rev r) | None => s end.

(** The code fence that models put around JSON. *)
Definition unfence (raw : string) : string :=
  TrimSpace (TrimSuffix (TrimPrefix (TrimPrefix (TrimSpace raw) "```json") "```") "```").

(** What is made of an answer about [entries]: the merges, the outdated, and
    what else the answer says. *)
Record proposal := {
  pp_merges : list validatedMerge;
  pp_outdated : list string;
  pp_requested : gset string;
  pp_snapshots : gmap string MemoryEntry;
  pp_result : reflectResult;
}.

Section apply.
Context `{UnicodeCase} `{MapOrder} (Unmarshal : string -> res error reflectResult).

Definition read_answer (entries : list MemoryEntry) (raw : string) : res error proposal :=
  match Unmarshal (unfence raw) with
  | Err e => Err ("parse reflection result: " +:+ e)
  | Ok result =>
      let allowed : gset string := list_to_set (map me_ID entries) in
      let requested := requested_outdated allowed (rr_OutdatedIDs result) in
      let '(merges, protected, rejected) := validateReflectionMerges entries (rr_Merges result) requested in
      Ok {| pp_merges := merges; pp_outdated := outdated_ids allowed protected ∅ (rr_OutdatedIDs result);
            pp_requested := requested; pp_snapshots := by_id entries; pp_result := result |}
  end.

(** The files of the private memories. *)
Record memory_files := { mf_brain : brain_file; mf_catalog : catalog_file }.

(** What a reflection meets: failing writes, the time, new identifiers, and the
    order in which the catalog is visited. *)
Record reflect_env := {
  rf_brain : write_fault;
  rf_catalog : catalog_fault;
  rf_now : Z;
  rf_ids : list string;
  rf_order : nat;
}.

(** The catalog after a reflection that left [remaining] memories. *)
Definition publish_topics (env : reflect_env) (owner : string) (topics : list MemoryTopic) (remaining : list MemoryEntry) (f : catalog_file)
    : option error * catalog_file :=
  if bool_decide (remaining = []) then Catalog.Delete (rf_order env) (rf_catalog env) (rf_now env) owner f
  else Replace (rf_order env) (rf_catalog env) (rf_now env)
         {| ct_Owner := owner; ct_Topics := topics; ct_MemoryCount := Z.of_nat (length remaining); ct_GeneratedAt := rf_now env |} f.

Definition wrap (text : string) (r : option error) : option error := (fun e => text +:+ e) <$> r.

Definition applyResult (env : reflect_env) (owner : string) (entries : list MemoryEntry) (raw : string) (w : memory_files)
    : option (option error * memory_files) :=
  match read_answer entries raw with
  | Err e => Some (Some e, w)
  | Ok p =>
      '(r, f) ← applyReflectionWithMerges (rf_brain env) owner (pp_merges p) (pp_outdated p) (Some (pp_snapshots p))
                 (rf_now env) (rf_ids env) (mf_brain w);
      Some (match r with
            | Err e => (Some ("apply reflection changes: " +:+ e), {| mf_brain := f; mf_catalog := mf_catalog w |})
            | Ok applied =>
                let '(r, c) := publish_topics env owner (cleanTopics (rr_Topics (pp_result p))) (Remaining applied) (mf_catalog w) in
                (wrap (if bool_decide (Remaining applied = []) then "delete empty memory catalog: " else "save memory catalog: ") r,
                 {| mf_brain := f; mf_catalog := c |})
            end)
  end.

(** What the model answers: [Answered None] is an answer that is not a text. *)
Inductive chat_reply := Answered (content : option string) | InputTooLong | ChatFailed (e : error).

(** While the model thinks the rest of the program goes on: [meanwhile] is what
    it does to the files.  Only the errors' texts leave out the duration. *)
Definition ReflectOwner (available : bool) (Chat : string -> list MemoryEntry -> chat_reply) (meanwhile : memory_files -> memory_files)
    (env : reflect_env) (owner : string) (w : memory_files) : option (option error * memory_files) :=
  if negb available then Some (Some "LLM provider or model not configured for reflector", w) else
  let owner := CanonicalOwner owner in
  if bool_decide (owner = "") then Some (Some "owner is required", w) else
  match ListByOwner owner (mf_brain w) with
  | Err e => Some (Some ("list owner memories: " +:+ e), w)
  | Ok [] =>
      let '(r, c) := Catalog.Delete (rf_order env) (rf_catalog env) (rf_now env) owner (mf_catalog w) in
      Some (r, {| mf_brain := mf_brain w; mf_catalog := c |})
  | Ok entries =>
      let w' := meanwhile w in
      match Chat owner entries with
      | ChatFailed e => Some (Some ("call reflection LLM: " +:+ e), w')
      | InputTooLong => Some (None, w')
      | Answered None => Some (Some "unexpected reflection response type", w')
      | Answered (Some raw) => applyResult env owner entries raw w'
      end
  end.

(** All users in turn; the errors of one do not stop the others. *)
Fixpoint reflect_owners (available : bool) (Chat : string -> list MemoryEntry -> chat_reply) (meanwhile : memory_files -> memory_files)
    (env : string -> reflect_env) (owners : list string) (w : memory_files) : option (list error * memory_files) :=
  match owners with
  | [] => Some ([], w)
  | owner :: owners =>
      '(r, w) ← ReflectOwner available Chat meanwhile (env owner) owner w;
      '(errs, w) ← reflect_owners available Chat meanwhile env owners w;
      Some (match r with Some e => ("reflect owner " +:+ owner +:+ ": " +:+ e) :: errs | None => errs end, w)
  end.

Definition Reflect (available : bool) (Chat : string -> list MemoryEntry -> chat_reply) (meanwhile : memory_files -> memory_files)
    (env : string -> reflect_env) (w : memory_files) : option (list error * memory_files) :=
  if negb available then Some (["LLM provider or model not configured for reflector"], w) else
  match ListAll (mf_brain w) with
  | Err e => Some (["list memories for reflection: " +:+ e], w)
  | Ok entries =>
      let owners : gset string := list_to_set (map (fun e => CanonicalOwner (me_Owner e)) (filter (fun e => me_Owner e <> "") entries)) in
      reflect_owners available Chat meanwhile env (sort_stable string_less (elements owners)) w
  end.
End apply.

(** * What a proposal may do *)

Section proposals.
Context `{UnicodeCase}.
Implicit Types (known : gmap string MemoryEntry) (seen : gset string) (raw ids : list string) (st : survey) (c : reflectMerge).

Definition uses st id : nat := default 0 (su_usage st !! id).

Lemma uses_mention st id id' : uses (mention id st) id' = if decide (id' = id) then S (uses st id) else uses st id'.
Proof.
  unfold uses, mention. cbn. case_decide as E; [by rewrite E, lookup_insert_eq|by rewrite lookup_insert_ne].
Qed.

Record surveyed known seen raw st ids (valid : bool) st' : Prop := {
  sd_nodup : NoDup ids;
  sd_ids id : id ∈ ids <-> (id ∉ seen) /\ id <> "" /\ exists r, r ∈ raw /\ id = TrimSpace r;
  sd_valid : valid = true -> ids = map TrimSpace raw /\ forall id, id ∈ ids -> is_Some (known !! id);
  sd_protected id : id ∈ su_protected st' <-> id ∈ su_protected st \/ id ∈ ids /\ is_Some (known !! id);
  sd_uses id : is_Some (known !! id) -> uses st' id = uses st id + (if decide (id ∈ ids) then 1 else 0);
}.

Lemma survey_ids_spec known seen raw st ids valid st' :
  survey_ids known seen raw st = (ids, valid, st') -> surveyed known seen raw st ids valid st'.
Proof.
  revert seen st ids valid st'. induction raw as [|r raw IH]; intros seen st ids valid st'; cbn [survey_ids].
  { intros [= <- <- <-]. constructor; [apply NoDup_nil_2|set_solver|intros _; split; [done|set_solver]|set_solver|intros; rewrite decide_False by set_solver; lia]. }
  set (id := TrimSpace r). case_bool_decide as He; [|case_bool_decide as Hs]; cbn [orb].
  1,2: destruct (survey_ids known seen raw st) as [[ids1 v1] st1] eqn:E; intros [= <- <- <-]; destruct (IH _ _ _ _ _ E) as [Hnd Hid _ Hp Hu];
    constructor; [done| |done|done|done]; intros i; rewrite Hid; setoid_rewrite elem_of_cons; naive_solver.
  destruct (known !! id) as [e|] eqn:Ek.
  - destruct (survey_ids known _ raw _) as [[ids1 v1] st1] eqn:E. intros [= <- <- <-]. destruct (IH _ _ _ _ _ E) as [Hnd Hid Hv Hp Hu].
    constructor.
    + constructor; [|done]. rewrite Hid. set_solver.
    + intros i. rewrite elem_of_cons, Hid, elem_of_union, elem_of_singleton. setoid_rewrite elem_of_cons. destruct (decide (i = id)); naive_solver.
    + intros ->. destruct Hv as [-> Hk]; [done|]. split; [done|]. intros i [->|Hi]%elem_of_cons; [by rewrite Ek|by apply Hk].
    + intros i. rewrite Hp. unfold mention. cbn. rewrite elem_of_union, elem_of_singleton, elem_of_cons. split; [|naive_solver].
      intros [[->|?]|[? ?]]; [right|by left|by auto]. split; [by left|by rewrite Ek].
    + intros i Hi. rewrite Hu by done. rewrite uses_mention. assert (id ∉ ids1) by (rewrite Hid; set_solver).
      repeat case_decide; set_unfold; naive_solver lia.
  - destruct (survey_ids known _ raw st) as [[ids1 v1] st1] eqn:E. intros [= <- <- <-]. destruct (IH _ _ _ _ _ E) as [Hnd Hid Hv Hp Hu].
    constructor.
    + constructor; [|done]. rewrite Hid. set_solver.
    + intros i. rewrite elem_of_cons, Hid, elem_of_union, elem_of_singleton. setoid_rewrite elem_of_cons. destruct (decide (i = id)); naive_solver.
    + done.
    + intros i. rewrite Hp, elem_of_cons. split; [naive_solver|]. intros [?|[[->|?] [e Hk]]]; [by left|congruence|]. right. split; [done|by rewrite Hk].
    + intros i Hi. rewrite Hu by done. destruct Hi as [e Hi]. assert (i <> id) by congruence. repeat case_decide; set_unfold; naive_solver lia.
Qed.

(** The proposals whose identifiers are [l] name each known memory this often. *)
Definition named_in (l : list (list string * bool)) id : nat := length (filter (fun p => id ∈ p.1) l).

Lemma survey_all_spec known candidates st l st' : survey_all known candidates st = (l, st') ->
  Forall2 (fun c p => NoDup p.1 /\ (p.2 = true -> p.1 = map TrimSpace (rm_SourceIDs c) /\ 2 <= length p.1 <= maxMergeSources /\
                      forall id, id ∈ p.1 -> is_Some (known !! id))) candidates l /\
  (forall id, id ∈ su_protected st' <-> id ∈ su_protected st \/
     is_Some (known !! id) /\ id <> "" /\ exists c r, c ∈ candidates /\ r ∈ rm_SourceIDs c /\ id = TrimSpace r) /\
  (forall id, is_Some (known !! id) -> uses st' id = uses st id + named_in l id).
Proof.
  revert st l st'. induction candidates as [|c cs IH]; intros st l st'; cbn [survey_all].
  { intros [= <- <-]. split; [constructor|]. split; [set_solver|]. intros. cbn. lia. }
  unfold survey_candidate. destruct (survey_ids known ∅ (rm_SourceIDs c) st) as [[ids v] st1] eqn:E1.
  destruct (survey_all known cs st1) as [l2 st2] eqn:E2. intros [= <- <-].
  destruct (survey_ids_spec _ _ _ _ _ _ _ E1) as [Hnd Hid Hv Hp Hu]. destruct (IH _ _ _ E2) as (Hall & Hp2 & Hu2). split_and!.
  - constructor; [|done]. split; [done|]. cbn [fst snd]. intros [-> Hlen]%andb_true_iff. destruct Hv as [-> Hk]; [done|]. split; [done|]. split; [|done].
    apply negb_true_iff, orb_false_iff in Hlen as [H1%Nat.ltb_ge H2%Nat.ltb_ge]. lia.
  - intros i. rewrite Hp2, Hp, Hid. setoid_rewrite elem_of_cons. set_solver.
  - intros i Hi. rewrite Hu2, Hu by done. unfold named_in. rewrite filter_cons. cbn [fst]. case_decide; cbn [length]; lia.
Qed.

Lemma NoDup_concat_named (l : list (list string * bool)) : Forall (fun p => NoDup p.1 /\ forall id, id ∈ p.1 -> named_in l id <= 1) l ->
  NoDup (concat (map fst l)).
Proof.
  induction l as [|[ids v] l IH]; [constructor|]. intros [[Hnd Hone] Hall]%Forall_cons. cbn [map concat fst] in *. apply NoDup_app.
  split; [done|]. split.
  - intros i Hi Hin. apply list_elem_of_In, in_concat in Hin as (ids' & Hids & Hi'). apply list_elem_of_In, list_elem_of_fmap in Hids as (p & -> & Hp).
    apply list_elem_of_In in Hi'. specialize (Hone i Hi). unfold named_in in Hone. rewrite filter_cons, decide_True in Hone by done. cbn in Hone.
    assert (p ∈ filter (fun p => i ∈ p.1) l) as Hf by (by apply list_elem_of_filter). destruct (filter _ l); [by apply elem_of_nil in Hf|cbn in Hone; lia].
  - apply IH. eapply Forall_impl; [exact Hall|]. intros [ids' v'] [Hnd' Hone']. split; [done|]. intros i Hi. specialize (Hone' i Hi).
    unfold named_in in *. rewrite filter_cons in Hone'. case_decide; cbn in Hone'; lia.
Qed.

Lemma named_in_sublist l k id : l `sublist_of` k -> named_in l id <= named_in k id.
Proof.
  unfold named_in. induction 1 as [|p l k _ IH|p l k _ IH]; [done|..]; rewrite !filter_cons; case_decide; cbn [length]; lia.
Qed.

Lemma clean_tags_le limit seen tags : length (clean_tags limit seen tags) <= limit.
Proof.
  revert limit seen. induction tags as [|t tags IH]; intros [|n] seen; cbn [clean_tags length]; try lia.
  case_match; [apply IH|]. cbn [length]. specialize (IH n ({[ToLower (sanitizeTopicText t)]} ∪ seen)). lia.
Qed.

(** Proposal [c] with identifiers [p] is accepted as [m]. *)
Record accepted known (usage : gmap string nat) (requested : gset string) c (p : list string * bool) (m : validatedMerge) : Prop := {
  ac_ids : p.1 = map TrimSpace (rm_SourceIDs c);
  ac_known id : id ∈ p.1 -> is_Some (known !! id) /\ default 0 (usage !! id) <= 1 /\ id ∉ requested;
  ac_sources : vm_Sources m = omap (known !!.) p.1;
  ac_content : vm_Content m = TrimSpace (rm_Content c);
  ac_shape : 2 <= length p.1 <= maxMergeSources /\ vm_Content m <> "" /\ rune_count (vm_Content m) <= maxMergedContent /\
             1 <= length (vm_Tags m) <= maxMergedTags;
}.

Lemma judge_spec known usage requested i c p m :
  (p.2 = true -> p.1 = map TrimSpace (rm_SourceIDs c) /\ 2 <= length p.1 <= maxMergeSources /\ forall id, id ∈ p.1 -> is_Some (known !! id)) ->
  judge known usage requested i c p.1 p.2 = Some m -> i < maxReflectionMerges /\ accepted known usage requested c p m.
Proof.
  intros Hp. unfold judge. case_match eqn:E; [|done]. intros [= <-]. rewrite !andb_true_iff, !negb_true_iff in E.
  destruct E as ((((Hv & Hi) & Hids) & Hc) & Ht). apply Nat.ltb_lt in Hi. split; [done|]. destruct (Hp Hv) as (Heq & Hlen & Hk).
  apply orb_false_iff in Hc as [Hc1%bool_decide_eq_false Hc2%Nat.ltb_ge]. apply bool_decide_eq_false in Ht.
  constructor; cbn [vm_Sources vm_Content vm_Tags]; [done| |done|done|].
  - intros id Hid. split; [by apply Hk|]. rewrite forallb_forall in Hids. specialize (Hids id (proj1 (list_elem_of_In _ _) Hid)).
    apply negb_true_iff, orb_false_iff in Hids as [Hu%Nat.ltb_ge Hr%bool_decide_eq_false]. done.
  - split; [done|]. split; [done|]. split; [lia|]. split; [|apply clean_tags_le]. by destruct (cleanMergeTags (rm_Tags c)); [|cbn; lia].
Qed.

Lemma judge_all_spec known usage requested i candidates l :
  Forall2 (fun c p => NoDup p.1 /\ (p.2 = true -> p.1 = map TrimSpace (rm_SourceIDs c) /\ 2 <= length p.1 <= maxMergeSources /\
                      forall id, id ∈ p.1 -> is_Some (known !! id))) candidates l ->
  exists sub, sub `sublist_of` l /\ length sub <= maxReflectionMerges - i /\
    Forall2 (fun m p => NoDup p.1 /\ exists c, c ∈ candidates /\ accepted known usage requested c p m)
      (omap id (judge_all known usage requested i candidates l)) sub /\
    length (judge_all known usage requested i candidates l) = length candidates.
Proof.
  intros Hl. revert i. induction Hl as [|c p cs l [Hnd Hp] Hl IH]; intros i.
  { exists []. split_and!; [constructor|cbn; lia|constructor|done]. }
  destruct (IH (S i)) as (sub & Hsub & Hlen & Hall & Heq). destruct p as [ids v]. cbn [judge_all omap list_omap].
  assert (Hall' : Forall2 (fun m p => NoDup p.1 /\ exists c', c' ∈ c :: cs /\ accepted known usage requested c' p m)
    (omap id (judge_all known usage requested (S i) cs l)) sub).
  { eapply Forall2_impl; [exact Hall|]. intros m p (? & c' & ? & ?). split; [done|]. exists c'. split; [by right|done]. }
  destruct (judge known usage requested i c ids v) as [m|] eqn:E; cbn [id].
  - destruct (judge_spec known usage requested i c (ids, v) m Hp E) as [Hi Hac]. exists ((ids, v) :: sub). split_and!.
    + by constructor.
    + cbn [length]. lia.
    + constructor; [|done]. split; [done|]. exists c. split; [by left|done].
    + cbn [length]. lia.
  - exists sub. split_and!; [by constructor|lia|done|cbn [length]; lia].
Qed.

Lemma by_id_elem l id e : by_id l !! id = Some e -> e ∈ l.
Proof.
  unfold by_id. enough (Hg : forall (acc : gmap string MemoryEntry),
    fold_left (fun m e => <[me_ID e := e]> m) l acc !! id = Some e -> e ∈ l \/ acc !! id = Some e).
  { intros [?|Hn]%Hg; [done|]. by rewrite lookup_empty in Hn. }
  induction l as [|x l IH]; intros acc; cbn [fold_left]; [by right|]. intros [?|[[_ <-]|[_ ?]]%lookup_insert_Some]%IH;
    [left; by right|left; by left|by right].
Qed.

Lemma sources_IDs l ids : (forall id, id ∈ ids -> is_Some (by_id l !! id)) -> map me_ID (omap (by_id l !!.) ids) = ids.
Proof.
  induction ids as [|i ids IH]; [done|]. intros Hk. destruct (Hk i) as [e He]; [by left|]. cbn. rewrite He. cbn. f_equal; [by eapply by_id_ID|].
  apply IH. intros j Hj. apply Hk. by right.
Qed.

Lemma rejected_count (l : list (option validatedMerge)) : length (omap id l) + length (filter (fun o => o = None) l) = length l.
Proof. induction l as [|[m|] l IH]; [done|..]; cbn [omap list_omap id]; rewrite filter_cons; cbn [length]; case_decide; cbn [length]; congruence || lia. Qed.

(** What is accepted of the merges a model proposes about [entries]. *)
Record acceptable (entries : list MemoryEntry) (candidates : list reflectMerge) (requested : gset string) (merges : list validatedMerge)
    (protected : gset string) : Prop := {
  ab_count : length merges <= maxReflectionMerges;
  ab_disjoint : NoDup (concat (map (fun m => map me_ID (vm_Sources m)) merges));
  ab_merge m : m ∈ merges -> well_shaped m = true /\ (forall s, s ∈ vm_Sources m -> s ∈ entries /\ me_ID s ∉ requested) /\
    exists c, c ∈ candidates /\ vm_Content m = TrimSpace (rm_Content c) /\ map me_ID (vm_Sources m) = map TrimSpace (rm_SourceIDs c);
  ab_protected id : id ∈ protected <-> id ∈ map me_ID entries /\ id <> "" /\
    exists c r, c ∈ candidates /\ r ∈ rm_SourceIDs c /\ id = TrimSpace r;
}.

Lemma by_id_known l id : is_Some (by_id l !! id) <-> id ∈ map me_ID l.
Proof.
  rewrite list_elem_of_fmap. split.
  - intros [e He]. exists e. split; [by apply by_id_ID in He|by apply by_id_elem in He].
  - intros (e & -> & He). unfold by_id. enough (Hg : forall acc : gmap string MemoryEntry, e ∈ l \/ is_Some (acc !! me_ID e) ->
      is_Some (fold_left (fun m e => <[me_ID e := e]> m) l acc !! me_ID e)) by (apply Hg; by left).
    clear He. induction l as [|x l IH]; intros acc Hin; cbn [fold_left]; [by destruct Hin as [?%elem_of_nil|?]|]. apply IH.
    destruct Hin as [[->|?]%elem_of_cons|Hs]; [right; by rewrite lookup_insert_eq|by left|right].
    destruct (decide (me_ID x = me_ID e)) as [->|?]; [by rewrite lookup_insert_eq|by rewrite lookup_insert_ne].
Qed.

Lemma validate_acceptable entries candidates requested merges protected rejected :
  validateReflectionMerges entries candidates requested = (merges, protected, rejected) ->
  acceptable entries candidates requested merges protected /\ length merges + rejected = length candidates.
Proof.
  unfold validateReflectionMerges. destruct (survey_all (by_id entries) candidates no_mentions) as [l st] eqn:Es. intros [= <- <- <-].
  destruct (survey_all_spec _ _ _ _ _ Es) as (Hall & Hprot & Huse).
  destruct (judge_all_spec (by_id entries) (su_usage st) requested 0 candidates l Hall) as (sub & Hsub & Hlen & Hacc & Hj).
  assert (Hm : Forall2 (fun m p => map me_ID (vm_Sources m) = p.1) (omap id (judge_all (by_id entries) (su_usage st) requested 0 candidates l)) sub).
  { eapply Forall2_impl; [exact Hacc|]. intros m p (_ & c & _ & Ha). rewrite (ac_sources _ _ _ _ _ _ Ha). apply sources_IDs.
    intros i Hi. by apply (ac_known _ _ _ _ _ _ Ha). }
  split; [constructor|by rewrite rejected_count, Hj].
  - rewrite (Forall2_length _ _ _ Hm). lia.
  - replace (map _ _) with (map fst sub) by (clear -Hm; induction Hm as [|m p ms ps Hmp _ IH]; [done|]; cbn; by rewrite Hmp, IH).
    apply NoDup_concat_named. apply Forall_forall. intros p Hp. apply list_elem_of_lookup in Hp as [i Hi].
    destruct (Forall2_lookup_r _ _ _ _ _ Hacc Hi) as (m & _ & Hnd & c & _ & Ha). split; [done|]. intros id Hid.
    destruct (ac_known _ _ _ _ _ _ Ha id Hid) as (Hk & Hu & _). etransitivity; [by apply named_in_sublist|].
    specialize (Huse id Hk). unfold uses in Huse at 2. cbn in Huse. unfold uses in Huse. lia.
  - intros m [i Hi]%list_elem_of_lookup. destruct (Forall2_lookup_l _ _ _ _ _ Hacc Hi) as (p & Hpi & _ & c & Hc & Ha).
    destruct (Forall2_lookup_l _ _ _ _ _ Hm Hi) as (p' & Hpi' & Hids). assert (p' = p) as -> by congruence. destruct Ha as [Hp Hk Hs Hcon (Hl & Hne & Hrc & Ht)].
    split; [|split].
    + unfold well_shaped. apply negb_true_iff. assert (length (vm_Sources m) = length p.1) as -> by (by rewrite <- Hids, length_map).
      rewrite !orb_false_iff, !Nat.ltb_ge. split_and!; try lia; apply bool_decide_eq_false; [rewrite Hcon in *; by rewrite TrimSpace_idemp|].
      intros E. rewrite E in Ht. cbn in Ht. lia.
    + intros s Hin. rewrite Hs in Hin. apply list_elem_of_omap in Hin as (id & Hid & He). split; [by eapply by_id_elem|].
      rewrite (by_id_ID _ _ _ He). by apply Hk.
    + exists c. split_and!; [done|done|congruence].
  - intros id. rewrite Hprot. cbn [su_protected no_mentions]. rewrite by_id_known. set_solver.
Qed.
End proposals.

(** * A reflection loses nothing *)

Section nothing_lost.
Context `{UnicodeCase} `{MapOrder} (Unmarshal : string -> res error reflectResult).
Implicit Types (b : BrainData) (e s x : MemoryEntry) (w : memory_files) (env : reflect_env).

(** What a reflection about the memories [seen] of an owner, with the model's
    [answer], may make of a store.  [mine] are the owner's memories, [settle] is
    what is changed of those that stay. *)
Record kept_safe (mine : MemoryEntry -> bool) (settle : MemoryEntry -> MemoryEntry) (owner_of : list MemoryEntry -> string)
    (seen : list MemoryEntry) (answer : reflectResult) b b' (new : list MemoryMergeArchive) : Prop := {
  ks_archives : MergeArchives b' = MergeArchives b ++ new;
  ks_others e : e ∈ Entries b -> mine e = false -> e ∈ Entries b';
  ks_entry e : e ∈ Entries b -> mine e = true ->
    settle e ∈ Entries b' \/ (exists a, a ∈ new /\ e ∈ ar_Sources a) \/
    (exists s, s ∈ seen /\ sameMergeSource e s = true) /\ (exists r, r ∈ rr_OutdatedIDs answer /\ TrimSpace r = me_ID e) /\
    (me_ID e <> "" -> forall c r, c ∈ rr_Merges answer -> r ∈ rm_SourceIDs c -> TrimSpace r <> me_ID e);
  ks_archive a : a ∈ new -> exists c x, c ∈ rr_Merges answer /\ x ∈ Entries b' /\
    me_ID x = ar_MergedID a /\ me_Owner x = owner_of (ar_Sources a) /\ me_Content x = TrimSpace (rm_Content c) /\
    map me_ID (ar_Sources a) = map TrimSpace (rm_SourceIDs c) /\
    forall s, s ∈ ar_Sources a -> s ∈ Entries b /\ mine s = true /\
      (me_Visibility x = VisibilityPublic -> me_Visibility s = VisibilityPublic);
  ks_origin x : x ∈ Entries b' -> (exists e, e ∈ Entries b /\ x = if mine e then settle e else e) \/
    exists a, a ∈ new /\ me_ID x = ar_MergedID a;
  ks_ids : NoDup (map me_ID (Entries b'));
}.

(** A user's memories. *)
Definition user_kept_safe (owner : string) : list MemoryEntry -> reflectResult -> BrainData -> BrainData -> list MemoryMergeArchive -> Prop :=
  kept_safe (fun e => OwnersMatch (me_Owner e) owner) (owned_by (CanonicalOwner owner)) (fun _ => CanonicalOwner owner).

Lemma outdated_ids_spec allowed protected seen raw id : id ∈ outdated_ids allowed protected seen raw ->
  id ∈ allowed /\ (id ∉ protected) /\ exists r, r ∈ raw /\ TrimSpace r = id.
Proof.
  revert seen. induction raw as [|r raw IH]; intros seen; cbn [outdated_ids]; [by intros ?%elem_of_nil|]. case_match eqn:E.
  - rewrite !andb_true_iff, negb_true_iff, bool_decide_eq_true, bool_decide_eq_false in E. destruct E as [[? ?] _].
    intros [->|Hin]%elem_of_cons; [split_and!; try done; exists r; split; [by left|done]|].
    destruct (IH _ Hin) as (? & ? & r' & ? & ?). split_and!; try done. exists r'. split; [by right|done].
  - intros Hin. destruct (IH _ Hin) as (? & ? & r' & ? & ?). split_and!; try done. exists r'. split; [by right|done].
Qed.

(** An answer that is read. *)
Record read_ok (entries : list MemoryEntry) (raw : string) (p : proposal) : Prop := {
  ro_result : Unmarshal (unfence raw) = Ok (pp_result p);
  ro_snapshots : pp_snapshots p = by_id entries;
  ro_merges : exists requested protected, acceptable entries (rr_Merges (pp_result p)) requested (pp_merges p) protected /\
    forall id, id ∈ pp_outdated p -> id ∈ map me_ID entries /\ (id ∉ protected) /\ exists r, r ∈ rr_OutdatedIDs (pp_result p) /\ TrimSpace r = id;
}.

Lemma read_answer_ok entries raw p : read_answer Unmarshal entries raw = Ok p -> read_ok entries raw p.
Proof.
  unfold read_answer. destruct (Unmarshal (unfence raw)) as [result|] eqn:Eu; [|done].
  destruct (validateReflectionMerges _ _ _) as [[merges protected] rejected] eqn:Ev. intros [= <-]. constructor; cbn [pp_result pp_snapshots pp_merges pp_outdated]; [done|done|].
  destruct (validate_acceptable _ _ _ _ _ _ Ev) as [Hab _]. eexists _, _. split; [exact Hab|]. intros id Hid.
  destruct (outdated_ids_spec _ _ _ _ _ Hid) as (Ha & Hp & Hr). split; [set_solver|done].
Qed.

Lemma lossless_kept_safe mine settle owner_of scoped seen raw p now b b' new : read_ok seen raw p ->
  (forall e, me_ID (scoped e) = me_ID e /\ me_Owner (scoped e) = me_Owner e /\ me_Content (scoped e) = me_Content e /\
             me_Visibility (scoped e) = me_Visibility e) ->
  lossless mine settle owner_of scoped now (pp_merges p) (pp_outdated p) (Some (pp_snapshots p)) b b' new ->
  kept_safe mine settle owner_of seen (pp_result p) b b' new.
Proof.
  intros [_ Hsnap (requested & protected & Hab & Hout)] Hscoped [Harc Hent Harch Hor Hids]. constructor; [done|..|done].
  - intros e He Hm. destruct (Hent e He) as [[_ ?]|[? _]]; congruence.
  - intros e He Hm. destruct (Hent e He) as [[? _]|[_ [?|[?|[Hid Hun]]]]]; [congruence|by left|by right; left|]. right. right.
    destruct (Hout _ Hid) as (_ & Hnp & Hr). split_and!; [|done|].
    + unfold unmodified in Hun. rewrite Hsnap in Hun. destruct (by_id seen !! me_ID e) as [s|] eqn:Es; [|done].
      exists s. split; [by eapply by_id_elem|done].
    + intros Hne c r Hc Hin Heq. apply Hnp. apply (ab_protected _ _ _ _ _ Hab). split; [by apply Hout|]. split; [done|]. exists c, r. by rewrite Heq.
  - intros a Ha. destruct (Harch a Ha) as [(x & Hx & m & Hm & _ & Hsame & Howner & _ & Hbuilt) Hsrc].
    destruct (ab_merge _ _ _ _ _ Hab m Hm) as (_ & _ & c & Hc & Hcon & Hsids). exists c, x.
    destruct (Hscoped (buildMergedEntry (ar_MergedID a) (ar_Owner a) m (ar_Sources a) now)) as (Hx1 & Hx2 & Hx3 & Hx4). rewrite <- Hbuilt in Hx1, Hx2, Hx3, Hx4.
    split; [done|]. split; [done|]. split; [done|]. split; [by rewrite Hx2, <- Howner|]. split; [by rewrite Hx3|]. split.
    + rewrite <- Hsids. clear -Hsame. induction Hsame as [|s s' l k Hs _ IH]; [done|]. cbn. f_equal; [by apply sameMergeSource_ID|done].
    + intros s Hs. destruct (Hsrc s Hs) as (Hsb & Hsm & _). split; [done|]. split; [done|]. rewrite Hx4. cbn [buildMergedEntry me_Visibility].
      destruct (forallb _ _) eqn:Ef; [|done]. intros _. rewrite forallb_forall in Ef. specialize (Ef s (proj1 (list_elem_of_In _ _) Hs)).
      by apply bool_decide_eq_true in Ef.
  - intros x Hx. destruct (Hor x Hx) as [?|(a & Ha & m & _ & _ & _ & _ & _ & Hbuilt)]; [by left|right; exists a; split; [done|]].
    rewrite Hbuilt. by destruct (Hscoped (buildMergedEntry (ar_MergedID a) (ar_Owner a) m (ar_Sources a) now)) as [-> _].
Qed.

Lemma applyResult_safe env owner seen raw w r w' b : applyResult Unmarshal env owner seen raw w = Some (r, w') -> rf_brain env = None ->
  load (mf_brain w) = Ok b -> NoDup (map me_ID (Entries b)) ->
  w' = w \/ exists b' new answer, Unmarshal (unfence raw) = Ok answer /\ mf_brain w' = BrainDecoded b' /\ user_kept_safe owner seen answer b b' new.
Proof.
  unfold applyResult. intros Ha Hf Hb Hnd. destruct (read_answer _ _ _) as [p|] eqn:Er; [|injection Ha as <- <-; by left]. right.
  apply read_answer_ok in Er. unfold applyReflectionWithMerges in Ha. rewrite Hb, Hf in Ha. cbn [save] in Ha.
  destruct (reflect_brain _ _ _ _ _ _ _ _ _ _) as [[[b' cy] fates]|] eqn:Eb; [|done]. cbn [mbind option_bind] in Ha.
  destruct (publish_topics _ _ _ _ _) as [r' c]. injection Ha as _ <-. exists b', (cy_archives cy), (pp_result p).
  split; [apply (ro_result _ _ _ Er)|]. split; [done|]. unfold user_kept_safe. eapply (lossless_kept_safe _ _ _ id); [exact Er|done|].
  eapply reflect_brain_lossless; [done|done|done|exact Eb].
Qed.


(** A reflection ends: among ten new identifiers there is one for each merge
    that can be accepted, whatever the model answers, so that the search for an
    unused one always finds it. *)
Theorem reflection_ends available Chat meanwhile env owner w : NoDup (rf_ids env) ->
  (forall b, load (mf_brain (meanwhile w)) = Ok b -> maxReflectionMerges <= supply (list_to_set (map me_ID (Entries b))) (rf_ids env)) ->
  is_Some (ReflectOwner Unmarshal available Chat meanwhile env owner w).
Proof.
  intros Hnd Hs. unfold ReflectOwner. destruct (negb available); [eauto|]. case_bool_decide; [eauto|].
  destruct (ListByOwner _ _) as [[|e l]|]; [destruct (Catalog.Delete _ _ _ _ _); eauto| |eauto].
  destruct (Chat _ _) as [[raw|]| |]; try eauto. unfold applyResult. destruct (read_answer _ _ _) as [p|] eqn:Er; [|eauto].
  apply read_answer_ok in Er. destruct (ro_merges _ _ _ Er) as (requested & protected & Hab & _).
  unfold applyReflectionWithMerges. destruct (load _) as [b|]; [|cbn; eauto]. specialize (Hs b eq_refl).
  destruct (reflect_brain_total (fun e => OwnersMatch (me_Owner e) (CanonicalOwner owner)) (owned_by (CanonicalOwner (CanonicalOwner owner)))
    (fun _ => CanonicalOwner (CanonicalOwner owner)) id (pp_merges p) (pp_outdated p) (Some (pp_snapshots p)) (rf_now env) (rf_ids env) b)
    as [[[b' cy] fates] ->]; [done|pose proof (ab_count _ _ _ _ _ Hab); lia|]. cbn [mbind option_bind].
  destruct (save _ _ _) as [[err|] f]; eauto.
Qed.
End nothing_lost.

(** * Examples *)

Module ReflectorDemo.
Import Brain.BrainDemo.
#[local] Existing Instance ascii_case.
#[local] Existing Instance list_order.

(** The model merges two memories, calls a third outdated that is another
    user's, and proposes a merge of a memory it does not know. *)
Definition answer : reflectResult := {|
  rr_Topics := [{| tp_Name := "tea"; tp_Aliases := ["Tea"; "green tea"] |}];
  rr_OutdatedIDs := ["m3"; "m1"];
  rr_Merges := [{| rm_SourceIDs := [" m2"; "m4"]; rm_Content := "likes green tea "; rm_Tags := ["tea"; "Tea"; "green, tea"] |};
                {| rm_SourceIDs := ["m3"; "m4"]; rm_Content := "x"; rm_Tags := ["x"] |}];
  rr_MemberNames := [];
|}.
Definition m4 := memory "m4" "7" "likes green tea" ["green tea"].
Definition answer_ok : reflectResult := {|
  rr_Topics := rr_Topics answer; rr_OutdatedIDs := ["m3"; "m1"]; rr_Merges := take 1 (rr_Merges answer); rr_MemberNames := [] |}.
Definition files : memory_files := {| mf_brain := BrainDecoded {| Entries := [m1; m2; m3; m4]; MergeArchives := [] |}; mf_catalog := CatalogMissing |}.
Definition ids : list string := map (fun n => "mem_" +:+ pretty n) (seq 0 12).
Definition env : reflect_env := {| rf_brain := None; rf_catalog := None; rf_now := 9; rf_ids := ids; rf_order := 0 |}.
Definition reflected := default (None, files)
  (ReflectOwner (fun _ => Ok answer_ok) true (fun _ _ => Answered (Some "{}")) id env "qq:user:7" files).

(** The merge happens and is archived, the outdated memory goes, the other
    user's stays. *)
Example reflected_ex : reflected.1 = None /\
  match mf_brain reflected.2 with
  | BrainDecoded b => map me_ID (Entries b) = ["m3"; "mem_0"] /\ map (fun a => map me_ID (ar_Sources a)) (MergeArchives b) = [["m2"; "m4"]]
  | _ => False
  end.
Proof. vm_compute. split_and!; reflexivity. Qed.

(** Two proposals about one memory are both refused. *)
Example refused_ex : (validateReflectionMerges [m1; m2; m3; m4] (rr_Merges answer) ∅).1.1 = [].
Proof. vm_compute. reflexivity. Qed.


Lemma reflection_ends_witness : NoDup ids /\ 12 = length ids /\
  is_Some (ReflectOwner (fun _ => Ok answer_ok) true (fun _ _ => Answered (Some "{}")) id env "qq:user:7" files).
Proof.
  assert (Hnd : NoDup ids) by (apply (bool_decide_unpack _); vm_compute; exact I). split; [exact Hnd|]. split; [vm_compute; reflexivity|].
  apply reflection_ends; [exact Hnd|]. intros b [= <-]. apply Nat.leb_le. vm_compute. reflexivity.
Defined.
End ReflectorDemo.
