(* ===== verification/GroupBrain.v ===== *)
(** The memories of a group: [internal/memory/group_store.go], and the tags of
    [grounding.go].

    Each group has a file of its own, which is replaced atomically.  Automatic
    memories are recognised by the message they come from, so that a message
    that is read twice is remembered once, and one that is withdrawn can be
    forgotten. *)

From S2P Require Import Prelude GoStrings SessionKey SummaryStore SessionState Barrier Brain.

Local Open Scope string_scope.
Local Open Scope list_scope.

(** * The file *)

(** What is fixed of a store. *)
Record GroupStore := { gs_groupID : string; gs_platform : string; gs_refreshEditedSummaries : bool }.

Definition scoped_to (gid : string) (e : MemoryEntry) : MemoryEntry := {|
  me_ID := me_ID e; me_Owner := me_Owner e; me_OwnerType := me_OwnerType e; me_ScopeType := ScopeGroup; me_GroupID := gid;
  me_Content := me_Content e; me_SummaryNeedsRefresh := me_SummaryNeedsRefresh e; me_Summary := me_Summary e;
  me_Evidence := me_Evidence e; me_SourceMedia := me_SourceMedia e; me_SourceMessageID := me_SourceMessageID e;
  me_SourceSenderID := me_SourceSenderID e; me_Tags := me_Tags e; me_Source := me_Source e; me_Visibility := me_Visibility e;
  me_CreatedAt := me_CreatedAt e; me_UpdatedAt := me_UpdatedAt e; me_AccessCount := me_AccessCount e; me_MergedFrom := me_MergedFrom e |}.

Definition loadMemoryLocked (s : GroupStore) (f : brain_file) : res error BrainData :=
  match f with
  | BrainMissing => Ok {| Entries := []; MergeArchives := [] |}
  | BrainUnreadable e => Err ("read group memory: " +:+ e)
  | BrainMalformed e => Err ("parse group memory: " +:+ e)
  | BrainDecoded b => Ok (on_entries (map (fun e => owned_by (CanonicalOwner (me_Owner e)) (scoped_to (gs_groupID s) e))) b)
  end.

(** A temporary file is renamed: a failing write leaves the file as it is. *)
Definition saveMemoryLocked (fault : option error) (b : BrainData) (f : brain_file) : option error * brain_file :=
  match fault with Some e => (Some e, f) | None => (None, BrainDecoded b) end.

(** An operation that loads the memories, changes them and saves them. *)
Definition with_memory (s : GroupStore) (f : brain_file) (k : BrainData -> option error * brain_file) : option error * brain_file :=
  match loadMemoryLocked s f with Err e => (Some e, f) | Ok b => k b end.

Definition read_memory {A} (s : GroupStore) (f : brain_file) (k : BrainData -> A) : res error A :=
  match loadMemoryLocked s f with Err e => Err e | Ok b => Ok (k b) end.

(** * Tags *)

Definition MaxTagLength : nat := 50.
Definition MaxTagCount : nat := 10.

Fixpoint sanitize_tags (limit : nat) (seen : gset string) (tags : list string) : list string :=
  match limit, tags with
  | 0, _ | _, [] => []
  | S n, t :: tags =>
      let tTrim := TrimSpace t in
      if bool_decide (tTrim = "") then sanitize_tags limit seen tags else
      let tTrim := if (MaxTagLength <? rune_count tTrim)%nat then rune_take MaxTagLength tTrim else tTrim in
      if bool_decide (tTrim ∈ seen) then sanitize_tags limit seen tags
      else tTrim :: sanitize_tags n ({[tTrim]} ∪ seen) tags
  end.
Definition SanitizeTags : list string -> list string := sanitize_tags MaxTagCount ∅.

Fixpoint distinct_tags (seen : gset string) (tags : list string) : list string :=
  match tags with
  | [] => []
  | t :: tags =>
      let t := TrimSpace t in
      if negb (bool_decide (t = "")) && negb (bool_decide (t ∈ seen))
      then t :: distinct_tags ({[t]} ∪ seen) tags else distinct_tags seen tags
  end.
Definition mergeMemoryTags (existing incoming : list string) : list string := SanitizeTags (distinct_tags ∅ (existing ++ incoming)).

(** * Saving *)

Definition same_text (x y : string) : bool := negb (bool_decide (x = "")) && negb (bool_decide (y = "")) && bool_decide (x = y).

Definition isSameGroupMemory (existing incoming : MemoryEntry) : bool :=
  if negb (bool_decide (me_SourceMedia existing = me_SourceMedia incoming)) then false else
  if bool_decide (me_Source incoming = SourceManual) then false else
  if bool_decide (me_Source existing = SourceManual) && bool_decide (me_SourceMessageID existing = "") then false else
  if negb (bool_decide (me_SourceMessageID existing = "")) && negb (bool_decide (me_SourceMessageID incoming = "")) then
    bool_decide (me_SourceMessageID existing = me_SourceMessageID incoming) &&
    (same_text (me_Evidence existing) (me_Evidence incoming) || same_text (me_Evidence existing) (me_Content incoming) ||
     same_text (me_Content existing) (me_Evidence incoming) || same_text (me_Content existing) (me_Content incoming))
  else if bool_decide (me_SourceMessageID existing = "") && bool_decide (me_SourceMessageID incoming = "") then
    if bool_decide (me_Source existing = SourceManual) || negb (bool_decide (me_Owner existing = me_Owner incoming)) then false else
    same_text (me_Evidence existing) (me_Evidence incoming) || same_text (me_Content existing) (me_Content incoming)
  else false.

(** An entry as the group stores it. *)
Definition prepared (s : GroupStore) (now : Z) (e : MemoryEntry) : MemoryEntry := {|
  me_ID := me_ID e; me_Owner := if decide (me_Owner e = "") then GroupOwnerExplicit else CanonicalOwner (me_Owner e);
  me_OwnerType := me_OwnerType e; me_ScopeType := ScopeGroup; me_GroupID := gs_groupID s;
  me_Content := me_Content e; me_SummaryNeedsRefresh := me_SummaryNeedsRefresh e; me_Summary := me_Summary e;
  me_Evidence := me_Evidence e; me_SourceMedia := me_SourceMedia e; me_SourceMessageID := me_SourceMessageID e;
  me_SourceSenderID := me_SourceSenderID e; me_Tags := me_Tags e; me_Source := me_Source e; me_Visibility := me_Visibility e;
  me_CreatedAt := if time_is_zero (me_CreatedAt e) then now else me_CreatedAt e; me_UpdatedAt := now;
  me_AccessCount := me_AccessCount e; me_MergedFrom := me_MergedFrom e |}.

Definition with_ID (id : string) (e : MemoryEntry) : MemoryEntry := {|
  me_ID := id; me_Owner := me_Owner e; me_OwnerType := me_OwnerType e; me_ScopeType := me_ScopeType e; me_GroupID := me_GroupID e;
  me_Content := me_Content e; me_SummaryNeedsRefresh := me_SummaryNeedsRefresh e; me_Summary := me_Summary e;
  me_Evidence := me_Evidence e; me_SourceMedia := me_SourceMedia e; me_SourceMessageID := me_SourceMessageID e;
  me_SourceSenderID := me_SourceSenderID e; me_Tags := me_Tags e; me_Source := me_Source e; me_Visibility := me_Visibility e;
  me_CreatedAt := me_CreatedAt e; me_UpdatedAt := me_UpdatedAt e; me_AccessCount := me_AccessCount e; me_MergedFrom := me_MergedFrom e |}.

(** The first text unless it is empty. *)
Definition or_else (x y : string) : string := if decide (x = "") then y else x.

(** An entry that is remembered again. *)
Definition absorbed (now : Z) (incoming e : MemoryEntry) : MemoryEntry :=
  let shared := negb (bool_decide (me_Source e = SourceManual)) && negb (bool_decide (me_Owner e = me_Owner incoming)) in {|
  me_ID := me_ID e; me_Owner := if shared then GroupOwnerExplicit else me_Owner e;
  me_OwnerType := if shared then "group" else me_OwnerType e; me_ScopeType := me_ScopeType e; me_GroupID := me_GroupID e;
  me_Content := me_Content e; me_SummaryNeedsRefresh := me_SummaryNeedsRefresh e;
  me_Summary := or_else (me_Summary e) (me_Summary incoming);
  me_Evidence := or_else (me_Evidence e) (me_Evidence incoming); me_SourceMedia := me_SourceMedia e;
  me_SourceMessageID := or_else (me_SourceMessageID e) (me_SourceMessageID incoming);
  me_SourceSenderID := or_else (me_SourceSenderID e) (me_SourceSenderID incoming);
  me_Tags := if decide (me_Tags incoming = []) then me_Tags e else mergeMemoryTags (me_Tags e) (me_Tags incoming);
  me_Source := me_Source e; me_Visibility := me_Visibility e;
  me_CreatedAt := me_CreatedAt e; me_UpdatedAt := now; me_AccessCount := me_AccessCount e; me_MergedFrom := me_MergedFrom e |}.

(** What a save meets: is its context over and what does its validator say at
    each of the three checks, what others do to its barrier in between, the
    epoch of the barrier's session, the time, the identifiers that
    [generateID] gives, and whether the write fails. *)
Record group_env (B : Type) := {
  ge_cancelled : nat -> bool;
  ge_validator : nat -> option bool;
  ge_others : nat -> B -> B;
  ge_epoch : Z;
  ge_now : Z;
  ge_ids : nat -> string;
  ge_fault : option error;
}.
Arguments ge_cancelled {B}. Arguments ge_validator {B}. Arguments ge_others {B}. Arguments ge_epoch {B}.
Arguments ge_now {B}. Arguments ge_ids {B}. Arguments ge_fault {B}.

Section save.
Context `{CommitBarrier B} (s : GroupStore).
Implicit Types (env : group_env B).

(** One entry: the memories, how many identifiers were generated, and the entry
    as the caller gets it back. *)
Definition place env (l : list MemoryEntry) (n : nat) (e : MemoryEntry) : list MemoryEntry * nat * MemoryEntry :=
  let incoming := prepared s (ge_now env) e in
  match find_index (fun existing => isSameGroupMemory existing incoming) l with
  | Some i => (alter (absorbed (ge_now env) incoming) i l, n,
               with_ID (default "" (me_ID <$> l !! i)) incoming)
  | None =>
      if decide (me_ID incoming = "") then
        let incoming := with_ID (ge_ids env n) incoming in (l ++ [incoming], S n, incoming)
      else (l ++ [incoming], n, incoming)
  end.

Fixpoint place_all env (l : list MemoryEntry) (n : nat) (entries : list MemoryEntry) : list MemoryEntry * list MemoryEntry :=
  match entries with
  | [] => (l, [])
  | e :: entries =>
      let '(l, n, e) := place env l n e in
      let '(l, placed) := place_all env l n entries in (l, e :: placed)
  end.

Definition stopped env (i : nat) : bool := ge_cancelled env i || bool_decide (ge_validator env i = Some false).

Definition valid_barrier env (barrier : option B) : bool := match barrier with Some b => IsValid (ge_epoch env) b | None => true end.

(** After the checks at the start; the entries are changed even if the save
    fails. *)
Definition commit_entries env (entries : list MemoryEntry) (barrier : option B) (f : brain_file)
    : option error * list MemoryEntry * option B * brain_file :=
  match loadMemoryLocked s f with
  | Err e => (Some e, entries, barrier, f)
  | Ok b =>
      let '(l, placed) := place_all env (Entries b) 0 entries in
      let barrier := ge_others env 0 <$> barrier in
      if stopped env 1 || negb (valid_barrier env barrier) then (Some ErrConditionFailed, placed, barrier, f) else
      let barrier := ge_others env 1 <$> barrier in
      if stopped env 2 || negb (valid_barrier env barrier) then (Some ErrConditionFailed, placed, barrier, f) else
      let '(r, f) := saveMemoryLocked (ge_fault env) (on_entries (fun _ => l) b) f in (r, placed, barrier, f)
  end.

Definition SaveGroupEntriesConditionallyContext env (entries : list MemoryEntry) (barrier : option B) (f : brain_file)
    : option error * list MemoryEntry * option B * brain_file :=
  if bool_decide (entries = []) then (None, entries, barrier, f) else
  if stopped env 0 then (Some ErrConditionFailed, entries, barrier, f) else
  match barrier with
  | None => commit_entries env entries None f
  | Some b =>
      let '(begun, b) := TryBeginCommit (ge_epoch env) b in
      if negb begun then (Some ErrConditionFailed, entries, Some b, f) else
      let '(r, placed, barrier, f) := commit_entries env entries (Some b) f in
      (r, placed, EndCommit (ge_epoch env) <$> barrier, f)
  end.

(** The entry is changed only if it was saved. *)
Definition SaveEntry env (e : MemoryEntry) (f : brain_file) : option error * MemoryEntry * brain_file :=
  let '(r, placed, _, f) := SaveGroupEntriesConditionallyContext env [e] None f in
  match r with Some err => (Some err, e, f) | None => (None, default e (head placed), f) end.

Definition Save env (e : MemoryEntry) (f : brain_file) : option error * brain_file :=
  let '(r, _, f) := SaveEntry env e f in (r, f).
End save.

(** * The other operations *)

Section operations.
Context `{UnicodeCase} (s : GroupStore).
Implicit Types (fault : option error) (now : Z) (f : brain_file).

Definition PurgeDistilledEntries fault (messageID : string) f : option error * brain_file :=
  let msgID := TrimSpace messageID in
  if bool_decide (msgID = "") then (None, f) else
  with_memory s f (fun b =>
    let purged e := bool_decide (me_Source e = SourceDistill /\ me_SourceMessageID e = msgID) in
    if existsb purged (Entries b) then saveMemoryLocked fault (on_entries (filter (fun e => purged e = false)) b) f else (None, f)).

Definition Search (query : string) (limit : Z) f : res error (list MemoryEntry) := read_memory s f (fun b => found_in query limit (Entries b)).
Definition SearchByTags (tags : list string) (limit : Z) f : res error (list MemoryEntry) := read_memory s f (fun b => ranked_in tags limit (Entries b)).
Definition ListByOwner (owner : string) f : res error (list MemoryEntry) :=
  read_memory s f (fun b => filter (fun e => OwnersMatch (me_Owner e) owner = true) (Entries b)).
Definition ListAll f : res error (list MemoryEntry) := read_memory s f Entries.
Definition ListMergeArchives f : res error (list MemoryMergeArchive) := read_memory s f MergeArchives.

Definition group_not_found (id : string) : error := "memory " +:+ id +:+ " not found in group " +:+ gs_groupID s.

Definition GetByID (id : string) f : res error MemoryEntry :=
  match loadMemoryLocked s f with
  | Err e => Err e
  | Ok b => match find (fun e => bool_decide (me_ID e = id)) (Entries b) with Some e => Ok e | None => Err (group_not_found id) end
  end.

Definition edit_memory fault (id : string) (edit : MemoryEntry -> list MemoryEntry) f : option error * brain_file :=
  with_memory s f (fun b =>
    match edit_first id edit (Entries b) with
    | None => (Some (group_not_found id), f)
    | Some l => saveMemoryLocked fault (on_entries (fun _ => l) b) f
    end).

Definition Delete fault (id : string) : brain_file -> option error * brain_file := edit_memory fault id (fun _ => []).

(** An edit of the content makes an automatic memory a manual one. *)
Definition edited now (u e : MemoryEntry) : MemoryEntry :=
  let changed := negb (bool_decide (me_Content e = me_Content u)) in {|
  me_ID := me_ID e; me_Owner := me_Owner e; me_OwnerType := me_OwnerType e; me_ScopeType := me_ScopeType e; me_GroupID := me_GroupID e;
  me_Content := me_Content u;
  me_SummaryNeedsRefresh := changed || me_SummaryNeedsRefresh e;
  me_Summary := if changed && gs_refreshEditedSummaries s then "" else me_Summary e;
  me_Evidence := me_Evidence e; me_SourceMedia := me_SourceMedia e; me_SourceMessageID := me_SourceMessageID e;
  me_SourceSenderID := me_SourceSenderID e; me_Tags := me_Tags u;
  me_Source := if changed && bool_decide (me_Source e = SourceExtract \/ me_Source e = SourceDistill) then SourceManual else me_Source e;
  me_Visibility := me_Visibility e; me_CreatedAt := me_CreatedAt e; me_UpdatedAt := now; me_AccessCount := me_AccessCount e;
  me_MergedFrom := me_MergedFrom e |}.

Definition UpdateEntry fault now (u : MemoryEntry) : brain_file -> option error * brain_file :=
  edit_memory fault (me_ID u) (fun e => [edited now u e]).

Definition IncrementAccessCount fault now (memoryIDs : list string) f : option error * brain_file :=
  with_memory s f (fun b =>
    let targets := filter (fun id => id <> "") memoryIDs in
    if negb (existsb (fun e => bool_decide (me_ID e ∈ targets)) (Entries b)) then (None, f) else
    saveMemoryLocked fault (on_entries (map (fun e => if decide (me_ID e ∈ targets) then accessed now e else e)) b) f).

Definition RecordRecall fault now (l : list MemoryEntry) f : option error * brain_file :=
  if bool_decide (l = []) then (None, f) else IncrementAccessCount fault now (filter (fun id => id <> "") (map me_ID l)) f.

Definition SaveMergeArchive fault (archive : MemoryMergeArchive) f : option error * brain_file :=
  with_memory s f (fun b => saveMemoryLocked fault {| Entries := Entries b; MergeArchives := MergeArchives b ++ [archive] |} f).

(** ** Import and export *)

(** An entry replaces the one of its identifier if that is asked for. *)
Fixpoint import_all (overwrite : bool) (l : list MemoryEntry) (imported skipped : nat) (entries : list MemoryEntry)
    : list MemoryEntry * nat * nat :=
  match entries with
  | [] => (l, imported, skipped)
  | e :: entries =>
      match find_index (fun x => bool_decide (me_ID x = me_ID e)) (rev l) with
      | Some i =>
          if overwrite then import_all overwrite (<[(length l - 1 - i)%nat := e]> l) (S imported) skipped entries
          else import_all overwrite l imported (S skipped) entries
      | None => import_all overwrite (l ++ [e]) (S imported) skipped entries
      end
  end.

Definition ImportData fault now (entries : list MemoryEntry) (overwrite : bool) f : res error (nat * nat) * brain_file :=
  match loadMemoryLocked s f with
  | Err e => (Err e, f)
  | Ok b =>
      let '(l, imported, skipped) := import_all overwrite (Entries b) 0 0 (map (prepared s now) entries) in
      let '(r, f) := saveMemoryLocked fault (on_entries (fun _ => l) b) f in
      (match r with Some e => Err e | None => Ok (imported, skipped) end, f)
  end.

(** ** Reflection *)

(** The common owner of the sources, else the group. *)
Definition merged_owner (sources : list MemoryEntry) : string :=
  match sources with
  | [] => GroupOwnerExplicit
  | first :: rest =>
      if forallb (fun x => bool_decide (me_Owner x = me_Owner first)) rest && negb (bool_decide (me_Owner first = ""))
      then me_Owner first else GroupOwnerExplicit
  end.

Definition applyReflectionWithMerges fault (merges : list validatedMerge) (outdatedIDs : list string)
    (snapshots : option (gmap string MemoryEntry)) now (ids : list string) f : option (res error reflectionApplyResult * brain_file) :=
  match loadMemoryLocked s f with
  | Err e => Some (Err e, f)
  | Ok b =>
      '(b', cy, fates) ← reflect_brain (fun _ => true) id merged_owner (scoped_to (gs_groupID s)) merges outdatedIDs snapshots now ids b;
      let '(r, f) := saveMemoryLocked fault b' f in
      Some (match r with
            | Some e => Err e
            | None => Ok {| Remaining := Entries b';
                            RemovedIDs := dropped_ids false fates (Entries b);
                            OutdatedIDs := dropped_ids true fates (Entries b);
                            MergedEntries := cy_merged cy; MergedSourceCount := length (concat (map ar_Sources (cy_archives cy))) |}
            end, f)
  end.
End operations.

(** ** Routes *)

Section routes.
Context `{MapOrder} (s : GroupStore).

Definition is_route (r : RouteContext) : bool := negb (bool_decide (rt_Platform r = "") && bool_decide (rt_GroupID r = "")).

(** The route of the owner, of the group, or any. *)
Definition RouteForOwner (n : nat) (owner : string) (routes : gmap string RouteContext) : RouteContext :=
  let known := omap (routes !!.) [CanonicalOwner owner; GroupOwnerExplicit; gs_groupID s] ++ map snd (range n routes) in
  default {| rt_Platform := ""; rt_GroupID := gs_groupID s |} (find is_route known).

Definition RememberRoute (owner : string) (route : RouteContext) (routes : gmap string RouteContext) : gmap string RouteContext :=
  let routes := <[GroupOwnerExplicit := route]> (<[CanonicalOwner owner := route]> routes) in
  if decide (gs_groupID s = "") then routes else <[gs_groupID s := route]> routes.
End routes.

(** * A message that is read twice, or withdrawn *)

Lemma same_text_self x : x <> "" -> same_text x x = true.
Proof. intros Hx. unfold same_text. rewrite bool_decide_false by done. by rewrite bool_decide_true. Qed.

Lemma or_else_ne x y : x <> "" -> or_else x y = x.
Proof. intros Hx. unfold or_else. by rewrite decide_False. Qed.

Lemma same_text_or_else x y z : same_text x z = true -> same_text (or_else x y) z = true.
Proof. unfold same_text, or_else. case_decide as E; [|done]. rewrite E. by rewrite bool_decide_true. Qed.

Section messages.
Context `{CommitBarrier B} (s : GroupStore).
Implicit Types (env : group_env B) (e inc x : MemoryEntry) (l : list MemoryEntry).

(** An automatic memory of a known message. *)
Definition traced e : Prop := me_Source e <> SourceManual /\ me_SourceMessageID e <> "" /\ me_Content e <> "".

(** Recognising an entry depends on where it comes from and what it says. *)
Definition alike e inc : Prop := me_SourceMedia e = me_SourceMedia inc /\ me_Source e = me_Source inc /\
  me_SourceMessageID e = me_SourceMessageID inc /\ me_Evidence e = me_Evidence inc /\ me_Content e = me_Content inc.

Lemma prepared_alike now e : alike (prepared s now e) e.
Proof. done. Qed.

Lemma isSame_alike x e inc : alike e inc -> me_SourceMessageID inc <> "" -> isSameGroupMemory x e = isSameGroupMemory x inc.
Proof.
  intros (E1 & E2 & E3 & E4 & E5) Hne. unfold isSameGroupMemory. rewrite E1, E2, E3, E4, E5.
  rewrite (bool_decide_false (me_SourceMessageID inc = "")) by done. by rewrite andb_false_r.
Qed.

Lemma isSame_self e : traced e -> isSameGroupMemory e e = true.
Proof.
  intros (Hs & Hm & Hc). unfold isSameGroupMemory. rewrite (bool_decide_true (me_SourceMedia e = _)) by done. rewrite (bool_decide_false (me_Source e = _)) by done.
  rewrite (bool_decide_false (me_SourceMessageID e = "")) by done. rewrite (bool_decide_true (me_SourceMessageID e = me_SourceMessageID e)) by done.
  cbn [negb andb]. by rewrite (same_text_self (me_Content e)), !orb_true_r.
Qed.

(** What was recognised stays recognised. *)
Lemma isSame_absorbed now x y inc : me_SourceMessageID inc <> "" -> isSameGroupMemory x inc = true -> isSameGroupMemory (absorbed now y x) inc = true.
Proof.
  intros Hne. unfold isSameGroupMemory. cbn [absorbed me_SourceMedia me_Source me_SourceMessageID me_Evidence me_Content me_Owner].
  rewrite (bool_decide_false (me_SourceMessageID inc = "")) by done. rewrite andb_false_r, andb_true_r.
  destruct (negb (bool_decide (me_SourceMedia x = _))); [done|]. destruct (bool_decide (me_Source inc = _)); [done|].
  destruct (decide (me_SourceMessageID x = "")) as [E|E].
  - rewrite (bool_decide_true (me_SourceMessageID x = "")) by done. cbn. by destruct (_ && _).
  - rewrite (or_else_ne (me_SourceMessageID x)) by done. rewrite (bool_decide_false (me_SourceMessageID x = "")) by done. rewrite andb_false_r. cbn [negb].
    intros [Hm Ht]%andb_true_iff. rewrite Hm. cbn [andb]. rewrite !orb_true_iff in *.
    destruct Ht as [[[Ht|Ht]|Ht]|Ht]; [left; left; left|left; left; right|left; right|right]; try done; by apply same_text_or_else.
Qed.

Definition recognised l inc : Prop := exists x, x ∈ l /\ isSameGroupMemory x inc = true.

Lemma recognised_alter now y i l inc : me_SourceMessageID inc <> "" -> recognised l inc -> recognised (alter (absorbed now y) i l) inc.
Proof.
  intros Hne (x & Hx & Hs). apply list_elem_of_lookup in Hx as [j Hj]. destruct (decide (i = j)) as [->|Hij].
  - exists (absorbed now y x). split; [|by apply isSame_absorbed]. apply list_elem_of_lookup. exists j. by rewrite list_lookup_alter_eq, Hj.
  - exists x. split; [|done]. apply list_elem_of_lookup. exists j. by rewrite list_lookup_alter_ne.
Qed.

Lemma place_recognised env l n e l' n' e' inc : place s env l n e = (l', n', e') -> traced inc -> recognised l inc \/ inc = e -> recognised l' inc.
Proof.
  intros Hp (Hs & Hm & Hc). unfold place in Hp. destruct (find_index _ l) as [i|] eqn:Ei.
  - injection Hp as <- _ _. intros [?|He]; apply recognised_alter; try done. apply find_index_Some in Ei as (x & Hx & Hsame & _).
    exists x. split; [by eapply list_elem_of_lookup_2|]. rewrite He. rewrite <- (isSame_alike x (prepared s (ge_now env) e) e); [done|done|congruence].
  - assert (exists y, l' = l ++ [y] /\ alike y e) as (y & -> & Hy) by (case_decide; injection Hp as <- _ _; eexists; done).
    intros [(x & Hx & ?)|He]; [exists x; split; [apply elem_of_app; by left|done]|]. exists y. split; [apply elem_of_app; right; by left|].
    subst inc. destruct Hy as (E1 & E2 & E3 & E4 & E5). rewrite <- (isSame_alike y y e); [|done|done]. apply isSame_self. split_and!; congruence.
Qed.

Lemma place_all_recognised env l n entries l' placed inc : place_all s env l n entries = (l', placed) -> traced inc ->
  recognised l inc \/ inc ∈ entries -> recognised l' inc.
Proof.
  revert l n l' placed. induction entries as [|e entries IH]; intros l n l' placed; cbn [place_all].
  { intros [= <- _] _ [?|?%elem_of_nil]; done. }
  destruct (place s env l n e) as [[l1 n1] e1] eqn:E1. destruct (place_all s env l1 n1 entries) as [l2 placed2] eqn:E2. intros [= <- _] Ht Hin.
  eapply IH; [exact E2|done|]. destruct Hin as [?|[->|?]%elem_of_cons]; [left|left|by right]; eapply place_recognised; eauto.
Qed.

(** Entries that are recognised change no identifier and no content. *)
Lemma place_all_known env l n entries l' placed : place_all s env l n entries = (l', placed) ->
  (forall e, e ∈ entries -> traced e /\ recognised l e) ->
  map (fun e => (me_ID e, me_Content e)) l' = map (fun e => (me_ID e, me_Content e)) l /\ Forall (fun e => me_ID e ∈ map me_ID l) placed.
Proof.
  revert l n l' placed. induction entries as [|e entries IH]; intros l n l' placed; cbn [place_all]; [by intros [= <- <-]|].
  destruct (place s env l n e) as [[l1 n1] e1] eqn:E1. destruct (place_all s env l1 n1 entries) as [l2 placed2] eqn:E2. intros [= <- <-] Hk.
  destruct (Hk e) as [(Hs & Hm & Hc) (x & Hx & Hsame)]; [by left|]. pose proof E1 as Hplace. unfold place in E1. destruct (find_index _ l) as [i|] eqn:Ei.
  2: { rewrite find_index_None in Ei. specialize (Ei x Hx). by rewrite (isSame_alike x (prepared s (ge_now env) e) e), Hsame in Ei. }
  injection E1 as <- <- <-. assert (Hids : map (fun e => (me_ID e, me_Content e)) (alter (absorbed (ge_now env) (prepared s (ge_now env) e)) i l) = map (fun e => (me_ID e, me_Content e)) l).
  { apply list_eq. intros j. rewrite !list_lookup_fmap. destruct (decide (i = j)) as [->|]; [rewrite list_lookup_alter_eq|by rewrite list_lookup_alter_ne].
    by destruct (l !! j). }
  destruct (IH _ _ _ _ E2) as [-> Hpl].
  - intros e2 He2. destruct (Hk e2) as [Ht Hr]; [by right|]. split; [done|]. apply recognised_alter; [apply Ht|done].
  - split; [done|]. assert (Hmap : map me_ID (alter (absorbed (ge_now env) (prepared s (ge_now env) e)) i l) = map me_ID l).
    { apply (f_equal (map fst)) in Hids. rewrite !map_map in Hids. exact Hids. }
    rewrite Hmap in Hpl. constructor; [|done]. cbn. apply find_index_Some in Ei as (y & Hy & _ & _). rewrite Hy. cbn.
    apply list_elem_of_fmap_2. by eapply list_elem_of_lookup_2.
Qed.

(** The file holds the memories with all entries placed. *)
Definition wrote env entries f placed f' : Prop := exists b l,
  loadMemoryLocked s f = Ok b /\ place_all s env (Entries b) 0 entries = (l, placed) /\ f' = BrainDecoded (on_entries (fun _ => l) b).

Lemma commit_cases env entries barrier f r placed ob f' : commit_entries s env entries barrier f = (r, placed, ob, f') ->
  (r <> None /\ f' = f) \/ (r = None /\ wrote env entries f placed f').
Proof.
  unfold commit_entries. destruct (loadMemoryLocked s f) as [b|] eqn:El; [|by intros [= <- _ _ <-]; left].
  destruct (place_all s env (Entries b) 0 entries) as [l pl] eqn:Ep. destruct (_ || _); [by intros [= <- _ _ <-]; left|].
  destruct (_ || _); [by intros [= <- _ _ <-]; left|].
  unfold saveMemoryLocked. destruct (ge_fault env); intros [= <- <- _ <-]; [by left|]. right. split; [done|]. by exists b, l.
Qed.

Lemma save_cases env entries barrier f r placed ob f' : SaveGroupEntriesConditionallyContext s env entries barrier f = (r, placed, ob, f') ->
  (entries = [] /\ f' = f) \/ (r <> None /\ f' = f) \/ (r = None /\ wrote env entries f placed f').
Proof.
  unfold SaveGroupEntriesConditionallyContext. case_bool_decide; [by intros [= _ _ _ <-]; left|]. destruct (stopped env 0); [by intros [= <- _ _ <-]; right; left|].
  destruct barrier as [b|]; [|intros Hc; right; by eapply commit_cases]. destruct (TryBeginCommit _ _) as [[] b']; cbn [negb]; [|by intros [= <- _ _ <-]; right; left].
  destruct (commit_entries s env entries (Some b') f) as [[[r1 pl] ob'] f1] eqn:Ec. intros [= <- <- _ <-]. right. by eapply commit_cases.
Qed.

Lemma save_ok env entries barrier f placed ob f' : entries <> [] ->
  SaveGroupEntriesConditionallyContext s env entries barrier f = (None, placed, ob, f') -> wrote env entries f placed f'.
Proof. intros Hne [[? _]|[[? _]|[_ ?]]]%save_cases; done. Qed.

Lemma reload_recognised l inc : traced inc -> recognised l inc ->
  recognised (map (fun e => owned_by (CanonicalOwner (me_Owner e)) (scoped_to (gs_groupID s) e)) l) inc.
Proof.
  intros (_ & Hm & _) (x & Hx & Hs). eexists. split; [by apply list_elem_of_fmap_2|]. revert Hs. unfold isSameGroupMemory. cbn.
  rewrite (bool_decide_false (me_SourceMessageID inc = "")) by done. by rewrite !andb_false_r.
Qed.

(** A message that is read again adds nothing.  When memories that were
    drawn from messages have been saved, saving them again leaves every memory with its identifier and content, adds none, and gives
    the caller identifiers that are in the store. *)
Theorem redelivery_adds_nothing env1 env2 entries barrier1 barrier2 f placed1 ob1 f1 placed2 ob2 f2 :
  entries <> [] -> (forall e, e ∈ entries -> traced e) ->
  SaveGroupEntriesConditionallyContext s env1 entries barrier1 f = (None, placed1, ob1, f1) ->
  SaveGroupEntriesConditionallyContext s env2 entries barrier2 f1 = (None, placed2, ob2, f2) ->
  exists b1 b2, loadMemoryLocked s f1 = Ok b1 /\ f2 = BrainDecoded b2 /\
    map (fun e => (me_ID e, me_Content e)) (Entries b2) = map (fun e => (me_ID e, me_Content e)) (Entries b1) /\
    Forall (fun e => me_ID e ∈ map me_ID (Entries b1)) placed2 /\ MergeArchives b2 = MergeArchives b1.
Proof.
  intros Hne Ht H1 H2. apply save_ok in H1 as (b & l & Hb & Hp & ->); [|done]. apply save_ok in H2 as (b1 & l2 & Hb1 & Hp2 & ->); [|done].
  injection Hb1 as <-. cbn [Entries on_entries] in Hp2.
  eexists _, _. split; [reflexivity|]. split; [reflexivity|]. cbn [Entries on_entries MergeArchives].
  destruct (place_all_known _ _ _ _ _ _ Hp2) as [E1 E2]; [|done]. intros e He. split; [by apply Ht|].
  apply reload_recognised; [by apply Ht|]. eapply place_all_recognised; [exact Hp|by apply Ht|by right].
Qed.

(** ** Withdrawing *)

Definition distilled_from (msg : string) e : Prop := me_Source e = SourceDistill /\ me_SourceMessageID e = msg.

Lemma place_distilled env msg l1 l2 n e l' n' e' : msg <> "" -> (forall x, x ∈ l1 -> me_SourceMessageID x <> msg) ->
  (forall x, x ∈ l2 -> distilled_from msg x) -> distilled_from msg e -> place s env (l1 ++ l2) n e = (l', n', e') ->
  exists l3, l' = l1 ++ l3 /\ forall x, x ∈ l3 -> distilled_from msg x.
Proof.
  intros Hmsg H1 H2 [He Hm]. unfold place. destruct (find_index _ (l1 ++ l2)) as [i|] eqn:Ei.
  - intros [= <- _ _]. apply find_index_Some in Ei as (x & Hx & Hs & _). assert (length l1 <= i).
    { destruct (decide (i < length l1)) as [Hi|]; [|lia]. rewrite lookup_app_l in Hx by done. exfalso.
      apply (H1 x); [by eapply list_elem_of_lookup_2|]. revert Hs. unfold isSameGroupMemory. cbn [prepared me_SourceMessageID me_SourceMedia me_Source me_Evidence me_Content me_Owner].
      rewrite Hm. rewrite (bool_decide_false (msg = "")) by done. rewrite andb_false_r. repeat case_match; try done. intros [Heq _]%andb_true_iff.
      by apply bool_decide_eq_true in Heq. }
    rewrite alter_app_r_alt by done. eexists. split; [reflexivity|]. intros y [j Hj]%list_elem_of_lookup.
    destruct (decide (i - length l1 = j)) as [<-|]; [rewrite list_lookup_alter_eq in Hj|rewrite list_lookup_alter_ne in Hj by done; apply H2; by eapply list_elem_of_lookup_2].
    destruct (l2 !! (i - length l1)) as [z|] eqn:Ez; [|done]. injection Hj as <-. apply list_elem_of_lookup_2, H2 in Ez as [E1 E2].
    split; [done|]. cbn [absorbed me_SourceMessageID]. rewrite or_else_ne; [done|by rewrite E2].
  - intros Hp. assert (exists y, l' = (l1 ++ l2) ++ [y] /\ alike y e) as (y & -> & (_ & E2 & E3 & _)) by (case_decide; injection Hp as <- _ _; eexists; done).
    rewrite <- app_assoc. eexists. split; [reflexivity|]. intros x [?|E%list_elem_of_singleton]%elem_of_app; [by apply H2|]. subst x. split; congruence.
Qed.

Lemma place_all_distilled env msg l1 l2 n entries l' placed : msg <> "" -> (forall x, x ∈ l1 -> me_SourceMessageID x <> msg) ->
  (forall x, x ∈ l2 -> distilled_from msg x) -> (forall x, x ∈ entries -> distilled_from msg x) ->
  place_all s env (l1 ++ l2) n entries = (l', placed) -> exists l3, l' = l1 ++ l3 /\ forall x, x ∈ l3 -> distilled_from msg x.
Proof.
  intros Hmsg H1. revert l2 n l' placed. induction entries as [|e entries IH]; intros l2 n l' placed H2 He; cbn [place_all]; [intros [= <- _]; by exists l2|].
  destruct (place s env (l1 ++ l2) n e) as [[la n1] e1] eqn:E1. destruct (place_all s env la n1 entries) as [lb placed2] eqn:E2. intros [= <- _].
  destruct (place_distilled _ _ _ _ _ _ _ _ _ Hmsg H1 H2 (He e (list_elem_of_here _ _)) E1) as (l3 & -> & H3).
  eapply IH; [exact H3| |exact E2]. intros x Hx. apply He. by right.
Qed.

(** C34: withdrawing a message undoes what was remembered of it.  If the memories
    distilled from a message that the group knew nothing of were saved, then
    purging that message leaves exactly the memories and archives there were
    before, whether or not some of them said the same, and so does purging it
    again. *)
Theorem withdrawal_undoes_distillation env entries barrier f b placed ob f1 messageID : let msg := TrimSpace messageID in msg <> "" ->
  loadMemoryLocked s f = Ok b -> (forall e, e ∈ Entries b -> me_SourceMessageID e <> msg /\ CanonicalOwner (me_Owner e) = me_Owner e) ->
  entries <> [] -> (forall e, e ∈ entries -> distilled_from msg e) ->
  SaveGroupEntriesConditionallyContext s env entries barrier f = (None, placed, ob, f1) ->
  exists f2, PurgeDistilledEntries s None messageID f1 = (None, f2) /\ loadMemoryLocked s f2 = Ok b /\
    PurgeDistilledEntries s None messageID f2 = (None, f2).
Proof.
  cbn zeta. intros Hmsg Hb Hold Hne Hent (b' & l & Hb' & Hp & ->)%save_ok; [|done]. assert (b' = b) as -> by congruence. clear Hb'.
  rewrite <- (app_nil_r (Entries b)) in Hp. apply (place_all_distilled _ (TrimSpace messageID)) in Hp as (l3 & -> & H3); [|done|by intros; apply Hold|by intros ? ?%elem_of_nil|done].
  set (reload := fun e => owned_by (CanonicalOwner (me_Owner e)) (scoped_to (gs_groupID s) e)).
  assert (Hre : forall e, e ∈ Entries b -> reload e = e).
  { intros e He. unfold loadMemoryLocked in Hb. destruct f as [| | |d]; try done; [injection Hb as <-; by apply elem_of_nil in He|].
    injection Hb as <-. cbn [Entries on_entries] in He. apply list_elem_of_fmap in He as (x & -> & Hx). unfold reload.
    destruct (Hold _ (list_elem_of_fmap_2 reload _ _ Hx)) as [_ Ho]. fold (reload x) in *. rewrite Ho. by destruct x. }
  assert (Hmap : map reload (Entries b) = Entries b).
  { rewrite <- (map_id (Entries b)) at 2. apply map_ext_in. intros e He. apply Hre. by apply list_elem_of_In. }
  set (purged e := bool_decide (me_Source e = SourceDistill /\ me_SourceMessageID e = TrimSpace messageID)).
  assert (Hkeep : forall e, e ∈ Entries b -> purged e = false).
  { intros e He. apply bool_decide_eq_false. intros [_ E]. by destruct (Hold e He). }
  assert (Hload : loadMemoryLocked s (BrainDecoded b) = Ok b).
  { cbn. fold reload. f_equal. destruct b as [es ar]. unfold on_entries. cbn in *. by rewrite Hmap. }
  assert (Hnone : existsb purged (Entries b) = false).
  { apply not_true_iff_false. rewrite existsb_exists. intros (e & He%list_elem_of_In & Hpu). by rewrite Hkeep in Hpu. }
  exists (BrainDecoded b). split; [|split; [done|]].
  2: { unfold PurgeDistilledEntries. rewrite bool_decide_false by done. unfold with_memory. rewrite Hload. fold purged. by rewrite Hnone. }
  unfold PurgeDistilledEntries. rewrite bool_decide_false by done. unfold with_memory. cbn [loadMemoryLocked on_entries Entries MergeArchives]. fold reload purged.
  rewrite map_app, Hmap, existsb_app, Hnone. cbn [orb].
  assert (H3' : forall x, x ∈ map reload l3 -> purged x = true).
  { intros x (y & -> & Hy)%list_elem_of_fmap. destruct (H3 y Hy). by apply bool_decide_eq_true. }
  assert (Hfil : filter (fun e => purged e = false) (Entries b ++ map reload l3) = Entries b).
  { rewrite filter_app, (filter_none _ (map reload l3)), app_nil_r by (apply Forall_forall; intros x Hx; by rewrite H3').
    by apply filter_id, Forall_forall. }
  destruct l3 as [|x l3].
  - cbn. rewrite app_nil_r. by destruct b.
  - cbn [map existsb]. rewrite (H3' (reload x)) by (by left). cbn [orb saveMemoryLocked on_entries Entries MergeArchives]. unfold saveMemoryLocked, on_entries. cbn [Entries MergeArchives].
    assert (Hfil' : filter (fun e => purged e = false) (map reload (Entries b ++ x :: l3)) = Entries b) by (by rewrite map_app, Hmap).
    unfold purged in Hfil'. rewrite Hfil'. by destruct b.
Qed.
End messages.

(** * Examples *)

Module GroupDemo.
#[local] Existing Instance ascii_case.

Definition group : GroupStore := {| gs_groupID := "100"; gs_platform := "qq"; gs_refreshEditedSummaries := true |}.

Definition note (id owner content msg : string) : MemoryEntry := {|
  me_ID := id; me_Owner := owner; me_OwnerType := "group"; me_ScopeType := ScopeGroup; me_GroupID := "100";
  me_Content := content; me_SummaryNeedsRefresh := false; me_Summary := ""; me_Evidence := content; me_SourceMedia := "";
  me_SourceMessageID := msg; me_SourceSenderID := "7"; me_Tags := ["tea"]; me_Source := SourceDistill; me_Visibility := "";
  me_CreatedAt := 3; me_UpdatedAt := 3; me_AccessCount := 0; me_MergedFrom := [] |}.

Definition at_time (now : Z) : group_env groupDistillationBarrier := {|
  ge_cancelled := fun _ => false; ge_validator := fun _ => Some true; ge_others := fun _ b => b; ge_epoch := 1; ge_now := now;
  ge_ids := fun n => "mem_" +:+ pretty n; ge_fault := None |}.

Definition old : BrainData := {| Entries := [note "a" "7" "we meet at noon" "1"]; MergeArchives := [] |}.
Definition read : list MemoryEntry := [note "" "7" "I like tea" "2"; note "" "group" "tea is at five" "2"].

Definition saved f := SaveGroupEntriesConditionallyContext group (at_time 9) read (Some gb0) f.
Definition first := saved (BrainDecoded old).
Definition second := saved first.2.

Example save_ex : map me_ID first.1.1.2 = ["mem_0"; "mem_1"] /\ map me_ID second.1.1.2 = ["mem_0"; "mem_1"].
Proof. vm_compute. split; reflexivity. Qed.

Lemma redelivery_adds_nothing_witness : first.1.1.1 = None /\ second.1.1.1 = None /\
  exists b1 b2, loadMemoryLocked group first.2 = Ok b1 /\ second.2 = BrainDecoded b2 /\
    map (fun e => (me_ID e, me_Content e)) (Entries b2) = map (fun e => (me_ID e, me_Content e)) (Entries b1) /\
    Forall (fun e => me_ID e ∈ map me_ID (Entries b1)) second.1.1.2 /\ MergeArchives b2 = MergeArchives b1.
Proof.
  split; [vm_compute; reflexivity|]. split; [vm_compute; reflexivity|].
  refine (redelivery_adds_nothing group (at_time 9) (at_time 9) read (Some gb0) (Some gb0) (BrainDecoded old) first.1.1.2 first.1.2 first.2
    second.1.1.2 second.1.2 second.2 _ _ _ _); [discriminate| |vm_compute; reflexivity|vm_compute; reflexivity].
  intros e [->|[->|[]%elem_of_nil]%elem_of_cons]%elem_of_cons; split_and!; discriminate.
Defined.

Lemma withdrawal_undoes_distillation_witness : first.1.1.1 = None /\
  exists f2, PurgeDistilledEntries group None " 2" first.2 = (None, f2) /\ loadMemoryLocked group f2 = Ok old /\
    PurgeDistilledEntries group None " 2" f2 = (None, f2).
Proof.
  split; [vm_compute; reflexivity|].
  refine (withdrawal_undoes_distillation group (at_time 9) read (Some gb0) (BrainDecoded old) old first.1.1.2 first.1.2 first.2 " 2" _ _ _ _ _ _);
    [vm_compute; discriminate|vm_compute; reflexivity| |discriminate| |vm_compute; reflexivity].
  - intros e [->|[]%elem_of_nil]%elem_of_cons. split; [discriminate|vm_compute; reflexivity].
  - intros e [->|[->|[]%elem_of_nil]%elem_of_cons]%elem_of_cons; split; vm_compute; reflexivity.
Defined.

(** A reflection that merges the memories of a withdrawn message keeps what they
    said: the purge finds nothing to remove, and both the merged memory and its
    archive stay. *)
Definition merge : validatedMerge := {|
  vm_Sources := match loadMemoryLocked group first.2 with Ok b => drop 1 (Entries b) | Err _ => [] end;
  vm_Content := "likes tea, which is at five"; vm_Tags := ["tea"] |}.
Definition reflected : brain_file :=
  match applyReflectionWithMerges group None [merge] [] None 10 ["mem_9"] first.2 with Some (_, f) => f | None => first.2 end.

Example withdrawal_misses_merged : PurgeDistilledEntries group None "2" reflected = (None, reflected) /\
  match reflected with
  | BrainDecoded b => map me_Content (Entries b) = ["we meet at noon"; "likes tea, which is at five"] /\
      map (fun a => map me_Content (ar_Sources a)) (MergeArchives b) = [["I like tea"; "tea is at five"]]
  | _ => False
  end.
Proof. vm_compute. split_and!; reflexivity. Qed.
End GroupDemo.
