(* ===== verification/GroupKeys.v ===== *)
(** Where a group's files are: the identifiers and directory names of
    [internal/memory/group_store.go].

    A directory is named after the platform and a hash of the group's canonical
    identifier.  SHA-256 is not part of the repository: what is used of it is the
    first 16 hexadecimal digits of the digest. *)

From S2P Require Import Prelude GoStrings SessionKey SummaryStore Router Catalog.
From Stdlib Require Import Ascii.

Local Open Scope string_scope.
Local Open Scope list_scope.

(** * Identifiers *)

Definition group_id_prefixes : list string := ["aiocqhttp:group:"; "onebot:group:"; "qq:group:"; "astrbot:group:"; "group:"].

Definition CanonicalGroupID (raw : string) : string :=
  let s := TrimSpace raw in TrimSpace (default s (cut_any group_id_prefixes s)).

(** The loop that canonicalises until nothing changes; [fuel] bounds its turns. *)
Fixpoint settle_group_id (fuel : nat) (canon : string) : string :=
  match fuel with
  | 0 => canon
  | S fuel => let next := CanonicalGroupID canon in if decide (next = canon) then canon else settle_group_id fuel next
  end.

Definition canonicalPlatformGroupID (platform groupID : string) : string :=
  let t := TrimSpace groupID in
  let canon := default t (CutPrefix t (platform +:+ ":group:")) in
  settle_group_id (S (slen canon)) canon.

(** * Directory names *)

Definition word_byte (b : ascii) : bool := in_range 97 122 b || in_range 65 90 b || in_range 48 57 b || bool_decide (b = "_"%char).

(** What the name of a group starts with: one byte per rune, up to 24. *)
Definition key_byte (r : list ascii) : ascii := match r with [a] => if word_byte a then a else "_"%char | _ => "_"%char end.

(** [strings.Trim] of ["_."]. *)
Definition trim_marks (l : list ascii) : list ascii :=
  let mark b := bool_decide (b = "_"%char \/ b = "."%char) in rev (drop_while mark (rev (drop_while mark l))).

(** [strings.ToUpper], of ASCII text. *)
Definition upper_byte (b : ascii) : ascii := if in_range 97 122 b then byte_of (nat_of_ascii b - 32) else b.

Definition reserved_names : list string :=
  ["CON"; "PRN"; "AUX"; "NUL"; "COM1"; "COM2"; "COM3"; "COM4"; "COM5"; "COM6"; "COM7"; "COM8"; "COM9";
   "LPT1"; "LPT2"; "LPT3"; "LPT4"; "LPT5"; "LPT6"; "LPT7"; "LPT8"; "LPT9"].
Definition isWindowsReservedDeviceName (name : string) : bool :=
  bool_decide (of_bytes (map upper_byte (to_bytes (TrimSpace name))) ∈ reserved_names).

Definition readable_prefix (canon : string) : string :=
  let rawPrefix := of_bytes (trim_marks (take 24 (map key_byte (runes canon)))) in
  if bool_decide (rawPrefix = "") || isWindowsReservedDeviceName rawPrefix then "grp" else rawPrefix.

(** Hexadecimal, lower case. *)
Definition nibble (n : nat) : ascii := byte_of (if (n <? 10)%nat then 48 + n else 87 + n).
Definition unnibble (b : ascii) : option nat :=
  let n := nat_of_ascii b in
  if in_range 48 57 b then Some (n - 48) else if in_range 97 102 b then Some (n - 87) else if in_range 65 70 b then Some (n - 55) else None.

Definition hex_byte (b : ascii) : list ascii := let n := nat_of_ascii b in [nibble (n / 16); nibble (n mod 16)].
Definition EncodeToString (s : string) : string := of_bytes (concat (map hex_byte (to_bytes s))).

Fixpoint decode_hex (l : list ascii) : option (list ascii) :=
  match l with
  | [] => Some []
  | a :: b :: l =>
      match unnibble a, unnibble b, decode_hex l with
      | Some x, Some y, Some r => Some (byte_of (16 * x + y) :: r)
      | _, _, _ => None
      end
  | _ => None
  end.
Definition DecodeString (s : string) : option string := of_bytes <$> decode_hex (to_bytes s).

(** The first 16 digits of the digest. *)
Class Digest := { digest16 : string -> string }.
Class DigestLaws `{Digest} := { digest16_hex s : length (to_bytes (digest16 s)) = 16 /\ Forall (fun b => word_byte b = true) (to_bytes (digest16 s)) }.

Section keys.
Context `{UnicodeCase} `{Digest}.

Definition SafeGroupKey (groupID : string) : string :=
  let canon := CanonicalGroupID groupID in
  if decide (canon = "") then "unknown_group" else "g_" +:+ readable_prefix canon +:+ "_" +:+ digest16 canon.

Definition jsonGroupKey (platform groupID : string) : string :=
  let platform := CanonicalPlatform platform in
  let key := SafeGroupKey groupID in
  if decide (platform = "qq") then key else "p_" +:+ EncodeToString platform +:+ "_" +:+ key.

Definition jsonGroupPlatform (key : string) : option string :=
  if HasPrefix key "g_" then Some "qq" else
  encoded ← CutPrefix key "p_";
  '(encoded, _) ← Cut encoded "_";
  platform ← DecodeString encoded;
  if bool_decide (platform = "" \/ platform = "qq" \/ CanonicalPlatform platform <> platform) then None else Some platform.
End keys.

(** * Canonical identifiers *)

Lemma cut_any_shorter ps s c : cut_any ps s = Some c -> slen c <= slen s /\ ("" ∉ ps -> slen c < slen s).
Proof.
  intros (p & Hp & ->)%cut_any_Some. rewrite slen_app. split; [lia|]. intros Hne.
  assert (0 < slen p) by (destruct p; [done|unfold slen; cbn; lia]). lia.
Qed.

Lemma TrimSpace_same_length s : slen (TrimSpace s) = slen s -> TrimSpace s = s.
Proof.
  unfold TrimSpace, slen. rewrite to_of_bytes. unfold trim_bytes, trim_right, trim_left. rewrite length_rev. intros Hl.
  assert (Hs : forall fuel encs l, length (strip fuel encs l) = length l -> strip fuel encs l = l).
  { intros fuel encs l E. destruct (strip_suffix encs fuel l) as [p Hp]. destruct p as [|a p]; [done|]. rewrite Hp in E at 2.
    rewrite length_app in E. cbn in E. lia. }
  set (l1 := strip _ space_encodings (to_bytes s)) in *. pose proof (strip_le (length (to_bytes s)) space_encodings (to_bytes s)) as H1. fold l1 in H1.
  set (l2 := strip _ _ (rev l1)) in *. pose proof (strip_le (length l1) (map (@rev ascii) space_encodings) (rev l1)) as H2. fold l2 in H2. rewrite length_rev in H2.
  assert (E1 : l1 = to_bytes s) by (apply Hs; unfold l1 in *; lia).
  assert (E2 : l2 = rev l1) by (apply Hs; unfold l2 in *; rewrite length_rev; lia).
  rewrite E2, rev_involutive, E1. apply of_to_bytes.
Qed.

Lemma no_empty_prefix : "" ∉ group_id_prefixes.
Proof. apply (bool_decide_unpack _). vm_compute. exact I. Qed.
Lemma qq_prefix : "qq:group:" ∈ group_id_prefixes.
Proof. apply (bool_decide_unpack _). vm_compute. exact I. Qed.

Lemma CanonicalGroupID_shrinks s : CanonicalGroupID s = s \/ slen (CanonicalGroupID s) < slen s.
Proof.
  unfold CanonicalGroupID. pose proof (TrimSpace_le s) as H1. destruct (cut_any group_id_prefixes (TrimSpace s)) as [c|] eqn:E; cbn [default from_option id].
  - right. apply cut_any_shorter in E as [_ E]. pose proof (TrimSpace_le c). specialize (E no_empty_prefix). lia.
  - rewrite TrimSpace_idemp. destruct (decide (slen (TrimSpace s) = slen s)) as [Heq|]; [left; by apply TrimSpace_same_length|right; lia].
Qed.

Lemma settle_group_id_fixed fuel canon : slen canon < fuel -> CanonicalGroupID (settle_group_id fuel canon) = settle_group_id fuel canon.
Proof.
  revert canon. induction fuel as [|fuel IH]; intros canon Hf; [lia|]. cbn [settle_group_id]. case_decide as E; [done|]. apply IH.
  destruct (CanonicalGroupID_shrinks canon); [done|lia].
Qed.

(** The loop that strips the platform's prefixes off a group's identifier
    ends, however often they were put in front of each other, and what is left
    is canonical: canonicalising it once more, or deriving the directory from it,
    changes nothing. *)
Theorem canonical_group_id_settled platform groupID :
  let canon := canonicalPlatformGroupID platform groupID in
  CanonicalGroupID canon = canon /\ canonicalPlatformGroupID "qq" canon = canon /\ TrimSpace canon = canon.
Proof.
  cbn zeta. unfold canonicalPlatformGroupID at 1 3 4 6 7. cbn zeta. set (start := default _ _).
  pose proof (settle_group_id_fixed (S (slen start)) start ltac:(lia)) as Hc. set (canon := settle_group_id (S (slen start)) start) in *.
  assert (Ht : TrimSpace canon = canon) by (rewrite <- Hc; unfold CanonicalGroupID; apply TrimSpace_idemp).
  split; [done|]. split; [|done]. unfold canonicalPlatformGroupID. rewrite Ht.
  assert (Hcut : CutPrefix canon ("qq" +:+ ":group:") = None).
  { apply CutPrefix_None. intros r Hr. unfold CanonicalGroupID in Hc. rewrite Ht in Hc.
    destruct (cut_any group_id_prefixes canon) as [c|] eqn:E.
    - cbn [default from_option id] in Hc. apply cut_any_shorter in E as [_ E]. pose proof (TrimSpace_le c) as Hl. rewrite Hc in Hl.
      specialize (E no_empty_prefix). lia.
    - exact (cut_any_None _ _ _ r E qq_prefix Hr). }
  rewrite Hcut. cbn [default from_option id settle_group_id]. by rewrite decide_True.
Qed.

(** * Directories of different groups *)

Lemma hex_byte_spec b : exists x y, unnibble (nibble (nat_of_ascii b / 16)) = Some x /\ unnibble (nibble (nat_of_ascii b mod 16)) = Some y /\ byte_of (16 * x + y) = b.
Proof.
  enough (match unnibble (nibble (nat_of_ascii b / 16)), unnibble (nibble (nat_of_ascii b mod 16)) with
          | Some x, Some y => Ascii.eqb (byte_of (16 * x + y)) b | _, _ => false end = true) as Hb.
  { destruct (unnibble (nibble (nat_of_ascii b / 16))) as [x|], (unnibble (nibble (nat_of_ascii b mod 16))) as [y|]; try done.
    exists x, y. split; [done|]. split; [done|]. by apply Ascii.eqb_eq. }
  revert b. apply byte_forall. vm_compute. reflexivity.
Qed.

Lemma decode_encode l : decode_hex (concat (map hex_byte l)) = Some l.
Proof.
  induction l as [|b l IH]; [done|]. cbn [map concat hex_byte app decode_hex]. destruct (hex_byte_spec b) as (x & y & -> & -> & Hb).
  by rewrite IH, Hb.
Qed.

Lemma DecodeString_EncodeToString s : DecodeString (EncodeToString s) = Some s.
Proof. unfold DecodeString, EncodeToString. rewrite to_of_bytes, decode_encode. cbn. by rewrite of_to_bytes. Qed.

Definition word (s : string) : Prop := Forall (fun b => word_byte b = true) (to_bytes s).

Lemma word_app s t : word s -> word t -> word (s +:+ t).
Proof. unfold word. rewrite to_bytes_app, Forall_app. done. Qed.

(** Hexadecimal has no underscore. *)
Definition hex_digit_byte (b : ascii) : bool := in_range 48 57 b || in_range 97 102 b.
Lemma EncodeToString_hex s : Forall (fun b => hex_digit_byte b = true) (to_bytes (EncodeToString s)).
Proof.
  unfold EncodeToString. rewrite to_of_bytes. apply Forall_concat, Forall_map, Forall_forall. intros b _. cbn beta.
  enough (forallb hex_digit_byte (hex_byte b) = true) as Hb by (apply Forall_forall; intros c Hc; rewrite forallb_forall in Hb; by apply Hb, list_elem_of_In).
  revert b. apply byte_forall. vm_compute. reflexivity.
Qed.

Lemma hex_no_underscore s : "_"%char ∉ to_bytes (EncodeToString s).
Proof. intros Hin. by apply (proj1 (Forall_forall _ _) (EncodeToString_hex s)) in Hin. Qed.

Lemma EncodeToString_word s : word (EncodeToString s).
Proof.
  eapply Forall_impl; [apply EncodeToString_hex|]. intros b. unfold hex_digit_byte, word_byte. intros [Hd|Hd]%orb_true_iff.
  - by rewrite Hd, !orb_true_r.
  - assert (in_range 97 122 b = true) as ->; [|done]. unfold in_range in *. apply andb_true_iff in Hd as [H1%Nat.leb_le H2%Nat.leb_le].
    apply andb_true_iff. split; apply Nat.leb_le; lia.
Qed.

Lemma drop_while_incl {A} (p : A -> bool) l x : x ∈ drop_while p l -> x ∈ l.
Proof. intros Hx. rewrite <- (take_drop_while p l). apply elem_of_app. by right. Qed.

Lemma readable_prefix_word canon : word (readable_prefix canon).
Proof.
  unfold readable_prefix. case_match; [by repeat constructor|]. unfold word. rewrite to_of_bytes. apply Forall_forall. intros b Hb.
  assert (Hb' : b ∈ take 24 (map key_byte (runes canon))).
  { unfold trim_marks in Hb. apply list_elem_of_In in Hb. rewrite <- in_rev in Hb. apply list_elem_of_In, drop_while_incl, list_elem_of_In in Hb.
    rewrite <- in_rev in Hb. apply list_elem_of_In in Hb. by apply drop_while_incl in Hb. }
  apply elem_of_take in Hb' as (i & Hi & _). apply list_elem_of_lookup_2, list_elem_of_fmap in Hi as (r & -> & _). unfold key_byte.
  destruct r as [|a [|]]; try done. by destruct (word_byte a) eqn:E.
Qed.

Section directories.
Context `{LowerLaws} `{DigestLaws}.

Lemma CanonicalPlatform_idem p : CanonicalPlatform (CanonicalPlatform p) = CanonicalPlatform p.
Proof.
  assert (Hq : IsQQPlatform "qq" = true) by (vm_compute; reflexivity). unfold CanonicalPlatform. destruct (IsQQPlatform p) eqn:E; [by rewrite Hq|].
  assert (Ht : ToLower (TrimSpace (ToLower (TrimSpace p))) = ToLower (TrimSpace p)).
  { rewrite (TrimSpace_id (ToLower _)) by apply ToLower_trimmed, TrimSpace_trimmed. apply ToLower_idem. }
  assert (Hp : IsQQPlatform (ToLower (TrimSpace p)) = IsQQPlatform p) by (unfold IsQQPlatform; by rewrite Ht). by rewrite Hp, E, Ht.
Qed.

Lemma SafeGroupKey_word g : word (SafeGroupKey g).
Proof.
  unfold SafeGroupKey. case_decide; [by repeat constructor|]. repeat apply word_app; try (by repeat constructor); [apply readable_prefix_word|].
  apply digest16_hex.
Qed.

Lemma platform_of_key p g : CanonicalGroupID g <> "" -> jsonGroupPlatform (jsonGroupKey p g) = Some (CanonicalPlatform p).
Proof.
  intros Hg. unfold jsonGroupKey. case_decide as Eq.
  - rewrite Eq. unfold SafeGroupKey. rewrite decide_False by done. unfold jsonGroupPlatform, HasPrefix. by rewrite CutPrefix_app.
  - unfold jsonGroupPlatform. assert (Hpre : HasPrefix ("p_" +:+ EncodeToString (CanonicalPlatform p) +:+ "_" +:+ SafeGroupKey g) "g_" = false) by done.
    rewrite Hpre, CutPrefix_app. cbn [mbind option_bind]. unfold Cut. change "_" with (byte_string "_"%char).
    rewrite Index_byte by apply hex_no_underscore. cbn [mbind option_bind]. rewrite stake_app. cbn [mbind option_bind]. rewrite DecodeString_EncodeToString. cbn [mbind option_bind].
    rewrite bool_decide_false; [done|]. rewrite CanonicalPlatform_idem. intros [E|[E|E]]; [|done|done]. revert E. unfold CanonicalPlatform.
    destruct (IsQQPlatform p) eqn:Ep; [done|]. intros E. unfold IsQQPlatform in Ep. apply bool_decide_eq_false in Ep. by apply Ep; left.
Qed.

Lemma append_inj_l (s t u : string) : s +:+ t = s +:+ u -> t = u.
Proof. intros E. apply (f_equal to_bytes) in E. rewrite !to_bytes_app in E. apply app_inv_head in E. by apply (inj to_bytes). Qed.

(** Every group has a directory of its own, inside the directory of the
    groups.  A name has only letters, digits and underscores, so it is no path
    and no device; the platform can be read back from it; and two names are the
    same only if the platforms are, and the hashes of the canonical
    identifiers. *)
Theorem group_keys_separate p g p' g' : CanonicalGroupID g <> "" -> CanonicalGroupID g' <> "" ->
  word (jsonGroupKey p g) /\ jsonGroupPlatform (jsonGroupKey p g) = Some (CanonicalPlatform p) /\
  (jsonGroupKey p g = jsonGroupKey p' g' ->
   CanonicalPlatform p = CanonicalPlatform p' /\ digest16 (CanonicalGroupID g) = digest16 (CanonicalGroupID g')).
Proof.
  intros Hg Hg'. split; [|split; [by apply platform_of_key|]].
  - unfold jsonGroupKey. case_decide; [apply SafeGroupKey_word|]. repeat apply word_app; try (by repeat constructor); [apply EncodeToString_word|apply SafeGroupKey_word].
  - intros E. assert (Ep : CanonicalPlatform p = CanonicalPlatform p').
    { apply (f_equal jsonGroupPlatform) in E. rewrite !platform_of_key in E by done. by injection E. }
    split; [done|]. assert (Ek : SafeGroupKey g = SafeGroupKey g').
    { unfold jsonGroupKey in E. rewrite <- Ep in E. case_decide; [done|]. by apply append_inj_l, append_inj_l, append_inj_l in E. }
    unfold SafeGroupKey in Ek. rewrite !decide_False in Ek by done. apply (f_equal to_bytes) in Ek. rewrite !to_bytes_app, !(assoc_L (++)) in Ek.
    apply app_inj_2 in Ek as [_ Ed]; [by apply (inj to_bytes)|]. destruct (digest16_hex (CanonicalGroupID g)) as [-> _].
    by destruct (digest16_hex (CanonicalGroupID g')) as [-> _].
Qed.
End directories.

(** * Examples *)

Module KeysDemo.
#[local] Existing Instance ascii_case.

(** A digest with the shape of SHA-256's: the hexadecimal digits of the text,
    padded or cut to 16. *)
#[local] Instance text_digest : Digest := {| digest16 s := of_bytes (take 16 (concat (map hex_byte (to_bytes s)) ++ replicate 16 "0"%char)) |}.

Lemma text_digest_laws : DigestLaws.
Proof.
  constructor. intros s. unfold digest16, text_digest. rewrite to_of_bytes. split.
  - rewrite length_take, length_app, length_replicate. lia.
  - apply Forall_take, Forall_app. split; [|by repeat constructor].
    pose proof (EncodeToString_word s) as Hw. unfold word, EncodeToString in Hw. by rewrite to_of_bytes in Hw.
Qed.

Example settled_ex : canonicalPlatformGroupID "discord" " discord:group:qq:group: group:77 " = "77".
Proof. vm_compute. reflexivity. Qed.
Example key_ex : jsonGroupKey "aiocqhttp" "con" = "g_grp_636f6e0000000000" /\ jsonGroupKey "Discord" "../77" = "p_646973636f7264_g_77_2e2e2f3737000000".
Proof. vm_compute. split; reflexivity. Qed.

Lemma group_keys_separate_witness :
  CanonicalGroupID "group:77" <> "" /\ jsonGroupPlatform (jsonGroupKey "Discord" "group:77") = Some (CanonicalPlatform "Discord") /\
  (jsonGroupKey "Discord" "group:77" = jsonGroupKey "qq" "group:77" -> CanonicalPlatform "Discord" = CanonicalPlatform "qq").
Proof.
  split; [vm_compute; discriminate|].
  destruct (@group_keys_separate ascii_case ascii_lower_laws text_digest text_digest_laws "Discord" "group:77" "qq" "group:77") as (_ & Hp & Hs);
    [vm_compute; discriminate..|]. split; [exact Hp|]. intros E. apply (Hs E).
Defined.
End KeysDemo.
