(* ===== verification/Writer.v ===== *)
(** Drawing memories from conversations: [internal/memory/writer.go] and
    [grounding.go].

    A model proposes memories.  Of a private conversation its words are taken; of
    a group only quotes are, from a message that someone wrote, and a quote
    belongs to its author only if they speak about themselves in it. *)

From S2P Require Import Prelude GoStrings SessionKey SummaryStore SessionState Barrier Brain Catalog Reflector GroupBrain.
From Stdlib Require Import Ascii.

Local Open Scope string_scope.
Local Open Scope list_scope.

(** * Grounding *)

Definition MinEvidenceRunes : nat := 3.
Definition MaxEvidenceRunes : nat := 500.
Definition MaxSummaryRunes : nat := 500.

Definition ValidateEvidence (srcMsgContent evidence : string) : option string :=
  let evTrim := TrimSpace evidence in
  if bool_decide (evTrim = "") then None else
  let rCount := rune_count evTrim in
  if (rCount <? MinEvidenceRunes)%nat || (MaxEvidenceRunes <? rCount)%nat then None else
  if negb (Contains srcMsgContent evTrim) then None else Some evTrim.

Definition SanitizeSummary (summary : string) : string :=
  let sTrim := TrimSpace summary in
  if (MaxSummaryRunes <? rune_count sTrim)%nat then rune_take MaxSummaryRunes sTrim else sTrim.

(** The table [unicode.IsLetter]. *)
Class UnicodeLetter := { IsLetter : list ascii -> bool }.

Section grounding.
Context `{UnicodeCase} `{UnicodeLetter}.

(** The maximal runs of letters. *)
Fixpoint letter_fields (cur : list ascii) (rs : list (list ascii)) : list string :=
  match rs with
  | [] => if decide (cur = []) then [] else [of_bytes cur]
  | r :: rs =>
      if IsLetter r then letter_fields (cur ++ r) rs
      else (if decide (cur = []) then [] else [of_bytes cur]) ++ letter_fields [] rs
  end.

Definition HasSelfReference (evidence : string) : bool :=
  existsb (Contains evidence) ["我"; "俺"; "咱"; "自己"; "本人"] ||
  existsb (fun field => bool_decide (field ∈ ["i"; "me"; "my"; "myself"; "mine"])) (letter_fields [] (runes (ToLower evidence))).
End grounding.

(** * Answers *)

Record extractedEntry := { xe_Content : string; xe_Tags : list string; xe_Visibility : string }.

Record GroupMessage := {
  gm_MessageID : string;
  gm_SenderID : string;
  gm_Sender : string;
  gm_Role : string;
  gm_Content : string;
  gm_ImageDescription : string;
}.

Record groupExtractedCandidate := {
  gc_Content : string;
  gc_Evidence : string;
  gc_Summary : string;
  gc_Tags : list string;
  gc_SourceMsgIndex : option Z;
  gc_IsSelf : bool;
}.

Definition cancelled_error : error := "extraction cancelled or invalidated".
Definition ErrStorageUnavailable : error := "memory storage unavailable".

(** What a call of the model comes to. *)
Inductive extract_reply := XAnswered (content : option string) | XInputTooLong | XDisabled | XFailed (e : error).

(** ** Private conversations *)

Section private.
Context (Unmarshal : string -> res error (list extractedEntry)) `{CommitBarrier B}.

(** The context, the barrier and the validator are checked over and over:
    [xv_halted i] is the error of the [i]-th check, [None] to go on, and [xv_over]
    tells whether the context is over when a save has failed. *)
Record extract_env := { xv_halted : nat -> option error; xv_ids : nat -> string; xv_now : Z; xv_save : save_env; xv_over : bool }.

Definition extracted (env : extract_env) (owner ownerType : string) (n : nat) (e : extractedEntry) : MemoryEntry := {|
  me_ID := xv_ids env n; me_Owner := owner; me_OwnerType := ownerType; me_ScopeType := ""; me_GroupID := "";
  me_Content := xe_Content e; me_SummaryNeedsRefresh := false; me_Summary := ""; me_Evidence := ""; me_SourceMedia := "";
  me_SourceMessageID := ""; me_SourceSenderID := ""; me_Tags := xe_Tags e; me_Source := SourceExtract;
  me_Visibility := if decide (xe_Visibility e = "public") then VisibilityPublic else VisibilityPrivate;
  me_CreatedAt := xv_now env; me_UpdatedAt := xv_now env; me_AccessCount := 0; me_MergedFrom := [] |}.

(** [i] counts the checks, [n] the identifiers. *)
Fixpoint collect_entries (env : extract_env) (owner ownerType : string) (i n : nat) (l : list extractedEntry) : res error (list MemoryEntry) :=
  match l with
  | [] => Ok []
  | e :: l =>
      match xv_halted env i with
      | Some err => Err err
      | None =>
          if bool_decide (xe_Content e = "") then collect_entries env owner ownerType (S i) n l else
          match collect_entries env owner ownerType (S i) (S n) l with
          | Err err => Err err
          | Ok rest => Ok (extracted env owner ownerType n e :: rest)
          end
      end
  end.

Definition parseAndSave (env : extract_env) (owner ownerType raw : string) (barrier : option B) (f : brain_file)
    : option error * option B * brain_file :=
  let raw := unfence raw in
  if bool_decide (raw = "" \/ raw = "[]") then (None, barrier, f) else
  match Unmarshal raw with
  | Err e => (Some e, barrier, f)
  | Ok entries =>
      match xv_halted env 2 with
      | Some err => (Some err, barrier, f)
      | None =>
          match collect_entries env owner ownerType 3 0 entries with
          | Err err => (Some err, barrier, f)
          | Ok toSave =>
              let '(r, barrier, f) := SaveEntriesConditionallyContext (xv_save env) toSave barrier f in
              (match r with
               | None => None
               | Some e => Some (if bool_decide (e = ErrConditionFailed) || xv_over env then cancelled_error else e)
               end, barrier, f)
          end
      end
  end.

(** [meanwhile] is what others do to the file while the model answers. *)
Definition ExtractByOwnerWithRouteContext (configured : bool) (Chat : extract_reply) (meanwhile : brain_file -> brain_file)
    (env : extract_env) (owner ownerType : string) (barrier : option B) (f : brain_file) : option error * option B * brain_file :=
  match xv_halted env 0 with
  | Some err => (Some err, barrier, f)
  | None =>
      if negb configured then (None, barrier, f) else
      let f := meanwhile f in
      match Chat with
      | XInputTooLong | XDisabled => (None, barrier, f)
      | XFailed e => (Some e, barrier, f)
      | XAnswered content =>
          match xv_halted env 1 with
          | Some err => (Some err, barrier, f)
          | None =>
              match content with
              | None => (Some "unexpected response type", barrier, f)
              | Some raw => parseAndSave env owner (NormalizeOwnerType ownerType) raw barrier f
              end
          end
      end
  end.

(** A memory the user asked for. *)
Definition manual_entry (id owner ownerType content : string) (tags : list string) (now : Z) : MemoryEntry := {|
  me_ID := id; me_Owner := owner; me_OwnerType := NormalizeOwnerType ownerType; me_ScopeType := ""; me_GroupID := "";
  me_Content := content; me_SummaryNeedsRefresh := false; me_Summary := ""; me_Evidence := ""; me_SourceMedia := "";
  me_SourceMessageID := ""; me_SourceSenderID := ""; me_Tags := tags; me_Source := SourceManual; me_Visibility := VisibilityPrivate;
  me_CreatedAt := now; me_UpdatedAt := now; me_AccessCount := 0; me_MergedFrom := [] |}.

Definition WriteByOwner (fault : write_fault) (id owner ownerType content : string) (tags : list string) (now : Z) (f : brain_file)
    : option error * brain_file :=
  let env := {| sv_cancelled := false; sv_validator := None; sv_epoch := 0; sv_now := now; sv_fault := fault |} in
  let '(r, _, f) := SaveEntriesConditionallyContext env [manual_entry id owner ownerType content tags now] (None : option B) f in (r, f).
End private.

(** ** Groups *)

Section group.
Context `{UnicodeCase} `{UnicodeLetter} (Unmarshal : string -> res error (list groupExtractedCandidate)) `{CommitBarrier B} (s : GroupStore).

(** The evidence of a candidate, with the kind of its source. *)
Definition find_evidence (m : GroupMessage) (evidence : string) : option (string * string) :=
  match ValidateEvidence (gm_Content m) evidence with
  | Some e => Some (e, "")
  | None => match ValidateEvidence (gm_ImageDescription m) evidence with Some e => Some (e, SourceMediaImage) | None => None end
  end.

(** The message a candidate points to, unless the bot wrote it. *)
Definition source_message (messages : list GroupMessage) (c : groupExtractedCandidate) : option GroupMessage :=
  match gc_SourceMsgIndex c with
  | None => None
  | Some idx =>
      if (idx <? 0)%Z then None else
      match messages !! Z.to_nat idx with
      | Some m => if bool_decide (gm_Role m = "assistant") then None else Some m
      | None => None
      end
  end.

Definition candidate_entry (groupID source : string) (messages : list GroupMessage) (now : Z) (id : string) (c : groupExtractedCandidate)
    : option MemoryEntry :=
  let rawEvidence := TrimSpace (gc_Evidence c) in
  if bool_decide (rawEvidence = "") then None else
  match source_message messages c with
  | None => None
  | Some m =>
      match find_evidence m rawEvidence with
      | None => None
      | Some (evidence, media) =>
          let owner := if bool_decide (media = "") && gc_IsSelf c && negb (bool_decide (gm_SenderID m = "")) && HasSelfReference evidence
                       then gm_SenderID m else GroupOwnerExplicit in
          let summary := SanitizeSummary (gc_Summary c) in
          let summary := if bool_decide (summary = "") && negb (bool_decide (gc_Content c = "")) && negb (bool_decide (gc_Content c = evidence))
                         then SanitizeSummary (gc_Content c) else summary in
          Some {| me_ID := id; me_Owner := owner; me_OwnerType := "group"; me_ScopeType := ScopeGroup; me_GroupID := groupID;
                  me_Content := evidence; me_SummaryNeedsRefresh := false; me_Summary := summary; me_Evidence := evidence; me_SourceMedia := media;
                  me_SourceMessageID := gm_MessageID m; me_SourceSenderID := gm_SenderID m; me_Tags := SanitizeTags (gc_Tags c);
                  me_Source := if decide (source = "") then SourceExtract else source; me_Visibility := "";
                  me_CreatedAt := now; me_UpdatedAt := now; me_AccessCount := 0; me_MergedFrom := [] |}
      end
  end.

Record group_extract_env := { gx_halted : nat -> option error; gx_ids : nat -> string; gx_now : Z; gx_save : group_env B; gx_over : bool }.

Fixpoint collect_candidates (env : group_extract_env) (groupID source : string) (messages : list GroupMessage) (i n : nat)
    (l : list groupExtractedCandidate) : res error (list MemoryEntry) :=
  match l with
  | [] => Ok []
  | c :: l =>
      match gx_halted env i with
      | Some err => Err err
      | None =>
          match candidate_entry groupID source messages (gx_now env) (gx_ids env n) c with
          | None => collect_candidates env groupID source messages (S i) n l
          | Some e =>
              match collect_candidates env groupID source messages (S i) (S n) l with
              | Err err => Err err
              | Ok rest => Ok (e :: rest)
              end
          end
      end
  end.

Definition parseAndSaveGroupCandidates (env : group_extract_env) (groupID source : string) (messages : list GroupMessage) (raw : string)
    (barrier : option B) (f : brain_file) : option error * option B * brain_file :=
  let raw := unfence raw in
  if bool_decide (raw = "" \/ raw = "[]") then (None, barrier, f) else
  match Unmarshal raw with
  | Err e => (Some e, barrier, f)
  | Ok candidates =>
      match gx_halted env 2 with
      | Some err => (Some err, barrier, f)
      | None =>
          match collect_candidates env groupID source messages 3 0 candidates with
          | Err err => (Some err, barrier, f)
          | Ok toSave =>
              let '(r, _, barrier, f) := SaveGroupEntriesConditionallyContext s (gx_save env) toSave barrier f in
              (match r with
               | None => None
               | Some e => Some (if bool_decide (e = ErrConditionFailed) || gx_over env then cancelled_error
                                 else ErrStorageUnavailable +:+ ": save group memories: " +:+ e)
               end, barrier, f)
          end
      end
  end.

(** The model is shown the first 50 memories there are, and the messages. *)
Definition ExtractGroupMemories (configured : bool) (Chat : list string -> list GroupMessage -> extract_reply)
    (meanwhile : brain_file -> brain_file) (env : group_extract_env) (groupID source : string) (messages : list GroupMessage)
    (barrier : option B) (f : brain_file) : option error * option B * brain_file :=
  match gx_halted env 0 with
  | Some err => (Some err, barrier, f)
  | None =>
      if negb configured || bool_decide (groupID = "") || bool_decide (messages = []) then (None, barrier, f) else
      match GroupBrain.ListAll s f with
      | Err e => (Some (ErrStorageUnavailable +:+ ": read existing group memories: " +:+ e), barrier, f)
      | Ok existing =>
          let f := meanwhile f in
          match Chat (map me_Content (take 50 existing)) messages with
          | XInputTooLong | XDisabled => (None, barrier, f)
          | XFailed e => (Some e, barrier, f)
          | XAnswered content =>
              match gx_halted env 1 with
              | Some err => (Some err, barrier, f)
              | None =>
                  match content with
                  | None => (Some "unexpected response type", barrier, f)
                  | Some raw => parseAndSaveGroupCandidates env groupID source messages raw barrier f
                  end
              end
          end
      end
  end.

(** A turn of the bot: the user's messages are the speaker's. *)
Definition turn_message (speakerID speakerName : string) (m : string * string) : GroupMessage :=
  let user := bool_decide (m.1 = "user") in {|
  gm_MessageID := ""; gm_SenderID := if user then speakerID else ""; gm_Sender := if user then speakerName else ""; gm_Role := m.1;
  gm_Content := m.2; gm_ImageDescription := "" |}.

Definition ExtractGroupTurnWithRouteContext (configured : bool) (Chat : list string -> list GroupMessage -> extract_reply)
    (meanwhile : brain_file -> brain_file) (env : group_extract_env) (groupID speakerID speakerName : string) (messages : list (string * string))
    (barrier : option B) (f : brain_file) : option error * option B * brain_file :=
  ExtractGroupMemories configured Chat meanwhile env groupID SourceExtract (map (turn_message speakerID speakerName) messages) barrier f.
End group.

(** * What a group remembers was said *)

Section quotes.
Context `{UnicodeCase} `{UnicodeLetter} (Unmarshal : string -> res error (list groupExtractedCandidate)) `{CommitBarrier B} (s : GroupStore).
Implicit Types (e x y : MemoryEntry) (m : GroupMessage) (messages : list GroupMessage).

(** [e] quotes one of the messages that people wrote: its text, or the
    description of its image.  It is its author's only if the author speaks about
    themselves in the text; else it is the group's. *)
Definition quotes messages e : Prop := exists m, m ∈ messages /\ gm_Role m <> "assistant" /\ me_SourceMessageID e = gm_MessageID m /\
  MinEvidenceRunes <= rune_count (me_Content e) <= MaxEvidenceRunes /\
  (me_SourceMedia e = "" /\ Contains (gm_Content m) (me_Content e) = true \/
   me_SourceMedia e = SourceMediaImage /\ Contains (gm_ImageDescription m) (me_Content e) = true) /\
  (me_Owner e = GroupOwnerExplicit \/
   me_SourceMedia e = "" /\ HasSelfReference (me_Content e) = true /\ gm_SenderID m <> "" /\ me_Owner e = CanonicalOwner (gm_SenderID m)).

(** A memory that was there: only its owner may have become the group. *)
Definition kept_from (l : list MemoryEntry) x : Prop := exists y, y ∈ l /\ me_ID x = me_ID y /\ me_Content x = me_Content y /\
  me_Source x = me_Source y /\ (me_Owner x = me_Owner y \/ me_Owner x = GroupOwnerExplicit).

Lemma ValidateEvidence_spec src ev t : ValidateEvidence src ev = Some t ->
  MinEvidenceRunes <= rune_count t <= MaxEvidenceRunes /\ Contains src t = true.
Proof.
  unfold ValidateEvidence. case_bool_decide; [done|]. destruct (_ || _) eqn:Ec; [done|]. apply orb_false_iff in Ec as [Hl Hh].
  apply Nat.ltb_ge in Hl, Hh. destruct (Contains _ _) eqn:Eq; [|done]. intros [= <-]. done.
Qed.

(** [e] with the owner it is stored under. *)
Definition quotes_raw messages e : Prop := me_Owner e <> "" /\ quotes messages (owned_by (CanonicalOwner (me_Owner e)) e).

Lemma candidate_quotes groupID source messages now id c e : candidate_entry groupID source messages now id c = Some e ->
  quotes_raw messages e /\ me_Source e = (if decide (source = "") then SourceExtract else source).
Proof.
  unfold candidate_entry. case_bool_decide; [done|]. destruct (source_message messages c) as [m|] eqn:Em; [|done].
  destruct (find_evidence m _) as [[ev media]|] eqn:Ef; [|done]. intros [= <-]. split; [|done].
  assert (Hm : m ∈ messages /\ gm_Role m <> "assistant").
  { unfold source_message in Em. destruct (gc_SourceMsgIndex c) as [idx|]; [|done]. destruct (idx <? 0)%Z; [done|].
    destruct (messages !! Z.to_nat idx) as [m'|] eqn:El; [|done]. case_bool_decide; [done|]. injection Em as ->. split; [by eapply list_elem_of_lookup_2|done]. }
  destruct Hm as [Hm Hrole]. assert (Hev : MinEvidenceRunes <= rune_count ev <= MaxEvidenceRunes /\
    (media = "" /\ Contains (gm_Content m) ev = true \/ media = SourceMediaImage /\ Contains (gm_ImageDescription m) ev = true)).
  { unfold find_evidence in Ef. destruct (ValidateEvidence (gm_Content m) _) as [e1|] eqn:E1.
    - injection Ef as -> <-. apply ValidateEvidence_spec in E1 as [? ?]. split; [done|by left].
    - destruct (ValidateEvidence (gm_ImageDescription m) _) as [e2|] eqn:E2; [|done]. injection Ef as -> <-. apply ValidateEvidence_spec in E2 as [? ?].
      split; [done|by right]. }
  destruct Hev as [Hlen Hsrc]. unfold quotes_raw. cbn [me_Owner]. destruct (bool_decide (media = "") && _ && _ && _) eqn:Eown.
  - rewrite !andb_true_iff, negb_true_iff, bool_decide_eq_true, bool_decide_eq_false in Eown. destruct Eown as [[[Hmed _] Hs] Hself].
    split; [done|]. exists m. do 3 (split; [done|]). split; [exact Hlen|]. split; [exact Hsrc|]. by right.
  - split; [done|]. exists m. do 3 (split; [done|]). split; [exact Hlen|]. split; [exact Hsrc|]. left. vm_compute. reflexivity.
Qed.

Lemma collect_quotes env groupID source messages i n l es : collect_candidates (B := B) env groupID source messages i n l = Ok es ->
  Forall (fun e => quotes_raw messages e /\ me_Source e = (if decide (source = "") then SourceExtract else source)) es.
Proof.
  revert i n es. induction l as [|c l IH]; intros i n es; cbn [collect_candidates]; [intros [= <-]; constructor|].
  destruct (gx_halted env i); [done|]. destruct (candidate_entry _ _ _ _ _ c) as [e|] eqn:Ec; [|by apply IH].
  destruct (collect_candidates _ _ _ _ _ _ l) as [rest|] eqn:Er; [|done]. intros [= <-]. constructor; [by eapply candidate_quotes|by eapply IH].
Qed.

(** What is in the store after a batch of quotes. *)
Definition accounted (l0 : list MemoryEntry) messages (source : string) x : Prop := kept_from l0 x \/ quotes messages x /\ me_Source x = source.

Lemma absorbed_accounted l0 messages source now inc x : accounted l0 messages source x -> me_SourceMessageID inc = me_SourceMessageID x \/ me_SourceMessageID x <> "" ->
  accounted l0 messages source (absorbed now inc x).
Proof.
  intros Hacc Hid. assert (Hmsg : me_SourceMessageID (absorbed now inc x) = me_SourceMessageID x).
  { cbn. unfold or_else. case_decide as E; [|done]. destruct Hid as [Hid|Hid]; congruence. }
  assert (Howner : me_Owner (absorbed now inc x) = me_Owner x \/ me_Owner (absorbed now inc x) = GroupOwnerExplicit).
  { cbn. destruct (_ && _); auto. }
  destruct Hacc as [(y & Hy & Eid & Ec & Es & Eo)|[(m & Hm & Hr & Ei & Hl & Hsrc & Ho) Es]].
  - left. exists y. split_and!; try done. destruct Howner as [->|]; auto.
  - right. split; [|done]. exists m. rewrite Hmsg. split_and!; try done; try apply Hl. destruct Howner as [->| ->]; auto.
Qed.

Lemma place_accounted (env : group_env B) l0 messages source l n e l' n' e' : quotes_raw messages e -> me_Source e = source ->
  (forall x, x ∈ l -> accounted l0 messages source x) -> place s env l n e = (l', n', e') ->
  forall x, x ∈ l' -> accounted l0 messages source x.
Proof.
  intros [Hne Hq] Hsrc Hl. unfold place. destruct (find_index _ l) as [i|] eqn:Ei.
  - intros [= <- _ _] x [j Hj]%list_elem_of_lookup. apply find_index_Some in Ei as (y & Hy & Hsame & _).
    destruct (decide (i = j)) as [->|]; [|rewrite list_lookup_alter_ne in Hj by done; apply Hl; by eapply list_elem_of_lookup_2].
    rewrite list_lookup_alter_eq, Hy in Hj. injection Hj as <-. apply absorbed_accounted; [apply Hl; by eapply list_elem_of_lookup_2|].
    destruct (decide (me_SourceMessageID y = "")) as [Ey|]; [left|by right]. revert Hsame. unfold isSameGroupMemory.
    rewrite (bool_decide_true (me_SourceMessageID y = "")) by done. cbn [negb andb]. repeat case_match; try done. intros _. 
    match goal with H : bool_decide (me_SourceMessageID (prepared _ _ _) = "") = true |- _ => apply bool_decide_eq_true in H; cbn in H |- *; congruence end.
  - assert (Hnew : forall y, quotes messages y -> me_Source y = source -> accounted l0 messages source y) by (intros; by right).
    assert (Hy : forall y, me_Owner y = me_Owner (prepared s (ge_now env) e) -> alike y e -> quotes messages y).
    { intros y Ho (E1 & E2 & E3 & E4 & E5). destruct Hq as (m & Hm & Hr & Ei' & Hlen & Hs & Hown). exists m. rewrite Ho, E1, E3, E5.
      cbn [prepared me_Owner]. rewrite decide_False by done. cbn in *. done. }
    case_decide; intros [= <- _ _] x [?|E%list_elem_of_singleton]%elem_of_app; try (by apply Hl); subst x; apply Hnew; try done; by apply Hy.
Qed.

Lemma place_all_accounted (env : group_env B) l0 messages source l n es l' placed :
  Forall (fun e => quotes_raw messages e /\ me_Source e = source) es -> (forall x, x ∈ l -> accounted l0 messages source x) ->
  place_all s env l n es = (l', placed) -> forall x, x ∈ l' -> accounted l0 messages source x.
Proof.
  intros Hes. revert l n l' placed. induction Hes as [|e es [Hq Hs] _ IH]; intros l n l' placed Hl; cbn [place_all]; [intros [= <- _]; exact Hl|].
  destruct (place s env l n e) as [[l1 n1] e1] eqn:E1. destruct (place_all s env l1 n1 es) as [l2 placed2] eqn:E2. intros [= <- _].
  eapply IH; [|exact E2]. eapply place_accounted; [exact Hq|exact Hs|exact Hl|exact E1].
Qed.

Lemma accounted_old l messages source x : x ∈ l -> accounted l messages source x.
Proof. intros Hx. left. exists x. split_and!; auto. Qed.

(** C21: whatever the model answers, a group remembers only what was said.  What
    an extraction leaves in the store is what was there, with the same content,
    or a verbatim quote of 3 to 500 runes from one of the messages that people
    (not the bot) wrote, or from the description of such a message's image; and
    a quote is the personal memory of nobody but the author of that message, and
    of them only if they speak of themselves in its text. *)
Theorem groups_remember_quotes configured Chat meanwhile env groupID source messages barrier f r ob f' b :
  ExtractGroupMemories Unmarshal s configured Chat meanwhile env groupID source messages barrier f = (r, ob, f') ->
  loadMemoryLocked s (meanwhile f) = Ok b ->
  f' = f \/ f' = meanwhile f \/ exists b', f' = BrainDecoded b' /\ MergeArchives b' = MergeArchives b /\ forall x, x ∈ Entries b' ->
    kept_from (Entries b) x \/ quotes messages x /\ me_Source x = (if decide (source = "") then SourceExtract else source).
Proof.
  intros Hx Hb. unfold ExtractGroupMemories in Hx. destruct (gx_halted env 0); [injection Hx as _ _ <-; by left|].
  destruct (_ || _); [injection Hx as _ _ <-; by left|]. destruct (GroupBrain.ListAll s f) as [existing|]; [|injection Hx as _ _ <-; by left].
  right. destruct (Chat _ messages) as [content| | |]; try (injection Hx as _ _ <-; by left).
  destruct (gx_halted env 1); [injection Hx as _ _ <-; by left|]. destruct content as [raw|]; [|injection Hx as _ _ <-; by left].
  unfold parseAndSaveGroupCandidates in Hx. case_bool_decide; [injection Hx as _ _ <-; by left|]. destruct (Unmarshal (unfence raw)) as [cs|]; [|injection Hx as _ _ <-; by left].
  destruct (gx_halted env 2); [injection Hx as _ _ <-; by left|]. destruct (collect_candidates _ _ _ _ _ _ cs) as [es|] eqn:Ec; [|injection Hx as _ _ <-; by left].
  apply collect_quotes in Ec. destruct (SaveGroupEntriesConditionallyContext s (gx_save env) es barrier (meanwhile f)) as [[[r1 placed] ob1] f1] eqn:Es.
  injection Hx as _ _ <-. destruct (save_cases _ _ _ _ _ _ _ _ _ Es) as [[_ ->]|[[_ ->]|(_ & b' & l & Hb' & Hp & ->)]]; [by left|by left|]. right.
  assert (b' = b) as -> by congruence. eexists. split; [reflexivity|]. split; [done|]. cbn [Entries on_entries].
  eapply place_all_accounted; [exact Ec| |exact Hp]. intros x Hin. by apply accounted_old.
Qed.
End quotes.

(** * Examples *)

Module WriterDemo.
Import GroupBrain.GroupDemo.
#[local] Existing Instance ascii_case.
#[local] Instance ascii_letters : UnicodeLetter := {|
  IsLetter r := match r with [a] => in_range 65 90 a || in_range 97 122 a | _ => false end |}.

Definition said : list GroupMessage := [
  {| gm_MessageID := "5"; gm_SenderID := "7"; gm_Sender := "Ann"; gm_Role := "user"; gm_Content := "well, I love green tea!"; gm_ImageDescription := "" |};
  {| gm_MessageID := ""; gm_SenderID := ""; gm_Sender := ""; gm_Role := "assistant"; gm_Content := "Tea is great"; gm_ImageDescription := "" |};
  {| gm_MessageID := "6"; gm_SenderID := "8"; gm_Sender := "Bob"; gm_Role := "user"; gm_Content := "look"; gm_ImageDescription := "my cat on a table" |}].

Definition candidate (evidence : string) (idx : Z) : groupExtractedCandidate :=
  {| gc_Content := ""; gc_Evidence := evidence; gc_Summary := "about tea"; gc_Tags := ["tea"; " tea"]; gc_SourceMsgIndex := Some idx; gc_IsSelf := true |}.

(** A quote, an invention, a quote of the bot, an image, and a message that does
    not exist. *)
Definition candidates : list groupExtractedCandidate :=
  [candidate "I love green tea" 0; candidate "I hate coffee" 0; candidate "Tea is great" 1; candidate "my cat" 2; candidate "tea" 3].

Definition env : group_extract_env (B := groupDistillationBarrier) := {|
  gx_halted := fun _ => None; gx_ids := fun n => "mem_" +:+ pretty n; gx_now := 9; gx_save := at_time 9; gx_over := false |}.
Definition extracted := ExtractGroupMemories (fun _ => Ok candidates) group true (fun _ _ => XAnswered (Some "[...]")) id env "100" "" said (Some gb0) (BrainDecoded old).

Example extracted_ex : extracted.1.1 = None /\
  match extracted.2 with
  | BrainDecoded b => map (fun e => (me_Owner e, me_Content e, me_SourceMedia e)) (Entries b) =
      [("7", "we meet at noon", ""); ("7", "I love green tea", ""); ("group", "my cat", "image")]
  | _ => False
  end.
Proof. vm_compute. split; reflexivity. Qed.

Lemma groups_remember_quotes_witness : extracted.1.1 = None /\
  (extracted.2 = BrainDecoded old \/ extracted.2 = BrainDecoded old \/
   exists b', extracted.2 = BrainDecoded b' /\ MergeArchives b' = MergeArchives old /\ forall x, x ∈ Entries b' ->
     kept_from (Entries old) x \/ quotes said x /\ me_Source x = SourceExtract).
Proof.
  split; [vm_compute; reflexivity|].
  refine (groups_remember_quotes (fun _ => Ok candidates) group true (fun _ _ => XAnswered (Some "[...]")) id env "100" "" said (Some gb0) (BrainDecoded old)
    extracted.1.1 extracted.1.2 extracted.2 old _ _); vm_compute; reflexivity.
Defined.
End WriterDemo.
