(* ===== verification/Interact.v ===== *)
(** Programs that talk to their environment, and how to reason about them.

    The model loop asks a language model, runs tools, queries sessions and
    sends messages.  It is modelled as a tree: each node is a request and
    branches over the answers.  A run is a path; an observation is a request
    with its answer.  The logic below is of the rely-guarantee kind: what the
    environment may answer, and what the program may ask, given the past. *)

From S2P Require Import Prelude.

(** * Programs *)

Section prog.
Context {E : Type -> Type}.

Inductive prog (A : Type) : Type :=
  | Ret (a : A)
  | Do {X : Type} (e : E X) (k : X -> prog A).
Arguments Ret {A} a.
Arguments Do {A X} e k.

Fixpoint bind {A B} (p : prog A) (f : A -> prog B) : prog B :=
  match p with Ret a => f a | Do e k => Do e (fun x => bind (k x) f) end.

Definition call {X} (e : E X) : prog X := Do e Ret.
End prog.
Arguments prog E A : clear implicits.
Arguments Ret {E A} a.
Arguments Do {E A X} e k.

Notation "'do!' x ':=' p 'in' k" := (bind p (fun x => k)) (at level 10, x pattern, p at level 100, k at level 200) : frost_scope.

(** * Runs *)

Section runs.
Context {E : Type -> Type} {O : Type} (note : forall X, E X -> X -> O).

(** A path through a program; it may be cut off where the environment does not
    answer. *)
Inductive runs {A} : prog E A -> list O -> option A -> Prop :=
  | runs_ret a : runs (Ret a) [] (Some a)
  | runs_cut p : runs p [] None
  | runs_do X (e : E X) k x tr r : runs (k x) tr r -> runs (Do e k) (note X e x :: tr) r.

(** The run in an environment that keeps a state. *)
Fixpoint execute {A S} (answer : forall X, E X -> S -> X * S) (p : prog E A) (s : S) : list O * A :=
  match p with
  | Ret a => ([], a)
  | Do e k => let '(x, s) := answer _ e s in let '(tr, a) := execute answer (k x) s in (note _ e x :: tr, a)
  end.

Lemma execute_runs {A S} (answer : forall X, E X -> S -> X * S) (p : prog E A) s :
  runs p (execute answer p s).1 (Some (execute answer p s).2).
Proof.
  revert s. induction p as [a|X e k IH]; intros s; cbn [execute]; [constructor|].
  destruct (answer X e s) as [x s']. specialize (IH x s'). destruct (execute answer (k x) s') as [tr a]. by constructor.
Qed.

(** [always P past tr]: after [past], each observation of [tr] satisfies [P] of
    what came before it. *)
Fixpoint always (P : list O -> O -> Prop) (past tr : list O) : Prop :=
  match tr with [] => True | o :: tr => P past o /\ always P (past ++ [o]) tr end.

Lemma always_spec P past tr : always P past tr <-> forall pre o post, tr = pre ++ o :: post -> P (past ++ pre) o.
Proof.
  revert past. induction tr as [|o tr IH]; intros past; cbn [always].
  - split; [|done]. by intros _ [|??] ?? [=].
  - rewrite IH. split.
    + intros [Ho Htr] [|o' pre] o'' post [= <- ->]; [by rewrite app_nil_r|]. rewrite cons_middle, app_assoc. by eapply Htr.
    + intros H. split; [specialize (H [] o tr eq_refl); by rewrite app_nil_r in H|]. intros pre o' post ->.
      rewrite <- app_assoc. by eapply (H (o :: pre)).
Qed.

Lemma always_app P past tr1 tr2 : always P past (tr1 ++ tr2) <-> always P past tr1 /\ always P (past ++ tr1) tr2.
Proof.
  revert past. induction tr1 as [|o tr1 IH]; intros past; cbn [always app]; [rewrite app_nil_r; tauto|].
  rewrite IH, <- app_assoc. cbn [app]. tauto.
Qed.

Lemma always_mono (P Q : list O -> O -> Prop) past tr : (forall pre o, P pre o -> Q pre o) -> always P past tr -> always Q past tr.
Proof. intros H. revert past. induction tr as [|o tr IH]; intros past; cbn [always]; [done|]. intros [? ?]; split; [by apply H|by apply IH]. Qed.

Lemma always_true past tr : always (fun _ _ => True) past tr.
Proof. revert past. induction tr as [|o tr IH]; intros past; [done|]. split; [done|apply IH]. Qed.

(** ** Harmless programs *)

(** Whatever is answered, the program asks only what is [safe], and ends in [P]. *)
Fixpoint emits (safe : O -> Prop) {A} (p : prog E A) (P : A -> Prop) : Prop :=
  match p with Ret a => P a | Do e k => forall x, safe (note _ e x) /\ emits safe (k x) P end.

Lemma emits_bind safe {A B} (p : prog E A) (f : A -> prog E B) (P : B -> Prop) :
  emits safe p (fun a => emits safe (f a) P) -> emits safe (bind p f) P.
Proof. induction p as [a|X e k IH]; cbn [emits bind]; [done|]. intros Hp x. destruct (Hp x). split; [done|by apply IH]. Qed.

Lemma emits_mono safe {A} (p : prog E A) (P Q : A -> Prop) : (forall a, P a -> Q a) -> emits safe p P -> emits safe p Q.
Proof. intros HQ. induction p as [a|X e k IH]; cbn [emits]; [apply HQ|]. intros Hp x. destruct (Hp x). split; [done|by apply IH]. Qed.

Lemma emits_cut safe {A B} (p : prog E A) (f : A -> prog E B) (R : A -> Prop) (P : B -> Prop) :
  emits safe p R -> (forall a, R a -> emits safe (f a) P) -> emits safe (bind p f) P.
Proof. intros Hp Hf. apply emits_bind. eapply emits_mono; [|exact Hp]. exact Hf. Qed.

(** ** The logic *)

Section logic.
Context (rely guarantee : list O -> O -> Prop).

(** After [past], whatever the environment answers within [rely], the program
    keeps to [guarantee] and ends in [Q]. *)
Fixpoint wp {A} (p : prog E A) (Q : list O -> A -> Prop) (past : list O) : Prop :=
  match p with
  | Ret a => Q past a
  | Do e k => forall x, rely past (note _ e x) -> guarantee past (note _ e x) /\ wp (k x) Q (past ++ [note _ e x])
  end.

Lemma wp_mono {A} (p : prog E A) (Q R : list O -> A -> Prop) past : (forall tr a, Q tr a -> R tr a) -> wp p Q past -> wp p R past.
Proof.
  intros HQ. revert past. induction p as [a|X e k IH]; intros past; cbn [wp]; [apply HQ|].
  intros Hp x Hx. destruct (Hp x Hx) as [Hg Hk]. split; [done|by apply IH].
Qed.

Lemma wp_bind {A B} (p : prog E A) (f : A -> prog E B) Q past :
  wp p (fun past a => wp (f a) Q past) past -> wp (bind p f) Q past.
Proof.
  revert past. induction p as [a|X e k IH]; intros past; cbn [wp bind]; [done|].
  intros Hp x Hx. destruct (Hp x Hx) as [Hg Hk]. split; [done|by apply IH].
Qed.

(** A lemma about the first half of a program. *)
Lemma wp_cut {A B} (p : prog E A) (f : A -> prog E B) (R : list O -> A -> Prop) Q past :
  wp p R past -> (forall past a, R past a -> wp (f a) Q past) -> wp (bind p f) Q past.
Proof. intros Hp Hf. apply wp_bind. eapply wp_mono; [|exact Hp]. intros tr a. apply Hf. Qed.

(** A harmless part is passed over. *)
Lemma wp_emits {A} safe (p : prog E A) (P : A -> Prop) Q past : emits safe p P -> (forall past o, safe o -> guarantee past o) ->
  (forall tr a, Forall safe tr -> P a -> Q (past ++ tr) a) -> wp p Q past.
Proof.
  intros Hp Hg. revert past. induction p as [a|X e k IH]; intros past HQ; cbn [wp emits] in *.
  - specialize (HQ [] a). rewrite app_nil_r in HQ. by apply HQ.
  - intros x _. destruct (Hp x) as [Hs Hk]. split; [by apply Hg|]. apply IH; [done|]. intros tr a Htr Ha.
    rewrite <- app_assoc. apply HQ; [by constructor|done].
Qed.

(** What happened stays in the past. *)
Lemma wp_grow {A} (p : prog E A) Q past : wp p Q past -> wp p (fun past' a => Q past' a /\ exists tr, past' = past ++ tr) past.
Proof.
  revert past. induction p as [a|X e k IH]; intros past; cbn [wp].
  - intros HQ. split; [done|]. exists []. by rewrite app_nil_r.
  - intros Hp x Hx. destruct (Hp x Hx) as [Hg Hk]. split; [done|]. eapply wp_mono; [|by apply IH].
    intros past' a [HQ [tr ->]]. split; [done|]. eexists. by rewrite <- app_assoc.
Qed.

Lemma wp_sound {A} (p : prog E A) Q past tr r : wp p Q past -> runs p tr r -> always rely past tr ->
  always guarantee past tr /\ (forall a, r = Some a -> Q (past ++ tr) a).
Proof.
  intros Hp Hr. revert past Hp. induction Hr as [a|p|X e k x tr r Hr IH]; intros past; cbn [wp always].
  - intros HQ _. split; [done|]. intros ? [= <-]. by rewrite app_nil_r.
  - intros _ _. by split.
  - intros Hp [Hx Htr]. destruct (Hp x Hx) as [Hg Hk]. destruct (IH _ Hk Htr) as [? HQ]. split; [done|].
    intros a Ha. specialize (HQ a Ha). by rewrite <- app_assoc in HQ.
Qed.
End logic.
End runs.

Arguments wp {E O} note rely guarantee {A} p Q past.
