(* ===== verification/Sticker.v ===== *)
(** Stickers: [internal/llm/sticker_activity.go], [sticker_pair.go],
    [proactive_sticker.go], and [activity.go] and [message.go] of
    [internal/sticker].

    An instance can be made to send a sticker every so many turns.  The counter
    is shared by its conversations; every access locks it, so that an operation
    here is what happens under the lock. *)

From S2P Require Import Prelude GoStrings SessionKey SummaryStore.
From Stdlib Require Import Ascii QArith.

Local Open Scope string_scope.
Local Open Scope list_scope.

(** * Configuration *)

(** [strconv.Atoi]: a sign, decimal digits, and no more than an [int64]. *)
Definition digit_value (b : ascii) : option Z :=
  if in_range 48 57 b then Some (Z.of_nat (nat_of_ascii b) - 48)%Z else None.

Fixpoint read_digits (acc : Z) (l : list ascii) : option Z :=
  match l with [] => Some acc | b :: l => d ← digit_value b; read_digits (acc * 10 + d)%Z l end.

Definition Atoi (s : string) : option Z :=
  let '(negative, digits) := match to_bytes s with
    | b :: l => if bool_decide (b = byte_of 45) then (true, l) else if bool_decide (b = byte_of 43) then (false, l) else (false, b :: l)
    | [] => (false, []) end in
  if bool_decide (digits = []) then None else
  n ← read_digits 0 digits;
  let n := if negative : bool then (- n)%Z else n in
  if (- 2 ^ 63 <=? n)%Z && (n <? 2 ^ 63)%Z then Some n else None.

Definition ActivityBotTurns : string := "bot_turns".
Definition ActivityAllMessages : string := "all_messages".

Definition ConfirmEnabled (raw : string) : bool := bool_decide (raw = "true").

Definition ActivityMode (raw : string) : string :=
  if decide (raw = ActivityAllMessages) then ActivityAllMessages else ActivityBotTurns.

Definition ActivityLevel (raw : string) : Z :=
  match Atoi raw with Some level => if (level <? 0)%Z || (10 <? level)%Z then 0%Z else level | None => 0%Z end.

Definition ActivityInterval (level : Z) : Z := if (level <? 1)%Z || (10 <? level)%Z then 0%Z else ((11 - level) * 5)%Z.

(** * The counter *)

Record stickerActivityState := { sa_level : Z; sa_mode : string; sa_sinceSticker : Z; sa_grace : Z }.

(** The configuration as the environment has it: [STICKER_ACTIVITY] and
    [STICKER_ACTIVITY_MODE]. *)
Record sticker_config := { cfg_activity : string; cfg_mode : string }.

Definition applyConfig (cfg : sticker_config) (s : stickerActivityState) : stickerActivityState :=
  let level := ActivityLevel (cfg_activity cfg) in
  let mode := ActivityMode (cfg_mode cfg) in
  if bool_decide (sa_level s = level /\ sa_mode s = mode) then s
  else {| sa_level := level; sa_mode := mode; sa_sinceSticker := 0; sa_grace := 0 |}.

Definition stickerActivitySnapshot (cfg : sticker_config) (s : stickerActivityState) : Z * Z * Z * stickerActivityState :=
  let s := applyConfig cfg s in
  let interval := ActivityInterval (sa_level s) in
  if (interval =? 0)%Z then (0, 0, 0, s)%Z else (interval, Z.max 0 (interval - sa_sinceSticker s), sa_grace s, s)%Z.

Definition recordStickerTurn (mode : string) (cfg : sticker_config) (s : stickerActivityState) : stickerActivityState :=
  let s := applyConfig cfg s in
  let interval := ActivityInterval (sa_level s) in
  if (0 <? interval)%Z && bool_decide (sa_mode s = mode)
  then {| sa_level := sa_level s; sa_mode := sa_mode s; sa_sinceSticker := Z.min interval (sa_sinceSticker s + 1); sa_grace := sa_grace s |}
  else s.

Definition RecordIncomingMessage : sticker_config -> stickerActivityState -> stickerActivityState := recordStickerTurn ActivityAllMessages.
Definition RecordBotTurn : sticker_config -> stickerActivityState -> stickerActivityState := recordStickerTurn ActivityBotTurns.

Definition RecordBotMessage (isSticker : bool) (cfg : sticker_config) (s : stickerActivityState) : stickerActivityState :=
  let s := applyConfig cfg s in
  if (sa_level s =? 0)%Z then s else
  if isSticker then {| sa_level := sa_level s; sa_mode := sa_mode s; sa_sinceSticker := 0; sa_grace := 0 |}
  else if (0 <? sa_grace s)%Z
       then {| sa_level := sa_level s; sa_mode := sa_mode s; sa_sinceSticker := sa_sinceSticker s; sa_grace := sa_grace s - 1 |}
       else s.

Definition grantStickerGrace (cfg : sticker_config) (s : stickerActivityState) : stickerActivityState :=
  let s := applyConfig cfg s in
  if (0 <? sa_level s)%Z then {| sa_level := sa_level s; sa_mode := sa_mode s; sa_sinceSticker := sa_sinceSticker s; sa_grace := 2 |} else s.

(** What a snapshot says. *)
Definition sticker_due (snapshot : Z * Z * Z) : bool :=
  let '(interval, remaining, grace) := snapshot in (0 <? interval)%Z && (remaining =? 0)%Z && (grace =? 0)%Z.

Definition stickerActivityPrompt (cfg : sticker_config) (snapshot : Z * Z * Z) : string :=
  let '(interval, remaining, grace) := snapshot in
  if (interval =? 0)%Z then "" else
  if (0 <? grace)%Z then "表情包发送约束已放宽，还剩 " +:+ pretty grace +:+ " 轮回复。" else
  let unit := if decide (ActivityMode (cfg_mode cfg) = ActivityAllMessages) then "条传入消息" else "个 Bot 对话轮次" in
  "你的表情包发送积极性被设定，FrostAgent 强制你在还剩 " +:+ pretty remaining +:+ " " +:+ unit +:+ "之内发送一个表情。".

(** * Messages *)

(** What [json.Unmarshal] makes of a value of type [any]. *)
Inductive json_any := JNull | JBool (b : bool) | JNumber (q : Q) | JString (s : string) | JComposite.

Definition IsImageSubType (value : json_any) : bool :=
  match value with
  | JNumber q => Qeq_bool q 1
  | JString s => bool_decide (TrimSpace s = "1")
  | _ => false
  end.

Section messages.
Context `{UnicodeCase}.

Definition IsMessageType (msgType : string) : bool :=
  let t := ToLower (TrimSpace msgType) in bool_decide (t = "mface" \/ t = "sticker").

Definition IsMessage (msgType : string) (isSticker : bool) (subTypes : list json_any) : bool :=
  isSticker || IsMessageType msgType || bool_decide (msgType = "image") && existsb IsImageSubType subTypes.
End messages.

(** The fields of a component that mark it as a sticker: its type, the markers
    [is_sticker] of the component and of its data, and the four subtypes. *)
Record component := { cp_Type : string; cp_IsSticker : bool; cp_DataSticker : bool; cp_SubTypes : list json_any }.

(** The JSON of outbound messages: the envelope's message chain as raw values,
    one such value, the chain with the type and marker of each component (which
    fails where they have other types), the envelope with another chain, and an
    envelope around a chain. *)
Class MessageJSON := {
  raw_messages : string -> option (list string);
  raw_component : string -> option component;
  typed_messages : string -> option (list (string * bool));
  with_messages : string -> list string -> option string;
  envelope : list string -> string;
}.

Section payloads.
Context `{UnicodeCase} `{MessageJSON}.

Definition hasStickerImage (content : string) : bool :=
  match typed_messages content with
  | None => false
  | Some l => existsb (fun m => bool_decide (m.1 = "image") && m.2) l
  end.

Definition is_sticker_component (raw : string) : bool :=
  match raw_component raw with
  | None => false
  | Some c => IsMessage (cp_Type c) (cp_IsSticker c || cp_DataSticker c) (cp_SubTypes c)
  end.

(** The content without stickers, and whether any was removed. *)
Definition filterStickerMessages (content : string) : string * bool :=
  match raw_messages content with
  | None => (content, false)
  | Some messages =>
      let kept := filter (fun raw => is_sticker_component raw = false) messages in
      if (length kept =? length messages)%nat then (content, false) else
      if bool_decide (kept = []) then ("", true) else
      match with_messages content kept with None => (content, false) | Some filtered => (filtered, true) end
  end.

Definition MaxToolOutputBytes : Z := 65536.

Definition combineStickerPairPayloads (textPayload stickerPayload : string) : res error string :=
  match raw_messages textPayload with
  | None | Some [] => Err "文字消息无效"
  | Some texts =>
      match raw_messages stickerPayload with
      | Some [sticker] =>
          if hasStickerImage stickerPayload then
            let data := envelope (texts ++ [sticker]) in
            if (MaxToolOutputBytes <? Z.of_nat (slen data))%Z then Err "配对消息过大或无法序列化" else Ok data
          else Err "贴纸消息无效"
      | _ => Err "贴纸消息无效"
      end
  end.
End payloads.

(** * The counter counts *)

(** What happens to the counter of an instance. *)
Inductive sticker_event :=
  | TurnTaken (mode : string)
  | MessageSent (isSticker : bool)
  | GraceGranted
  | Looked.

Definition sticker_step (cfg : sticker_config) (s : stickerActivityState) (e : sticker_event) : stickerActivityState :=
  match e with
  | TurnTaken mode => recordStickerTurn mode cfg s
  | MessageSent isSticker => RecordBotMessage isSticker cfg s
  | GraceGranted => grantStickerGrace cfg s
  | Looked => (stickerActivitySnapshot cfg s).2
  end.

Section counter.
Local Open Scope Z_scope.
Context (cfg : sticker_config).

(** The counted turns since the last sticker, and the messages that are still
    excused, by the history alone, the newest event first. *)
Fixpoint turns_since (l : list sticker_event) : Z :=
  match l with
  | [] | MessageSent true :: _ => 0
  | TurnTaken mode :: l => turns_since l + if decide (mode = ActivityMode (cfg_mode cfg)) then 1 else 0
  | _ :: l => turns_since l
  end.

Fixpoint excused (l : list sticker_event) : Z :=
  match l with
  | [] | MessageSent true :: _ => 0
  | GraceGranted :: _ => 2
  | MessageSent false :: l => Z.max 0 (excused l - 1)
  | _ :: l => excused l
  end.

Lemma turns_since_nonneg l : 0 <= turns_since l.
Proof. induction l as [|[| [] | |] l IH]; cbn [turns_since]; try lia. case_decide; lia. Qed.

Lemma excused_range l : 0 <= excused l <= 2.
Proof. induction l as [|[| [] | |] l IH]; cbn [excused]; lia. Qed.

Lemma ActivityInterval_pos level : 0 < level <= 10 -> 5 <= ActivityInterval level <= 50.
Proof. intros ?. unfold ActivityInterval. destruct (Z.ltb_spec level 1), (Z.ltb_spec 10 level); cbn [orb]; lia. Qed.

Lemma ActivityLevel_range raw : 0 <= ActivityLevel raw <= 10.
Proof. unfold ActivityLevel. destruct (Atoi raw) as [n|]; [|lia]. destruct (Z.ltb_spec n 0), (Z.ltb_spec 10 n); cbn [orb]; lia. Qed.

(** C37: an instance is held to a sticker as it was configured.  From a change of
    the configuration on, whatever conversations do to the shared counter, the
    turns that are left are the interval less the counted turns since the last
    sticker, and a grant of grace excuses the next two messages, until a sticker
    is sent: a function of the history alone. *)
Theorem sticker_counter_counts (s0 : stickerActivityState) history :
  ActivityLevel (cfg_activity cfg) <> 0 ->
  ~ (sa_level s0 = ActivityLevel (cfg_activity cfg) /\ sa_mode s0 = ActivityMode (cfg_mode cfg)) ->
  let interval := ActivityInterval (ActivityLevel (cfg_activity cfg)) in
  (stickerActivitySnapshot cfg (fold_right (fun e s => sticker_step cfg s e) s0 history)).1 =
    (interval, Z.max 0 (interval - turns_since history), excused history).
Proof.
  intros Hlevel Hchanged interval. pose proof (ActivityLevel_range (cfg_activity cfg)) as Hrange.
  pose proof (ActivityInterval_pos _ ltac:(split; [|apply Hrange]; lia)) as Hint. fold interval in Hint.
  pose (counted := {| sa_level := ActivityLevel (cfg_activity cfg); sa_mode := ActivityMode (cfg_mode cfg);
    sa_sinceSticker := Z.min interval (turns_since history); sa_grace := excused history |}).
  assert (Hs : applyConfig cfg (fold_right (fun e s => sticker_step cfg s e) s0 history) = counted).
  { subst counted. induction history as [|e history IH]; cbn [fold_right].
    - unfold applyConfig. rewrite bool_decide_false by done. cbn [turns_since excused]. f_equal. lia.
    - set (s := fold_right _ _ _) in *. pose proof (turns_since_nonneg history). pose proof (excused_range history).
      assert (Hid : forall a b, applyConfig cfg {| sa_level := ActivityLevel (cfg_activity cfg); sa_mode := ActivityMode (cfg_mode cfg);
                                sa_sinceSticker := a; sa_grace := b |} = {| sa_level := ActivityLevel (cfg_activity cfg);
                                sa_mode := ActivityMode (cfg_mode cfg); sa_sinceSticker := a; sa_grace := b |}).
      { intros a b. unfold applyConfig. by rewrite bool_decide_true. }
      destruct e as [mode|[]| |]; cbn [sticker_step]; unfold recordStickerTurn, RecordBotMessage, grantStickerGrace, stickerActivitySnapshot;
        rewrite IH; cbn [sa_level sa_mode sa_sinceSticker sa_grace turns_since excused].
      + fold interval. destruct (Z.ltb_spec 0 interval); [|lia]. cbn [andb].
        repeat case_bool_decide; repeat case_decide; try congruence; rewrite Hid; f_equal; lia.
      + destruct (Z.eqb_spec (ActivityLevel (cfg_activity cfg)) 0); [done|]. rewrite Hid. f_equal; lia.
      + destruct (Z.eqb_spec (ActivityLevel (cfg_activity cfg)) 0); [done|].
        destruct (Z.ltb_spec 0 (excused history)); rewrite Hid; f_equal; lia.
      + destruct (Z.ltb_spec 0 (ActivityLevel (cfg_activity cfg))); [|lia]. by rewrite Hid.
      + case_match; cbn [snd]; by rewrite Hid. }
  unfold stickerActivitySnapshot. rewrite Hs. subst counted. cbn [sa_level sa_sinceSticker sa_grace]. fold interval.
  destruct (Z.eqb_spec interval 0); [lia|]. cbn [fst]. f_equal. f_equal. pose proof (turns_since_nonneg history). lia.
Qed.
End counter.

Lemma sticker_counter_counts_witness :
  (stickerActivitySnapshot {| cfg_activity := "10"; cfg_mode := "" |}
    (fold_right (fun e s => sticker_step {| cfg_activity := "10"; cfg_mode := "" |} s e)
      {| sa_level := 0; sa_mode := ""; sa_sinceSticker := 0; sa_grace := 0 |}
      [MessageSent false; GraceGranted; TurnTaken "bot_turns"; TurnTaken "all_messages"; TurnTaken "bot_turns"; MessageSent true])).1 = (5, 3, 1)%Z.
Proof.
  exact (sticker_counter_counts {| cfg_activity := "10"; cfg_mode := "" |} {| sa_level := 0; sa_mode := ""; sa_sinceSticker := 0; sa_grace := 0 |}
    [MessageSent false; GraceGranted; TurnTaken "bot_turns"; TurnTaken "all_messages"; TurnTaken "bot_turns"; MessageSent true]
    ltac:(vm_compute; discriminate) ltac:(vm_compute; intros [? ?]; discriminate)).
Defined.
