(* ===== verification/Agent.v ===== *)
(** The model loop: [runLoopWithResult] of [internal/llm/agent.go], with
    [executeInterruptibleTool] and [awaitDelivery] of [inflight.go],
    [tool_execution.go], [sticker_pair.go] and [internal/proactive]'s narrow
    replies.

    A run asks the model, runs the tools it calls, sends messages, and stops at a
    final answer.  Everything it asks of its surroundings is an event; what it
    does in between is computed here. *)

From S2P Require Import Prelude GoStrings SessionKey SummaryStore SessionState Sequence Risk AuditLog Watchdog Controller Router Interact Sticker.
From Stdlib Require Import Ascii.

Local Open Scope string_scope.
Local Open Scope list_scope.
Local Open Scope frost_scope.

(** * Data *)

Record Usage := { PromptTokens : Z; CompletionTokens : Z; TotalTokens : Z }.
Definition no_usage : Usage := {| PromptTokens := 0; CompletionTokens := 0; TotalTokens := 0 |}.
Definition add_usage (u v : Usage) : Usage := {|
  PromptTokens := PromptTokens u + PromptTokens v; CompletionTokens := CompletionTokens u + CompletionTokens v;
  TotalTokens := TotalTokens u + TotalTokens v |}.

Record AgentRunResult := {
  ar_Content : string;
  ar_MemoryWritten : bool;
  ar_Silent : bool;
  ar_StaySilentCalled : bool;
  ar_SilenceReason : string;
  ar_Banned : bool;
  ar_OutputBlocked : bool;
  ar_Usage : Usage;
  ar_Error : option error;
  ar_LLMFailed : bool;
  ar_Transcript : list ChatMessage;
}.

(** A JSON schema, as the maps, slices and constants a tool declares. *)
Inductive schema := SString (s : string) | SBool (b : bool) | SInt (n : Z) | SList (l : list schema) | SMap (l : list (string * schema)).

Record Tool := { tool_Name : string; tool_Description : string; tool_Parameters : schema }.

Record ToolExecutionResult := { ex_Content : string; ex_MemoryWritten : bool; ex_MessagePayload : string }.
Definition no_execution : ToolExecutionResult := {| ex_Content := ""; ex_MemoryWritten := false; ex_MessagePayload := "" |}.

(** The errors the loop tells apart. *)
Inductive tool_error := UserBanned | ToolsDisabled (text : string) | ToolCanceled (text : string) | ToolFailed (text : string).
Definition tool_error_text (e : tool_error) : string :=
  match e with UserBanned => "ban user success" | ToolsDisabled t | ToolCanceled t | ToolFailed t => t end.

Record LLMReserveRequest := {
  rq_Platform : string; rq_ExternalID : string; rq_DisplayName : string; rq_TaskID : string; rq_CallID : string;
  rq_AmountMinor : Z; rq_IdempotencyKey : string;
}.
Record LLMReservationResult := { rs_ReservationID : string; rs_Decision : string; rs_BalanceMinor : Z }.
Inductive billing_error := ErrInsufficientFunds | BillingUnavailable (text : string).
Definition billing_error_text (e : billing_error) : string :=
  match e with ErrInsufficientFunds => "insufficient snowflake balance" | BillingUnavailable t => t end.

Definition DecisionWelcome : string := "welcome_granted".
Definition DecisionReserved : string := "reserved".
Definition DecisionInsufficient : string := "insufficient_funds".

Record ChatRequest := {
  rq_Model : string; rq_Messages : list ChatMessage; rq_Tools : list Tool; rq_MaxTokens : Z;
  rq_Route : RouteContext; rq_TraceID : string;
}.

(** What [chatAndSettle] returns: an error, or a message with the usage and the
    error of the settlement. *)
Inductive chat_answer := ChatFailed (e : error) | ChatReply (m : ChatMessage) (usage : option Usage) (commitErr : option error).

Inductive send_answer := Sent | SendFailed (e : error) | SendAbandoned (e : error).

(** ** The engine and the request *)

Record engine := {
  en_MaxIterations : Z;
  en_ModelName : string;
  en_ModelRouter : bool;
  en_Skills : bool;
  en_SessionManager : bool;
  en_BillingClient : bool;
  en_BillingEnabled : bool;
  en_MaxOutputTokens : Z;
}.

Record run_billing := { rb_Platform : string; rb_ExternalID : string; rb_DisplayName : string; rb_TaskID : string; rb_Active : bool }.

(** [RunContext]; [rc_present] is [hasRunCtx].  An adapter renders a final answer
    to the text [rc_FinalReplyText] gives, or not at all. *)
Record RunContext := {
  rc_present : bool;
  rc_Turn : bool;
  rc_SessionID : string;
  rc_Epoch : Z;
  rc_Platform : string;
  rc_GroupID : string;
  rc_AdapterID : string;
  rc_Mock : bool;
  rc_Proactive : bool;
  rc_SendHook : bool;
  rc_Billing : option run_billing;
  rc_SecurityNotice : string;
  rc_FinalReplyText : option (string -> string * bool);
}.

(** * Events *)

Inductive event : Type -> Type :=
  | Canceled : event bool
  | CtxErr : event (option error)
  | Access : event (option error)
  | SessionEpoch : event (option Z)
  | ResolveRoute : event (res (resolve_error * error) string)
  | ActivateSkill (l : list ChatMessage) : event (option error)
  | SkillText : event (res error string)
  | TracePrompt (system model : string) : event unit
  | ListTools : event (list Tool)
  | StickerSnapshot : event (Z * Z * Z)
  | GrantGrace : event unit
  | RecordMessage (isSticker : bool) : event unit
  | ContextTokens (l : list ChatMessage) (tools : list Tool) : event Z
  | EstimateReservation (model : string) (l : list ChatMessage) (tools : list Tool) : event (res error Z)
  | NextCall : event Z
  | Now : event Z
  | Reserve (r : LLMReserveRequest) : event (res billing_error LLMReservationResult)
  | QueryBalance : event (option Z)
  | SetBalance (balance : Z) (welcome : bool) : event unit
  | Chat (r : ChatRequest) (reservation : string) (billed : bool) : event chat_answer
  | Evaluate (stage : WatchdogStage) (source : WatchdogSource) (content tool : string) : event (bool * WatchdogDecision)
  | FindTool (name : string) : event bool
  | Execute (c : ToolCall) : event (ToolExecutionResult * option tool_error)
  | Send (payload : string) : event send_answer
  | MemoryState (written : bool) : event bool
  | SaveTranscript (l : list ChatMessage) : event unit
  | WaitBilling : event (option Usage).

(** A request and its answer, as far as the theorems look at it. *)
Inductive observation :=
  | OCanceled (b : bool)
  | OCtxErr (e : option error)
  | OEpoch (e : option Z)
  | OReserve (r : LLMReserveRequest) (x : res billing_error LLMReservationResult)
  | OChat (r : ChatRequest) (reservation : string) (billed : bool) (x : chat_answer)
  | OEvaluate (stage : WatchdogStage) (source : WatchdogSource) (content tool : string) (x : bool * WatchdogDecision)
  | OExecute (c : ToolCall) (x : ToolExecutionResult * option tool_error)
  | OSend (payload : string) (x : send_answer)
  | OSaveTranscript (l : list ChatMessage)
  | OOther.

Definition note (X : Type) (e : event X) : X -> observation :=
  match e in event X return X -> observation with
  | Canceled => OCanceled
  | CtxErr => OCtxErr
  | SessionEpoch => OEpoch
  | Reserve r => OReserve r
  | Chat r reservation billed => OChat r reservation billed
  | Evaluate stage source content tool => OEvaluate stage source content tool
  | Execute c => OExecute c
  | Send payload => OSend payload
  | SaveTranscript l => fun _ => OSaveTranscript l
  | _ => fun _ => OOther
  end.

(** * The state of a run *)

Record loop := {
  lp_messages : list ChatMessage;
  lp_memoryWritten : bool;
  lp_usage : Usage;
  lp_started : gset string;
  lp_maxIterations : Z;
  lp_enforcing : bool;
  lp_attempts : Z;
  lp_notice : string;
  lp_delivered : bool;
  lp_echoes : list string;
}.

Definition set_messages (l : list ChatMessage) (s : loop) : loop := {|
  lp_messages := l; lp_memoryWritten := lp_memoryWritten s; lp_usage := lp_usage s; lp_started := lp_started s;
  lp_maxIterations := lp_maxIterations s; lp_enforcing := lp_enforcing s; lp_attempts := lp_attempts s;
  lp_notice := lp_notice s; lp_delivered := lp_delivered s; lp_echoes := lp_echoes s |}.
Definition add_messages (l : list ChatMessage) (s : loop) : loop := set_messages (lp_messages s ++ l) s.
Definition drop_last (s : loop) : loop := set_messages (removelast (lp_messages s)) s.
Definition set_written (w : bool) (s : loop) : loop := {|
  lp_messages := lp_messages s; lp_memoryWritten := w; lp_usage := lp_usage s; lp_started := lp_started s;
  lp_maxIterations := lp_maxIterations s; lp_enforcing := lp_enforcing s; lp_attempts := lp_attempts s;
  lp_notice := lp_notice s; lp_delivered := lp_delivered s; lp_echoes := lp_echoes s |}.
Definition set_usage (u : Usage) (s : loop) : loop := {|
  lp_messages := lp_messages s; lp_memoryWritten := lp_memoryWritten s; lp_usage := u; lp_started := lp_started s;
  lp_maxIterations := lp_maxIterations s; lp_enforcing := lp_enforcing s; lp_attempts := lp_attempts s;
  lp_notice := lp_notice s; lp_delivered := lp_delivered s; lp_echoes := lp_echoes s |}.
Definition set_started (x : gset string) (s : loop) : loop := {|
  lp_messages := lp_messages s; lp_memoryWritten := lp_memoryWritten s; lp_usage := lp_usage s; lp_started := x;
  lp_maxIterations := lp_maxIterations s; lp_enforcing := lp_enforcing s; lp_attempts := lp_attempts s;
  lp_notice := lp_notice s; lp_delivered := lp_delivered s; lp_echoes := lp_echoes s |}.
Definition set_enforcing (b : bool) (n : Z) (s : loop) : loop := {|
  lp_messages := lp_messages s; lp_memoryWritten := lp_memoryWritten s; lp_usage := lp_usage s; lp_started := lp_started s;
  lp_maxIterations := lp_maxIterations s; lp_enforcing := b; lp_attempts := n;
  lp_notice := lp_notice s; lp_delivered := lp_delivered s; lp_echoes := lp_echoes s |}.
Definition set_max (n : Z) (s : loop) : loop := {|
  lp_messages := lp_messages s; lp_memoryWritten := lp_memoryWritten s; lp_usage := lp_usage s; lp_started := lp_started s;
  lp_maxIterations := n; lp_enforcing := lp_enforcing s; lp_attempts := lp_attempts s;
  lp_notice := lp_notice s; lp_delivered := lp_delivered s; lp_echoes := lp_echoes s |}.
Definition set_notice (n : string) (s : loop) : loop := {|
  lp_messages := lp_messages s; lp_memoryWritten := lp_memoryWritten s; lp_usage := lp_usage s; lp_started := lp_started s;
  lp_maxIterations := lp_maxIterations s; lp_enforcing := lp_enforcing s; lp_attempts := lp_attempts s;
  lp_notice := n; lp_delivered := lp_delivered s; lp_echoes := lp_echoes s |}.
Definition set_delivered (echoes : list string) (s : loop) : loop := {|
  lp_messages := lp_messages s; lp_memoryWritten := lp_memoryWritten s; lp_usage := lp_usage s; lp_started := lp_started s;
  lp_maxIterations := lp_maxIterations s; lp_enforcing := lp_enforcing s; lp_attempts := lp_attempts s;
  lp_notice := lp_notice s; lp_delivered := true; lp_echoes := echoes |}.

(** A part of an iteration goes on, or ends the run with a result; the deferred
    function sees the state either way. *)
Inductive exit (A : Type) := Goes (a : A) | Exits (r : AgentRunResult) (s : loop).
Arguments Goes {A} a.
Arguments Exits {A} r s.

Definition bind_exit {A B} (p : prog event (exit A)) (f : A -> prog event (exit B)) : prog event (exit B) :=
  do! x := p in match x with Goes a => f a | Exits r s => Ret (Exits r s) end.
Notation "'try!' x ':=' p 'in' k" := (bind_exit p (fun x => k)) (at level 10, x pattern, p at level 100, k at level 200) : frost_scope.

Definition goes {A} (a : A) : prog event (exit A) := Ret (Goes a).
Definition exits {A} (r : AgentRunResult) (s : loop) : prog event (exit A) := Ret (Exits r s).

(** ** Results *)

Definition blank : AgentRunResult := {|
  ar_Content := ""; ar_MemoryWritten := false; ar_Silent := false; ar_StaySilentCalled := false; ar_SilenceReason := "";
  ar_Banned := false; ar_OutputBlocked := false; ar_Usage := no_usage; ar_Error := None; ar_LLMFailed := false; ar_Transcript := [] |}.

Definition silent (reason : string) (e : option error) (written : bool) (u : Usage) : AgentRunResult := {|
  ar_Content := ""; ar_MemoryWritten := written; ar_Silent := true; ar_StaySilentCalled := false; ar_SilenceReason := reason;
  ar_Banned := false; ar_OutputBlocked := false; ar_Usage := u; ar_Error := e; ar_LLMFailed := false; ar_Transcript := [] |}.

Definition failed (content : string) (e : error) (llm : bool) (written : bool) (u : Usage) : AgentRunResult := {|
  ar_Content := content; ar_MemoryWritten := written; ar_Silent := false; ar_StaySilentCalled := false; ar_SilenceReason := "";
  ar_Banned := false; ar_OutputBlocked := false; ar_Usage := u; ar_Error := Some e; ar_LLMFailed := llm; ar_Transcript := [] |}.

Definition answered (content : string) (blocked : bool) (written : bool) (u : Usage) : AgentRunResult := {|
  ar_Content := content; ar_MemoryWritten := written; ar_Silent := false; ar_StaySilentCalled := false; ar_SilenceReason := "";
  ar_Banned := false; ar_OutputBlocked := blocked; ar_Usage := u; ar_Error := None; ar_LLMFailed := false; ar_Transcript := [] |}.

Definition context_canceled : error := "context canceled".
Definition epoch_invalidated : error := "session epoch invalidated".
Definition ErrMaxIterationsReached : error := "达到最大迭代次数，未能得出最终答案".

(** * Text *)

Definition StaySilentToolName : string := "stay_silent".
Definition AssistantSilentMarker : string := "<assistant_silent />".
Definition DefaultMaxIterations : Z := 35.
Definition MaxContextTokens : Z := 128000.
Definition ignoreEnforceStickerMarker : string := "<ignore_enforce_sticker />".
Definition ignoreEnforceStickerReply : string :=
  "你认为对话场景实在无法发送表情。你的行为被宽容，请寻找适宜的时机，不要过度依赖宽容。".
Definition stickerEnforcementPrompt : string :=
  "你仍未发送表情。如果你认为对话场景实在无法发送/挑选不到适宜的表情，请调用 ignore_enforce_sticker 工具以放宽约束。此内部动作请仅输出 <ignore_enforce_sticker />。".
Definition stay_silent_conflict_text : string :=
  "工具调用冲突：stay_silent 必须单独调用，不能与其他工具同时使用；请重新选择要执行的动作".

Definition IsStaySilentTool (name : string) : bool := bool_decide (name = StaySilentToolName).

Definition truncateRunes (value : string) (limit : nat) : string :=
  if (limit =? 0)%nat then "" else if (rune_count value <=? limit)%nat then value else rune_take limit value.

Definition isStandaloneAssistantSilentMarker (content : string) : bool := bool_decide (TrimSpace content = AssistantSilentMarker).

Definition staySilentConflict (calls : list ToolCall) : option string :=
  if (length calls <=? 1)%nat then None
  else if existsb (fun c => IsStaySilentTool (tc_Name c)) calls then Some stay_silent_conflict_text else None.

Definition text_of (c : Content) : string := match c with Text s => s | _ => "" end.

Definition with_content (c : Content) (m : ChatMessage) : ChatMessage :=
  {| Role := Role m; MContent := c; ToolCalls := ToolCalls m; ToolCallID := ToolCallID m |}.

(** [messages[len(messages)-1].Content = content]. *)
Definition set_last_content (content : string) (l : list ChatMessage) : list ChatMessage :=
  match last l with None => l | Some m => removelast l ++ [with_content (Text content) m] end.

(** [utf8.RuneStart]. *)
Definition RuneStart (b : ascii) : bool := negb (in_range 128 191 b).

(** The start of a text up to [cut] bytes, shortened to the start of a rune. *)
Fixpoint cut_at_rune (cut : nat) (l : list ascii) : list ascii :=
  match cut with
  | 0%nat => []
  | S n => match l !! cut with Some b => if RuneStart b then take cut l else cut_at_rune n l | None => take cut l end
  end.

Definition truncate_output (s : string) : string :=
  if (MaxToolOutputBytes <? Z.of_nat (slen s))%Z
  then of_bytes (cut_at_rune (Z.to_nat MaxToolOutputBytes) (to_bytes s)) +:+ of_bytes [newline] +:+ "...(工具输出过长，已截断)"
  else s.

Definition paragraph : string := of_bytes [newline; newline].

Definition mergeSecurityNotice (notice : string) (s : loop) : loop :=
  let notice := TrimSpace notice in
  if bool_decide (notice = "") then s else
  if bool_decide (lp_notice s = "") then set_notice notice s else
  if Contains (lp_notice s) notice then s else set_notice (lp_notice s +:+ paragraph +:+ notice) s.

(** ** Skills *)

Definition skillsContextPrefix : string := "<frostagent_skills>".

Definition is_skills_message (m : ChatMessage) : bool :=
  bool_decide (Role m = "system") && HasPrefix (text_of (MContent m)) skillsContextPrefix.

(** The transient context replaces the one before it, after the first system
    message; [body] is what the enabled skills contribute. *)
Definition renderSkillMessages (messages : list ChatMessage) (body : string) : list ChatMessage :=
  let result := filter (fun m => is_skills_message m = false) messages in
  let context := text_message "system" (skillsContextPrefix +:+ body) in
  match result with
  | m :: rest => if bool_decide (Role m = "system") then m :: context :: rest else context :: result
  | [] => [context]
  end.

Definition system_text (l : list ChatMessage) : string :=
  Join (omap (fun m => match MContent m with Text s => if decide (Role m = "system") then Some s else None | _ => None end) l) paragraph.

(** The security notice follows the first system message. *)
Definition with_notice (notice : string) (l : list ChatMessage) : list ChatMessage :=
  if bool_decide (notice = "") then l else
  let m := text_message "system" notice in
  match l with x :: rest => if bool_decide (Role x = "system") then x :: m :: rest else m :: l | [] => [m] end.

(** ** Billing texts *)

Definition two_digits (n : Z) : string := (if (n <? 10)%Z then "0" else "") +:+ pretty n.
Definition FormatSnowflakes (minor : Z) : string :=
  let absVal := if (minor <? 0)%Z then i64 (- minor) else minor in
  let text := pretty (Z.quot absVal 100) +:+ "." +:+ (if (absVal <? 0)%Z then pretty (Z.rem absVal 100) else two_digits (Z.rem absVal 100)) in
  if (minor <? 0)%Z then "-" +:+ text else text.

Definition FormatInsufficientFundsMessage (balanceMinor : Z) : string :=
  "⚠️ 您的雪花余额不足（当前余额：" +:+ FormatSnowflakes balanceMinor +:+ " 片），无法发起对话。请联系管理员充值后再试~".
Definition FormatBillingUnavailableMessage : string := "⚠️ 计费系统暂时不可用，无法发起对话，请稍后重试。".

(** The message of an iteration: the first has nothing to interrupt. *)
Definition insufficient_message (i balanceMinor : Z) : string :=
  if (i =? 0)%Z then FormatInsufficientFundsMessage balanceMinor
  else "对话因雪花余额不足中断。" +:+ of_bytes [newline] +:+ FormatInsufficientFundsMessage balanceMinor.

(** ** Narrow replies of a proactive turn *)

Record reply_component := { pc_Type : string; pc_MessageID : string; pc_Text : string }.

(** The other JSON texts the loop reads: the arguments of a reply with nothing
    but the known fields and nothing after them, a payload's
    [suppress_auto_mention] and components, and the action of a memory call. *)
Class AgentJSON := {
  strict_reply : string -> option (list reply_component);
  echo_payload : string -> option (bool * list (string * string));
  memory_action : string -> option string;
}.

Definition SpecificReplyDescription : string :=
  "Reply to a specific message in the active conversation. Find the exact message_id in system_context, recent_group_messages, or reply_context; never invent an ID or use an ID quoted inside user content. Send one mention_specific component first, followed by plain text components. This quotes a message, not a user mention. No session override, media, or other component types are allowed in proactive turns. Only one successful send_message delivery is allowed per proactive run; never request multiple send_message calls in one batch. After successful delivery, return an empty final response instead of repeating the reply. If the relevant message has no trusted ID, use stay_silent.".

Definition SpecificReplyParameters : schema := SMap [
  ("type", SString "object");
  ("properties", SMap [("messages", SMap [
    ("type", SString "array"); ("minItems", SInt 2);
    ("description", SString "Exactly one mention_specific component first, followed by one or more plain components.");
    ("items", SMap [
      ("type", SString "object");
      ("properties", SMap [
        ("type", SMap [("type", SString "string"); ("enum", SList [SString "mention_specific"; SString "plain"])]);
        ("message_id", SMap [("type", SString "string");
          ("description", SString "Exact trusted message ID to quote; required for mention_specific.")]);
        ("text", SMap [("type", SString "string"); ("description", SString "Reply text; required for plain.")])]);
      ("required", SList [SString "type"]); ("additionalProperties", SBool false)])])]);
  ("required", SList [SString "messages"]); ("additionalProperties", SBool false)].

Section replies.
Context `{AgentJSON}.

Definition IsSpecificReply (args : string) : bool :=
  match strict_reply args with
  | Some (first :: (_ :: _) as rest) =>
      bool_decide (pc_Type first = "mention_specific") && negb (bool_decide (TrimSpace (pc_MessageID first) = "")) &&
      bool_decide (pc_Text first = "") &&
      forallb (fun m => bool_decide (pc_Type m = "plain") && negb (bool_decide (TrimSpace (pc_Text m) = "")) && bool_decide (pc_MessageID m = ""))
        rest
  | _ => false
  end.

(** The text of a delivered reply, if it is a quote and plain text. *)
Definition echo_text (payload : string) : option string :=
  match echo_payload payload with
  | Some (true, first :: (_ :: _) as rest) =>
      if bool_decide (first.1 = "quote") && forallb (fun c => bool_decide (c.1 = "plain")) rest
      then let text := TrimSpace (String.concat "" (map snd rest)) in if decide (text = "") then None else Some text
      else None
  | _ => None
  end.

Definition Record_echo (payload : string) (echoes : list string) : list string :=
  match echo_text payload with Some t => echoes ++ [t] | None => echoes end.

Definition IsDuplicate (final : string) (echoes : list string) : bool :=
  let final := TrimSpace final in
  if bool_decide (final = "") then false else
  bool_decide (final ∈ echoes) || (1 <? length echoes)%nat && bool_decide (final = Join echoes (of_bytes [newline])).

Definition isMemoryWriteRequest (c : ToolCall) : bool :=
  bool_decide (tc_Name c = "memory") && bool_decide (memory_action (tc_Arguments c) = Some "write").
End replies.

(** * The loop *)

Section loop.
Context `{UnicodeCase} `{MessageJSON} `{AgentJSON}.

(** Which tools of the registry opt in to proactive turns. *)
Context (opt_in : string -> bool).
Context (e : engine) (run : RunContext).

Definition EffectiveMaxIterations : Z := if (0 <? en_MaxIterations e)%Z then en_MaxIterations e else DefaultMaxIterations.

Definition proactive_run : bool := rc_present run && rc_Proactive run.
Definition enforceStickerActivity : bool := rc_present run && negb (rc_Mock run) && negb (rc_Proactive run).

Definition billing_run : option run_billing :=
  match rc_Billing run with
  | Some b => if rc_present run && negb (rc_Mock run) && rb_Active b && en_BillingClient e && en_BillingEnabled e then Some b else None
  | None => None
  end.

Definition IsProactiveAllowedTool (name : string) : bool := bool_decide (name = StaySilentToolName \/ name = "memory").
Definition isToolAllowedForProactive (name : string) : bool :=
  negb (bool_decide (name = "send_sticker")) && (IsProactiveAllowedTool name || opt_in name).

(** ** Checks *)

Definition memory_state (written : bool) : prog event bool := if rc_Turn run then call (MemoryState written) else Ret written.

(** Is the session another one than the request's? *)
Definition epoch_lost : prog event bool :=
  if rc_present run && negb (bool_decide (rc_SessionID run = "")) && (0 <? rc_Epoch run)%Z && en_SessionManager e then
    do! o := call SessionEpoch in Ret (match o with Some ep => negb (ep =? rc_Epoch run)%Z | None => false end)
  else Ret false.

Definition stop_if {A} (b : bool) (r : AgentRunResult) (s : loop) (p : prog event (exit A)) : prog event (exit A) :=
  if b then exits r s else p.

Definition check_in (s : loop) : prog event (exit unit) :=
  do! c := call Canceled in
  stop_if c (silent "" (Some context_canceled) false no_usage) s (
  do! a := call Access in
  match a with
  | Some err => exits (silent "security_block" (Some err) false (lp_usage s)) s
  | None =>
      do! c := call Canceled in
      stop_if c (silent "canceled" (Some context_canceled) false no_usage) s (
      do! lost := epoch_lost in
      stop_if lost (silent "epoch_changed" (Some epoch_invalidated) false no_usage) s (goes tt))
  end).

Definition sticker_needed : prog event bool := do! x := call StickerSnapshot in Ret (sticker_due x).

Definition add_sticker_iteration (s : loop) : loop :=
  if (lp_maxIterations s - EffectiveMaxIterations <? 4)%Z then set_max (lp_maxIterations s + 1) s else s.

Definition appendStickerForgiveness (i : Z) (s : loop) : loop :=
  let id := "internal_ignore_enforce_sticker_" +:+ pretty i in
  add_messages [{| Role := "assistant"; MContent := Text ""; ToolCallID := "";
                   ToolCalls := [{| tc_ID := id; tc_Type := "function"; tc_Name := "ignore_enforce_sticker"; tc_Arguments := "{}" |}] |};
                {| Role := "tool"; MContent := Text ignoreEnforceStickerReply; ToolCalls := []; ToolCallID := id |}] s.

Definition forgive (i : Z) (s : loop) : prog event loop :=
  do! _ := call GrantGrace in Ret (set_enforcing false 0 (appendStickerForgiveness i s)).

(** A missed attempt; the third is forgiven.  A final answer that is forgiven is
    taken back first. *)
Definition miss (i : Z) (retract : bool) (s : loop) : prog event loop :=
  let attempts := (lp_attempts s + 1)%Z in
  if (3 <=? attempts)%Z then forgive i (if retract then drop_last s else s)
  else Ret (add_messages [text_message "user" stickerEnforcementPrompt] (set_enforcing true attempts s)).

(** ** Asking the model *)

Definition proactive_tool (t : Tool) : Tool :=
  if decide (tool_Name t = "send_message")
  then {| tool_Name := tool_Name t; tool_Description := SpecificReplyDescription; tool_Parameters := SpecificReplyParameters |} else t.

Definition model_tools (l : list Tool) : list Tool :=
  if proactive_run then map proactive_tool (filter (fun t => isToolAllowedForProactive (tool_Name t) = true) l) else l.

Definition skill_context (model : string) (s : loop) : prog event (exit loop) :=
  if negb (en_Skills e) then goes s else
  do! x := call SkillText in
  match x with
  | Err err => exits (failed "技能上下文读取失败" err false false (lp_usage s)) s
  | Ok body =>
      let s := set_messages (renderSkillMessages (lp_messages s) body) s in
      do! _ := call (TracePrompt (system_text (lp_messages s)) model) in goes s
  end.

Definition context_error (tokens : Z) : error :=
  "context tokens " +:+ pretty tokens +:+ " exceeded limit " +:+ pretty MaxContextTokens.

Definition reserve_request (b : run_billing) (amount index now : Z) : LLMReserveRequest :=
  let platform := let p := TrimSpace (rb_Platform b) in if decide (p = "") then "qq" else p in
  let taskID := let t := TrimSpace (rb_TaskID b) in
    if decide (t = "") then
      platform +:+ "_" +:+ (if decide (rb_ExternalID b = "") then "anon" else rb_ExternalID b) +:+ "_" +:+ pretty now
    else t in
  {| rq_Platform := platform; rq_ExternalID := rb_ExternalID b; rq_DisplayName := rb_DisplayName b; rq_TaskID := taskID;
     rq_CallID := "call_" +:+ taskID +:+ "_" +:+ pretty index; rq_AmountMinor := amount;
     rq_IdempotencyKey := "res_" +:+ platform +:+ "_" +:+ taskID +:+ "_" +:+ pretty index |}.

(** The reservation for one call of the model, [""] if none is to be settled. *)
Definition reserve (i : Z) (model : string) (l : list ChatMessage) (tools : list Tool) (s : loop) : prog event (exit string) :=
  match billing_run with
  | None => goes ""
  | Some b =>
      do! x := call (EstimateReservation model l tools) in
      match x with
      | Err err => exits (failed FormatBillingUnavailableMessage err false (lp_memoryWritten s) (lp_usage s)) s
      | Ok amount =>
          do! now := (if bool_decide (TrimSpace (rb_TaskID b) = "") then call Now else Ret 0%Z) in
          do! index := call NextCall in
          do! x := call (Reserve (reserve_request b (Z.max 1 amount) index now)) in
          match x with
          | Err ErrInsufficientFunds =>
              do! bal := call QueryBalance in
              let bal := default 0%Z bal in
              do! _ := call (SetBalance bal false) in
              exits (failed (insufficient_message i bal) (billing_error_text ErrInsufficientFunds) false (lp_memoryWritten s) (lp_usage s)) s
          | Err err => exits (failed FormatBillingUnavailableMessage (billing_error_text err) false (lp_memoryWritten s) (lp_usage s)) s
          | Ok res =>
              if bool_decide (rs_Decision res = DecisionInsufficient)
              then exits (failed (insufficient_message i (rs_BalanceMinor res)) (billing_error_text ErrInsufficientFunds) false
                            (lp_memoryWritten s) (lp_usage s)) s
              else
                do! _ := call (SetBalance (rs_BalanceMinor res) (bool_decide (rs_Decision res = DecisionWelcome))) in
                goes (if decide (rs_Decision res = DecisionReserved) then rs_ReservationID res else "")
          end
      end
  end.

Definition llm_failed (err : error) : string := "FrostAgent 错误：LLM 响应失败：" +:+ truncateRunes err 100.

(** One call: the response, already part of the conversation. *)
Definition ask (i : Z) (model : string) (s : loop) : prog event (exit (ChatMessage * loop)) :=
  try! s := skill_context model s in
  do! tools := call ListTools in
  let tools := model_tools tools in
  let msgs := with_notice (lp_notice s) (lp_messages s) in
  do! tokens := call (ContextTokens msgs tools) in
  stop_if (MaxContextTokens <? tokens)%Z
    (failed "FrostAgent错误：对话上下文过长，超出模型处理上限。" (context_error tokens) false (lp_memoryWritten s) (lp_usage s)) s (
  try! reservation := reserve i model msgs tools s in
  let request := {| rq_Model := model; rq_Messages := msgs; rq_Tools := tools; rq_MaxTokens := en_MaxOutputTokens e;
                    rq_Route := {| rt_Platform := rc_Platform run; rt_GroupID := rc_GroupID run |}; rq_TraceID := rc_SessionID run |} in
  do! x := call (Chat request reservation (bool_decide (is_Some billing_run))) in
  match x with
  | ChatFailed err => exits (failed (llm_failed err) err true (lp_memoryWritten s) (lp_usage s)) s
  | ChatReply m usage commitErr =>
      do! c := call Canceled in
      stop_if c (silent "canceled" (Some context_canceled) false no_usage) s (
      let s := match usage with Some u => set_usage (add_usage (lp_usage s) u) s | None => s end in
      let m := {| Role := Role m; MContent := MContent m; ToolCalls := ToolCalls m; ToolCallID := "" |} in
      match commitErr with
      | Some err =>
          if bool_decide (ToolCalls m = []) then goes (m, set_started ∅ (add_messages [m] s))
          else exits (failed "FrostAgent错误：计费结算失败，已终止后续工具执行。" err false (lp_memoryWritten s) (lp_usage s)) s
      | None => goes (m, set_started ∅ (add_messages [m] s))
      end)
  end).

(** Has a sticker been sent meanwhile, or the rule been lifted? *)
Definition relax (s : loop) : prog event loop :=
  if negb (lp_enforcing s) then Ret s else
  do! (interval, remaining, grace) := call StickerSnapshot in
  Ret (if (interval =? 0)%Z || (0 <? grace)%Z || (remaining =? interval)%Z then set_enforcing false 0 s else s).

(** ** The final answer *)

Definition blocked_or_filtered (x : bool * WatchdogDecision) : bool := x.1 || bool_decide (d_Action x.2 = WatchdogFilter).

(** What takes the place of a content that was refused: what failed, the
    sanitized content, or a refusal. *)
Definition refused (failure refusal : string) (d : WatchdogDecision) : string * bool :=
  if d_IsFailure d then (failure, true) else
  if bool_decide (d_Action d = WatchdogFilter) && negb (bool_decide (d_SanitizedContent d = "")) then (d_SanitizedContent d, false)
  else (refusal, true).

Definition output_failure : string := "FrostAgent安全控制：安全审查服务暂时不可用，模型输出已拦截。".
Definition output_refusal : string := "FrostAgent安全控制：模型输出已拦截。".

Definition screened (content : string) (x : bool * WatchdogDecision) : string * bool :=
  if blocked_or_filtered x then refused output_failure output_refusal x.2 else (content, false).

(** In a proactive turn stickers are dropped, and what was said already. *)
Definition proactive_content (blocked : bool) (echoes : list string) (content : string) : string :=
  if negb proactive_run then content else
  let content := (filterStickerMessages content).1 in
  let '(text, comparable) := match rc_FinalReplyText run with Some f => f content | None => (content, true) end in
  if negb blocked && comparable && IsDuplicate text echoes then "" else content.

Definition retry (s : loop) : prog event (exit loop) := goes (add_sticker_iteration s).

Definition final_answer (i : Z) (m : ChatMessage) (s : loop) : prog event (exit loop) :=
  do! x := call (Evaluate StageModelOutput SourceModelOutput (text_of (MContent m)) "") in
  let '(content, blocked) := screened (text_of (MContent m)) x in
  let content := proactive_content blocked (lp_echoes s) content in
  let s := set_messages (set_last_content content (lp_messages s)) s in
  do! c := call Canceled in
  stop_if c (silent "" (Some context_canceled) false no_usage) (drop_last s) (
  let marker := isStandaloneAssistantSilentMarker content in
  stop_if (marker && negb (lp_enforcing s)) (silent "provider_fallback" None (lp_memoryWritten s) (lp_usage s)) s (
  let content := if marker then "" else content in
  let final := exits (answered content blocked (lp_memoryWritten s) (lp_usage s)) s in
  if negb (enforceStickerActivity && negb blocked) then final else
  let sticker := rc_present run && bool_decide (rc_AdapterID run = "onebot") && hasStickerImage content in
  let sends := negb (bool_decide (content = "")) || rc_present run && match rc_Billing run with Some b => rb_Active b | None => false end in
  let needed := if lp_enforcing s then Ret true else sticker_needed in
  do! ignored := (if bool_decide (TrimSpace content = ignoreEnforceStickerMarker) then needed else Ret false) in
  if ignored : bool then do! s := forgive i (drop_last s) in retry s else
  do! due := (if sticker then Ret false else if lp_enforcing s then Ret true else if sends then sticker_needed else Ret false) in
  if due : bool then do! s := miss i true s in retry s else final)).

(** ** Tools *)

(** The calls of a proactive batch that rule it out. *)
Fixpoint forbidden_batch (delivered : bool) (replies : nat) (calls : list ToolCall) : bool :=
  match calls with
  | [] => false
  | c :: calls =>
      let reply := bool_decide (tc_Name c = "send_message") in
      let replies := if reply then S replies else replies in
      negb (isToolAllowedForProactive (tc_Name c)) ||
      reply && (delivered || (1 <? replies)%nat || negb (IsSpecificReply (tc_Arguments c))) ||
      forbidden_batch delivered replies calls
  end.

Definition executeInterruptibleTool (c : ToolCall) : prog event (ToolExecutionResult * option tool_error) :=
  do! x := call Canceled in
  if x : bool then Ret (no_execution, Some (ToolCanceled context_canceled)) else
  do! x := call Canceled in
  if x : bool then Ret (no_execution, Some (ToolCanceled context_canceled)) else call (Execute c).

(** [awaitDelivery] around the send hook. *)
Definition awaitDelivery (payload : string) : prog event (option error) :=
  do! x := call CtxErr in
  match x with
  | Some err => Ret (Some err)
  | None =>
      do! x := call CtxErr in
      match x with
      | Some err => Ret (Some err)
      | None =>
          do! x := call (Send payload) in
          match x with
          | Sent => do! _ := (if rc_Mock run then Ret tt else call (RecordMessage (hasStickerImage payload))) in Ret None
          | SendFailed err | SendAbandoned err => Ret (Some err)
          end
      end
  end.

Definition deliverToolResult (payload content : string) : prog event (string * bool) :=
  if negb (rc_present run && rc_SendHook run) || bool_decide (payload = "") || (MaxToolOutputBytes <? Z.of_nat (slen payload))%Z
  then Ret (content, false) else
  do! c := call Canceled in
  if c : bool then Ret ("消息发送取消：会话已取消", false) else
  let '(payload, filtered) := if rc_Proactive run then filterStickerMessages payload else (payload, false) in
  if filtered && bool_decide (payload = "") then Ret ("主动回复禁止发送表情包。", false) else
  do! lost := epoch_lost in
  if lost : bool then Ret ("消息发送取消：会话已重置", false) else
  do! r := awaitDelivery payload in
  Ret (match r with Some err => ("消息发送失败：" +:+ err, false) | None => ("消息已发送", true) end).

Definition tool_blocked (d : WatchdogDecision) : string :=
  if d_IsFailure d then "FrostAgent安全控制：安全审查服务暂时不可用，该工具调用已被阻止。" else "FrostAgent安全控制：该工具调用已被阻止。".
Definition result_failure : string := "FrostAgent安全控制：安全审查服务暂时不可用，外部工具结果已隔离。".
Definition result_refusal : string := "FrostAgent安全控制：外部工具结果已隔离。".

Definition tool_failure (err : tool_error) : string := "FrostAgent错误：工具执行失败: " +:+ tool_error_text err.

(** A warning of a decision is kept for the rest of the run. *)
Definition warned (d : WatchdogDecision) (s : loop) : loop :=
  if bool_decide (d_Action d = WatchdogWarn) && rc_present run then mergeSecurityNotice (d_WarningNotice d) s else s.

Definition tool_result (id text : string) (s : loop) : loop := add_messages [tool_message id text] s.

(** ** A message with its sticker *)

Definition prepareStickerPairTool (c : ToolCall) (s : loop) : prog event (res string ToolExecutionResult * loop) :=
  do! x := call CtxErr in
  match x with
  | Some err => Ret (Err ("消息发送取消：" +:+ err), s)
  | None =>
      do! x := call (Evaluate StageToolArgument SourceToolArgument (tc_Arguments c) (tc_Name c)) in
      if blocked_or_filtered x then Ret (Err (tool_blocked x.2), s) else
      let s := warned x.2 s in
      do! found := call (FindTool (tc_Name c)) in
      if negb found then Ret (Err "FrostAgent错误：工具未找到", s) else
      do! (output, err) := executeInterruptibleTool c in
      do! canceled := call Canceled in
      if canceled : bool then Ret (Err "消息发送取消：执行已被打断", s) else
      match err with
      | Some err => Ret (Err (tool_failure err), s)
      | None =>
          if (MaxToolOutputBytes <? Z.of_nat (slen (ex_Content output)))%Z || (MaxToolOutputBytes <? Z.of_nat (slen (ex_MessagePayload output)))%Z
          then Ret (Err "FrostAgent错误：工具结果过大，配对消息未发送。", s) else
          let content := if bool_decide (ex_MessagePayload output = "") || bool_decide (ex_MessagePayload output = ex_Content output)
                         then ex_Content output else ex_Content output +:+ of_bytes [newline] +:+ ex_MessagePayload output in
          do! x := call (Evaluate StageToolResult SourceToolResult content (tc_Name c)) in
          if blocked_or_filtered x then Ret (Err (refused result_failure result_refusal x.2).1, s) else
          let s := warned x.2 s in
          if bool_decide (ex_MessagePayload output = "")
          then Ret (Err (if decide (ex_Content output = "") then "工具未准备可发送消息。" else ex_Content output), s)
          else Ret (Ok output, s)
      end
  end.

Definition deliverStickerPair (textCall stickerCall : ToolCall) (s : loop) : prog event (string * string * loop) :=
  do! (text, s) := prepareStickerPairTool textCall s in
  match text with
  | Err err => Ret (err, "配对发送未执行：文字准备失败。", s)
  | Ok text =>
      do! (sticker, s) := prepareStickerPairTool stickerCall s in
      match sticker with
      | Err err => Ret ("文字未发送：配对贴纸准备失败。", err, s)
      | Ok sticker =>
          match combineStickerPairPayloads (ex_MessagePayload text) (ex_MessagePayload sticker) with
          | Err err => Ret ("文字未发送：配对贴纸消息无效。", "表情包未发送：" +:+ err, s)
          | Ok payload => do! (result, _) := deliverToolResult payload payload in Ret (result, result, s)
          end
      end
  end.

(** ** One call of a tool *)

(** What the tool made of it: the text, its execution, and whether it succeeded. *)
Definition execute_call (c : ToolCall) (s : loop) : prog event (exit (string * ToolExecutionResult * bool * loop)) :=
  do! found := call (FindTool (tc_Name c)) in
  if negb found then goes ("FrostAgent错误：工具未找到", no_execution, false, s) else
  let s := set_started ({[tc_ID c]} ∪ lp_started s) s in
  do! (execution, err) := executeInterruptibleTool c in
  do! canceled := call Canceled in
  if canceled : bool then
    do! cause := call CtxErr in
    exits (silent "canceled" cause false (lp_usage s)) (if isMemoryWriteRequest c then set_written true s else s)
  else
  match err with
  | Some UserBanned =>
      if proactive_run then exits (silent "" None (lp_memoryWritten s) (lp_usage s)) s
      else exits {| ar_Content := RejectGatewayMsg; ar_MemoryWritten := lp_memoryWritten s; ar_Silent := false; ar_StaySilentCalled := false;
                    ar_SilenceReason := ""; ar_Banned := true; ar_OutputBlocked := false; ar_Usage := lp_usage s; ar_Error := None;
                    ar_LLMFailed := false; ar_Transcript := [] |} s
  | Some (ToolsDisabled text) => goes (text, execution, false, s)
  | Some err => goes (tool_failure err, execution, false, s)
  | None =>
      if IsStaySilentTool (tc_Name c) && negb (lp_enforcing s) then
        exits {| ar_Content := ""; ar_MemoryWritten := lp_memoryWritten s; ar_Silent := true; ar_StaySilentCalled := true;
                 ar_SilenceReason := "stay_silent"; ar_Banned := false; ar_OutputBlocked := false; ar_Usage := lp_usage s; ar_Error := None;
                 ar_LLMFailed := false; ar_Transcript := [] |} s
      else
        let text := if IsStaySilentTool (tc_Name c) then stickerEnforcementPrompt else ex_Content execution in
        goes (text, execution, true, if ex_MemoryWritten execution then set_written true s else s)
  end.

(** What is inspected of a result: the text, and the payload unless it is the
    text or too long to be sent. *)
Definition inspected (text : string) (execution : ToolExecutionResult) : string :=
  let payload := ex_MessagePayload execution in
  if negb (bool_decide (payload = "")) && negb (bool_decide (payload = text)) && negb (MaxToolOutputBytes <? Z.of_nat (slen payload))%Z
  then text +:+ of_bytes [newline] +:+ payload else text.

(** The result is inspected and, if a message is pending, sent. *)
Definition finish_call (c : ToolCall) (text : string) (execution : ToolExecutionResult) (succeeded : bool) (s : loop)
    : prog event (exit loop) :=
  let text := truncate_output text in
  do! x := call (Evaluate StageToolResult SourceToolResult (inspected text execution) (tc_Name c)) in
  let refusal := blocked_or_filtered x in
  let text := if refusal then (refused result_failure result_refusal x.2).1 else text in
  let s := if refusal then s else warned x.2 s in
  let payload := ex_MessagePayload execution in
  if negb (succeeded && negb refusal) then
    do! canceled := call Canceled in
    stop_if canceled (silent "" (Some context_canceled) false no_usage) s (goes (tool_result (tc_ID c) text s))
  else
  do! needed := (if enforceStickerActivity && negb (bool_decide (payload = "")) && negb (hasStickerImage payload)
                 then sticker_needed else Ret false) in
  if needed : bool
  then goes (tool_result (tc_ID c) "表情包额度已到期，请先发送表情包或输出 <ignore_enforce_sticker /> 请求宽容。" s)
  else
  do! (text, delivered) := deliverToolResult payload text in
  let s := if delivered && proactive_run && bool_decide (tc_Name c = "send_message")
           then set_delivered (Record_echo payload (lp_echoes s)) s else s in
  do! canceled := call Canceled in
  stop_if canceled (silent "" (Some context_canceled) false no_usage) s (goes (tool_result (tc_ID c) text s)).

Definition one_call (c : ToolCall) (s : loop) : prog event (exit loop) :=
  do! x := call (Evaluate StageToolArgument SourceToolArgument (tc_Arguments c) (tc_Name c)) in
  if blocked_or_filtered x then goes (tool_result (tc_ID c) (tool_blocked x.2) s) else
  try! (text, execution, succeeded, s) := execute_call c (warned x.2 s) in
  finish_call c text execution succeeded s.

(** Before each call of a batch. *)
Definition check_call (s : loop) : prog event (exit unit) :=
  do! c := call Canceled in
  stop_if c (silent "" (Some context_canceled) false no_usage) s (
  do! x := call CtxErr in
  match x with
  | Some err => exits (silent "canceled" (Some err) false (lp_usage s)) s
  | None =>
      do! lost := epoch_lost in
      stop_if lost (silent "epoch_changed" (Some epoch_invalidated) false (lp_usage s)) s (goes tt)
  end).

Definition pair_call (c sticker : ToolCall) (s : loop) : prog event (exit loop) :=
  let s := set_started ({[tc_ID c; tc_ID sticker]} ∪ lp_started s) s in
  do! (textResult, stickerResult, s) := deliverStickerPair c sticker s in
  do! canceled := call Canceled in
  stop_if canceled (silent "" (Some context_canceled) false no_usage) s
    (goes (tool_result (tc_ID sticker) stickerResult (tool_result (tc_ID c) textResult s))).

Definition is_pair (c next : ToolCall) : bool :=
  enforceStickerActivity && bool_decide (tc_Name c = "send_message") && bool_decide (tc_Name next = "send_sticker").

Fixpoint run_calls (calls : list ToolCall) (s : loop) : prog event (exit loop) :=
  match calls with
  | [] => goes s
  | c :: calls =>
      try! _ := check_call s in
      match calls with
      | next :: later =>
          do! paired := (if is_pair c next then sticker_needed else Ret false) in
          if paired : bool then try! s := pair_call c next s in run_calls later s
          else try! s := one_call c s in run_calls calls s
      | [] => one_call c s
      end
  end.

(** After a batch: was a sticker due? *)
Definition after_batch (i : Z) (s : loop) : prog event loop :=
  if negb enforceStickerActivity then Ret s else
  do! due := (if lp_enforcing s then Ret true else sticker_needed) in
  if negb due then Ret s else
  do! (interval, remaining, grace) := call StickerSnapshot in
  if negb ((0 <? interval)%Z && (grace =? 0)%Z && ((remaining =? 0)%Z || lp_enforcing s)) then Ret s else
  if (remaining =? interval)%Z then Ret (set_enforcing false 0 s) else
  do! s := miss i false s in Ret (add_sticker_iteration s).

Definition tool_batch (i : Z) (calls : list ToolCall) (s : loop) : prog event (exit loop) :=
  if proactive_run && forbidden_batch (lp_delivered s) 0 calls then
    let r := silent "" None (lp_memoryWritten s) (lp_usage s) in
    exits (if lp_delivered s then answered "" false (lp_memoryWritten s) (lp_usage s) else r) s
  else
  match staySilentConflict calls with
  | Some conflict =>
      let s := add_messages (map (fun c => tool_message (tc_ID c) conflict) calls) s in
      if lp_enforcing s then do! s := miss i false s in retry s else goes s
  | None =>
      try! s := run_calls calls s in
      do! s := after_batch i s in goes s
  end.

(** ** Iterations *)

Definition iteration (i : Z) (model : string) (s : loop) : prog event (exit loop) :=
  try! _ := check_in s in
  try! (m, s) := ask i model s in
  do! s := relax s in
  if bool_decide (ToolCalls m = []) then final_answer i m s else tool_batch i (ToolCalls m) s.

Definition exhausted (s : loop) : AgentRunResult :=
  if proactive_run then silent "" (Some ErrMaxIterationsReached) (lp_memoryWritten s) (lp_usage s)
  else answered "FrostAgent错误：达到最大迭代次数，未能得出最终答案" false (lp_memoryWritten s) (lp_usage s).

(** [None] if the fuel is used up before the loop has ended. *)
Fixpoint iterate (fuel : nat) (i : Z) (model : string) (s : loop) : prog event (option (AgentRunResult * loop)) :=
  if negb (i <? lp_maxIterations s)%Z then Ret (Some (exhausted s, s)) else
  match fuel with
  | O => Ret None
  | S fuel =>
      do! x := iteration i model s in
      match x with Exits r s => Ret (Some (r, s)) | Goes s => iterate fuel (i + 1)%Z model s end
  end.

Definition settled_usage : prog event (option Usage) := match billing_run with Some _ => call WaitBilling | None => Ret None end.

(** What the deferred function makes of a result. *)
Definition deferred (r : AgentRunResult) (s : loop) : prog event AgentRunResult :=
  do! written := memory_state (ar_MemoryWritten r || lp_memoryWritten s) in
  let transcript := completeInterruptedTranscript (lp_messages s) (lp_started s) in
  do! _ := (if rc_Turn run then call (SaveTranscript transcript) else Ret tt) in
  do! usage := settled_usage in
  do! canceled := call Canceled in
  Ret {| ar_Content := if canceled : bool then "" else ar_Content r; ar_MemoryWritten := written;
         ar_Silent := canceled || ar_Silent r; ar_StaySilentCalled := ar_StaySilentCalled r;
         ar_SilenceReason := if canceled : bool then "canceled" else ar_SilenceReason r;
         ar_Banned := ar_Banned r; ar_OutputBlocked := ar_OutputBlocked r; ar_Usage := default (ar_Usage r) usage;
         ar_Error := if canceled : bool then Some context_canceled else ar_Error r;
         ar_LLMFailed := negb canceled && ar_LLMFailed r;
         ar_Transcript := if rc_Turn run then transcript else ar_Transcript r |}.

Definition start (messages : list ChatMessage) (written : bool) : loop := {|
  lp_messages := messages; lp_memoryWritten := written; lp_usage := no_usage; lp_started := ∅;
  lp_maxIterations := EffectiveMaxIterations; lp_enforcing := false; lp_attempts := 0;
  lp_notice := rc_SecurityNotice run; lp_delivered := false; lp_echoes := [] |}.

(** The model that serves the dialogue, or the result of a run without one. *)
Definition resolve_model : prog event (res AgentRunResult string) :=
  if negb (en_ModelRouter e) then Ret (Ok (en_ModelName e)) else
  do! x := call ResolveRoute in
  Ret (match x with
       | Ok model => Ok model
       | Err (ErrDisabled, _) => Err (silent "route_disabled" None false no_usage)
       | Err (_, text) => Err (failed (llm_failed text) text true false no_usage)
       end).

Definition loop_body (fuel : nat) (messages : list ChatMessage) : prog event (option (AgentRunResult * loop)) :=
  do! written := memory_state false in
  let s := start messages written in
  do! model := resolve_model in
  match model with
  | Err r => Ret (Some (r, s))
  | Ok model =>
      do! skill := (if en_Skills e then call (ActivateSkill messages) else Ret None) in
      match skill with
      | Some err => Ret (Some (failed err err false false no_usage, s))
      | None =>
          do! snapshot := call StickerSnapshot in
          let s := if enforceStickerActivity && sticker_due snapshot
                   then add_messages [text_message "user" stickerEnforcementPrompt] (set_enforcing true 0 s) else s in
          iterate fuel 0 model s
      end
  end.

Definition runLoopWithResult (fuel : nat) (messages : list ChatMessage) : prog event (option AgentRunResult) :=
  do! x := loop_body fuel messages in
  match x with
  | None => Ret None
  | Some (r, s) => do! r := deferred r s in Ret (Some r)
  end.
End loop.
