(* ===== verification/AgentRun.v ===== *)
(** What every run of the model loop satisfies ([Agent.v]), whatever the model,
    the tools, the watchdog and the billing service answer.

    A theorem speaks of [runs note (runLoopWithResult ...) tr r]: any run, also
    one that was cut off, with the observations [tr] it made.  Parts of the loop
    that cannot matter to a property are passed over with a lemma on what they
    can ask; the others are followed with [wp]. *)

From S2P Require Import Prelude GoStrings SessionKey SummaryStore SessionState Sequence Risk AuditLog Watchdog Controller Router Interact Sticker Agent.

Local Open Scope string_scope.
Local Open Scope list_scope.
Local Open Scope frost_scope.

(** * Observations *)

(** Nothing but looking around. *)
Definition idle (o : observation) : Prop :=
  match o with OCanceled _ | OCtxErr _ | OEpoch _ | OOther => True | _ => False end.

(** What serving the calls of a tool asks for. *)
Definition tooling (o : observation) : Prop :=
  match o with OReserve _ _ | OChat _ _ _ _ | OSaveTranscript _ => False | _ => True end.

(** What asking the model takes. *)
Definition asking (o : observation) : Prop :=
  match o with OEvaluate _ _ _ _ _ | OExecute _ _ | OSend _ _ | OSaveTranscript _ => False | _ => True end.

Lemma idle_tooling o : idle o -> tooling o.
Proof. by destruct o. Qed.
Lemma idle_asking o : idle o -> asking o.
Proof. by destruct o. Qed.

(** * Conversations *)

(** The calls still to be answered after a conversation, if it is one: calls
    have distinct identifiers, only the assistant calls, and each call is
    answered, in order, before anything else is said. *)
Fixpoint owed (pending : list string) (l : list ChatMessage) : option (list string) :=
  match l with
  | [] => Some pending
  | m :: l =>
      match pending with
      | id :: pending =>
          if bool_decide (Role m = "tool" /\ ToolCallID m = id) then owed pending l else None
      | [] =>
          if bool_decide (Role m <> "tool" /\ NoDup (map tc_ID (ToolCalls m)) /\ (ToolCalls m = [] \/ Role m = "assistant"))
          then owed (map tc_ID (ToolCalls m)) l else None
      end
  end.

Definition conversation (l : list ChatMessage) : Prop := owed [] l = Some [].

Lemma owed_app pending l1 l2 : owed pending (l1 ++ l2) = match owed pending l1 with Some p => owed p l2 | None => None end.
Proof.
  revert pending. induction l1 as [|m l1 IH]; intros pending; [done|]. cbn [owed app].
  destruct pending; by case_bool_decide.
Qed.

Lemma conversation_app l1 l2 : conversation l1 -> conversation l2 -> conversation (l1 ++ l2).
Proof. unfold conversation. intros H1 H2. by rewrite owed_app, H1. Qed.

Lemma owed_snoc pending l m : owed pending (l ++ [m]) = match owed pending l with Some p => owed p [m] | None => None end.
Proof. apply owed_app. Qed.

(** A message that calls nothing. *)
Definition plain (m : ChatMessage) : Prop := Role m <> "tool" /\ ToolCalls m = [].

Lemma owed_plain m l : plain m -> owed [] (m :: l) = owed [] l.
Proof. intros [Hr Hc]. cbn [owed]. rewrite Hc. rewrite bool_decide_eq_true_2; [done|]. split; [done|]. split; [constructor|by left]. Qed.

Lemma plain_text role text : role <> "tool" -> plain (text_message role text).
Proof. by split. Qed.

(** A system message of a conversation calls nothing. *)
Lemma owed_system pending m l p : Role m = "system" -> owed pending (m :: l) = Some p -> pending = [] /\ plain m /\ owed [] l = Some p.
Proof.
  intros Hr. cbn [owed]. destruct pending as [|id pending].
  - case_bool_decide as H; [|done]. destruct H as (Hn & _ & [Hc|Ha]); [|congruence]. rewrite Hc. by intros ?.
  - case_bool_decide as H; [|done]. destruct H as [Ha _]. congruence.
Qed.

Lemma owed_filter_system (P : ChatMessage -> bool) pending l p : (forall m, P m = true -> Role m = "system") ->
  owed pending l = Some p -> owed pending (filter (fun m => P m = false) l) = Some p.
Proof.
  intros HP. revert pending. induction l as [|m l IH]; intros pending; [done|]. rewrite filter_cons.
  destruct (decide (P m = false)) as [Hm|Hm].
  - cbn [owed]. destruct pending as [|id pending]; (case_bool_decide; [|done]); apply IH.
  - intros H. apply not_false_iff_true, HP in Hm. destruct (owed_system _ _ _ _ Hm H) as (-> & _ & H'). by apply IH.
Qed.

(** Putting a system message after the first one. *)
Lemma conversation_insert m l : plain m -> conversation l ->
  conversation (match l with x :: rest => if bool_decide (Role x = "system") then x :: m :: rest else m :: l | [] => [m] end).
Proof.
  unfold conversation. intros Hm Hl. destruct l as [|x rest]; [by rewrite owed_plain|].
  case_bool_decide as Hx; [|by rewrite owed_plain]. destruct (owed_system _ _ _ _ Hx Hl) as (_ & Hp & Hr).
  by rewrite !owed_plain.
Qed.

Lemma conversation_skills l body : conversation l -> conversation (renderSkillMessages l body).
Proof.
  unfold renderSkillMessages. intros Hl. apply (owed_filter_system is_skills_message) in Hl.
  - by apply conversation_insert; [apply plain_text|].
  - intros m. unfold is_skills_message. intros [H _]%andb_prop. by apply bool_decide_eq_true in H.
Qed.

Lemma conversation_notice notice l : conversation l -> conversation (with_notice notice l).
Proof. unfold with_notice. case_bool_decide; [done|]. intros. by apply conversation_insert; [apply plain_text|]. Qed.

Lemma conversation_last_content content l m : plain m -> conversation l -> 
  conversation (set_last_content content (l ++ [m])) /\ removelast (set_last_content content (l ++ [m])) = l.
Proof.
  intros [Hr Hc] Hl. unfold set_last_content. rewrite last_snoc, removelast_last, removelast_last. split; [|done].
  apply conversation_app; [done|]. unfold conversation. rewrite owed_plain; [done|]. by split.
Qed.

(** What completing an interrupted batch relies on. *)
Lemma owed_last_batch l pending : owed [] l = Some pending ->
  match last_batch (rev l) with
  | Some (calls, after) => NoDup (map tc_ID calls) /\ map ToolCallID after ++ pending = map tc_ID calls
  | None => pending = []
  end.
Proof.
  revert pending. induction l as [|m l IH] using rev_ind; intros pending; [by intros [= <-]|].
  rewrite owed_snoc. destruct (owed [] l) as [[|id p]|]; [| |done]; specialize (IH _ eq_refl); rewrite rev_unit;
    cbn [owed last_batch]; (case_bool_decide as H; [|done]).
  - intros [= <-]. destruct H as (Hr & Hn & Hc). unfold is_tool_batch. destruct Hc as [Hc|Ha].
    + rewrite Hc. rewrite !bool_decide_eq_false_2 with (P := Role m = "tool") by done. cbn.
      rewrite andb_false_r. done.
    + rewrite Ha. destruct (ToolCalls m); cbn in *; [done|]. done.
  - intros [= <-]. destruct H as [Hr <-]. unfold is_tool_batch. rewrite Hr. cbn.
    destruct (last_batch (rev l)) as [[calls after]|]; [|done]. destruct IH as [Hn IH]. split; [done|].
    by rewrite map_app, <- app_assoc.
Qed.

Lemma filter_unanswered (calls : list ToolCall) (answers pending : list string) : NoDup (map tc_ID calls) -> answers ++ pending = map tc_ID calls ->
  map tc_ID (filter (fun c => tc_ID c ∉ answers) calls) = pending.
Proof.
  intros Hn Heq. symmetry in Heq. apply map_eq_app in Heq as (c1 & c2 & -> & <- & <-).
  rewrite map_app in Hn. apply NoDup_app in Hn as (_ & Hdis & _). rewrite filter_app, filter_none, filter_id; [done| |];
    apply Forall_forall; intros c Hc.
  - intros Hin. apply (Hdis _ Hin). by apply list_elem_of_fmap_2.
  - intros Hn. apply Hn. by apply list_elem_of_fmap_2.
Qed.

Lemma owed_answers (f : ToolCall -> string) calls : owed (map tc_ID calls) (map (fun c => tool_message (tc_ID c) (f c)) calls) = Some [].
Proof. induction calls as [|c calls IH]; [done|]. cbn. by rewrite bool_decide_eq_true_2. Qed.

Lemma conversation_completed l started pending : owed [] l = Some pending -> conversation (completeInterruptedTranscript l started).
Proof.
  intros Hl. pose proof (owed_last_batch _ _ Hl) as Hb. unfold conversation, completeInterruptedTranscript.
  destruct (last_batch (rev l)) as [[calls after]|]; [|by subst]. destruct Hb as [Hn Heq].
  rewrite owed_app, Hl, <- (filter_unanswered _ _ _ Hn Heq). apply owed_answers.
Qed.

(** * What the parts of the loop can ask *)

(** Walks through a part of the loop in which every answer is looked at. *)
Ltac look := repeat (first
  [ progress cbn [emits wp bind call goes exits stop_if bind_exit note]
  | match goal with
    | |- forall _, _ => intros ?
    | |- idle _ /\ _ => split; [exact I|]
    | |- tooling _ /\ _ => split; [exact I|]
    | |- asking _ /\ _ => split; [exact I|]
    | |- emits _ _ (match ?x with _ => _ end) _ => destruct x
    | |- emits _ _ (bind (match ?x with _ => _ end) _) _ => destruct x
    | |- emits _ _ (bind_exit (match ?x with _ => _ end) _) _ => destruct x
    | |- emits _ _ (stop_if ?x _ _ _) _ => destruct x
    end ]).

Lemma emits_exit {A B} (safe : observation -> Prop) (p : prog event (exit A)) (f : A -> prog event (exit B)) R P : emits note safe p R ->
  (forall x, R x -> match x with Goes a => emits note safe (f a) P | Exits r s => P (Exits r s) end) -> emits note safe (bind_exit p f) P.
Proof. intros Hp Hf. eapply emits_cut; [exact Hp|]. intros x Hx. specialize (Hf x Hx). by destruct x. Qed.

Lemma emits_safe (safe safe' : observation -> Prop) {A} (p : prog event A) P : (forall o, safe o -> safe' o) -> emits note safe p P -> emits note safe' p P.
Proof. intros Hs. induction p as [a|X ev k IH]; cbn [emits]; [done|]. intros Hp x. destruct (Hp x). split; [by apply Hs|by apply IH]. Qed.

(** [p] only looks around, and ends in [P]. *)
Abbreviation quiet p P := (emits note idle p P).

(** The state as the bounds and the narrow replies see it. *)
Definition kept (s s' : loop) : Prop := lp_maxIterations s' = lp_maxIterations s /\ lp_delivered s' = lp_delivered s.
Lemma kept_refl s : kept s s.
Proof. by split. Qed.

(** A conversation goes on. *)
Definition goes_on (s s' : loop) : Prop := conversation (lp_messages s) -> conversation (lp_messages s').

Section parts.
Context `{HU : UnicodeCase} `{HM : MessageJSON} `{HA : AgentJSON} (opt_in : string -> bool) (e : engine) (run : RunContext).

Lemma epoch_lost_quiet : quiet (epoch_lost e run) (fun _ => True).
Proof. unfold epoch_lost. look; done. Qed.
Lemma sticker_needed_quiet : quiet sticker_needed (fun _ => True).
Proof. by look. Qed.
Lemma memory_state_quiet w : quiet (memory_state run w) (fun _ => True).
Proof. unfold memory_state. look; done. Qed.
Lemma settled_usage_quiet : quiet (settled_usage e run) (fun _ => True).
Proof. unfold settled_usage. look; done. Qed.
Lemma resolve_model_quiet : quiet (resolve_model e) (fun x => match x with Err r => ar_Error r = None -> ar_Content r = "" | _ => True end).
Proof. unfold resolve_model. look; repeat case_match; simplify_eq/=; done. Qed.

Lemma relax_quiet s : quiet (relax s) (fun s' => kept s s' /\ lp_messages s' = lp_messages s).
Proof. unfold relax. look; repeat case_match; done. Qed.

Lemma forgiveness_conversation i s : conversation (lp_messages s) -> conversation (lp_messages (appendStickerForgiveness i s)).
Proof.
  intros Hs. unfold appendStickerForgiveness. cbn. apply conversation_app; [done|]. unfold conversation. cbn [owed map ToolCalls tc_ID Role ToolCallID].
  rewrite bool_decide_eq_true_2; [by rewrite bool_decide_eq_true_2|]. split; [done|]. split; [apply NoDup_singleton|by right].
Qed.

Lemma reminder_conversation text s : conversation (lp_messages s) -> conversation (lp_messages (add_messages [text_message "user" text] s)).
Proof. intros Hs. cbn. apply conversation_app; [done|]. unfold conversation. by rewrite owed_plain; [|apply plain_text]. Qed.

Lemma miss_quiet i retract s : quiet (miss i retract s) (fun s' => kept s s' /\
  (conversation (lp_messages s) -> (retract = true -> conversation (removelast (lp_messages s))) -> conversation (lp_messages s'))).
Proof.
  unfold miss, forgive. look; (split; [split; by destruct retract|]); intros Hs Hr.
  - cbn [set_enforcing lp_messages]. apply forgiveness_conversation. destruct retract; [by apply Hr|done].
  - by apply reminder_conversation.
Qed.

Definition bounded (s : loop) : Prop := (lp_maxIterations s <= EffectiveMaxIterations e + 4)%Z.

Lemma add_sticker_bounded s : bounded s -> bounded (add_sticker_iteration e s).
Proof. unfold bounded, add_sticker_iteration. destruct (_ <? 4)%Z eqn:Hm; [|done]. apply Z.ltb_lt in Hm. cbn. lia. Qed.
Lemma add_sticker_messages s : lp_messages (add_sticker_iteration e s) = lp_messages s.
Proof. unfold add_sticker_iteration. by destruct (_ <? 4)%Z. Qed.
Lemma add_sticker_delivered s : lp_delivered (add_sticker_iteration e s) = lp_delivered s.
Proof. unfold add_sticker_iteration. by destruct (_ <? 4)%Z. Qed.

(** What an iteration makes of the state it goes on with. *)
Definition steps_on (s s' : loop) : Prop := (bounded s -> bounded s') /\ goes_on s s' /\ lp_delivered s' = lp_delivered s.

Lemma kept_steps_on s s' : kept s s' -> goes_on s s' -> steps_on s s'.
Proof. intros [Hm Hd] Hg. split; [unfold bounded; by rewrite Hm|done]. Qed.

Lemma steps_on_sticker s s' : steps_on s s' -> steps_on s (add_sticker_iteration e s').
Proof.
  intros (Hb & Hg & Hd). split; [|split].
  - intros Hs. by apply add_sticker_bounded, Hb.
  - unfold goes_on. by rewrite add_sticker_messages.
  - by rewrite add_sticker_delivered.
Qed.

Lemma after_batch_quiet i s : quiet (after_batch e run i s) (steps_on s).
Proof.
  assert (Hrefl : steps_on s s) by (apply kept_steps_on; [apply kept_refl|by intros ?]).
  unfold after_batch, sticker_needed. look; try done;
    (eapply emits_cut; [apply miss_quiet|]; intros s' [Hk Hg]; cbn [emits]; apply steps_on_sticker, kept_steps_on; [done|];
     intros Hs; by apply Hg).
Qed.

Lemma check_in_quiet s : quiet (check_in e run s) (fun x => match x with Exits r s' => s' = s /\ ar_Error r <> None | Goes _ => True end).
Proof.
  unfold check_in. look; try done. unfold epoch_lost. look; done.
Qed.
Lemma check_call_quiet s : quiet (check_call e run s) (fun x => match x with Exits r s' => s' = s /\ ar_Error r <> None | Goes _ => True end).
Proof. unfold check_call. look; try done. unfold epoch_lost. look; done. Qed.

Lemma skill_context_quiet model s : quiet (skill_context e model s)
  (fun x => match x with Exits r s' => s' = s /\ ar_Error r <> None | Goes s' => kept s s' /\ goes_on s s' end).
Proof.
  unfold skill_context. look; try done; (split; [done|]; intros Hs; try done). by apply conversation_skills.
Qed.

(** ** The final answer *)

(** The last message is an answer that calls nothing. *)
Definition answerable (s : loop) : Prop := exists l m, lp_messages s = l ++ [m] /\ plain m /\ conversation l.

Lemma answerable_settled content s : answerable s ->
  conversation (set_last_content content (lp_messages s)) /\ conversation (removelast (set_last_content content (lp_messages s))).
Proof.
  intros (l & m & -> & Hm & Hl). destruct (conversation_last_content content l m Hm Hl) as [Hc ->]. by split.
Qed.

Definition answers (s : loop) (x : exit loop) : Prop :=
  match x with
  | Goes s' => (bounded s -> bounded s') /\ lp_delivered s' = lp_delivered s /\ (answerable s -> conversation (lp_messages s'))
  | Exits _ s' => answerable s -> conversation (lp_messages s')
  end.

Lemma answers_retry s s' : kept s s' -> (answerable s -> conversation (lp_messages s')) -> answers s (Goes (add_sticker_iteration e s')).
Proof.
  intros [Hm Hd] Hc. split; [|split].
  - intros Hs. apply add_sticker_bounded. unfold bounded. by rewrite Hm.
  - by rewrite add_sticker_delivered.
  - by rewrite add_sticker_messages.
Qed.

Lemma final_answer_asks i m s : emits note tooling (final_answer e run i m s) (answers s).
Proof.
  unfold final_answer. cbn [bind call emits]. intros x. split; [exact I|].
  destruct (screened _ x) as [content blocked]. set (content' := proactive_content _ _ _ _). clearbody content'.
  assert (Hs : answerable s -> conversation (set_last_content content' (lp_messages s)) /\
    conversation (removelast (set_last_content content' (lp_messages s)))) by apply answerable_settled.
  unfold sticker_needed, retry, forgive. look; try (intros Hc; destruct (Hs Hc); done).
  1,2: apply answers_retry; [by split|]; intros Hc; apply forgiveness_conversation; by destruct (Hs Hc).
  all: eapply emits_cut; [eapply emits_safe; [apply idle_tooling|apply miss_quiet]|]; intros s' [Hk Hg];
    apply answers_retry; [done|]; intros Hc; apply Hg; [by destruct (Hs Hc)|intros _; by destruct (Hs Hc)].
Qed.

(** ** The calls of tools *)

(** Nothing the loop decides by has changed. *)
Definition same (s s' : loop) : Prop := kept s s' /\ lp_messages s' = lp_messages s.
Lemma same_refl s : same s s.
Proof. by split. Qed.
Lemma same_trans s1 s2 s3 : same s1 s2 -> same s2 s3 -> same s1 s3.
Proof. unfold same, kept. intuition congruence. Qed.

Lemma warned_same d s : same s (warned run d s).
Proof. unfold warned, mergeSecurityNotice. repeat case_match; done. Qed.

Lemma executeInterruptibleTool_asks c : emits note tooling (executeInterruptibleTool c) (fun _ => True).
Proof. unfold executeInterruptibleTool. look; done. Qed.

Lemma deliverToolResult_asks payload content : emits note tooling (deliverToolResult e run payload content) (fun _ => True).
Proof. unfold deliverToolResult, awaitDelivery, epoch_lost. look; repeat case_match; done. Qed.

Lemma prepareStickerPairTool_asks c s : emits note tooling (prepareStickerPairTool run c s) (fun x => same s x.2).
Proof.
  pose proof (same_refl s) as Hs. unfold prepareStickerPairTool. look; try done; try apply warned_same.
  eapply emits_cut; [apply executeInterruptibleTool_asks|]. intros [output err] _.
  look; try done; try apply warned_same; (eapply same_trans; apply warned_same).
Qed.

Lemma deliverStickerPair_asks c sticker s : emits note tooling (deliverStickerPair e run c sticker s) (fun x => same s x.2).
Proof.
  unfold deliverStickerPair. eapply emits_cut; [apply prepareStickerPairTool_asks|]. intros [[text|err] s1] H1; [|done]. cbn [snd] in H1.
  eapply emits_cut; [apply prepareStickerPairTool_asks|]. intros [[pair|err] s2] H2; [|by eapply same_trans]. cbn [snd] in H2.
  assert (H3 : same s s2) by by eapply same_trans.
  destruct (combineStickerPairPayloads _ _) as [payload|err]; [|done].
  eapply emits_cut; [apply deliverToolResult_asks|]. by intros [result delivered] _.
Qed.

Lemma execute_call_asks c s : emits note tooling (execute_call run c s)
  (fun x => match x with Goes y => same s y.2 | Exits _ s' => lp_messages s' = lp_messages s end).
Proof.
  unfold execute_call. look; try done. eapply emits_cut; [apply executeInterruptibleTool_asks|]. intros [execution err] _.
  look; repeat case_match; done.
Qed.

(** A call is answered, or the run ends. *)
Definition serves (calls : list ToolCall) (s : loop) (x : exit loop) : Prop :=
  match x with
  | Goes s' => lp_maxIterations s' = lp_maxIterations s /\
      forall later, owed [] (lp_messages s) = Some (map tc_ID calls ++ later) -> owed [] (lp_messages s') = Some later
  | Exits _ s' => forall later, owed [] (lp_messages s) = Some (map tc_ID calls ++ later) -> exists p, owed [] (lp_messages s') = Some p
  end.

Lemma serves_result c text s s' : lp_maxIterations s' = lp_maxIterations s -> lp_messages s' = lp_messages s ->
  serves [c] s (Goes (tool_result (tc_ID c) text s')).
Proof.
  intros Hm Hl. split; [done|]. intros later Hs. cbn. rewrite Hl, owed_snoc, Hs. cbn. by rewrite bool_decide_eq_true_2.
Qed.

Lemma serves_exit calls r s s' : lp_messages s' = lp_messages s -> serves calls s (Exits r s').
Proof. intros Hl later Hs. rewrite Hl. eauto. Qed.

Lemma serves_app calls1 calls2 s s' x : serves calls1 s (Goes s') -> serves calls2 s' x -> serves (calls1 ++ calls2) s x.
Proof.
  intros [Hm H1] H2. destruct x as [s2|r s2]; cbn [serves] in *.
  - destruct H2 as [Hm2 H2]. split; [congruence|]. intros later. rewrite map_app, <- app_assoc. intros Hs. by apply H2, H1.
  - intros later. rewrite map_app, <- app_assoc. intros Hs. by eapply H2, H1.
Qed.

Lemma finish_call_asks c text execution ok s : emits note tooling (finish_call e run c text execution ok s) (serves [c] s).
Proof.
  unfold finish_call. cbn [bind call emits]. intros x. split; [exact I|]. set (text' := if blocked_or_filtered x then (refused _ _ _).1 else _).
  set (s1 := if blocked_or_filtered x then s else _). clearbody text'. 
  assert (H1 : same s s1) by (subst s1; destruct (blocked_or_filtered x); [apply same_refl|apply warned_same]). clearbody s1.
  destruct H1 as [[Hm Hd] Hl]. unfold sticker_needed. look; try (by apply serves_exit); try (by apply serves_result);
  (eapply emits_cut; [apply deliverToolResult_asks|]; intros [text'' delivered] _; look;
   [apply serves_exit|apply serves_result]; by destruct (_ && _ && _)).
Qed.

Lemma one_call_asks c s : emits note tooling (one_call e run c s) (serves [c] s).
Proof.
  unfold one_call. cbn [bind call emits]. intros x. split; [exact I|]. destruct (warned_same x.2 s) as [[Hm Hd] Hl].
  destruct (blocked_or_filtered x); [by apply serves_result|].
  eapply emits_exit; [apply execute_call_asks|]. intros [[[[text execution] ok] s1]|r s1]; cbn [snd].
  - intros [[Hm1 Hd1] Hl1]. eapply emits_mono; [|apply finish_call_asks]. intros [s2|r s2]; cbn [serves]; rewrite Hl1, Hl, ?Hm1, ?Hm; done.
  - intros Hl1. apply serves_exit. congruence.
Qed.

Lemma pair_call_asks c sticker s : emits note tooling (pair_call e run c sticker s) (serves [c; sticker] s).
Proof.
  unfold pair_call. eapply emits_cut; [apply deliverStickerPair_asks|]. intros [[text text'] s1] [[Hm Hd] Hl]. cbn [snd] in *. look.
  - by apply serves_exit.
  - apply (serves_app [c] [sticker] _ (tool_result (tc_ID c) text s1)); by apply serves_result.
Qed.

Lemma run_calls_asks calls s : emits note tooling (run_calls e run calls s) (serves calls s).
Proof.
  revert s. induction calls as [calls IH] using (well_founded_induction (well_founded_ltof _ (@length ToolCall))). intros s. unfold ltof in IH.
  destruct calls as [|c calls]; [by split|]. cbn [run_calls].
  eapply emits_exit; [eapply emits_safe; [apply idle_tooling|apply check_call_quiet]|]. intros [[]|r s1]; [intros _|intros [-> _]; by apply serves_exit].
  destruct calls as [|next later]; [apply one_call_asks|].
  eapply (emits_cut _ _ _ _ (fun _ => True)); [unfold sticker_needed; look; done|]. intros [] _.
  - eapply emits_exit; [apply pair_call_asks|]. intros [s1|r s1] H1.
    + eapply emits_mono; [|apply IH; cbn; lia]. intros x. by apply (serves_app [c; next]).
    + intros p Hp. by apply (H1 (map tc_ID later ++ p)).
  - eapply emits_exit; [apply one_call_asks|]. intros [s1|r s1] H1.
    + eapply emits_mono; [|apply IH; cbn; lia]. intros x. by apply (serves_app [c]).
    + intros p Hp. by apply (H1 (map tc_ID (next :: later) ++ p)).
Qed.

(** A batch is answered, whatever becomes of it. *)
Definition batched (calls : list ToolCall) (s : loop) (x : exit loop) : Prop :=
  match x with
  | Goes s' => (bounded s -> bounded s') /\ (owed [] (lp_messages s) = Some (map tc_ID calls) -> conversation (lp_messages s'))
  | Exits _ s' => owed [] (lp_messages s) = Some (map tc_ID calls) -> exists p, owed [] (lp_messages s') = Some p
  end.

Lemma serves_batched calls s x : serves calls s x -> batched calls s x.
Proof.
  destruct x as [s'|r s']; cbn.
  - intros [Hm H]. split; [unfold bounded; by rewrite Hm|]. intros Hs. apply H. by rewrite app_nil_r.
  - intros H Hs. apply (H []). by rewrite app_nil_r.
Qed.

Lemma tool_batch_asks i calls s : emits note tooling (tool_batch opt_in e run i calls s) (batched calls s).
Proof.
  unfold tool_batch. destruct (_ && _); [cbn; intros Hs; eauto|]. destruct (staySilentConflict calls) as [conflict|].
  - assert (Hl : owed [] (lp_messages s) = Some (map tc_ID calls) ->
      conversation (lp_messages (add_messages (map (fun c => tool_message (tc_ID c) conflict) calls) s))).
    { intros Hs. unfold conversation. cbn. rewrite owed_app, Hs. apply (owed_answers (fun _ => conflict)). }
    change (lp_enforcing (add_messages _ s)) with (lp_enforcing s). destruct (lp_enforcing s); [|by split].
    eapply emits_cut; [eapply emits_safe; [apply idle_tooling|apply miss_quiet]|]. intros s' [[Hm Hd] Hg]. cbn. split.
    + intros Hb. apply add_sticker_bounded. unfold bounded in *. by rewrite Hm.
    + intros Hs. rewrite add_sticker_messages. apply Hg; [by apply Hl|done].
  - eapply emits_exit; [apply run_calls_asks|]. intros [s1|r s1] H1; apply serves_batched in H1; [|done].
    eapply emits_cut; [eapply emits_safe; [apply idle_tooling|apply after_batch_quiet]|]. intros s2 (Hb & Hg & _). destruct H1 as [Hb1 Hl1].
    split; [by intros ?; apply Hb, Hb1|by intros ?; apply Hg, Hl1].
Qed.

(** ** Asking the model *)

Definition chatless (o : observation) : Prop := match o with OChat _ _ _ _ => False | _ => True end.
Lemma idle_chatless o : idle o -> chatless o.
Proof. by destruct o. Qed.
Lemma tooling_chatless o : tooling o -> chatless o.
Proof. by destruct o. Qed.

Lemma reserve_asks i model l tools s : emits note (fun o => chatless o /\ asking o) (reserve e run i model l tools s)
  (fun x => match x with Goes _ => True | Exits r s' => s' = s /\ ar_Error r <> None end).
Proof.
  unfold reserve. cbn [bind call emits]. look; try done;
  repeat match goal with |- (_ /\ _) /\ _ => split; [done|] | |- forall _, _ => intros ? | _ => progress look end; done.
Qed.

Lemma ask_asks i model s : emits note asking (ask opt_in e run i model s)
  (fun x => match x with
            | Goes (m, s') => lp_delivered s' = lp_delivered s
            | Exits r s' => ar_Error r <> None
            end).
Proof.
  unfold ask. eapply emits_exit; [eapply emits_safe; [apply idle_asking|apply skill_context_quiet]|].
  intros [s1|r s1]; [intros [[Hm Hd] _]|by intros [-> ?]]. look; try done.
  eapply emits_exit; [eapply emits_safe; [|apply reserve_asks]; by intros o []|]. intros [res|r s2]; [intros _|by intros [-> ?]].
  look; repeat case_match; done.
Qed.

(** * Passing over the parts that do not matter *)

Section passing.
Context (rely guarantee : list observation -> observation -> Prop).

Lemma wp_pass (safe : observation -> Prop) {A B} (p : prog event A) (f : A -> prog event B) (P : A -> Prop) Q past :
  emits note safe p P -> (forall past o, safe o -> guarantee past o) ->
  (forall tr a, Forall safe tr -> P a -> wp note rely guarantee (f a) Q (past ++ tr)) ->
  wp note rely guarantee (bind p f) Q past.
Proof. intros Hp Hg Hf. apply wp_bind. by eapply wp_emits. Qed.

Lemma wp_pass_exit (safe : observation -> Prop) {A B} (p : prog event (exit A)) (f : A -> prog event (exit B)) P Q past :
  emits note safe p P -> (forall past o, safe o -> guarantee past o) ->
  (forall tr x, Forall safe tr -> P x ->
    match x with Goes a => wp note rely guarantee (f a) Q (past ++ tr) | Exits r s => Q (past ++ tr) (Exits r s) end) ->
  wp note rely guarantee (bind_exit p f) Q past.
Proof. intros Hp Hg Hf. eapply wp_pass; [exact Hp|exact Hg|]. intros tr x Htr Hx. specialize (Hf tr x Htr Hx). by destruct x. Qed.

Lemma wp_exit {A B} (p : prog event (exit A)) (f : A -> prog event (exit B)) R Q past :
  wp note rely guarantee p R past ->
  (forall past x, R past x -> match x with Goes a => wp note rely guarantee (f a) Q past | Exits r s => Q past (Exits r s) end) ->
  wp note rely guarantee (bind_exit p f) Q past.
Proof. intros Hp Hf. eapply wp_cut; [exact Hp|]. intros tr x Hx. specialize (Hf tr x Hx). by destruct x. Qed.
End passing.

(** A run, but for its iterations. *)
Definition initial (messages : list ChatMessage) (s : loop) : Prop :=
  lp_maxIterations s = EffectiveMaxIterations e /\ lp_delivered s = false /\ (conversation messages -> conversation (lp_messages s)).

Lemma wp_run rely guarantee (R : list observation -> option (AgentRunResult * loop) -> Prop) Q fuel messages :
  (forall past o, idle o -> guarantee past o) ->
  (forall past model s, Forall idle past -> initial messages s -> wp note rely guarantee (iterate opt_in e run fuel 0 model s) R past) ->
  (forall past r s, Forall idle past -> initial messages s -> (ar_Error r = None -> ar_Content r = "") -> R past (Some (r, s))) ->
  (forall past, R past None -> Q past None) ->
  (forall past r s, R past (Some (r, s)) -> wp note rely guarantee (deferred e run r s) (fun past r => Q past (Some r)) past) ->
  wp note rely guarantee (runLoopWithResult opt_in e run fuel messages) Q [].
Proof.
  intros Hidle Hiter Hearly Hnone Hdef. unfold runLoopWithResult. eapply (wp_cut _ _ _ _ _ R).
  2: { intros past [[r s]|] HR; [|by apply Hnone]. eapply wp_cut; [by apply Hdef|done]. }
  unfold loop_body. eapply wp_pass; [apply memory_state_quiet|done|]. intros tr1 w Htr1 _.
  assert (Hs : initial messages (start e run messages w)) by done. revert Hs. generalize (start e run messages w). intros s Hs.
  eapply wp_pass; [apply resolve_model_quiet|done|]. intros tr2 [model|r] Htr2; [intros _|intros Hr; apply Hearly; [by apply Forall_app|done|done]].
  eapply (wp_pass _ _ idle _ _ (fun _ => True)); [look; done|done|]. intros tr3 skill Htr3 _.
  destruct skill as [err|]; [apply Hearly; [repeat apply Forall_app_2; done|done|done]|].
  eapply (wp_pass _ _ idle _ _ (fun _ => True)); [look; done|done|]. intros tr4 snapshot Htr4 _.
  apply Hiter; [repeat apply Forall_app_2; done|]. destruct (_ && _); [|done]. destruct Hs as (Hm & Hd & Hc).
  split; [done|]. split; [done|]. intros Hl. by apply (reminder_conversation _ (set_enforcing true 0 s)), Hc.
Qed.

(** The deferred function looks around and keeps the transcript. *)
Definition settling (o : observation) : Prop := match o with OReserve _ _ | OChat _ _ _ _ | OExecute _ _ | OSend _ _ => False | _ => True end.

Lemma deferred_asks r s : emits note settling (deferred e run r s) (fun r' => ar_Error r' = None -> ar_Error r = None /\ ar_Content r' = ar_Content r).
Proof.
  unfold deferred, memory_state, settled_usage.
  repeat match goal with
  | |- settling _ /\ _ => split; [exact I|]
  | _ => progress look
  end; cbn in *; repeat case_match; done.
Qed.

(** * The loop ends *)

Definition is_chat (o : observation) : bool := match o with OChat _ _ _ _ => true | _ => false end.
Definition chats (tr : list observation) : Z := Z.of_nat (length (filter (fun o => is_chat o = true) tr)).

Lemma chats_app tr1 tr2 : chats (tr1 ++ tr2) = (chats tr1 + chats tr2)%Z.
Proof. unfold chats. rewrite filter_app, length_app. lia. Qed.

Lemma chats_none tr : Forall chatless tr -> chats tr = 0%Z.
Proof. intros Htr. unfold chats. rewrite filter_none; [done|]. eapply Forall_impl; [exact Htr|]. by intros []. Qed.

Lemma chats_pass (safe : observation -> Prop) past tr : (forall o, safe o -> chatless o) -> Forall safe tr -> chats (past ++ tr) = chats past.
Proof. intros Hs Htr. rewrite chats_app, (chats_none tr); [lia|]. by eapply Forall_impl. Qed.

Lemma chats_snoc past o : chats (past ++ [o]) = (chats past + if is_chat o then 1 else 0)%Z.
Proof. rewrite chats_app. f_equal. unfold chats. rewrite filter_cons. by destruct o. Qed.

Definition call_limit : Z := EffectiveMaxIterations e + 4.

Definition within_limit (past : list observation) (o : observation) : Prop := (chats (past ++ [o]) <= call_limit)%Z \/ is_chat o = false.

Lemma chatless_within past o : chatless o -> within_limit past o.
Proof. destruct o; try by right. Qed.

Abbreviation counted p Q past := (wp note (fun _ _ => True) within_limit p Q past).

Lemma counted_ask i model s past : (chats past < call_limit)%Z ->
  counted (ask opt_in e run i model s) (fun past' x => (chats past' <= chats past + 1)%Z /\
    match x with Goes (m, s') => lp_maxIterations s' = lp_maxIterations s | Exits _ _ => True end) past.
Proof.
  intros Hp. unfold ask. eapply wp_pass_exit; [apply skill_context_quiet|intros; by apply chatless_within, idle_chatless|].
  intros tr x Htr. apply (chats_pass idle past) in Htr; [|apply idle_chatless]. destruct x as [s1|r s1]; [|intros _; split; [lia|done]].
  intros [[Hm _] _]. cbn [wp bind call note]. intros tools _. split; [by right|]. intros tokens _. split; [by right|].
  assert (Hs : chats (((past ++ tr) ++ [OOther]) ++ [OOther]) = chats past) by (rewrite !chats_snoc, Htr; cbn; lia).
  revert Hs. generalize (((past ++ tr) ++ [OOther]) ++ [OOther]). intros past1 Hs.
  destruct (_ <? tokens)%Z; cbn [stop_if]; [cbn; split; [lia|done]|].
  eapply wp_pass_exit; [apply reserve_asks|intros past' o [Ho _]; by apply chatless_within|].
  intros tr1 x Htr1 _. apply (chats_pass _ past1) in Htr1; [|by intros o []].
  destruct x as [reservation|r s2]; [|split; [lia|done]].
  cbn [wp bind call note]. intros answer _. split; [left; rewrite chats_snoc, Htr1, Hs; cbn; lia|].
  destruct answer as [err|m usage commitErr].
  - split; [rewrite !chats_snoc, Htr1; cbn; lia|done].
  - cbn [wp bind call note]. intros c _. split; [by right|].
    match goal with |- wp _ _ _ _ _ ?p => assert (Hc : (chats p <= chats past + 1)%Z) by (rewrite !chats_snoc, Htr1; cbn; lia) end.
    destruct c; [done|]. cbn [stop_if]. destruct usage, commitErr; repeat case_match; done.
Qed.

Lemma counted_iteration i model s past : (chats past < call_limit)%Z -> bounded s ->
  counted (iteration opt_in e run i model s) (fun past' x => (chats past' <= chats past + 1)%Z /\
    match x with Goes s' => bounded s' | Exits _ _ => True end) past.
Proof.
  intros Hp Hb. unfold iteration. eapply wp_pass_exit; [apply check_in_quiet|intros; by apply chatless_within, idle_chatless|].
  intros tr x Htr. apply (chats_pass idle past) in Htr; [|apply idle_chatless]. destruct x as [[]|r s1]; [|intros _; split; [lia|done]]. intros _.
  eapply wp_exit; [apply counted_ask; lia|]. rewrite Htr. intros past1 [[m s1]|r s1] [Hc Hm]; [|by split].
  eapply wp_pass; [apply relax_quiet|intros; by apply chatless_within, idle_chatless|]. intros tr2 s2 Htr2 [[Hm2 _] _].
  apply (chats_pass idle past1) in Htr2; [|apply idle_chatless].
  assert (Hb2 : bounded s2) by (unfold bounded in *; rewrite Hm2, Hm; exact Hb).
  case_bool_decide; (eapply wp_emits; [first [apply final_answer_asks|apply tool_batch_asks]|intros; by apply chatless_within, tooling_chatless|]);
    (intros tr3 x Htr3 Hx; apply (chats_pass tooling (past1 ++ tr2)) in Htr3; [|apply tooling_chatless]; split; [lia|]; destruct x; [|done]; by apply Hx).
Qed.

Lemma counted_iterate fuel i model s past : (call_limit <= i + Z.of_nat fuel)%Z -> (chats past <= i)%Z -> bounded s ->
  counted (iterate opt_in e run fuel i model s) (fun _ x => x <> None) past.
Proof.
  revert i s past. induction fuel as [|fuel IH]; intros i s past Hf Hc Hb; cbn [iterate];
    destruct (i <? lp_maxIterations s)%Z eqn:Hi; cbn [negb]; try done; apply Z.ltb_lt in Hi; unfold bounded, call_limit in *; [lia|].
  eapply wp_cut; [apply counted_iteration; [unfold call_limit; lia|done]|]. intros past' [s'|r s'] [Hc' Hb']; [|done]. apply IH; [lia|lia|done].
Qed.

Lemma within_limit_total past tr : (chats past <= call_limit)%Z -> always within_limit past tr -> (chats (past ++ tr) <= call_limit)%Z.
Proof.
  revert past. induction tr as [|o tr IH]; intros past Hp; [by rewrite app_nil_r|]. intros [Ho Htr].
  rewrite cons_middle, app_assoc. apply IH; [|done]. destruct Ho as [Ho|Ho]; [done|]. rewrite chats_snoc, Ho. lia.
Qed.

Lemma call_limit_pos : (0 < call_limit)%Z.
Proof.
  unfold call_limit, EffectiveMaxIterations, DefaultMaxIterations. destruct (0 <? en_MaxIterations e)%Z eqn:Hm; [apply Z.ltb_lt in Hm|]; lia.
Qed.

(** C7: the loop ends.  No run asks the model more often than the configured
    limit and four sticker attempts allow, whatever it answers; with that much
    fuel the run has a result: the fuel of the model is never what ends it. *)
Theorem loop_ends fuel messages tr r : (call_limit <= Z.of_nat fuel)%Z ->
  runs note (runLoopWithResult opt_in e run fuel messages) tr r ->
  (chats tr <= call_limit)%Z /\ r <> Some None.
Proof.
  intros Hf Hr. pose proof call_limit_pos as Hpos.
  assert (Hwp : counted (runLoopWithResult opt_in e run fuel messages) (fun _ x => x <> None) []).
  { eapply (wp_run _ _ (fun _ x => x <> None)); [intros; by apply chatless_within, idle_chatless| |done|done|].
    - intros tr1 model s Htr1 (Hm & _). apply (chats_pass idle []) in Htr1; [|apply idle_chatless].
      apply counted_iterate; [lia|change (chats tr1 = 0%Z) in Htr1; lia|unfold bounded; lia].
    - intros past r0 s _. eapply wp_emits; [apply deferred_asks|intros ? []; by right|done]. }
  destruct (wp_sound _ _ _ _ _ _ _ _ Hwp Hr) as [Hg Hq]; [by apply always_true|]. split.
  - apply (within_limit_total []); [change (chats []) with 0%Z; lia|done].
  - intros ->. by apply (Hq None).
Qed.

(** * What the model is shown *)

(** The provider answers as the assistant, with distinct identifiers. *)
Definition provider (past : list observation) (o : observation) : Prop :=
  match o with OChat _ _ _ (ChatReply m _ _) => Role m = "assistant" /\ NoDup (map tc_ID (ToolCalls m)) | _ => True end.

Definition well_formed (past : list observation) (o : observation) : Prop :=
  match o with OChat r _ _ _ => conversation (rq_Messages r) | OSaveTranscript l => conversation l | _ => True end.

Lemma tooling_well_formed past o : tooling o -> well_formed past o.
Proof. by destruct o. Qed.
Lemma idle_well_formed past o : idle o -> well_formed past o.
Proof. by destruct o. Qed.

Abbreviation conversing p Q past := (wp note provider well_formed p Q past).

(** The run ends with calls that may be open, which the deferred function answers. *)
Definition interruptible (s : loop) : Prop := exists p, owed [] (lp_messages s) = Some p.

Lemma conversation_interruptible s : conversation (lp_messages s) -> interruptible s.
Proof. intros Hs. by exists []. Qed.

(** The response has been added to the conversation. *)
Definition responded (m : ChatMessage) (s : loop) : Prop :=
  owed [] (lp_messages s) = Some (map tc_ID (ToolCalls m)) /\ (ToolCalls m = [] -> answerable s).

Lemma responded_add m s l : Role m = "assistant" -> NoDup (map tc_ID (ToolCalls m)) -> conversation l -> lp_messages s = l ++ [m] -> responded m s.
Proof.
  intros Hr Hn Hl Hs. split.
  - rewrite Hs, owed_snoc, Hl. cbn. rewrite bool_decide_eq_true_2; [done|]. rewrite Hr. split; [done|]. split; [done|by right].
  - intros Hc. exists l, m. split; [done|]. split; [|done]. split; [by rewrite Hr|done].
Qed.

Lemma conversing_ask i model s past : conversation (lp_messages s) ->
  conversing (ask opt_in e run i model s) (fun _ x => match x with Goes (m, s') => responded m s' | Exits _ s' => interruptible s' end) past.
Proof.
  intros Hs. unfold ask. eapply wp_pass_exit; [apply skill_context_quiet|intros; by apply idle_well_formed|].
  intros tr [s1|r s1] _; [intros [_ Hg]|intros [-> _]; by apply conversation_interruptible]. specialize (Hg Hs).
  cbn [wp bind call note]. intros tools _. split; [done|]. intros tokens _. split; [done|].
  destruct (_ <? tokens)%Z; cbn [stop_if]; [by apply conversation_interruptible|].
  eapply wp_pass_exit; [apply reserve_asks|intros past' o [Ho Ha]; by destruct o|].
  intros tr1 [reservation|r s2] _; [intros _|intros [-> _]; by apply conversation_interruptible].
  cbn [wp bind call note]. intros answer Ha. split; [by apply conversation_notice|].
  destruct answer as [err|m usage commitErr]; [by apply conversation_interruptible|]. destruct Ha as [Hrole Hn].
  cbn [wp bind call note]. intros c _. split; [done|]. destruct c; [by apply conversation_interruptible|]. cbn [stop_if].
  assert (Hresp : forall m' s', Role m' = Role m -> ToolCalls m' = ToolCalls m -> lp_messages s' = lp_messages s1 ++ [m'] -> responded m' s').
  { intros m' s' Hr' Hc' Hl'. apply (responded_add _ _ (lp_messages s1)); [congruence|by rewrite Hc'|done|done]. }
  destruct usage, commitErr; try case_bool_decide; first [by apply Hresp|by apply conversation_interruptible].
Qed.

Lemma conversing_iteration i model s past : conversation (lp_messages s) ->
  conversing (iteration opt_in e run i model s) (fun _ x => match x with Goes s' => conversation (lp_messages s') | Exits _ s' => interruptible s' end) past.
Proof.
  intros Hs. unfold iteration. eapply wp_pass_exit; [apply check_in_quiet|intros; by apply idle_well_formed|].
  intros tr [[]|r s1] _; [intros _|intros [-> _]; by apply conversation_interruptible].
  eapply wp_exit; [by apply conversing_ask|]. intros past1 [[m s1]|r s1] Hm; [|done].
  eapply wp_pass; [apply relax_quiet|intros; by apply idle_well_formed|]. intros tr2 s2 _ [_ Hl].
  unfold responded, answerable in Hm. rewrite <- Hl in Hm. destruct Hm as [Ho Ha].
  case_bool_decide as Hc; (eapply wp_emits; [first [apply final_answer_asks|apply tool_batch_asks]|intros; by apply tooling_well_formed|]);
    intros tr3 [s3|r s3] _ Hx.
  - destruct Hx as (_ & _ & Hx). by apply Hx, Ha.
  - by apply conversation_interruptible, Hx, Ha.
  - by apply Hx.
  - by apply Hx.
Qed.

Lemma conversing_iterate fuel i model s past : conversation (lp_messages s) ->
  conversing (iterate opt_in e run fuel i model s) (fun _ x => match x with Some (_, s') => interruptible s' | None => True end) past.
Proof.
  revert i s past. induction fuel as [|fuel IH]; intros i s past Hs; cbn [iterate];
    destruct (i <? lp_maxIterations s)%Z; cbn [negb]; try done; try (by apply conversation_interruptible).
  eapply wp_cut; [by apply conversing_iteration|]. intros past' [s'|r s'] H'; [by apply IH|done].
Qed.


(** * What a call costs *)

(** The reservation a granted request is to be settled with: none, [""], for a
    welcome. *)
Definition granted (x : LLMReservationResult) : option string :=
  if bool_decide (rs_Decision x = DecisionInsufficient) then None
  else Some (if decide (rs_Decision x = DecisionReserved) then rs_ReservationID x else "").

(** What has been granted and not been used. *)
Definition next_grant (open : option string) (o : observation) : option string :=
  match o with
  | OReserve _ (Ok x) => granted x
  | OReserve _ (Err _) | OChat _ _ _ _ => None
  | _ => open
  end.
Definition open_grant (past : list observation) : option string := fold_left next_grant past None.

Lemma open_grant_snoc past o : open_grant (past ++ [o]) = next_grant (open_grant past) o.
Proof. unfold open_grant. by rewrite fold_left_app. Qed.

Lemma open_grant_pass (safe : observation -> Prop) past tr : (forall o, safe o -> forall g, next_grant g o = g) -> Forall safe tr ->
  open_grant (past ++ tr) = open_grant past.
Proof.
  intros Hs Htr. revert past. induction Htr as [|o tr Ho Htr IH]; intros past; [by rewrite app_nil_r|].
  rewrite cons_middle, app_assoc, IH, open_grant_snoc. by apply Hs.
Qed.

Lemma idle_grant o : idle o -> forall g, next_grant g o = g.
Proof. by destruct o. Qed.
Lemma tooling_grant o : tooling o -> forall g, next_grant g o = g.
Proof. by destruct o. Qed.

Definition paid (past : list observation) (o : observation) : Prop :=
  match o with
  | OReserve r _ => is_Some (billing_run e run) /\ open_grant past = None /\ (1 <= rq_AmountMinor r)%Z
  | OChat _ reservation billed _ =>
      if billed then is_Some (billing_run e run) /\ open_grant past = Some reservation
      else billing_run e run = None /\ reservation = ""
  | _ => True
  end.

Lemma idle_paid past o : idle o -> paid past o.
Proof. by destruct o. Qed.
Lemma tooling_paid past o : tooling o -> paid past o.
Proof. by destruct o. Qed.

Abbreviation paying p Q past := (wp note (fun _ _ => True) paid p Q past).

Lemma paying_reserve i model l tools s past : open_grant past = None ->
  paying (reserve e run i model l tools s) (fun past x =>
    match x with
    | Goes id => open_grant past = match billing_run e run with Some _ => Some id | None => None end /\ (billing_run e run = None -> id = "")
    | Exits _ _ => open_grant past = None
    end) past.
Proof.
  intros Hp. unfold reserve. destruct (billing_run e run) as [b|] eqn:Hb; [|done]. cbn [wp bind call note].
  intros [amount|err] _; (split; [done|]); [|cbn; by rewrite open_grant_snoc].
  assert (Hp1 : open_grant (past ++ [OOther]) = None) by by rewrite open_grant_snoc. revert Hp1. generalize (past ++ [OOther]). intros past1 Hp1.
  eapply (wp_pass _ _ idle _ _ (fun _ => True)); [case_bool_decide; look; done|apply idle_paid|]. intros tr now Htr _.
  apply (open_grant_pass idle past1) in Htr; [|apply idle_grant]. cbn [wp bind call note]. intros index _. split; [done|].
  intros x _. split; [split; [by rewrite Hb|]; split; [by rewrite open_grant_snoc, Htr|cbn; lia]|].
  destruct x as [res|[]]; [|cbn; repeat (intros; split; [done|])|]; [|by rewrite !open_grant_snoc|by cbn; rewrite !open_grant_snoc].
  case_bool_decide as Hd; [cbn; rewrite !open_grant_snoc; cbn; unfold granted; by rewrite bool_decide_eq_true_2|].
  cbn. intros _ _. split; [done|]. split; [|done]. rewrite !open_grant_snoc. cbn. unfold granted. by rewrite bool_decide_eq_false_2.
Qed.

Lemma paying_ask i model s past : open_grant past = None ->
  paying (ask opt_in e run i model s) (fun past _ => open_grant past = None) past.
Proof.
  intros Hp. unfold ask. eapply wp_pass_exit; [apply skill_context_quiet|apply idle_paid|].
  intros tr x Htr _. apply (open_grant_pass idle past) in Htr; [|apply idle_grant]. destruct x as [s1|r s1]; [|congruence].
  cbn [wp bind call note]. intros tools _. split; [done|]. intros tokens _. split; [done|].
  assert (H1 : open_grant (((past ++ tr) ++ [OOther]) ++ [OOther]) = None) by (rewrite !open_grant_snoc; cbn; congruence).
  destruct (_ <? tokens)%Z; cbn [stop_if]; [done|]. eapply wp_exit; [by apply paying_reserve|].
  intros past1 [id|r s2]; [|done]. intros [Hg Hid]. cbn [wp bind call note]. intros answer _. split.
  - cbn. case_bool_decide as Hb; [|apply eq_None_not_Some in Hb; by split; [|apply Hid]]. split; [done|].
    destruct Hb as [b Hb]. by rewrite Hg, Hb.
  - destruct answer as [err|m usage commitErr]; [cbn; by rewrite open_grant_snoc|]. cbn [wp bind call note]. intros c _. split; [done|].
    destruct c; [cbn; by rewrite !open_grant_snoc|]. cbn [stop_if]. destruct usage, commitErr; try case_bool_decide; cbn; by rewrite !open_grant_snoc.
Qed.

Lemma paying_iterate fuel i model s past : open_grant past = None ->
  paying (iterate opt_in e run fuel i model s) (fun past _ => open_grant past = None) past.
Proof.
  revert i s past. induction fuel as [|fuel IH]; intros i s past Hp; cbn [iterate]; destruct (i <? lp_maxIterations s)%Z; cbn [negb]; try done.
  eapply (wp_cut _ _ _ _ _ (fun past _ => open_grant past = None)); [|intros past' [s'|r s'] H'; [by apply IH|done]].
  unfold iteration. eapply wp_pass_exit; [apply check_in_quiet|apply idle_paid|].
  intros tr x Htr _. apply (open_grant_pass idle past) in Htr; [|apply idle_grant]. destruct x as [[]|r s1]; [|congruence].
  eapply wp_exit; [apply paying_ask; congruence|]. intros past1 [[m s1]|r s1] H1; [|done].
  eapply wp_pass; [apply relax_quiet|apply idle_paid|]. intros tr2 s2 Htr2 _. apply (open_grant_pass idle past1) in Htr2; [|apply idle_grant].
  case_bool_decide; (eapply wp_emits; [first [apply final_answer_asks|apply tool_batch_asks]|apply tooling_paid|]);
    intros tr3 x Htr3 _; apply (open_grant_pass tooling (past1 ++ tr2)) in Htr3; try apply tooling_grant; congruence.
Qed.

End parts.

(** * Runs to look at *)

Module demo.

#[local] Instance unicode : UnicodeCase := {| unicode_to_lower s := s; unicode_equal_fold s t := bool_decide (s = t) |}.
#[local] Instance message_json : MessageJSON := {|
  raw_messages _ := None; raw_component _ := None; typed_messages _ := None; with_messages _ _ := None; envelope _ := "" |}.
#[local] Instance agent_json : AgentJSON := {|
  strict_reply args := if decide (args = "reply") then Some [{| pc_Type := "mention_specific"; pc_MessageID := "7"; pc_Text := "" |};
                                                             {| pc_Type := "plain"; pc_MessageID := ""; pc_Text := "hi" |}] else None;
  echo_payload _ := None; memory_action _ := None |}.

Definition allowed (name : string) : bool := bool_decide (name = "send_message").

Definition machine : engine := {|
  en_MaxIterations := 3; en_ModelName := "model"; en_ModelRouter := false; en_Skills := true; en_SessionManager := true;
  en_BillingClient := true; en_BillingEnabled := true; en_MaxOutputTokens := 1000 |}.

Definition request (proactive : bool) : RunContext := {|
  rc_present := true; rc_Turn := true; rc_SessionID := "private:1"; rc_Epoch := 2; rc_Platform := "qq"; rc_GroupID := "";
  rc_AdapterID := "onebot"; rc_Mock := false; rc_Proactive := proactive; rc_SendHook := true;
  rc_Billing := Some {| rb_Platform := "qq"; rb_ExternalID := "1"; rb_DisplayName := ""; rb_TaskID := "t"; rb_Active := true |};
  rc_SecurityNotice := ""; rc_FinalReplyText := None |}.

(** The model sends a message, then has an answer; where [cut] holds, the run is
    canceled while the tool runs. *)
Record world := { w_script : list ChatMessage; w_canceled : bool }.
Definition send : ToolCall := {| tc_ID := "call_1"; tc_Type := "function"; tc_Name := "send_message"; tc_Arguments := "reply" |}.
Definition reply (text : string) (calls : list ToolCall) : ChatMessage :=
  {| Role := "assistant"; MContent := Text text; ToolCalls := calls; ToolCallID := "" |}.
Definition first_world : world := {| w_script := [reply "" [send]; reply "done" []]; w_canceled := false |}.

Definition answer (cut : bool) (X : Type) (ev : event X) (w : world) : X * world :=
  match ev in event X return X * world with
  | Canceled => (w_canceled w, w)
  | CtxErr => (if w_canceled w then Some context_canceled else None, w)
  | Access => (None, w)
  | SessionEpoch => (Some 2%Z, w)
  | ResolveRoute => (Ok "model", w)
  | ActivateSkill _ => (None, w)
  | SkillText => (Ok "", w)
  | TracePrompt _ _ => (tt, w)
  | ListTools => ([{| tool_Name := "send_message"; tool_Description := ""; tool_Parameters := SMap [] |}], w)
  | StickerSnapshot => ((0, 0, 0)%Z, w)
  | GrantGrace => (tt, w)
  | RecordMessage _ => (tt, w)
  | ContextTokens _ _ => (100%Z, w)
  | EstimateReservation _ _ _ => (Ok 5%Z, w)
  | NextCall => (0%Z, w)
  | Now => (0%Z, w)
  | Reserve _ => (Ok {| rs_ReservationID := "r"; rs_Decision := DecisionReserved; rs_BalanceMinor := 95 |}, w)
  | QueryBalance => (None, w)
  | SetBalance _ _ => (tt, w)
  | Chat _ _ _ => match w_script w with
                  | m :: script => (ChatReply m None None, {| w_script := script; w_canceled := w_canceled w |})
                  | [] => (ChatFailed "no answer", w)
                  end
  | Evaluate _ _ _ _ => ((false, pass_decision ""), w)
  | FindTool _ => (true, w)
  | Execute _ => (({| ex_Content := "ok"; ex_MemoryWritten := false; ex_MessagePayload := "hi" |}, None),
                  {| w_script := w_script w; w_canceled := cut |})
  | Send _ => (Sent, w)
  | MemoryState written => (written, w)
  | SaveTranscript _ => (tt, w)
  | WaitBilling => (None, w)
  end.

Definition prompt : list ChatMessage := [text_message "system" "be kind"; text_message "user" "hello"].
Definition run (proactive : bool) : prog event (option AgentRunResult) := runLoopWithResult allowed machine (request proactive) 7 prompt.

Definition seen (proactive cut : bool) : list observation := (execute note (answer cut) (run proactive) first_world).1.
Definition result (proactive cut : bool) : option AgentRunResult := (execute note (answer cut) (run proactive) first_world).2.

Lemma happens proactive cut : runs note (run proactive) (seen proactive cut) (Some (result proactive cut)).
Proof. apply execute_runs. Qed.

Lemma honest : always provider [] (seen false false).
Proof. vm_compute. repeat first [exact I | reflexivity | apply NoDup_nil_2 | apply NoDup_singleton | split]. Qed.

Lemma loop_ends_witness : chats (seen false false) = 2%Z /\ result false false <> None /\
  ((chats (seen false false) <= call_limit machine)%Z /\ Some (result false false) <> Some None).
Proof.
  split; [vm_compute; reflexivity|]. split; [vm_compute; discriminate|].
  exact (loop_ends allowed machine (request false) 7 prompt _ _ ltac:(vm_compute; discriminate) (happens false false)).
Defined.


End demo.
