(* ===== verification/AgentSafety.v ===== *)
(** What may happen in a run of the model loop ([Agent.v]): what passes the
    watchdog, what an interruption stops, what a proactive turn may do.

    The theorems are about any run, as in [AgentRun.v], whose lemmas on the parts
    of the loop are used here. *)

From S2P Require Import Prelude GoStrings SessionKey SummaryStore SessionState Sequence Risk AuditLog Watchdog Controller Router Interact Sticker Agent AgentRun.

Local Open Scope string_scope.
Local Open Scope list_scope.
Local Open Scope frost_scope.

Section parts.
Context `{HU : UnicodeCase} `{HM : MessageJSON} `{HA : AgentJSON} (opt_in : string -> bool) (e : engine) (run : RunContext).

(** * Nothing passes uninspected *)

(** The arguments of a call have just been let through. *)
Definition let_through (past : list observation) (c : ToolCall) : Prop :=
  exists pre mid d, past = pre ++ OEvaluate StageToolArgument SourceToolArgument (tc_Arguments c) (tc_Name c) d :: mid /\
    Forall idle mid /\ blocked_or_filtered d = false.

(** A tool prepared this message, and it was part of a result that was let
    through. *)
Definition prepared (past : list observation) (payload : string) : Prop :=
  exists c execution before d, OExecute c (execution, None) ∈ past /\ ex_MessagePayload execution = payload /\
    OEvaluate StageToolResult SourceToolResult (before +:+ payload) (tc_Name c) d ∈ past /\ blocked_or_filtered d = false.

(** A message, or a text with its sticker. *)
Definition message_of (past : list observation) (payload : string) : Prop :=
  prepared past payload \/
  exists text sticker, prepared past text /\ prepared past sticker /\ combineStickerPairPayloads text sticker = Ok payload.

Definition inspected_first (past : list observation) (o : observation) : Prop :=
  match o with
  | OExecute c _ => let_through past c
  | OSend sent _ => exists payload, message_of past payload /\
      sent = (if rc_Proactive run then (filterStickerMessages payload).1 else payload)
  | _ => True
  end.

(** What a run without an error may say: a fixed text, or an output of the model
    as the watchdog leaves it. *)
Definition released (past : list observation) (content : string) : Prop :=
  content = "" \/ content = RejectGatewayMsg \/ content = ar_Content (exhausted run (start e run [] false)) \/
  exists said x echoes, OEvaluate StageModelOutput SourceModelOutput said "" x ∈ past /\
    content = proactive_content run (screened said x).2 echoes (screened said x).1.

Definition outcome (past : list observation) (r : AgentRunResult) : Prop := ar_Error r = None -> released past (ar_Content r).
Definition outcome_of {A} (past : list observation) (x : exit A) : Prop := match x with Goes _ => True | Exits r _ => outcome past r end.

Lemma prepared_grow past tr payload : prepared past payload -> prepared (past ++ tr) payload.
Proof. intros (c & ex & before & d & H1 & H2 & H3 & H4). exists c, ex, before, d. rewrite !elem_of_app. auto. Qed.

Lemma released_grow past tr content : released past content -> released (past ++ tr) content.
Proof.
  intros [H|[H|[H|(said & x & echoes & H1 & H2)]]]; [by left|by right; left|by right; right; left|].
  right; right; right. exists said, x, echoes. by rewrite elem_of_app; auto.
Qed.

Lemma idle_inspected past o : idle o -> inspected_first past o.
Proof. by destruct o. Qed.
Lemma asking_inspected past o : asking o -> inspected_first past o.
Proof. by destruct o. Qed.

Abbreviation inspecting p Q past := (wp note (fun _ _ => True) inspected_first p Q past).

Lemma let_through_idle past c o : idle o -> let_through past c -> let_through (past ++ [o]) c.
Proof.
  intros Ho (pre & mid & d & -> & Hmid & Hd). exists pre, (mid ++ [o]), d. rewrite <- app_assoc. split; [done|].
  split; [|done]. apply Forall_app. by split; [|constructor].
Qed.

Lemma let_through_now past c d : blocked_or_filtered d = false ->
  let_through (past ++ [OEvaluate StageToolArgument SourceToolArgument (tc_Arguments c) (tc_Name c) d]) c.
Proof. intros Hd. by exists past, [], d. Qed.

Lemma inspecting_execute c past : let_through past c ->
  inspecting (executeInterruptibleTool c) (fun past x => x.2 = None -> OExecute c (x.1, None) ∈ past) past.
Proof.
  intros Hc. unfold executeInterruptibleTool. cbn [wp bind call note]. intros [] _; (split; [done|]); [done|].
  cbn [wp bind call note]. intros [] _; (split; [done|]); [done|]. cbn [wp bind call note]. intros [ex err] _. split.
  - by repeat apply let_through_idle.
  - cbn. intros ->. rewrite elem_of_app. right. by apply list_elem_of_singleton.
Qed.

Lemma message_grow past tr payload : message_of past payload -> message_of (past ++ tr) payload.
Proof.
  intros [H|(t & s & Ht & Hs & Hc)]; [left; by apply prepared_grow|right; exists t, s]. split; [by apply prepared_grow|].
  split; [by apply prepared_grow|done].
Qed.

Lemma inspecting_deliver payload text past :
  (payload <> "" -> (MaxToolOutputBytes <? Z.of_nat (slen payload))%Z = false -> message_of past payload) ->
  inspecting (deliverToolResult e run payload text) (fun _ _ => True) past.
Proof.
  intros Hp. unfold deliverToolResult. destruct (negb _ || _ || _) eqn:Hg; [done|]. apply orb_false_elim in Hg as [[_ Hne]%orb_false_elim Hlen].
  apply bool_decide_eq_false in Hne. specialize (Hp Hne Hlen). cbn [wp bind call note]. intros [] _; (split; [done|]); [done|].
  set (x := if rc_Proactive run then _ else _). assert (Hx : x.1 = if rc_Proactive run then (filterStickerMessages payload).1 else payload)
    by (subst x; by destruct (rc_Proactive run)). destruct x as [sent filtered]. cbn [fst] in Hx.
  destruct (filtered && _); [done|]. eapply wp_pass; [apply epoch_lost_quiet|apply idle_inspected|]. intros tr lost _ _.
  destruct lost; [done|]. unfold awaitDelivery. cbn [wp bind call note]. intros [err|] _; (split; [done|]); [done|].
  cbn [wp bind call note]. intros [err|] _; (split; [done|]); [done|]. cbn [wp bind call note]. intros x _. split.
  - exists payload. split; [|done]. by do 4 apply message_grow.
  - destruct x; try done. destruct (rc_Mock run); [done|]. cbn. by intros.
Qed.

(** A message of a result that is let through. *)
Lemma prepared_now past c execution text d : OExecute c (execution, None) ∈ past ->
  (exists before, text = before +:+ ex_MessagePayload execution) -> blocked_or_filtered d = false ->
  prepared (past ++ [OEvaluate StageToolResult SourceToolResult text (tc_Name c) d]) (ex_MessagePayload execution).
Proof.
  intros Hex [before ->] Hd. exists c, execution, before, d. rewrite !elem_of_app. split; [by left|]. split; [done|].
  split; [right; by apply list_elem_of_singleton|done].
Qed.

Lemma inspecting_prepare c s past :
  inspecting (prepareStickerPairTool run c s) (fun past x => match x.1 with Ok ex => prepared past (ex_MessagePayload ex) | Err _ => True end) past.
Proof.
  unfold prepareStickerPairTool. cbn [wp bind call note]. intros [err|] _; (split; [done|]); [done|].
  cbn [wp bind call note]. intros d _. split; [done|]. destruct (blocked_or_filtered d) eqn:Hd; [done|].
  pose proof (let_through_now (past ++ [OCtxErr None]) c d Hd) as Hc. cbn [wp bind call note]. intros [] _; (split; [done|]); [|done].
  eapply wp_cut; [apply inspecting_execute; by apply let_through_idle|]. intros past1 [output err] Hex.
  cbn [wp bind call note]. intros [] _; (split; [done|]); [done|]. destruct err as [err|]; [done|]. specialize (Hex eq_refl).
  destruct (_ || _); [done|]. cbn [wp bind call note]. intros d1 _. split; [done|]. destruct (blocked_or_filtered d1) eqn:Hd1; [done|].
  case_bool_decide; [done|]. cbn [wp fst]. apply prepared_now; [rewrite elem_of_app; by left| |done].
  cbn [orb]. case_bool_decide as Heq; [exists ""; by rewrite <- Heq|].
  eexists. apply append_assoc.
Qed.

Lemma inspecting_pair c sticker s past : inspecting (pair_call e run c sticker s) outcome_of past.
Proof.
  unfold pair_call. eapply (wp_cut _ _ _ _ _ (fun _ _ => True)).
  2: { intros past1 [[t1 t2] s1] _. cbn [wp bind call note]. intros [] _; split; done. }
  unfold deliverStickerPair. eapply wp_cut; [apply inspecting_prepare|]. intros past1 [[text|err] s1] Ht; [|done].
  eapply wp_cut; [apply wp_grow, inspecting_prepare|]. intros past2 [[stk|err] s2] [Hs [tr ->]]; [|done]. cbn [fst] in *.
  destruct (combineStickerPairPayloads _ _) as [payload|err] eqn:Hc; [|done].
  eapply wp_cut; [apply inspecting_deliver|by intros ? [result delivered] _]. intros _ _. right.
  exists (ex_MessagePayload text), (ex_MessagePayload stk). split; [by apply prepared_grow|done].
Qed.

Lemma inspecting_execute_call c s past : let_through past c ->
  inspecting (execute_call run c s) (fun past x =>
    match x with Goes (_, execution, ok, _) => ok = true -> OExecute c (execution, None) ∈ past | Exits r _ => outcome past r end) past.
Proof.
  intros Hc. unfold execute_call. cbn [wp bind call note]. intros [] _; (split; [done|]); [|done]. cbn [negb].
  eapply wp_cut; [apply inspecting_execute; by apply let_through_idle|]. intros past1 [execution err] Hex.
  cbn [wp bind call note]. intros [] _; (split; [done|]).
  - cbn. intros cause _. split; [done|]. by intros _; left.
  - destruct err as [[]|]; try done.
    + destruct (proactive_run run); intros _; [by left|by right; left].
    + destruct (_ && _); [by intros _; left|]. intros _. rewrite elem_of_app. left. by apply Hex.
Qed.

Lemma inspected_suffix text execution : ex_MessagePayload execution <> "" ->
  (MaxToolOutputBytes <? Z.of_nat (slen (ex_MessagePayload execution)))%Z = false ->
  exists before, inspected text execution = before +:+ ex_MessagePayload execution.
Proof.
  intros Hne Hlen. unfold inspected. rewrite Hlen, bool_decide_eq_false_2 by done. case_bool_decide as Heq; cbn.
  - exists "". by rewrite Heq.
  - eexists. apply append_assoc.
Qed.

Lemma inspecting_finish_call c text execution ok s past : (ok = true -> OExecute c (execution, None) ∈ past) ->
  inspecting (finish_call e run c text execution ok s) outcome_of past.
Proof.
  intros Hok. unfold finish_call. cbn [wp bind call note]. intros d _. split; [done|]. destruct (blocked_or_filtered d) eqn:Hd.
  { rewrite andb_false_r. cbn. intros [] _; split; done. }
  rewrite andb_true_r. destruct ok; [|cbn; intros [] _; split; done]. cbn [negb].
  eapply (wp_pass _ _ idle _ _ (fun _ => True)); [unfold sticker_needed; look; done|apply idle_inspected|].
  intros tr [] _ _; [done|]. eapply wp_cut.
  - apply inspecting_deliver. intros Hne Hlen. left. apply prepared_grow, prepared_now; [by apply Hok|by apply inspected_suffix|done].
  - intros past1 [t delivered] _. cbn. intros [] _; split; done.
Qed.

Lemma inspecting_one_call c s past : inspecting (one_call e run c s) outcome_of past.
Proof.
  unfold one_call. cbn [wp bind call note]. intros d _. split; [done|]. destruct (blocked_or_filtered d) eqn:Hd; [done|].
  eapply wp_exit; [by apply inspecting_execute_call, let_through_now|]. intros past1 [[[[text execution] ok] s1]|r s1]; [|done].
  intros Hok. by apply inspecting_finish_call.
Qed.

Lemma inspecting_run_calls calls s past : inspecting (run_calls e run calls s) outcome_of past.
Proof.
  revert s past. induction calls as [calls IH] using (well_founded_induction (well_founded_ltof _ (@length ToolCall))). intros s past. unfold ltof in IH.
  destruct calls as [|c calls]; [done|]. cbn [run_calls].
  eapply wp_pass_exit; [apply check_call_quiet|apply idle_inspected|]. intros tr [[]|r s1] _; [intros _|by intros [_ Hr] ?].
  destruct calls as [|next later]; [apply inspecting_one_call|].
  eapply (wp_pass _ _ idle _ _ (fun _ => True)); [unfold sticker_needed; look; done|apply idle_inspected|]. intros tr1 [] _ _.
  - eapply wp_exit; [apply inspecting_pair|]. intros past1 [s1|r s1]; [intros _|done]. apply IH. cbn. lia.
  - eapply wp_exit; [apply inspecting_one_call|]. intros past1 [s1|r s1]; [intros _|done]. apply IH. cbn. lia.
Qed.

Lemma inspecting_final_answer i m s past : inspecting (final_answer e run i m s) outcome_of past.
Proof.
  unfold final_answer. cbn [wp bind call note]. intros x _. split; [done|]. destruct (screened _ x) as [said blocked] eqn:Hx.
  set (content := proactive_content _ _ _ _).
  assert (Hc : forall tr, released ((past ++ [OEvaluate StageModelOutput SourceModelOutput (text_of (MContent m)) "" x]) ++ tr) content).
  { intros tr. apply released_grow. right; right; right. exists (text_of (MContent m)), x, (lp_echoes s). rewrite Hx.
    split; [|done]. rewrite elem_of_app. right. by apply list_elem_of_singleton. }
  clearbody content. cbn [wp bind call note]. intros [] _; (split; [done|]); [done|]. cbn [stop_if].
  destruct (isStandaloneAssistantSilentMarker content && _); [by intros _; left|]. cbn [stop_if].
  set (content' := if isStandaloneAssistantSilentMarker content then "" else content).
  assert (Hc' : forall tr, released ((past ++ [OEvaluate StageModelOutput SourceModelOutput (text_of (MContent m)) "" x]) ++ tr) content')
    by (intros tr; subst content'; destruct (isStandaloneAssistantSilentMarker content); [by left|apply Hc]).
  clearbody content'. destruct (negb _); [by intros _; apply Hc'|].
  eapply (wp_pass _ _ idle _ _ (fun _ => True)); [unfold sticker_needed; look; done|apply idle_inspected|]. intros tr1 ignored _ _.
  destruct ignored; [cbn; by intros|].
  eapply (wp_pass _ _ idle _ _ (fun _ => True)); [unfold sticker_needed; look; done|apply idle_inspected|]. intros tr2 due _ _.
  destruct due; [eapply wp_pass; [apply miss_quiet|apply idle_inspected|done]|].
  intros _. rewrite <- !app_assoc. rewrite app_assoc. apply Hc'.
Qed.

Lemma inspecting_iteration i model s past : inspecting (iteration opt_in e run i model s) outcome_of past.
Proof.
  unfold iteration. eapply wp_pass_exit; [apply check_in_quiet|apply idle_inspected|]. intros tr [[]|r s1] _; [intros _|by intros [_ Hr] ?].
  eapply wp_pass_exit; [apply ask_asks|apply asking_inspected|]. intros tr1 [[m s1]|r s1] _; [intros _|by intros Hr ?].
  eapply wp_pass; [apply relax_quiet|apply idle_inspected|]. intros tr2 s2 _ _. case_bool_decide; [apply inspecting_final_answer|].
  unfold tool_batch. destruct (_ && _); [intros _; by destruct (lp_delivered s2); left|].
  destruct (staySilentConflict _) as [conflict|].
  - destruct (lp_enforcing _); [|done]. eapply wp_pass; [apply miss_quiet|apply idle_inspected|done].
  - eapply wp_exit; [apply inspecting_run_calls|]. intros past3 [s3|r s3]; [intros _|done].
    eapply wp_pass; [apply after_batch_quiet|apply idle_inspected|done].
Qed.

Lemma inspecting_iterate fuel i model s past : 
  inspecting (iterate opt_in e run fuel i model s) (fun past x => match x with Some (r, _) => outcome past r | None => True end) past.
Proof.
  assert (Hx : forall past s, outcome past (exhausted run s)).
  { intros past0 s0 Hs. right; right; left. revert Hs. unfold exhausted. by destruct (proactive_run run). }
  revert i s past. induction fuel as [|fuel IH]; intros i s past; cbn [iterate]; destruct (i <? lp_maxIterations s)%Z; cbn [negb]; try done; try apply Hx.
  eapply wp_cut; [apply inspecting_iteration|]. intros past' [s'|r s'] Hr; [apply IH|done].
Qed.

(** C3: nothing passes uninspected.  A tool runs only on arguments the watchdog
    has just let through, nothing else having been done in between; a message is
    sent only if a tool prepared it (or a text and a sticker, each prepared by
    one) in a result the watchdog let through, less its stickers in a proactive
    turn; and a run without an error says nothing but a fixed text or an output of
    the model as the watchdog leaves it. *)
Theorem nothing_passes_uninspected fuel messages tr r : runs note (runLoopWithResult opt_in e run fuel messages) tr r ->
  always inspected_first [] tr /\ (forall x, r = Some (Some x) -> outcome tr x).
Proof.
  intros Hr. assert (Hwp : inspecting (runLoopWithResult opt_in e run fuel messages)
    (fun past x => match x with Some r => outcome past r | None => True end) []).
  - eapply (wp_run opt_in e run _ _ (fun past x => match x with Some (r, _) => outcome past r | None => True end)); [apply idle_inspected| | |done|].
    + intros past model s _ _. apply inspecting_iterate.
    + intros past r0 s _ _ Hr0 He. left. by apply Hr0.
    + intros past r0 s Hr0. eapply wp_emits; [apply deferred_asks|by intros ? []|].
      intros tr0 r' _ Hr' He. destruct (Hr' He) as [He0 ->]. by apply released_grow, Hr0.
  - destruct (wp_sound _ _ _ _ _ _ _ _ Hwp Hr) as [Hg Hq]; [by apply always_true|]. split; [done|].
    intros x ->. by apply (Hq (Some x)).
Qed.

(** * An interrupted run does nothing more *)

(** Is the session looked at? *)
Definition session_checked : bool :=
  rc_present run && negb (bool_decide (rc_SessionID run = "")) && (0 <? rc_Epoch run)%Z && en_SessionManager e.

(** The answers that tell the run to stop: it is canceled, or its session is
    another one by now. *)
Definition halts (o : observation) : bool :=
  match o with OCanceled b => b | OCtxErr x => bool_decide (is_Some x) | _ => false end.
Definition moves (o : observation) : bool :=
  match o with OEpoch (Some ep) => session_checked && negb (ep =? rc_Epoch run)%Z | _ => false end.

Definition stopped (past : list observation) : bool := existsb halts past.
Definition moved (past : list observation) : bool := existsb moves past.

(** Neither is ever taken back. *)
Definition steady (past : list observation) (o : observation) : Prop :=
  match o with
  | OCanceled b => stopped past = true -> b = true
  | OEpoch _ => moved past = true -> moves o = true
  | _ => True
  end.

Definition acts (o : observation) : bool :=
  match o with OChat _ _ _ _ | OExecute _ _ | OSend _ _ => true | _ => false end.

Definition heeded (past : list observation) (o : observation) : Prop :=
  acts o = true -> stopped past = false /\ moved past = false.

Definition clear (past : list observation) : Prop := stopped past = false /\ moved past = false.

(** Says nothing about either, and does nothing. *)
Definition calm (o : observation) : Prop :=
  match o with OReserve _ _ | OEvaluate _ _ _ _ _ | OOther => True | _ => False end.
Definition passive (o : observation) : Prop := acts o = false.

Lemma stopped_snoc past o : stopped (past ++ [o]) = stopped past || halts o.
Proof. unfold stopped. rewrite existsb_app. cbn. by rewrite orb_false_r. Qed.
Lemma moved_snoc past o : moved (past ++ [o]) = moved past || moves o.
Proof. unfold moved. rewrite existsb_app. cbn. by rewrite orb_false_r. Qed.

Lemma clear_snoc past o : clear past -> halts o = false -> moves o = false -> clear (past ++ [o]).
Proof. intros [Hs Hm] Ho Ho'. split; [by rewrite stopped_snoc, Hs|by rewrite moved_snoc, Hm]. Qed.

Lemma clear_calm past tr : Forall calm tr -> clear past -> clear (past ++ tr).
Proof.
  intros Htr. revert past. induction Htr as [|o tr Ho Htr IH]; intros past Hp; [by rewrite app_nil_r|].
  rewrite cons_middle, app_assoc. apply IH, clear_snoc; [done|by destruct o..].
Qed.

Lemma passive_heeded past o : passive o -> heeded past o.
Proof. unfold passive, heeded. congruence. Qed.
Lemma calm_heeded past o : calm o -> heeded past o.
Proof. by destruct o. Qed.
Lemma idle_heeded past o : idle o -> heeded past o.
Proof. by destruct o. Qed.

Abbreviation heeding p Q past := (wp note steady heeded p Q past).

(** The run has not been canceled, since it is not canceled now. *)
Lemma steady_running past : steady past (OCanceled false) -> stopped past = false.
Proof. cbn. destruct (stopped past); [|done]. by intros H%(fun H => H eq_refl). Qed.

Lemma unchecked_unmoved past : session_checked = false -> moved past = false.
Proof. intros Hc. unfold moved. induction past as [|o past IH]; [done|]. cbn. rewrite IH, orb_false_r. destruct o as [| |[]| | | | | | |]; cbn; by rewrite ?Hc. Qed.

Lemma heeding_epoch past : stopped past = false -> heeding (epoch_lost e run) (fun past lost => lost = false -> clear past) past.
Proof.
  intros Hp. unfold epoch_lost. fold session_checked. destruct session_checked eqn:Hc; [|by intros _; split; [|apply unchecked_unmoved]].
  cbn [wp bind call note]. intros x Hx. split; [done|]. intros Hl.
  assert (Hm : moves (OEpoch x) = false) by (destruct x as [ep|]; cbn; [by rewrite Hl, andb_false_r|done]).
  split; [by rewrite stopped_snoc, Hp|]. rewrite moved_snoc, Hm, orb_false_r. cbn in Hx. destruct (moved past); [|done].
  specialize (Hx eq_refl). cbn in Hm. congruence.
Qed.

(** Each check finds out. *)
Lemma heeding_check_in s past : heeding (check_in e run s) (fun past x => match x with Goes _ => clear past | Exits _ _ => True end) past.
Proof.
  unfold check_in. cbn [wp bind call note]. intros [] _; (split; [done|]); [done|]. cbn [wp bind call note stop_if].
  intros [err|] _; (split; [done|]); [done|]. cbn [wp bind call note]. intros c Hc. split; [done|]. destruct c; [done|]. cbn [stop_if].
  apply steady_running in Hc. eapply wp_cut; [apply heeding_epoch; by rewrite stopped_snoc, Hc|]. intros past' [] Hl; [done|]. by apply Hl.
Qed.

Lemma heeding_check_call s past : heeding (check_call e run s) (fun past x => match x with Goes _ => clear past | Exits _ _ => True end) past.
Proof.
  unfold check_call. cbn [wp bind call note]. intros c Hc. split; [done|]. destruct c; [done|]. cbn [wp bind call note stop_if].
  apply steady_running in Hc. intros [err|] _; (split; [done|]); [done|].
  eapply wp_cut; [apply heeding_epoch; by rewrite !stopped_snoc, Hc|]. intros past' [] Hl; [done|]. by apply Hl.
Qed.

Lemma heeding_execute c past : clear past -> heeding (executeInterruptibleTool c) (fun past _ => moved past = false) past.
Proof.
  intros Hp. unfold executeInterruptibleTool. cbn [wp bind call note].
  intros [] _; (split; [done|]); [cbn; rewrite moved_snoc; by destruct Hp as [_ ->]|]. cbn [wp bind call note].
  assert (H1 : clear (past ++ [OCanceled false])) by by apply clear_snoc.
  intros [] _; (split; [done|]); [cbn; rewrite moved_snoc; by destruct H1 as [_ ->]|]. cbn [wp bind call note].
  assert (H2 : clear ((past ++ [OCanceled false]) ++ [OCanceled false])) by by apply clear_snoc.
  intros x _. split; [by intros _|]. rewrite moved_snoc. by destruct H2 as [_ ->].
Qed.

Lemma heeding_deliver payload text past : clear past -> heeding (deliverToolResult e run payload text) (fun _ _ => True) past.
Proof.
  intros Hp. unfold deliverToolResult. destruct (negb _ || _ || _); [done|]. cbn [wp bind call note]. intros c Hc. split; [done|].
  destruct c; [done|]. apply steady_running in Hc. destruct (if rc_Proactive run then _ else _) as [sent filtered].
  destruct (filtered && _); [done|]. eapply wp_cut; [apply heeding_epoch; by rewrite stopped_snoc, Hc|].
  intros past1 lost Hl. destruct lost; [done|]. specialize (Hl eq_refl). unfold awaitDelivery. cbn [wp bind call note].
  intros [err|] _; (split; [done|]); [done|]. cbn [wp bind call note]. intros [err|] _; (split; [done|]); [done|].
  cbn [wp bind call note]. intros x _. split; [intros _; by repeat apply clear_snoc|].
  destruct x; try done. destruct (rc_Mock run); [done|]. cbn. by intros.
Qed.

Lemma heeding_prepare c s past : clear past ->
  heeding (prepareStickerPairTool run c s) (fun past x => match x.1 with Ok _ => clear past | Err _ => True end) past.
Proof.
  intros Hp. unfold prepareStickerPairTool. cbn [wp bind call note]. intros [err|] _; (split; [done|]); [done|].
  cbn [wp bind call note]. intros d _. split; [done|]. destruct (blocked_or_filtered d); [done|].
  cbn [wp bind call note]. intros [] _; (split; [done|]); [|done].
  eapply wp_cut; [apply heeding_execute; by repeat apply clear_snoc|]. intros past1 [output err] Hm.
  cbn [wp bind call note]. intros b Hb. split; [done|]. destruct b; [done|]. apply steady_running in Hb.
  assert (H1 : clear (past1 ++ [OCanceled false])) by (split; [by rewrite stopped_snoc, Hb|by rewrite moved_snoc, Hm]).
  destruct err as [err|]; [done|]. destruct (_ || _); [done|]. cbn [wp bind call note]. intros d1 _. split; [done|].
  destruct (blocked_or_filtered d1); [done|]. case_bool_decide; [done|]. by apply clear_snoc.
Qed.

Lemma heeding_pair c sticker s past : clear past -> heeding (pair_call e run c sticker s) (fun _ _ => True) past.
Proof.
  intros Hp. unfold pair_call. eapply (wp_cut _ _ _ _ _ (fun _ _ => True)).
  2: { intros past1 [[t1 t2] s1] _. cbn [wp bind call note]. intros [] _; split; done. }
  unfold deliverStickerPair. eapply wp_cut; [by apply heeding_prepare|]. intros past1 [[text|err] s1] Ht; [|done].
  eapply wp_cut; [by apply heeding_prepare|]. intros past2 [[stk|err] s2] Hs; [|done].
  destruct (combineStickerPairPayloads _ _) as [payload|err]; [|done].
  eapply wp_cut; [by apply heeding_deliver|by intros ? [result delivered] _].
Qed.

Lemma heeding_one_call c s past : clear past -> heeding (one_call e run c s) (fun _ _ => True) past.
Proof.
  intros Hp. unfold one_call. cbn [wp bind call note]. intros d _. split; [done|]. destruct (blocked_or_filtered d); [done|].
  eapply (wp_exit _ _ _ _ (fun past x => match x with Goes _ => clear past | Exits _ _ => True end)).
  - unfold execute_call. cbn [wp bind call note]. intros [] _; (split; [done|]); [|by repeat apply clear_snoc]. cbn [negb].
    eapply wp_cut; [apply heeding_execute; by repeat apply clear_snoc|]. intros past1 [execution err] Hm.
    cbn [wp bind call note]. intros b Hb. split; [done|]. destruct b; [cbn; by intros|]. apply steady_running in Hb.
    assert (H1 : clear (past1 ++ [OCanceled false])) by (split; [by rewrite stopped_snoc, Hb|by rewrite moved_snoc, Hm]).
    destruct err as [[]|]; try done; [by destruct (proactive_run run)|by destruct (_ && _)].
  - intros past1 [[[[text execution] ok] s1]|r s1] H1; [|done]. unfold finish_call. cbn [wp bind call note]. intros d1 _. split; [done|].
    destruct (negb _); [cbn; intros [] _; split; done|].
    eapply (wp_pass _ _ calm _ _ (fun _ => True)); [unfold sticker_needed; by destruct (_ && _); cbn; intros|apply calm_heeded|].
    intros tr [] Htr _; [done|]. eapply wp_cut; [apply heeding_deliver, clear_calm; [done|by apply clear_snoc]|].
    intros past2 [t delivered] _. cbn. intros [] _; split; done.
Qed.

Lemma heeding_run_calls calls s past : heeding (run_calls e run calls s) (fun _ _ => True) past.
Proof.
  revert s past. induction calls as [calls IH] using (well_founded_induction (well_founded_ltof _ (@length ToolCall))). intros s past. unfold ltof in IH.
  destruct calls as [|c calls]; [done|]. cbn [run_calls].
  eapply wp_exit; [apply heeding_check_call|]. intros past1 [[]|r s1] H1; [|done].
  destruct calls as [|next later]; [by apply heeding_one_call|].
  eapply (wp_pass _ _ calm _ _ (fun _ => True)); [unfold sticker_needed; by destruct (is_pair _ _ _); cbn; intros|apply calm_heeded|].
  intros tr paired Htr _. apply (clear_calm past1) in Htr; [|done]. destruct paired.
  - eapply wp_exit; [by apply heeding_pair|]. intros past2 [s1|r s1] _; [|done]. apply IH. cbn. lia.
  - eapply wp_exit; [by apply heeding_one_call|]. intros past2 [s1|r s1] _; [|done]. apply IH. cbn. lia.
Qed.

Lemma heeding_ask i model s past : clear past -> heeding (ask opt_in e run i model s) (fun _ _ => True) past.
Proof.
  intros Hp. unfold ask.
  eapply (wp_pass_exit _ _ calm _ _ (fun _ => True)); [unfold skill_context; destruct (en_Skills e); cbn; [|done]; intros []; cbn; by intros|apply calm_heeded|].
  intros tr1 [s1|r s1] Htr1 _; [|done]. apply (clear_calm past) in Htr1; [|done]. cbn [wp bind call note].
  intros tools _. split; [done|]. intros tokens _. split; [done|]. destruct (_ <? tokens)%Z; [done|]. cbn [stop_if].
  eapply (wp_pass_exit _ _ calm _ _ (fun _ => True)); [|apply calm_heeded|].
  { unfold reserve. repeat match goal with |- calm _ /\ _ => split; [exact I|] | _ => progress look end; done. }
  intros tr2 [reservation|r s2] Htr2 _; [|done]. cbn [wp bind call note]. intros x _. split.
  - intros _. apply clear_calm; [done|]. by repeat apply clear_snoc.
  - destruct x as [err|m usage commitErr]; [done|]. cbn [wp bind call note]. intros c _. split; [done|]. destruct c; [done|].
    cbn [stop_if]. destruct usage, commitErr; by try case_bool_decide.
Qed.

Lemma final_answer_passive i m s : emits note passive (final_answer e run i m s) (fun _ => True).
Proof.
  unfold final_answer. cbn [bind call emits]. intros x. split; [done|]. destruct (screened _ x) as [content blocked].
  unfold sticker_needed, retry, miss, forgive.
  repeat match goal with |- passive _ /\ _ => split; [done|] | _ => progress look end; done.
Qed.

Lemma heeding_iterate fuel i model s past : heeding (iterate opt_in e run fuel i model s) (fun _ _ => True) past.
Proof.
  revert i s past. induction fuel as [|fuel IH]; intros i s past; cbn [iterate]; destruct (i <? lp_maxIterations s)%Z; cbn [negb]; try done.
  eapply (wp_cut _ _ _ _ _ (fun _ _ => True)); [|intros past' [s'|r s'] _; [apply IH|done]]. clear IH.
  unfold iteration. eapply wp_exit; [apply heeding_check_in|]. intros past1 [[]|r s1] H1; [|done].
  eapply wp_exit; [by apply heeding_ask|]. intros past2 [[m s2]|r s2] _; [|done].
  eapply wp_pass; [apply relax_quiet|apply idle_heeded|]. intros tr s3 _ _. case_bool_decide.
  - eapply wp_emits; [apply final_answer_passive|apply passive_heeded|done].
  - unfold tool_batch. destruct (_ && _); [done|]. destruct (staySilentConflict _) as [conflict|].
    + destruct (lp_enforcing _); [|done]. eapply wp_pass; [apply miss_quiet|apply idle_heeded|done].
    + eapply wp_exit; [apply heeding_run_calls|]. intros past4 [s4|r s4] _; [|done].
      eapply wp_pass; [apply after_batch_quiet|apply idle_heeded|done].
Qed.

(** C4: an interrupted run does nothing more.  Once the run has been seen to be
    canceled (or its context to be done), or its session to be another one, no
    model is asked, no tool runs and no message is sent; and a run that was
    canceled ends silent, without an answer. *)
Theorem interruption_is_heeded fuel messages tr r : runs note (runLoopWithResult opt_in e run fuel messages) tr r ->
  always steady [] tr -> always heeded [] tr /\
  (forall x, r = Some (Some x) -> stopped tr = true ->
    ar_Content x = "" /\ ar_Silent x = true /\ ar_SilenceReason x = "canceled" /\ ar_Error x = Some context_canceled).
Proof.
  intros Hr Hp. assert (Hwp : heeding (runLoopWithResult opt_in e run fuel messages)
    (fun past x => match x with Some x => stopped past = true ->
      ar_Content x = "" /\ ar_Silent x = true /\ ar_SilenceReason x = "canceled" /\ ar_Error x = Some context_canceled | None => True end) []).
  - eapply (wp_run opt_in e run _ _ (fun _ _ => True)); [apply idle_heeded|intros; apply heeding_iterate|done|done|].
    intros past r0 s _. unfold deferred. eapply wp_pass; [apply memory_state_quiet|apply idle_heeded|]. intros tr1 w _ _.
    eapply (wp_cut _ _ _ _ _ (fun _ _ => True)); [destruct (rc_Turn run); [|done]; by intros [] _|].
    intros past1 [] _. eapply wp_pass; [apply settled_usage_quiet|apply idle_heeded|]. intros tr2 usage _ _.
    cbn [wp bind call note]. intros c Hc. split; [done|]. intros Hs. rewrite stopped_snoc in Hs.
    assert (c = true) as -> by (destruct (stopped (past1 ++ tr2)) eqn:Hst; [by apply Hc|done]). done.
  - destruct (wp_sound _ _ _ _ _ _ _ _ Hwp Hr Hp) as [Hg Hq]. split; [done|]. intros x ->. by apply (Hq (Some x)).
Qed.

(** * Proactive turns are narrow *)

(** The tool that ran last, and whether a [send_message] has been delivered. *)
Definition next_reply (x : string * bool) (o : observation) : string * bool :=
  match o with
  | OExecute c _ => (tc_Name c, x.2)
  | OSend _ Sent => (x.1, x.2 || bool_decide (x.1 = "send_message"))
  | _ => x
  end.
Definition reply_state (past : list observation) : string * bool := fold_left next_reply past ("", false).
Definition replied (past : list observation) : bool := (reply_state past).2.

Definition narrow (past : list observation) (o : observation) : Prop :=
  match o with
  | OExecute c _ => isToolAllowedForProactive opt_in (tc_Name c) = true /\
      (tc_Name c = "send_message" -> IsSpecificReply (tc_Arguments c) = true /\ replied past = false)
  | _ => True
  end.

Lemma reply_state_snoc past o : reply_state (past ++ [o]) = next_reply (reply_state past) o.
Proof. unfold reply_state. by rewrite fold_left_app. Qed.

Definition inert (o : observation) : Prop := match o with OExecute _ _ | OSend _ _ => False | _ => True end.

Lemma reply_state_pass (safe : observation -> Prop) past tr : (forall o, safe o -> inert o) -> Forall safe tr -> reply_state (past ++ tr) = reply_state past.
Proof.
  intros Hs Htr. revert past. induction Htr as [|o tr Ho Htr IH]; intros past; [by rewrite app_nil_r|].
  rewrite cons_middle, app_assoc, IH, reply_state_snoc. apply Hs in Ho. by destruct o.
Qed.

Lemma idle_inert o : idle o -> inert o.
Proof. by destruct o. Qed.
Lemma asking_inert o : asking o -> inert o.
Proof. by destruct o. Qed.
Lemma inert_narrow past o : inert o -> narrow past o.
Proof. by destruct o. Qed.
Lemma idle_narrow past o : idle o -> narrow past o.
Proof. by destruct o. Qed.

Abbreviation narrowing p Q past := (wp note (fun _ _ => True) narrow p Q past).

(** The calls of a batch that is not ruled out. *)
Definition replies_of (calls : list ToolCall) : nat := length (filter (fun c => tc_Name c = "send_message") calls).

Definition narrow_call (delivered : bool) (c : ToolCall) : Prop :=
  isToolAllowedForProactive opt_in (tc_Name c) = true /\
  (tc_Name c = "send_message" -> IsSpecificReply (tc_Arguments c) = true /\ delivered = false).

Lemma forbidden_batch_false delivered n calls : forbidden_batch opt_in delivered n calls = false ->
  Forall (narrow_call delivered) calls /\ (replies_of calls = 0 \/ n + replies_of calls <= 1)%nat.
Proof.
  revert n. induction calls as [|c calls IH]; intros n; [split; [constructor|by left]|]. cbn [forbidden_batch]. unfold replies_of. rewrite filter_cons.
  intros [[Ha Hr]%orb_false_elim Hb]%orb_false_elim. apply negb_false_iff in Ha. destruct (IH _ Hb) as [Hf Hn]. unfold replies_of in Hn.
  destruct (decide (tc_Name c = "send_message")) as [Hc|Hc].
  - rewrite bool_decide_eq_true_2 in Hr, Hn by done. cbn [andb] in Hr.
    apply orb_false_elim in Hr as [[Hd Hm]%orb_false_elim Hs]. apply negb_false_iff in Hs. apply Nat.ltb_ge in Hm.
    split; [by constructor|]. right. cbn [length]. lia.
  - rewrite bool_decide_eq_false_2 in Hn by done. split; [by constructor|done].
Qed.

Lemma narrowing_deliver payload text past : 
  narrowing (deliverToolResult e run payload text) (fun past' x => (reply_state past').1 = (reply_state past).1 /\
    (replied past' = true -> replied past = true \/ x.2 = true /\ (reply_state past).1 = "send_message")) past.
Proof.
  assert (Hsame : forall past' x, reply_state past' = reply_state past -> (reply_state past').1 = (reply_state past).1 /\
    (replied past' = true -> replied past = true \/ x = true /\ (reply_state past).1 = "send_message")) by (unfold replied; intros past' x ->; auto).
  unfold deliverToolResult. destruct (negb _ || _ || _); [by apply Hsame|]. cbn [wp bind call note].
  intros [] _; (split; [done|]); [by apply Hsame; rewrite reply_state_snoc|].
  destruct (if rc_Proactive run then _ else _) as [sent filtered]. destruct (filtered && _); [by apply Hsame; rewrite reply_state_snoc|].
  eapply wp_pass; [apply epoch_lost_quiet|apply idle_narrow|]. intros tr lost Htr _.
  apply (reply_state_pass idle (past ++ [OCanceled false]) tr idle_inert) in Htr. rewrite (reply_state_snoc past) in Htr. cbn [next_reply] in Htr.
  destruct lost; [by apply Hsame|]. unfold awaitDelivery. cbn [wp bind call note].
  intros [err|] _; (split; [done|]); [by apply Hsame; rewrite reply_state_snoc|]. cbn [wp bind call note].
  intros [err|] _; (split; [done|]); [by apply Hsame; rewrite !reply_state_snoc|]. cbn [wp bind call note]. intros x _. split; [done|].
  destruct x; [|apply Hsame; rewrite !reply_state_snoc; by cbn..].
  eapply (wp_emits _ _ _ idle _ (fun x => x.2 = true)); [by destruct (rc_Mock run); cbn; intros|apply idle_narrow|].
  intros tr1 x Htr1 Hx. unfold replied. rewrite (reply_state_pass idle _ tr1 idle_inert Htr1), !reply_state_snoc, Htr. cbn.
  split; [done|]. intros [H|H%bool_decide_eq_true]%orb_prop; [by left|by right].
Qed.

(** What the loop knows of the replies. *)
Definition knows (past : list observation) (s : loop) : Prop := replied past = true -> lp_delivered s = true.

Lemma knows_pass (safe : observation -> Prop) past tr s s' : (forall o, safe o -> inert o) -> Forall safe tr -> lp_delivered s' = lp_delivered s ->
  knows past s -> knows (past ++ tr) s'.
Proof. intros Hs Htr Hd. unfold knows, replied. by rewrite (reply_state_pass safe), Hd. Qed.

Context (Hpro : proactive_run run = true).

Lemma proactive_unenforced : enforceStickerActivity run = false.
Proof. unfold enforceStickerActivity. apply andb_prop in Hpro as [-> ->]. by rewrite andb_false_r. Qed.

Lemma narrow_call_knows delivered b c : narrow_call delivered c -> (b = true -> delivered = true) -> narrow_call b c.
Proof.
  intros [Ha Hs] Hb. split; [done|]. intros Hn. destruct (Hs Hn) as [Hi Hd]. split; [done|]. destruct b; [|done].
  by rewrite Hb in Hd.
Qed.

Lemma narrowing_execute c past : narrow_call (replied past) c ->
  narrowing (executeInterruptibleTool c) (fun past' x => replied past' = replied past /\ (x.2 = None -> (reply_state past').1 = tc_Name c)) past.
Proof.
  intros Hc. unfold executeInterruptibleTool. cbn [wp bind call note].
  intros [] _; (split; [done|]); [split; [unfold replied; by rewrite reply_state_snoc|done]|]. cbn [wp bind call note].
  intros [] _; (split; [done|]); [split; [unfold replied; by rewrite !reply_state_snoc|done]|]. cbn [wp bind call note].
  assert (Hr : replied ((past ++ [OCanceled false]) ++ [OCanceled false]) = replied past) by (unfold replied; by rewrite !reply_state_snoc).
  intros x _. split; [cbn; by rewrite Hr|]. unfold replied in *. rewrite (reply_state_snoc (_ ++ _)). cbn [next_reply fst snd]. by rewrite Hr.
Qed.

(** What a call leaves: only a reply may have been delivered. *)
Definition narrowed (c : ToolCall) (s : loop) (past : list observation) (x : exit loop) : Prop :=
  match x with
  | Goes s' => knows past s' /\ (lp_delivered s' = true -> lp_delivered s = true \/ tc_Name c = "send_message")
  | Exits _ _ => True
  end.

Lemma narrowing_finish_call c text execution ok s s0 past : lp_delivered s = lp_delivered s0 -> knows past s ->
  (ok = true -> (reply_state past).1 = tc_Name c) ->
  narrowing (finish_call e run c text execution ok s) (narrowed c s0) past.
Proof.
  intros Hd Hk Hok. unfold finish_call. rewrite proactive_unenforced. cbn [wp bind call note andb]. intros d _. split; [done|].
  set (s1 := if blocked_or_filtered d then s else _).
  assert (H1 : lp_delivered s1 = lp_delivered s) by (subst s1; destruct (blocked_or_filtered d); [done|]; apply (warned_same run d.2 s)). clearbody s1.
  assert (Hk1 : forall o, inert o -> knows (past ++ [o]) s1) by (intros o Ho; eapply (knows_pass inert); [done|by constructor|done|done]).
  destruct (negb _) eqn:Hg.
  - cbn. intros [] _; (split; [done|]); [done|]. split; [|cbn; rewrite H1, Hd; by left].
    eapply (knows_pass inert _ [_] s1); [done|by constructor|done|by apply Hk1].
  - apply negb_false_iff, andb_prop in Hg as [-> _]. specialize (Hok eq_refl). eapply wp_cut; [apply narrowing_deliver|].
    intros past1 [t delivered] [Hcur Hrep]. rewrite reply_state_snoc in Hcur, Hrep. cbn [next_reply] in Hcur, Hrep. rewrite Hok in Hrep.
    cbn [wp bind call note]. intros [] _; (split; [done|]); [done|]. cbn [stop_if goes wp narrowed]. rewrite Hpro.
    set (s2 := if delivered && true && _ then _ else s1).
    assert (Hd2 : lp_delivered s2 = (delivered && bool_decide (tc_Name c = "send_message")) || lp_delivered s1)
      by (subst s2; rewrite andb_true_r; by destruct (delivered && _)). clearbody s2.
    split; unfold knows, replied; [rewrite reply_state_snoc|]; cbn [next_reply tool_result add_messages set_messages lp_delivered]; rewrite Hd2.
    + intros [H|[Hdel H]]%Hrep; [|cbn in Hdel; by rewrite Hdel, H].
      rewrite (Hk1 (OEvaluate StageToolResult SourceToolResult (inspected (truncate_output text) execution) (tc_Name c) d)) by done. by rewrite orb_true_r.
    + rewrite H1, Hd. intros [[_ H%bool_decide_eq_true]%andb_prop|H]%orb_prop; [by right|by left].
Qed.

Lemma narrowing_one_call c s past : narrow_call (lp_delivered s) c -> knows past s -> narrowing (one_call e run c s) (narrowed c s) past.
Proof.
  intros Hc Hk. unfold one_call. cbn [wp bind call note]. intros d _. split; [done|].
  assert (Hk1 : forall s', lp_delivered s' = lp_delivered s -> forall o, inert o -> knows (past ++ [o]) s')
    by (intros s' Hd' o Ho; eapply (knows_pass inert); [done|by constructor|done|done]).
  destruct (blocked_or_filtered d); [split; [by apply Hk1|by left]|].
  destruct (warned_same run d.2 s) as [[_ Hd] _]. eapply (wp_exit _ _ _ _ (fun past x => match x with
    | Goes (_, _, ok, s') => lp_delivered s' = lp_delivered s /\ knows past s' /\ (ok = true -> (reply_state past).1 = tc_Name c)
    | Exits _ _ => True end)).
  - unfold execute_call. cbn [wp bind call note]. intros [] _; (split; [done|]).
    2: { cbn. split; [done|]. split; [|done]. eapply (knows_pass inert _ [_]); [done|by constructor| |by apply Hk1]. done. }
    cbn [negb]. eapply wp_cut; [apply narrowing_execute|].
    { eapply narrow_call_knows; [exact Hc|]. unfold replied. rewrite !reply_state_snoc. exact Hk. }
    intros past1 [execution err] [Hr Hcur]. unfold replied in Hr. rewrite !reply_state_snoc in Hr. cbn [next_reply] in Hr.
    cbn [wp bind call note]. intros [] _; (split; [done|]); [cbn; by intros|].
    assert (Hk2 : forall s', lp_delivered s' = lp_delivered s -> knows (past1 ++ [OCanceled false]) s').
    { intros s' Hs'. unfold knows, replied. rewrite reply_state_snoc. cbn [next_reply]. rewrite Hr, Hs'. exact Hk. }
    assert (Hc2 : err = None -> (reply_state (past1 ++ [OCanceled false])).1 = tc_Name c) by (rewrite reply_state_snoc; exact Hcur).
    destruct err as [[]|]; try (split; [done|split; [by apply Hk2|done]]).
    + by destruct (proactive_run run).
    + destruct (_ && _); [done|]. cbn. destruct (ex_MemoryWritten execution); (split; [done|split; [by apply Hk2|by intros _; apply Hc2]]).
  - intros past1 [[[[text execution] ok] s1]|r s1]; [|done]. intros (Hd1 & Hk2 & Hok). by apply narrowing_finish_call.
Qed.

Lemma replies_of_cons c calls : replies_of (c :: calls) = ((if decide (tc_Name c = "send_message") then 1 else 0) + replies_of calls)%nat.
Proof. unfold replies_of. rewrite filter_cons. by destruct (decide _). Qed.

(** The rest of a batch after a call that may have delivered its reply. *)
Lemma narrow_rest c calls (d d' : bool) : Forall (narrow_call d) (c :: calls) -> (replies_of (c :: calls) <= 1)%nat ->
  (d' = true -> d = true \/ tc_Name c = "send_message") -> Forall (narrow_call d') calls /\ (replies_of calls <= 1)%nat.
Proof.
  intros [_ Hf]%Forall_cons_1 Hn Hd. rewrite replies_of_cons in Hn. split; [|lia].
  destruct (decide (tc_Name c = "send_message")) as [Hc|Hc].
  - assert (H0 : replies_of calls = 0%nat) by lia. clear -Hf H0. induction Hf as [|c' calls [Ha Hs] Hf IH]; [constructor|].
    rewrite replies_of_cons in H0. destruct (decide _) as [Hc'|Hc']; [lia|]. constructor; [by split|by apply IH].
  - eapply Forall_impl; [exact Hf|]. intros c' Hc'. eapply narrow_call_knows; [exact Hc'|]. intros H'. by destruct (Hd H').
Qed.

Lemma narrowing_run_calls calls s past : Forall (narrow_call (lp_delivered s)) calls -> (replies_of calls <= 1)%nat -> knows past s ->
  narrowing (run_calls e run calls s) (fun past x => match x with Goes s' => knows past s' | Exits _ _ => True end) past.
Proof.
  revert s past. induction calls as [|c calls IH]; intros s past Hf Hn Hk; [done|]. cbn [run_calls].
  eapply wp_pass_exit; [apply check_call_quiet|apply idle_narrow|]. intros tr [[]|r s1] Htr _; [|done].
  apply (knows_pass idle past tr s s idle_inert Htr eq_refl) in Hk. pose proof (Forall_inv Hf) as Hc.
  assert (Hone : narrowing (one_call e run c s) (narrowed c s) (past ++ tr)) by by apply narrowing_one_call.
  destruct calls as [|next later].
  - eapply wp_mono; [|exact Hone]. intros past1 [s1|r s1]; [by intros [? _]|done].
  - unfold is_pair. rewrite proactive_unenforced. cbn [andb bind].
    eapply wp_exit; [exact Hone|]. intros past1 [s1|r s1] H1; [|done]. destruct H1 as [Hk1 Hd1].
    destruct (narrow_rest _ _ _ _ Hf Hn Hd1) as [Hf1 Hn1]. by apply IH.
Qed.

Lemma emits_and (safe1 safe2 : observation -> Prop) {A} (p : prog event A) P1 P2 : emits note safe1 p P1 -> emits note safe2 p P2 ->
  emits note (fun o => safe1 o /\ safe2 o) p (fun a => P1 a /\ P2 a).
Proof. induction p as [a|X ev k IH]; cbn [emits]; [done|]. intros H1 H2 x. destruct (H1 x), (H2 x). split; [done|by apply IH]. Qed.

Lemma narrowing_iterate fuel i model s past : knows past s -> narrowing (iterate opt_in e run fuel i model s) (fun _ _ => True) past.
Proof.
  revert i s past. induction fuel as [|fuel IH]; intros i s past Hk; cbn [iterate]; destruct (i <? lp_maxIterations s)%Z; cbn [negb]; try done.
  eapply (wp_cut _ _ _ _ _ (fun past x => match x with Goes s' => knows past s' | Exits _ _ => True end)); [|intros past' [s'|r s'] Hk'; [by apply IH|done]].
  clear IH. unfold iteration. eapply wp_pass_exit; [apply check_in_quiet|apply idle_narrow|]. intros tr1 [[]|r s1] Htr1 _; [|done].
  apply (knows_pass idle past tr1 s s idle_inert Htr1 eq_refl) in Hk.
  eapply wp_pass_exit; [apply ask_asks|intros; by apply inert_narrow, asking_inert|]. intros tr2 [[m s2]|r s2] Htr2; [intros Hd2|done].
  apply (knows_pass asking _ tr2 s s2 asking_inert Htr2 Hd2) in Hk.
  eapply wp_pass; [apply relax_quiet|apply idle_narrow|]. intros tr3 s3 Htr3 [[_ Hd3] _].
  apply (knows_pass idle _ tr3 s2 s3 idle_inert Htr3 Hd3) in Hk. revert Hk. generalize (((past ++ tr1) ++ tr2) ++ tr3). intros past3 Hk.
  case_bool_decide.
  - eapply wp_emits; [apply emits_and; [apply final_answer_asks|apply final_answer_passive]|intros past' o [_ Ho]; by destruct o|].
    intros tr4 [s4|r s4] Htr4 [Hx _]; [|done]. destruct Hx as (_ & Hd4 & _). eapply knows_pass; [|exact Htr4|exact Hd4|done]. intros o [_ Ho]. by destruct o.
  - unfold tool_batch. rewrite Hpro. destruct (forbidden_batch _ _ _ _) eqn:Hb; cbn [andb]; [done|].
    apply forbidden_batch_false in Hb as [Hf Hn]. destruct (staySilentConflict _) as [conflict|].
    + destruct (lp_enforcing _); [|done]. eapply wp_pass; [apply miss_quiet|apply idle_narrow|]. intros tr4 s4 Htr4 [[_ Hd4] _]. cbn.
      eapply (knows_pass idle past3 tr4 s3); [apply idle_inert|done|by rewrite add_sticker_delivered, Hd4|done].
    + eapply wp_exit; [apply narrowing_run_calls; [done|lia|done]|]. intros past4 [s4|r s4] Hk4; [|done].
      eapply wp_pass; [apply after_batch_quiet|apply idle_narrow|]. intros tr5 s5 Htr5 (_ & _ & Hd5). exact (knows_pass idle past4 tr5 s4 s5 idle_inert Htr5 Hd5 Hk4).
Qed.

End parts.

(** * Runs to look at *)

Module demo.
Import AgentRun.demo.
#[local] Existing Instances unicode message_json agent_json.

Definition sent (o : observation) : option string := match o with OSend payload Sent => Some payload | _ => None end.

Lemma nothing_passes_uninspected_witness : omap sent (seen false false) = ["hi"] /\
  (always (inspected_first (request false)) [] (seen false false) /\
   forall x, Some (result false false) = Some (Some x) -> outcome machine (request false) (seen false false) x).
Proof.
  split; [vm_compute; reflexivity|].
  exact (nothing_passes_uninspected allowed machine (request false) 7 prompt _ _ (happens false false)).
Defined.

Lemma stays_canceled : always (steady machine (request true)) [] (seen true true).
Proof. vm_compute. repeat first [exact I | reflexivity | discriminate | split | intros ?]. Qed.

Lemma interruption_is_heeded_witness : stopped (seen true true) = true /\
  (always (heeded machine (request true)) [] (seen true true) /\
   forall x, Some (result true true) = Some (Some x) -> stopped (seen true true) = true ->
    ar_Content x = "" /\ ar_Silent x = true /\ ar_SilenceReason x = "canceled" /\ ar_Error x = Some context_canceled).
Proof.
  split; [vm_compute; reflexivity|].
  exact (interruption_is_heeded allowed machine (request true) 7 prompt _ _ (happens true true) stays_canceled).
Defined.

End demo.
