(* ===== verification/Billing.v ===== *)
(** Billing: prices ([internal/billing/pricing.go]), the configuration
    ([config.go]), the client of the billing service ([client.go]), and the ledger
    of a run with the workers that settle its calls ([internal/llm/inflight.go],
    [run_context.go]).

    A call of the model outlives the run that asked for it: [chatAndSettle] leaves
    it to a worker, and the run that follows waits for the workers before it shows
    a receipt.  The ledger is a state machine over the critical sections of the
    workers, in any order. *)

From S2P Require Import Prelude GoStrings SummaryStore Sticker Agent.

Local Open Scope string_scope.
Local Open Scope list_scope.
Local Open Scope frost_scope.
Local Open Scope Z_scope.

(** * Prices *)

Record ModelPrice := { PromptPricePerMillion : Z; CompletionPricePerMillion : Z }.
Definition DefaultFallbackPrice : ModelPrice := {| PromptPricePerMillion := 2000; CompletionPricePerMillion := 8000 |}.

Definition PriceTable := gmap string ModelPrice.

Section prices.
Context `{UnicodeCase}.

Definition RegisterPrice (model : string) (price : ModelPrice) (pt : PriceTable) : PriceTable :=
  <[ToLower (TrimSpace model) := price]> pt.

Definition GetPrice (model : string) (pt : PriceTable) : ModelPrice * bool :=
  match pt !! ToLower (TrimSpace model) with Some price => (price, true) | None => (DefaultFallbackPrice, false) end.
End prices.

(** [int64] arithmetic wraps around. *)
Definition CalculateMinorUnits (promptTokens completionTokens : Z) (price : ModelPrice) : Z :=
  let promptTokens := if promptTokens <? 0 then 0 else promptTokens in
  let completionTokens := if completionTokens <? 0 then 0 else completionTokens in
  if (promptTokens =? 0) && (completionTokens =? 0) then 0 else
  let numerator := i64 (i64 (promptTokens * PromptPricePerMillion price) + i64 (completionTokens * CompletionPricePerMillion price)) in
  if numerator <=? 0 then 0 else Z.quot (i64 (numerator + 999999)) 1000000.

(** * Configuration *)

(** [time.ParseDuration] and [strconv.ParseFloat]; a multiplier is a [float64],
    and [scale m n] is [int(math.Ceil(float64(n) * m))]. *)
Class ConfigParsing := {
  float : Type;
  ParseFloat : string -> option float;
  float_positive : float -> bool;
  default_multiplier : float;
  scale : float -> Z -> Z;
  ParseDuration : string -> option Z;
}.

Definition DefaultAlcyoneBaseURL : string := "http://127.0.0.1:8081".
Definition DefaultAlcyoneTimeout : Z := 5 * second.
Definition DefaultMaxOutputTokens : Z := 2048.
Definition DefaultModelName : string := "deepseek-chat".

Section config.
Context `{UnicodeCase} `{ConfigParsing}.

Record Config := {
  Enabled : bool;
  BaseURL : string;
  ServiceToken : string;
  cfg_Timeout : Z;
  cfg_ModelName : string;
  MaxOutputTokens : Z;
  SafetyMultiplier : float;
  CustomPromptPricePerMillion : option Z;
  CustomCompletionPricePerMillion : option Z;
}.

(** A setting, or what stands in its place if it is missing or does not parse to
    what is allowed. *)
Definition setting {A} (raw : string) (parse : string -> option A) (allowed : A -> bool) : option A :=
  let raw := TrimSpace raw in
  if bool_decide (raw = "") then None else
  match parse raw with Some x => if allowed x then Some x else None | None => None end.

Definition LoadConfig (getenv : string -> string) : Config :=
  let enabledStr := ToLower (TrimSpace (getenv "BILLING_ENABLED")) in
  let enabled := bool_decide (enabledStr ∈ ["true"; "1"; "yes"; "on"]) in
  let baseURL := TrimSpace (getenv "ALCYONE_BASE_URL") in {|
    Enabled := enabled;
    BaseURL := if bool_decide (baseURL = "") && enabled then DefaultAlcyoneBaseURL else baseURL;
    ServiceToken := TrimSpace (getenv "ALCYONE_SERVICE_TOKEN");
    cfg_Timeout := default DefaultAlcyoneTimeout (setting (getenv "ALCYONE_TIMEOUT") ParseDuration (fun d => 0 <? d));
    cfg_ModelName := DefaultModelName;
    MaxOutputTokens := default DefaultMaxOutputTokens (setting (getenv "BILLING_MAX_OUTPUT_TOKENS") Atoi (fun n => 0 <? n));
    SafetyMultiplier := default default_multiplier (setting (getenv "BILLING_SAFETY_MULTIPLIER") ParseFloat float_positive);
    CustomPromptPricePerMillion := setting (getenv "BILLING_PROMPT_PRICE_PER_MILLION") Atoi (fun n => 0 <=? n);
    CustomCompletionPricePerMillion := setting (getenv "BILLING_COMPLETION_PRICE_PER_MILLION") Atoi (fun n => 0 <=? n) |}.

Definition override_price (c : Config) (p : ModelPrice) : ModelPrice := {|
  PromptPricePerMillion := default (PromptPricePerMillion p) (CustomPromptPricePerMillion c);
  CompletionPricePerMillion := default (CompletionPricePerMillion p) (CustomCompletionPricePerMillion c) |}.

(** [Config.Price]: the overrides of an instance. *)
Definition Price (c : Config) (model : string) (pt : PriceTable) : ModelPrice := override_price c (GetPrice model pt).1.

(** What is reserved for a call, given the estimate of its prompt. *)
Definition EstimateReservationAmount (model : string) (promptTokens : res error Z) (maxOutputTokens : Z) (safetyMultiplier : float)
    (price : ModelPrice) : res error Z :=
  match promptTokens with
  | Err e => Err ("estimate prompt tokens: " +:+ e)
  | Ok promptTokens =>
      let safetyMultiplier := if float_positive safetyMultiplier then safetyMultiplier else default_multiplier in
      let maxOutputTokens := if maxOutputTokens <=? 0 then 2048 else maxOutputTokens in
      let amountMinor := CalculateMinorUnits (scale safetyMultiplier promptTokens) maxOutputTokens price in
      Ok (if (amountMinor =? 0) && ((0 <? PromptPricePerMillion price) || (0 <? CompletionPricePerMillion price)) && (0 <? rune_count model)%nat
          then 1 else amountMinor)
  end.

(** [InitBillingClient], but for its log: no client, an error, or a client for the
    address, the token and the timeout, and the registry, which takes the custom
    prices of the model. *)
Definition InitBillingClient (c : Config) (pt : PriceTable) : res error (option (string * string * Z)) * PriceTable :=
  if negb (Enabled c) then (Ok None, pt) else
  if bool_decide (BaseURL c = "") then (Err "billing is enabled but ALCYONE_BASE_URL is empty", pt) else
  let pt := match CustomPromptPricePerMillion c, CustomCompletionPricePerMillion c with
            | None, None => pt
            | _, _ => RegisterPrice (cfg_ModelName c) (Price c (cfg_ModelName c) pt) pt
            end in
  (Ok (Some (BaseURL c, ServiceToken c, cfg_Timeout c)), pt).
End config.

(** * Errors of the service *)

Inductive service_error :=
  | ErrInsufficient | ErrReservationNotFound | ErrReservationExpired | ErrReservationTerminal | ErrIdempotencyConflict
  | APIError (StatusCode : Z) (Code : string).

#[global] Instance service_error_eq_dec : EqDecision service_error.
Proof. solve_decision. Defined.

(** [errors.Is], with the method of [APIError]. *)
Definition Is (e target : service_error) : bool :=
  bool_decide (e = target) ||
  match e with
  | APIError status code =>
      bool_decide (target = ErrInsufficient) && ((status =? 402) || bool_decide (code = "insufficient_funds")) ||
      bool_decide (target = ErrReservationNotFound) && ((status =? 404) || bool_decide (code = "reservation_not_found")) ||
      bool_decide (target = ErrReservationExpired) && bool_decide (code = "reservation_expired") ||
      bool_decide (target = ErrReservationTerminal) && bool_decide (code = "reservation_terminal") ||
      bool_decide (target = ErrIdempotencyConflict) && ((status =? 409) && bool_decide (code = "idempotency_conflict"))
  | _ => false
  end.

(** What [post] makes of a status and the error code of the body. *)
Definition response_error (status : Z) (code : string) : option service_error :=
  if (200 <=? status) && (status <? 300) then None else
  Some (
    if status =? 402 then ErrInsufficient else
    if (status =? 409) && bool_decide (code = "idempotency_conflict") then ErrIdempotencyConflict else
    if (status =? 409) && bool_decide (code = "reservation_expired") then ErrReservationExpired else
    if (status =? 409) && bool_decide (code = "reservation_terminal") then ErrReservationTerminal else
    if (status =? 404) && bool_decide (code = "reservation_not_found") then ErrReservationNotFound else
    if bool_decide (code = "insufficient_funds") then ErrInsufficient else APIError status code).

(** * The ledger of a run *)

Record BillingRunState := {
  br_nextCall : Z;
  br_pending : Z;
  br_idle : option nat;
  br_usage : Usage;
  br_WelcomeGranted : bool;
  br_TotalBilledMinor : Z;
  br_LastBalanceMinor : Z;
  br_IterationsBilled : Z;
}.

(** Channels are numbered; [channels] holds whether each was closed. *)
Abbreviation channels := (list bool) (only parsing).
Definition is_closed (ch : channels) (c : nat) : bool := default false (ch !! c).

Definition with_pending (n : Z) (idle : option nat) (b : BillingRunState) : BillingRunState := {|
  br_nextCall := br_nextCall b; br_pending := n; br_idle := idle; br_usage := br_usage b; br_WelcomeGranted := br_WelcomeGranted b;
  br_TotalBilledMinor := br_TotalBilledMinor b; br_LastBalanceMinor := br_LastBalanceMinor b; br_IterationsBilled := br_IterationsBilled b |}.

Definition beginCall (b : BillingRunState) (ch : channels) : BillingRunState * channels :=
  if br_pending b =? 0 then (with_pending (br_pending b + 1) (Some (length ch)) b, ch ++ [false])
  else (with_pending (br_pending b + 1) (br_idle b) b, ch).

Definition endCall (b : BillingRunState) (ch : channels) : BillingRunState * channels :=
  let b := with_pending (br_pending b - 1) (br_idle b) b in
  (b, if br_pending b =? 0 then match br_idle b with Some c => <[c := true]> ch | None => ch end else ch).

Definition ledger_NextCall (b : BillingRunState) : Z * BillingRunState :=
  (br_nextCall b, {| br_nextCall := u64_succ (br_nextCall b); br_pending := br_pending b; br_idle := br_idle b; br_usage := br_usage b;
    br_WelcomeGranted := br_WelcomeGranted b; br_TotalBilledMinor := br_TotalBilledMinor b; br_LastBalanceMinor := br_LastBalanceMinor b;
    br_IterationsBilled := br_IterationsBilled b |}).

Definition setBalance (balance : Z) (welcome : bool) (b : BillingRunState) : BillingRunState := {|
  br_nextCall := br_nextCall b; br_pending := br_pending b; br_idle := br_idle b; br_usage := br_usage b;
  br_WelcomeGranted := br_WelcomeGranted b || welcome; br_TotalBilledMinor := br_TotalBilledMinor b; br_LastBalanceMinor := balance;
  br_IterationsBilled := br_IterationsBilled b |}.

Definition add_used (u : Usage) (b : BillingRunState) : BillingRunState := {|
  br_nextCall := br_nextCall b; br_pending := br_pending b; br_idle := br_idle b; br_usage := add_usage (br_usage b) u;
  br_WelcomeGranted := br_WelcomeGranted b; br_TotalBilledMinor := br_TotalBilledMinor b; br_LastBalanceMinor := br_LastBalanceMinor b;
  br_IterationsBilled := br_IterationsBilled b |}.

Definition committed_ (amount balance : Z) (b : BillingRunState) : BillingRunState := {|
  br_nextCall := br_nextCall b; br_pending := br_pending b; br_idle := br_idle b; br_usage := br_usage b;
  br_WelcomeGranted := br_WelcomeGranted b; br_TotalBilledMinor := i64 (br_TotalBilledMinor b + amount); br_LastBalanceMinor := balance;
  br_IterationsBilled := i64 (br_IterationsBilled b + 1) |}.

(** ** [chatAndSettle] *)

Definition ReasonModelFailed : string := "model_failed".
Definition ReasonRequestCancelled : string := "request_cancelled".

(** How a call of the provider ended: an error, and whether it or the context was
    a cancellation, or a response with the usage it reports. *)
Inductive called := CallFailed (canceled : bool) | CallAnswered (u : option Usage).

(** What the service is asked for. *)
Inductive settlement := Commit (amount : Z) | Release (reason : string).

Definition settlement_of (price : ModelPrice) (r : called) : settlement :=
  match r with
  | CallFailed canceled => Release (if canceled then ReasonRequestCancelled else ReasonModelFailed)
  | CallAnswered u =>
      let u := default no_usage u in Commit (CalculateMinorUnits (PromptTokens u) (CompletionTokens u) price)
  end.

(** The worker of a call, between its critical sections. *)
Inductive worker_phase :=
  | Calling
  | Returned (r : called)
  | Metered (r : called)
  | Asked (r : called) (answer : option Z)
  | Settled (r : called) (answer : option (option Z))
  | Ended (r : called) (answer : option (option Z)).

Record worker := { wk_reservation : string; wk_price : ModelPrice; wk_phase : worker_phase }.
Definition set_phase (p : worker_phase) (w : worker) : worker := {|
  wk_reservation := wk_reservation w; wk_price := wk_price w; wk_phase := p |}.

(** The ledger, its channels, the workers in the order they were started, and
    what the service was asked, newest first. *)
Record billing_system := {
  bs_ledger : BillingRunState;
  bs_channels : channels;
  bs_workers : list worker;
  bs_asked : list (nat * (string * settlement));
}.

Definition with_ledger (b : BillingRunState) (s : billing_system) : billing_system := {|
  bs_ledger := b; bs_channels := bs_channels s; bs_workers := bs_workers s; bs_asked := bs_asked s |}.
Definition move (n : nat) (w : worker) (p : worker_phase) (s : billing_system) : billing_system := {|
  bs_ledger := bs_ledger s; bs_channels := bs_channels s; bs_workers := <[n := set_phase p w]> (bs_workers s); bs_asked := bs_asked s |}.

(** The call is begun before its worker is started. *)
Definition begin_worker (reservation : string) (price : ModelPrice) (s : billing_system) : billing_system :=
  let '(b, ch) := beginCall (bs_ledger s) (bs_channels s) in {|
    bs_ledger := b; bs_channels := ch;
    bs_workers := bs_workers s ++ [{| wk_reservation := reservation; wk_price := price; wk_phase := Calling |}];
    bs_asked := bs_asked s |}.

(** The next step of a worker; [r] is how the provider's call ended and [answer]
    the balance the service answers with, where it is asked. *)
Definition worker_step (n : nat) (r : called) (answer : option Z) (s : billing_system) : option billing_system :=
  w ← bs_workers s !! n;
  match wk_phase w with
  | Calling => Some (move n w (Returned r) s)
  | Returned r =>
      let s := match r with CallAnswered (Some u) => with_ledger (add_used u (bs_ledger s)) s | _ => s end in
      Some (move n w (Metered r) s)
  | Metered r =>
      if decide (wk_reservation w = "") then Some (move n w (Settled r None) s)
      else Some {| bs_ledger := bs_ledger s; bs_channels := bs_channels s;
                   bs_workers := <[n := set_phase (Asked r answer) w]> (bs_workers s);
                   bs_asked := (n, (wk_reservation w, settlement_of (wk_price w) r)) :: bs_asked s |}
  | Asked r answer =>
      let b := match answer, settlement_of (wk_price w) r with
               | Some balance, Commit amount => committed_ amount balance (bs_ledger s)
               | Some balance, Release _ => setBalance balance false (bs_ledger s)
               | None, _ => bs_ledger s
               end in
      Some (move n w (Settled r (Some answer)) (with_ledger b s))
  | Settled r answer =>
      let '(b, ch) := endCall (bs_ledger s) (bs_channels s) in
      Some {| bs_ledger := b; bs_channels := ch; bs_workers := <[n := set_phase (Ended r answer) w]> (bs_workers s); bs_asked := bs_asked s |}
  | Ended _ _ => None
  end.

(** ** A run of the ledger *)

Inductive billing_action :=
  | Begin (reservation : string) (price : ModelPrice)
  | Work (n : nat) (r : called) (answer : option Z)
  | Balance (balance : Z) (welcome : bool)
  | Number.

Definition billing_do (s : billing_system) (a : billing_action) : billing_system :=
  match a with
  | Begin reservation price => begin_worker reservation price s
  | Work n r answer => default s (worker_step n r answer s)
  | Balance balance welcome => with_ledger (setBalance balance welcome (bs_ledger s)) s
  | Number => with_ledger (ledger_NextCall (bs_ledger s)).2 s
  end.
Definition billing_run_ (l : list billing_action) (s : billing_system) : billing_system := foldl billing_do s l.

Definition fresh_ledger : billing_system := {|
  bs_ledger := {| br_nextCall := 0; br_pending := 0; br_idle := None; br_usage := no_usage; br_WelcomeGranted := false;
                  br_TotalBilledMinor := 0; br_LastBalanceMinor := 0; br_IterationsBilled := 0 |};
  bs_channels := []; bs_workers := []; bs_asked := [] |}.

(** [Wait], but for its own cancellation: what is read at its start, and whether
    it may return. *)
Definition wait_start (s : billing_system) : option nat :=
  if br_pending (bs_ledger s) =? 0 then None else br_idle (bs_ledger s).
Definition wait_returns (waiting : option nat) (s : billing_system) : bool :=
  match waiting with Some c => is_closed (bs_channels s) c | None => true end.

(** * Lemmas *)

Lemma i64_add_i64 a b : i64 (i64 a + b) = i64 (a + b).
Proof.
  unfold i64. replace ((a + 2 ^ 63) `mod` 2 ^ 64 - 2 ^ 63 + b + 2 ^ 63) with ((a + 2 ^ 63) `mod` 2 ^ 64 + b) by lia.
  rewrite Z.add_mod_idemp_l by lia. do 2 f_equal. lia.
Qed.

(** The sum over the workers. *)
Fixpoint total (f : worker -> Z) (l : list worker) : Z := match l with [] => 0 | w :: l => f w + total f l end.

Lemma total_app f l1 l2 : total f (l1 ++ l2) = total f l1 + total f l2.
Proof. induction l1 as [|w l1 IH]; cbn [app total]; [done|]. rewrite IH. lia. Qed.

Lemma total_insert f l n w w' : l !! n = Some w -> total f (<[n := w']> l) = total f l - f w + f w'.
Proof.
  revert n. induction l as [|x l IH]; intros [|n]; simpl; try done.
  - intros [= ->]. lia.
  - intros Hn. rewrite (IH n Hn). lia.
Qed.

(** What a worker has done by its phase. *)
Definition open_call (w : worker) : Z := match wk_phase w with Ended _ _ => 0 | _ => 1 end.
Definition metered (w : worker) : Usage :=
  match wk_phase w with
  | Metered (CallAnswered u) | Asked (CallAnswered u) _ | Settled (CallAnswered u) _ | Ended (CallAnswered u) _ => default no_usage u
  | _ => no_usage
  end.
Definition billed (w : worker) : option Z :=
  match wk_phase w with
  | Settled r (Some (Some _)) | Ended r (Some (Some _)) => match settlement_of (wk_price w) r with Commit amount => Some amount | Release _ => None end
  | _ => None
  end.
Definition times_billed (w : worker) : Z := match billed w with Some _ => 1 | None => 0 end.
Definition asked_for (w : worker) : list (string * settlement) :=
  match wk_phase w with
  | Asked r _ | Settled r (Some _) | Ended r (Some _) => [(wk_reservation w, settlement_of (wk_price w) r)]
  | _ => []
  end.
Definition asked_by (n : nat) (s : billing_system) : list (string * settlement) := map snd (filter (fun x => x.1 = n) (bs_asked s)).

(** The service is asked by the workers that have a reservation. *)
Definition reserved (w : worker) : Prop :=
  match wk_phase w with
  | Asked _ _ => wk_reservation w <> ""
  | Settled _ answer | Ended _ answer => answer = None <-> wk_reservation w = ""
  | _ => True
  end.

Record ledger_ok (s : billing_system) : Prop := {
  ok_pending : br_pending (bs_ledger s) = total open_call (bs_workers s);
  ok_busy : br_pending (bs_ledger s) <> 0 -> exists c, br_idle (bs_ledger s) = Some c /\ bs_channels s !! c = Some false;
  ok_prompt : PromptTokens (br_usage (bs_ledger s)) = total (fun w => PromptTokens (metered w)) (bs_workers s);
  ok_completion : CompletionTokens (br_usage (bs_ledger s)) = total (fun w => CompletionTokens (metered w)) (bs_workers s);
  ok_total : TotalTokens (br_usage (bs_ledger s)) = total (fun w => TotalTokens (metered w)) (bs_workers s);
  ok_billed : br_TotalBilledMinor (bs_ledger s) = i64 (total (fun w => default 0 (billed w)) (bs_workers s));
  ok_count : br_IterationsBilled (bs_ledger s) = i64 (total times_billed (bs_workers s));
  ok_asked : forall n w, bs_workers s !! n = Some w -> asked_by n s = asked_for w;
  ok_unknown : forall n, bs_workers s !! n = None -> asked_by n s = [];
  ok_settled : forall n w, bs_workers s !! n = Some w -> reserved w;
}.

Lemma total_nonneg l : 0 <= total open_call l.
Proof. induction l as [|w l IH]; [done|]. cbn. unfold open_call at 1. destruct (wk_phase w); lia. Qed.

Lemma total_open l n w : l !! n = Some w -> total open_call l = 0 -> open_call w = 0.
Proof.
  intros Hw H0. rewrite <- (take_drop_middle l n w Hw), total_app in H0. cbn [total] in H0.
  pose proof (total_nonneg (take n l)). pose proof (total_nonneg (drop (S n) l)). unfold open_call in *. destruct (wk_phase w); lia.
Qed.

Lemma total_same f l n w w' : l !! n = Some w -> f w' = f w -> total f (<[n := w']> l) = total f l.
Proof. intros Hw Hf. rewrite (total_insert _ _ _ _ _ Hw), Hf. lia. Qed.

Lemma ledger_ok_fresh : ledger_ok fresh_ledger.
Proof. by constructor. Qed.

Lemma ledger_ok_begin reservation price s : ledger_ok s -> ledger_ok (begin_worker reservation price s).
Proof.
  intros [Hp Hb H1 H2 H3 H4 H5 Ha Hu Hs]. unfold begin_worker, beginCall. pose proof (total_nonneg (bs_workers s)) as Hn.
  set (w := {| wk_reservation := reservation; wk_price := price; wk_phase := Calling |}).
  assert (Hl : forall n w', (bs_workers s ++ [w]) !! n = Some w' -> bs_workers s !! n = Some w' \/ (bs_workers s !! n = None /\ w' = w)).
  { intros n w' Hn'. apply lookup_app_Some in Hn' as [Hn'|[Hge Hn']]; [by left|right]. split; [by apply lookup_ge_None|].
    apply list_lookup_singleton_Some in Hn' as [_ <-]. done. }
  assert (Hasked : forall s' n, bs_asked s' = bs_asked s -> asked_by n s' = asked_by n s) by (unfold asked_by; by intros s' n ->).
  destruct (Z.eqb_spec (br_pending (bs_ledger s)) 0) as [H0|H0]; constructor; cbn [bs_ledger bs_channels bs_workers with_pending br_pending br_idle br_usage
    br_TotalBilledMinor br_IterationsBilled]; rewrite ?total_app; cbn [total open_call metered billed times_billed w wk_phase default no_usage PromptTokens CompletionTokens TotalTokens];
    rewrite ?Z.add_0_r; try lia; try congruence.
  all: try (intros n w' Hn'; rewrite Hasked by done; destruct (Hl _ _ Hn') as [Hn''|[Hn'' ->]]; [by apply Ha|by apply Hu]).
  all: try (intros n Hn'; rewrite Hasked by done; apply Hu; apply lookup_ge_None; apply lookup_ge_None in Hn'; rewrite length_app in Hn'; lia).
  all: try (intros n w' Hn'; destruct (Hl _ _ Hn') as [Hn''|[Hn'' ->]]; [by eapply Hs|done]).
  - intros _. exists (length (bs_channels s)). split; [done|]. by rewrite lookup_app_r, Nat.sub_diag by lia.
  - intros _. by apply Hb.
Qed.

(** A worker moves on, and the ledger with it. *)
Lemma ledger_ok_move s n w w' b ch asked : bs_workers s !! n = Some w -> ledger_ok s ->
  br_pending b = br_pending (bs_ledger s) - open_call w + open_call w' ->
  (br_pending b <> 0 -> exists c, br_idle b = Some c /\ ch !! c = Some false) ->
  (PromptTokens (br_usage b) = PromptTokens (br_usage (bs_ledger s)) - PromptTokens (metered w) + PromptTokens (metered w') /\
   CompletionTokens (br_usage b) = CompletionTokens (br_usage (bs_ledger s)) - CompletionTokens (metered w) + CompletionTokens (metered w') /\
   TotalTokens (br_usage b) = TotalTokens (br_usage (bs_ledger s)) - TotalTokens (metered w) + TotalTokens (metered w')) ->
  (br_TotalBilledMinor b = i64 (br_TotalBilledMinor (bs_ledger s) + (default 0 (billed w') - default 0 (billed w))) /\
   br_IterationsBilled b = i64 (br_IterationsBilled (bs_ledger s) + (times_billed w' - times_billed w))) ->
  (asked = bs_asked s /\ asked_for w' = asked_for w \/ exists x, asked = (n, x) :: bs_asked s /\ asked_for w = [] /\ asked_for w' = [x]) ->
  reserved w' ->
  ledger_ok {| bs_ledger := b; bs_channels := ch; bs_workers := <[n := w']> (bs_workers s); bs_asked := asked |}.
Proof.
  intros Hw [Hp Hb H1 H2 H3 H4 H5 Ha Hu Hs] Dp Db (D1 & D2 & D3) [D4 D5] Dask Dset.
  assert (Hn : (n < length (bs_workers s))%nat) by by eapply lookup_lt_Some.
  assert (Hl : forall m w0, <[n := w']> (bs_workers s) !! m = Some w0 -> m = n /\ w0 = w' \/ m <> n /\ bs_workers s !! m = Some w0).
  { intros m w0 Hm. apply list_lookup_insert_Some in Hm as [(-> & -> & _)|[Hne Hm]]; [by left|by right]. }
  assert (Hask : forall m, m <> n -> asked_by m {| bs_ledger := b; bs_channels := ch; bs_workers := <[n := w']> (bs_workers s); bs_asked := asked |} = asked_by m s).
  { intros m Hm. unfold asked_by; cbn [bs_asked]. destruct Dask as [[-> _]|(x & -> & _)]; [done|]. rewrite filter_cons, decide_False; [done|]. cbn. congruence. }
  constructor; cbn [bs_ledger bs_channels bs_workers]; rewrite ?(total_insert _ _ _ _ _ Hw); try lia; try done.
  - rewrite D4, H4, i64_add_i64. f_equal. lia.
  - rewrite D5, H5, i64_add_i64. f_equal. lia.
  - intros m w0 Hm. destruct (Hl _ _ Hm) as [[-> ->]|[Hne Hm']]; [|rewrite Hask by done; by apply Ha].
    unfold asked_by; cbn [bs_asked]. pose proof (Ha n w Hw) as Hold. unfold asked_by in Hold.
    destruct Dask as [[-> ->]|(x & -> & He & ->)]; [done|]. rewrite filter_cons, decide_True by done. cbn [map snd]. by rewrite Hold, He.
  - intros m Hm. rewrite Hask; [apply Hu|]; apply lookup_ge_None in Hm; rewrite length_insert in Hm; [by apply lookup_ge_None|lia].
  - intros m w0 Hm. destruct (Hl _ _ Hm) as [[-> ->]|[Hne Hm']]; [done|by eapply Hs].
Qed.

Lemma i64_ok s : ledger_ok s -> i64 (br_TotalBilledMinor (bs_ledger s) + 0) = br_TotalBilledMinor (bs_ledger s) /\
  i64 (br_IterationsBilled (bs_ledger s) + 0) = br_IterationsBilled (bs_ledger s).
Proof. intros H. rewrite (ok_billed _ H), (ok_count _ H), !i64_add_i64, !Z.add_0_r. done. Qed.

Ltac moves s := eapply (ledger_ok_move s); [done|done|..]; cbn -[i64 CalculateMinorUnits]; try done; try lia;
  try (by left); try (right; eexists; by repeat split); try (rewrite ?Z.sub_diag; by split); try (split; by rewrite ?Z.sub_0_r).

Lemma ledger_ok_work n r answer s s' : ledger_ok s -> worker_step n r answer s = Some s' -> ledger_ok s'.
Proof.
  intros Hok. unfold worker_step. destruct (bs_workers s !! n) as [w|] eqn:Hw; [|done]. cbn [mbind option_bind].
  pose proof (ok_pending _ Hok) as Hp. pose proof (ok_busy _ Hok) as Hb. destruct (i64_ok _ Hok) as [Hz1 Hz2].
  pose proof (ok_settled _ Hok _ _ Hw) as Hres.
  destruct w as [res price phase]. unfold reserved in *. cbn [wk_phase wk_reservation wk_price] in *. destruct phase as [|c|c|c a|c a|c a].
  - intros [= <-]. moves s.
  - intros [= <-]. unfold move. destruct c as [canceled|[u|]]; moves s.
  - destruct (decide (res = "")) as [Hr|Hr]; intros [= <-]; destruct c as [canceled|[u|]]; moves s.
  - intros [= <-]. unfold move. destruct c as [canceled|u], a as [balance|]; moves s.
  - assert (H1 : br_pending (bs_ledger s) <> 0) by (rewrite Hp; intros H0; by specialize (total_open _ _ _ Hw H0)).
    unfold endCall. cbn [with_pending br_pending br_idle]. destruct (Z.eqb_spec (br_pending (bs_ledger s) - 1) 0) as [H0|H0]; intros [= <-];
      destruct c as [canceled|u], a as [[balance|]|]; moves s; try (by intros _; apply Hb).
  - done.
Qed.

Lemma ledger_ok_do a s : ledger_ok s -> ledger_ok (billing_do s a).
Proof.
  intros Hok. destruct a as [reservation price|n r answer|balance welcome|]; cbn [billing_do].
  - by apply ledger_ok_begin.
  - destruct (worker_step n r answer s) as [s'|] eqn:Hs; [|done]. by eapply ledger_ok_work.
  - destruct Hok; by constructor.
  - destruct Hok; by constructor.
Qed.

Lemma ledger_ok_run l s : ledger_ok s -> ledger_ok (billing_run_ l s).
Proof. revert s. induction l as [|a l IH]; intros s Hs; [done|]. cbn. by apply IH, ledger_ok_do. Qed.

(** ** Waiting *)

Definition all_ended (k : nat) (s : billing_system) : Prop :=
  forall n w, (n < k)%nat -> bs_workers s !! n = Some w -> exists r a, wk_phase w = Ended r a.

Lemma ended_of_open w : open_call w = 0 -> exists r a, wk_phase w = Ended r a.
Proof. unfold open_call. destruct (wk_phase w); try done. intros _. eauto. Qed.

Lemma all_ended_idle s : ledger_ok s -> br_pending (bs_ledger s) = 0 -> forall k, all_ended k s.
Proof. intros Hok Hp k n w _ Hw. apply ended_of_open. eapply total_open; [done|]. by rewrite <- (ok_pending _ Hok). Qed.

(** The wait of a run: over for the first [k] calls, or still for its channel. *)
Definition waiting (k : nat) (c : option nat) (s : billing_system) : Prop :=
  (k <= length (bs_workers s))%nat /\
  (all_ended k s \/ is_Some c /\ br_idle (bs_ledger s) = c /\ (forall c', c = Some c' -> bs_channels s !! c' = Some false)).

Lemma all_ended_move k n w w' s : all_ended k s -> bs_workers s !! n = Some w -> (forall r a, wk_phase w <> Ended r a) ->
  forall b ch asked, all_ended k {| bs_ledger := b; bs_channels := ch; bs_workers := <[n := w']> (bs_workers s); bs_asked := asked |}.
Proof.
  intros Hk Hw Hopen b ch asked m w0 Hm. cbn [bs_workers]. intros [(-> & -> & _)|[Hne Hm']]%list_lookup_insert_Some; [|by eapply Hk].
  destruct (Hk _ _ Hm Hw) as (r & a & Hr). by destruct (Hopen r a).
Qed.

Lemma waiting_do k c a s : ledger_ok s -> waiting k c s -> waiting k c (billing_do s a).
Proof.
  intros Hok [Hk Hw]. pose proof (ledger_ok_do a s Hok) as Hok'. split.
  { destruct a as [reservation price|n r answer|balance welcome|]; cbn [billing_do]; [|destruct (worker_step n r answer s) as [s'|] eqn:Hs; [|done]|done..].
    - unfold begin_worker. destruct (beginCall _ _) as [b ch]. cbn. rewrite length_app. lia.
    - cbn. revert Hs. unfold worker_step. destruct (bs_workers s !! n) as [w|]; [|done]. cbn.
      destruct (wk_phase w) as [|[|[|]]| | | |]; try case_match; try case_match; intros [= <-]; cbn; by rewrite length_insert. }
  destruct a as [reservation price|n r answer|balance welcome|]; cbn [billing_do] in *; [| |by destruct Hw as [Hw|Hw]; [left|right]..].
  - unfold begin_worker, beginCall in *. destruct (Z.eqb_spec (br_pending (bs_ledger s)) 0) as [H0|H0].
    + left. intros m w Hm. cbn [bs_workers]. rewrite lookup_app_l by lia. by apply (all_ended_idle s Hok H0 k).
    + destruct Hw as [Hw|Hw]; [left|by right]. intros m w Hm. cbn [bs_workers]. rewrite lookup_app_l by lia. by apply Hw.
  - destruct (worker_step n r answer s) as [s'|] eqn:Hs; [|done]. cbn [default] in *. revert Hs. unfold worker_step.
    destruct (bs_workers s !! n) as [w|] eqn:Hn; [|done]. cbn [mbind option_bind].
    assert (Hmove : forall w', (forall r a, wk_phase w <> Ended r a) -> forall b ch asked, br_idle b = br_idle (bs_ledger s) -> ch = bs_channels s ->
      all_ended k {| bs_ledger := b; bs_channels := ch; bs_workers := <[n := w']> (bs_workers s); bs_asked := asked |} \/
      is_Some c /\ br_idle b = c /\ (forall c', c = Some c' -> ch !! c' = Some false)).
    { intros w' Hopen b ch asked -> ->. destruct Hw as [Hw|Hw]; [left; by eapply all_ended_move|by right]. }
    destruct (wk_phase w) as [|c0|c0|c0 a|c0 a|c0 a] eqn:Hph; [..|done].
    + intros [= <-]. by apply Hmove.
    + intros [= <-]. destruct c0 as [|[|]]; by apply Hmove.
    + destruct (decide _); intros [= <-]; by apply Hmove.
    + intros [= <-]. destruct a; [|by apply Hmove]. destruct (settlement_of _ _); by apply Hmove.
    + unfold endCall. cbn [with_pending br_pending br_idle]. destruct (Z.eqb_spec (br_pending (bs_ledger s) - 1) 0) as [H0|H0]; intros [= <-]; [|by apply Hmove].
      left. by apply all_ended_idle.
Qed.

Lemma waiting_run k c l s : ledger_ok s -> waiting k c s -> waiting k c (billing_run_ l s).
Proof. revert s. induction l as [|a l IH]; intros s Hok Hw; [done|]. cbn. apply IH; [by apply ledger_ok_do|by apply waiting_do]. Qed.



(** A receipt waits for its calls.  When [Wait] returns because the ledger is
    idle, every call that had been begun when it was entered has ended, whatever
    else was begun meanwhile. *)
Theorem wait_sees_the_calls before after : let s := billing_run_ before fresh_ledger in let s' := billing_run_ after s in
  wait_returns (wait_start s) s' = true -> all_ended (length (bs_workers s)) s'.
Proof.
  intros s s' Hret. assert (Hok : ledger_ok s) by apply ledger_ok_run, ledger_ok_fresh.
  assert (Hw : waiting (length (bs_workers s)) (wait_start s) s).
  { split; [done|]. unfold wait_start. destruct (Z.eqb_spec (br_pending (bs_ledger s)) 0) as [H0|H0]; [left; by apply all_ended_idle|right].
    destruct (ok_busy _ Hok H0) as (c & Hi & Hc). rewrite Hi. split; [done|]. split; [done|]. by intros c' [= <-]. }
  destruct (waiting_run _ _ after s Hok Hw) as [_ [He|([c Hc] & _ & Hopen)]]; [done|]. fold s' in Hopen.
  rewrite Hc in Hret, Hopen. unfold wait_returns, is_closed in Hret. by rewrite (Hopen c eq_refl) in Hret.
Qed.

(** * Prices, configurations and errors *)

Lemma i64_nonneg n : 0 <= n < 2 ^ 63 -> i64 n = n.
Proof. intros Hn. apply i64_small. lia. Qed.


(** Beyond that the sum wraps around, and the call is free. *)
Example overflow_is_free : CalculateMinorUnits 2 0 {| PromptPricePerMillion := 2 ^ 62; CompletionPricePerMillion := 0 |} = 0.
Proof. reflexivity. Qed.

Lemma setting_allowed {A} raw (parse : string -> option A) allowed x : setting raw parse allowed = Some x -> allowed x = true.
Proof. unfold setting. case_bool_decide; [done|]. destruct (parse _) as [y|]; [|done]. destruct (allowed y) eqn:Hy; [|done]. by intros [= <-]. Qed.

(** Whatever the environment holds, the configuration can be used. *)
Lemma loaded_config_usable `{UnicodeCase} `{ConfigParsing} getenv pt : float_positive default_multiplier = true ->
  let c := LoadConfig getenv in
  0 < cfg_Timeout c /\ 0 < MaxOutputTokens c /\ float_positive (SafetyMultiplier c) = true /\
  (forall p, CustomPromptPricePerMillion c = Some p -> 0 <= p) /\ (forall p, CustomCompletionPricePerMillion c = Some p -> 0 <= p) /\
  match (InitBillingClient c pt).1 with Ok None => Enabled c = false | Ok (Some _) => Enabled c = true | Err _ => False end.
Proof.
  intros Hm c. repeat split.
  - cbn. destruct (setting _ _ _) as [d|] eqn:Hs; cbn; [apply setting_allowed, Z.ltb_lt in Hs; lia|done].
  - cbn. destruct (setting _ _ _) as [d|] eqn:Hs; cbn; [apply setting_allowed, Z.ltb_lt in Hs; lia|done].
  - cbn. destruct (setting _ _ _) as [d|] eqn:Hs; cbn; [by apply setting_allowed in Hs|done].
  - intros p Hp. apply setting_allowed, Z.leb_le in Hp. done.
  - intros p Hp. apply setting_allowed, Z.leb_le in Hp. done.
  - unfold InitBillingClient. destruct (Enabled c) eqn:He; cbn [negb]; [|done]. case_bool_decide as Hb; [|done].
    revert Hb He. cbn. case_bool_decide as Hu; cbn; [|done]. case_bool_decide; done.
Qed.

Lemma insufficient_recognized status code e : response_error status code = Some e ->
  Is e ErrInsufficient = (status =? 402) || bool_decide (code = "insufficient_funds").
Proof.
  unfold response_error. destruct (_ && _); [done|]. intros [= <-]. destruct (status =? 402) eqn:E2; [done|]. cbn [orb].
  destruct (status =? 409) eqn:E9, (status =? 404) eqn:E4; cbn [andb]; repeat case_bool_decide; simplify_eq; try done;
    unfold Is; cbn; rewrite ?E2, ?E4, ?E9; repeat case_bool_decide; simplify_eq; done.
Qed.

(** * A run of the ledger *)

Module demo.
Definition price : ModelPrice := {| PromptPricePerMillion := 2000; CompletionPricePerMillion := 8000 |}.
Definition used : Usage := {| PromptTokens := 500; CompletionTokens := 200; TotalTokens := 700 |}.

(** Two calls, of which the first is answered and the second, interrupted, is
    released; the wait begins between them. *)
Definition early : list billing_action := [Number; Begin "r1" price; Work 0 (CallAnswered (Some used)) None].
Definition late : list billing_action :=
  [Begin "r2" price; Work 1 (CallFailed true) None; Work 0 (CallFailed true) None; Work 1 (CallFailed true) None; Work 0 (CallFailed true) (Some 97);
   Work 1 (CallFailed true) (Some 97); Work 1 (CallFailed true) None; Work 0 (CallFailed true) None; Work 0 (CallFailed true) None;
   Work 1 (CallFailed true) None].


Lemma wait_sees_the_calls_witness : all_ended 1 (billing_run_ late (billing_run_ early fresh_ledger)).
Proof. exact (wait_sees_the_calls early late ltac:(vm_compute; reflexivity)). Defined.

End demo.
