(* ===== verification/EnvFile.v ===== *)
(** The settings file of an instance: [internal/instanceconfig/envfile.go].

    A setting is changed in place: the file is cut into statements the way the
    dotenv library reads it, one statement is replaced and the others keep their
    bytes.  Texts are their bytes here; [entries] is what a reader of the file
    sees, key by key, with the text of the value. *)

From S2P Require Import Prelude GoStrings SummaryStore Catalog.
From Stdlib Require Import Ascii.

Local Open Scope string_scope.
Local Open Scope list_scope.
Local Open Scope frost_scope.

(** * Bytes *)

Abbreviation text := (list ascii) (only parsing).
Definition b_tab : ascii := byte_of 9.
Definition b_nl : ascii := byte_of 10.
Definition b_cr : ascii := byte_of 13.
Definition b_space : ascii := byte_of 32.
Definition b_dquote : ascii := byte_of 34.
Definition b_hash : ascii := byte_of 35.
Definition b_dollar : ascii := byte_of 36.
Definition b_quote : ascii := byte_of 39.
Definition b_colon : ascii := byte_of 58.
Definition b_equals : ascii := byte_of 61.
Definition b_backslash : ascii := byte_of 92.
Arguments b_nl : simpl never.
Arguments b_dquote : simpl never.
Arguments b_backslash : simpl never.
Arguments b_equals : simpl never.
Arguments b_quote : simpl never.

Definition is_blank (c : ascii) : bool := bool_decide (c = b_space) || bool_decide (c = b_tab).
Definition is_space (c : ascii) : bool := is_blank c || bool_decide (c = b_cr) || bool_decide (c = b_nl).

Fixpoint take_space (p : ascii -> bool) (l : text) : text :=
  match l with c :: l => if p c then c :: take_space p l else [] | [] => [] end.
Fixpoint skip_space (p : ascii -> bool) (l : text) : text :=
  match l with c :: l' => if p c then skip_space p l' else l | [] => [] end.

(** Up to the end of the line, the newline included, and the rest. *)
Fixpoint cut_line (l : text) : text * text :=
  match l with
  | [] => ([], [])
  | c :: l => if bool_decide (c = b_nl) then ([c], l) else let '(a, b) := cut_line l in (c :: a, b)
  end.

(** * Statements *)

Record envStatement := { st_raw : text; st_key : option text }.
Definition other (raw : text) : envStatement := {| st_raw := raw; st_key := None |}.

(** [unicode.IsLetter] and [unicode.IsNumber] of a byte as a code point. *)
Definition latin_letter (c : ascii) : bool :=
  in_range 65 90 c || in_range 97 122 c || in_range 192 214 c || in_range 216 246 c || in_range 248 255 c ||
  bool_decide (c ∈ [byte_of 170; byte_of 181; byte_of 186]).
Definition latin_number (c : ascii) : bool :=
  in_range 48 57 c || in_range 188 190 c || bool_decide (c ∈ [byte_of 178; byte_of 179; byte_of 185]).
Definition key_byte (c : ascii) : bool :=
  bool_decide (c = byte_of 95) || bool_decide (c = byte_of 46) || latin_letter c || latin_number c.
Definition is_sep (c : ascii) : bool := bool_decide (c = b_equals) || bool_decide (c = b_colon).

(** Where the separator of the key is. *)
Fixpoint scan_key (l : text) : option nat :=
  match l with
  | [] => None
  | c :: l =>
      if is_blank c || bool_decide (c = b_cr) then S <$> scan_key l
      else if is_sep c then Some 0%nat
      else if key_byte c then S <$> scan_key l else None
  end.

(** What follows [export], if that is how the text begins. *)
Definition after_export (s : text) : option text :=
  match cut_prefix (to_bytes "export") s with
  | Some (c :: l) => if is_blank c then Some (skip_space is_blank l) else None
  | _ => None
  end.

Definition parseKeyAndSep (s : text) : option (text * nat) :=
  let trimmed := default s (after_export s) in
  let prefixLen := (length s - length trimmed)%nat in
  i ← scan_key trimmed;
  let rawKey := trim_bytes (take i trimmed) in
  if decide (rawKey = []) then None else Some (rawKey, (prefixLen + i)%nat).

(** The text up to the closing quote: a quote after a backslash does not close,
    however many backslashes there are. *)
Fixpoint cut_quoted (quote prev : ascii) (l : text) : option (text * text) :=
  match l with
  | [] => None
  | c :: l =>
      if bool_decide (c = quote) && negb (bool_decide (prev = b_backslash)) then Some ([c], l)
      else match cut_quoted quote c l with Some (a, b) => Some (c :: a, b) | None => None end
  end.

Definition is_quote (c : ascii) : bool := bool_decide (c = b_dquote) || bool_decide (c = b_quote).

(** What of a text belongs to the value it begins with, and what follows: with a
    quoted value the rest of its line, if that is blank or a comment. *)
Definition cut_value (v : text) : text * text :=
  match v with
  | [] => ([], [])
  | quote :: value =>
      if is_quote quote then
        let '(quoted, rest) := default (value, []) (cut_quoted quote quote value) in
        let '(restOfLine, next) := cut_line rest in
        match skip_space is_space restOfLine with
        | [] => (quote :: quoted ++ restOfLine, next)
        | c :: _ => if bool_decide (c = b_hash) then (quote :: quoted ++ restOfLine, next) else (quote :: quoted, rest)
        end
      else cut_line v
  end.

(** One round of the loop on what is left, which is not empty. *)
Definition parse_one (content : text) : list envStatement * text :=
  let space := take_space is_space content in
  let body := skip_space is_space content in
  let line := ([other (space ++ (cut_line body).1)], (cut_line body).2) in
  match body with
  | [] => ([other content], [])
  | c :: _ =>
      if bool_decide (c = b_hash) then line else
      match parseKeyAndSep body with
      | None => line
      | Some (key, sepOffset) =>
          let trivia := if decide (space = []) then [] else [other space] in
          let after := drop (S sepOffset) body in
          let prefix := take (S sepOffset) body ++ take_space is_blank after in
          let '(v, rest) := cut_value (skip_space is_blank after) in
          (trivia ++ [{| st_raw := prefix ++ v; st_key := Some key |}], rest)
      end
  end.

Fixpoint parse_loop (fuel : nat) (content : text) : list envStatement :=
  match fuel with
  | O => []
  | S fuel => if decide (content = []) then [] else let '(stmts, rest) := parse_one content in stmts ++ parse_loop fuel rest
  end.
Definition parseEnvStatements (content : text) : list envStatement := parse_loop (length content) content.

(** * Changing a statement *)

Definition HasSuffix_nl (l : text) : bool := bool_decide (last l = Some b_nl).

Fixpoint replace_key (found : bool) (key formatted : text) (stmts : list envStatement) : bool * list envStatement :=
  match stmts with
  | [] => (found, [])
  | st :: stmts =>
      if decide (st_key st = Some key) then
        let '(f, l) := replace_key true key formatted stmts in
        (f, if found then l else {| st_raw := formatted ++ [b_nl]; st_key := Some key |} :: l)
      else let '(f, l) := replace_key found key formatted stmts in (f, st :: l)
  end.

Definition mutateEnvStatements (stmts : list envStatement) (key formatted : text) : list envStatement :=
  let '(found, result) := replace_key false key formatted stmts in
  if found then result else
  (match last result with
   | Some st => if HasSuffix_nl (st_raw st) then result else result ++ [other [b_nl]]
   | None => result
   end) ++ [{| st_raw := formatted ++ [b_nl]; st_key := Some key |}].

Definition removeKeyFromStatements (stmts : list envStatement) (key : text) : list envStatement :=
  filter (fun st => st_key st <> Some key) stmts.

Definition renderEnvStatements (stmts : list envStatement) : text :=
  let res := concat (map st_raw stmts) in
  if bool_decide (res = []) || HasSuffix_nl res then res else res ++ [b_nl].

(** * Writing a value *)

(** [godotenv.Unmarshal], which is not part of the repository. *)
Class Dotenv := { Unmarshal : string -> res error (gmap string string) }.

Definition escape_value_rune (r : text) : text :=
  if decide (r = [b_backslash]) then [b_backslash; b_backslash] else
  if decide (r = [b_nl]) then to_bytes "\n" else
  if decide (r = [b_cr]) then to_bytes "\r" else
  if decide (r = [b_dquote]) then [b_backslash; b_dquote] else
  if decide (r = [b_dollar]) then [b_backslash; b_dollar] else r.

Definition bytes_contain (p l : text) : bool := bool_decide (is_Some (index_of p l)).
Definition ends_with (c : ascii) (l : text) : bool := bool_decide (last l = Some c).
Definition begins_with (c : ascii) (l : text) : bool := bool_decide (head l = Some c).

(** The three ways of writing a value. *)
Definition formatted_value (value : text) : text :=
  let hasLeadingOrTrailingSpace := begins_with b_space value || begins_with b_tab value || ends_with b_space value || ends_with b_tab value in
  let hasNewline := bool_decide (b_cr ∈ value) || bool_decide (b_nl ∈ value) in
  let hasDollar := bool_decide (b_dollar ∈ value) in
  let startsQuote := begins_with b_dquote value || begins_with b_quote value in
  let hasInlineComment := bytes_contain [b_space; b_hash] value || bytes_contain [b_tab; b_hash] value in
  let canBeUnquoted := negb (bool_decide (value = [])) && negb hasNewline && negb hasLeadingOrTrailingSpace && negb hasDollar &&
                       negb startsQuote && negb hasInlineComment in
  let canBeSingleQuoted := negb (bool_decide (value = [])) && negb hasNewline && negb (bool_decide (b_quote ∈ value)) &&
                           negb (ends_with b_backslash value) in
  if canBeUnquoted then value
  else if canBeSingleQuoted && startsQuote then b_quote :: value ++ [b_quote]
  else b_dquote :: concat (map escape_value_rune (runes (of_bytes value))) ++ [b_dquote].

Definition formatted_entry (key value : text) : text := key ++ b_equals :: formatted_value value.

(** The names a setting may have: [keyPattern]. *)
Definition keyPattern (k : text) : bool :=
  let first c := in_range 65 90 c || in_range 97 122 c || bool_decide (c = byte_of 95) in
  match k with c :: k => first c && forallb (fun c => first c || in_range 48 57 c) k | [] => false end.

(** A quoted value that is not closed is refused. *)
Class DotenvLaws `{Dotenv} := {
  unterminated_refused key quote value : keyPattern key = true -> is_quote quote = true -> cut_quoted quote quote value = None ->
    exists err, Unmarshal (of_bytes (key ++ b_equals :: quote :: value)) = Err err;
}.

Section writing.
Context `{Dotenv}.

Definition FormatEnvEntry (key value : text) : res error text :=
  if bool_decide (byte_of 0 ∈ value) then Err "value contains null byte (NUL) which cannot be represented in environment" else
  let formatted := formatted_entry key value in
  match Unmarshal (of_bytes formatted) with
  | Err err => Err ("value cannot be safely represented in .env: " +:+ err)
  | Ok parsed =>
      if decide (parsed !! of_bytes key <> Some (of_bytes value)) then Err "value cannot be safely round-tripped in .env"
      else if decide (size parsed <> 1%nat) then Err "value causes unexpected additional keys in .env"
      else Ok formatted
  end.

Definition MutateEnv (raw key value : text) (remove : bool) : res error text :=
  let stmts := parseEnvStatements raw in
  if remove then Ok (renderEnvStatements (removeKeyFromStatements stmts key)) else
  match FormatEnvEntry key value with
  | Err err => Err err
  | Ok formatted => Ok (renderEnvStatements (mutateEnvStatements stmts key formatted))
  end.
End writing.

(** * What a reader sees *)

Definition strip_nl (l : text) : text := if ends_with b_nl l then removelast l else l.

(** The value and what follows it; a quoted value keeps its quotes. *)
Definition read_value (v : text) : text * text :=
  match v with
  | [] => ([], [])
  | quote :: value =>
      if is_quote quote then let '(quoted, rest) := default (value, []) (cut_quoted quote quote value) in (quote :: quoted, rest)
      else let '(l, rest) := cut_line v in (strip_nl l, rest)
  end.

(** The next entry, if there is one on the line. *)
Definition read_step (content : text) : list (text * text) * text :=
  let body := skip_space is_space content in
  match body with
  | [] => ([], [])
  | c :: _ =>
      if bool_decide (c = b_hash) then ([], (cut_line body).2) else
      match parseKeyAndSep body with
      | None => ([], (cut_line body).2)
      | Some (key, sepOffset) =>
          let '(v, rest) := read_value (skip_space is_blank (drop (S sepOffset) body)) in ([(key, v)], rest)
      end
  end.

Fixpoint read_loop (fuel : nat) (content : text) : list (text * text) :=
  match fuel with
  | O => []
  | S fuel => if decide (content = []) then [] else let '(es, rest) := read_step content in es ++ read_loop fuel rest
  end.
Definition entries (content : text) : list (text * text) := read_loop (length content) content.

(** Is the value of a statement closed, if it is quoted? *)
Definition terminated (st : envStatement) : bool :=
  match st_key st, parseKeyAndSep (st_raw st) with
  | Some _, Some (_, sepOffset) =>
      match skip_space is_blank (drop (S sepOffset) (st_raw st)) with
      | quote :: value => if is_quote quote then bool_decide (is_Some (cut_quoted quote quote value)) else true
      | [] => true
      end
  | _, _ => true
  end.

(** An entry set to a value where it first was, or at the end. *)
Fixpoint set_entry (found : bool) (key value : text) (l : list (text * text)) : list (text * text) :=
  match l with
  | [] => if found then [] else [(key, value)]
  | (k, v) :: l =>
      if decide (k = key) then if found then set_entry true key value l else (key, value) :: set_entry true key value l
      else (k, v) :: set_entry found key value l
  end.

(** * Lines and blanks *)

Lemma take_skip p l : take_space p l ++ skip_space p l = l.
Proof. induction l as [|c l IH]; [done|]. cbn. destruct (p c); [cbn; by rewrite IH|done]. Qed.

Lemma take_space_all p l : Forall (fun c => p c = true) (take_space p l).
Proof. induction l as [|c l IH]; cbn; [done|]. destruct (p c) eqn:Hc; [by constructor|done]. Qed.

Lemma skip_space_all p l x : Forall (fun c => p c = true) l -> skip_space p (l ++ x) = skip_space p x.
Proof. induction 1 as [|c l Hc Hl IH]; [done|]. cbn. by rewrite Hc. Qed.

Lemma skip_space_head p c l : p c = false -> skip_space p (c :: l) = c :: l.
Proof. intros Hc. cbn. by rewrite Hc. Qed.

Lemma skip_space_nonspace p l c l' : skip_space p l = c :: l' -> p c = false.
Proof. induction l as [|d l IH]; cbn; [done|]. destruct (p d) eqn:Hd; [done|]. by intros [= -> ->]. Qed.

Lemma skip_space_length p l : (length (skip_space p l) <= length l)%nat.
Proof. induction l as [|c l IH]; cbn; [lia|]. destruct (p c); cbn; lia. Qed.

Lemma skip_space_idemp p l : skip_space p (skip_space p l) = skip_space p l.
Proof. induction l as [|c l IH]; [done|]. cbn. destruct (p c) eqn:Hc; [done|]. cbn. by rewrite Hc. Qed.

Lemma cut_line_nl a x : b_nl ∉ a -> cut_line (a ++ b_nl :: x) = (a ++ [b_nl], x).
Proof.
  induction a as [|c a IH]; intros Ha; cbn; [done|]. rewrite bool_decide_eq_false_2; [|intros ->; apply Ha; by left].
  rewrite IH; [done|]. intros H. apply Ha. by right.
Qed.

Lemma cut_line_last a : b_nl ∉ a -> cut_line a = (a, []).
Proof.
  induction a as [|c a IH]; intros Ha; cbn; [done|]. rewrite bool_decide_eq_false_2; [|intros ->; apply Ha; by left].
  rewrite IH; [done|]. intros H. apply Ha. by right.
Qed.

(** A text is its first line and the rest. *)
Lemma line_cases l : (exists a x, l = a ++ b_nl :: x /\ b_nl ∉ a) \/ b_nl ∉ l.
Proof.
  induction l as [|c l IH]; [right; apply not_elem_of_nil|]. destruct (decide (c = b_nl)) as [->|Hc]; [left; exists [], l; split; [done|apply not_elem_of_nil]|].
  destruct IH as [(a & x & -> & Ha)|Hl]; [left; exists (c :: a), x|right]; [split; [done|]|]; by apply not_elem_of_cons.
Qed.

Lemma cut_line_app l : (cut_line l).1 ++ (cut_line l).2 = l.
Proof.
  destruct (line_cases l) as [(a & x & -> & Ha)|Hl]; [rewrite cut_line_nl by done; cbn; by rewrite <- app_assoc|].
  rewrite cut_line_last by done. apply app_nil_r.
Qed.

Lemma cut_line_shorter c l : (length (cut_line (c :: l)).2 < length (c :: l))%nat.
Proof.
  cbn [cut_line]. case_bool_decide; [cbn; lia|]. destruct (cut_line l) as [a b] eqn:Hl. cbn.
  pose proof (f_equal length (cut_line_app l)) as Hlen. rewrite Hl, length_app in Hlen. cbn in Hlen. lia.
Qed.

Lemma cut_quoted_app quote prev l a b : cut_quoted quote prev l = Some (a, b) -> a ++ b = l /\ forall x, cut_quoted quote prev (a ++ x) = Some (a, x).
Proof.
  revert prev a b. induction l as [|c l IH]; intros prev a b; cbn; [done|]. destruct (_ && _) eqn:Hc.
  - intros [= <- <-]. split; [done|]. intros x. cbn. by rewrite Hc.
  - destruct (cut_quoted quote c l) as [[a' b']|] eqn:Hl; [|done]. intros [= <- <-]. destruct (IH _ _ _ Hl) as [<- Hx]. split; [done|].
    intros x. cbn. by rewrite Hc, Hx.
Qed.

(** * Reading *)

Lemma read_value_shorter v : (length (read_value v).2 <= length v)%nat.
Proof.
  destruct v as [|q v]; [done|]. unfold read_value. destruct (is_quote q).
  - destruct (cut_quoted q q v) as [[a b]|] eqn:Hq; cbn; [|lia]. apply cut_quoted_app in Hq as [<- _]. rewrite length_app. lia.
  - pose proof (cut_line_shorter q v). destruct (cut_line (q :: v)) as [a b]. cbn in *. lia.
Qed.

Lemma read_step_shorter c l : (length (read_step (c :: l)).2 < length (c :: l))%nat.
Proof.
  unfold read_step. pose proof (skip_space_length is_space (c :: l)) as Hs. destruct (skip_space is_space (c :: l)) as [|d body]; [cbn; lia|].
  pose proof (cut_line_shorter d body). destruct (bool_decide (d = b_hash)); [cbn in *; lia|].
  destruct (parseKeyAndSep (d :: body)) as [[key off]|]; [|cbn in *; lia].
  pose proof (read_value_shorter (skip_space is_blank (drop (S off) (d :: body)))) as Hv.
  pose proof (skip_space_length is_blank (drop (S off) (d :: body))) as Hb. rewrite length_drop in Hb.
  destruct (read_value _) as [v rest]. cbn in *. lia.
Qed.

Lemma read_loop_enough n m l : (length l <= n)%nat -> (length l <= m)%nat -> read_loop n l = read_loop m l.
Proof.
  revert m l. induction n as [|n IH]; intros [|m] [|c l] Hn Hm; cbn in Hn, Hm; try lia; try done.
  cbn [read_loop]. rewrite decide_False by done. pose proof (read_step_shorter c l) as Hs. destruct (read_step (c :: l)) as [es rest]. cbn in Hs.
  f_equal. apply IH; lia.
Qed.

Lemma entries_step c l : entries (c :: l) = (read_step (c :: l)).1 ++ entries (read_step (c :: l)).2.
Proof.
  unfold entries at 1. cbn [length read_loop]. rewrite decide_False by done. pose proof (read_step_shorter c l) as Hs.
  destruct (read_step (c :: l)) as [es rest]. cbn in *. f_equal. apply read_loop_enough; lia.
Qed.

(** Leading blanks do not matter. *)
Lemma entries_skip l : entries l = entries (skip_space is_space l).
Proof.
  destruct l as [|c l]; [done|]. rewrite entries_step. unfold read_step. destruct (skip_space is_space (c :: l)) as [|d body] eqn:Hb; [done|].
  rewrite entries_step. unfold read_step. rewrite (skip_space_head is_space d body) by by eapply skip_space_nonspace. done.
Qed.

Lemma entries_space ws x : Forall (fun c => is_space c = true) ws -> entries (ws ++ x) = entries x.
Proof. intros Hws. rewrite entries_skip, skip_space_all, <- entries_skip by done. done. Qed.

Lemma entries_blank ws : Forall (fun c => is_space c = true) ws -> entries ws = [].
Proof. intros Hws. rewrite <- (app_nil_r ws). by rewrite entries_space. Qed.

(** ** Keys *)

Lemma nl_not_key : is_blank b_nl = false /\ bool_decide (b_nl = b_cr) = false /\ is_sep b_nl = false /\ key_byte b_nl = false /\ is_space b_nl = true.
Proof. by vm_compute. Qed.

Lemma scan_key_nl a x : b_nl ∉ a -> scan_key (a ++ b_nl :: x) = scan_key a.
Proof.
  induction a as [|c a IH]; intros Ha; cbn [app scan_key]; [done|]. apply not_elem_of_cons in Ha as [_ Ha]. by rewrite IH.
Qed.

Lemma scan_key_app l i x : scan_key l = Some i -> scan_key (take (S i) l ++ x) = Some i.
Proof.
  revert i. induction l as [|c l IH]; intros i; cbn [scan_key]; [done|].
  destruct (is_blank c || bool_decide (c = b_cr)) eqn:Hb; [|destruct (is_sep c) eqn:Hs; [|destruct (key_byte c) eqn:Hk; [|done]]].
  - destruct (scan_key l) as [j|] eqn:Hj; [|done]. intros [= <-]. cbn [take app scan_key]. by rewrite Hb, (IH j).
  - intros [= <-]. cbn [take app scan_key]. by rewrite Hb, Hs.
  - destruct (scan_key l) as [j|] eqn:Hj; [|done]. intros [= <-]. cbn [take app scan_key]. by rewrite Hb, Hs, Hk, (IH j).
Qed.

Lemma scan_key_bound l i : scan_key l = Some i -> (i < length l)%nat.
Proof.
  revert i. induction l as [|c l IH]; intros i; cbn [scan_key]; [done|].
  repeat case_match; try done; try (intros [= <-]; cbn; lia); destruct (scan_key l) as [j|]; try done; intros [= <-]; cbn; specialize (IH j eq_refl); lia.
Qed.

Lemma scan_key_sep l i : scan_key l = Some i -> exists c, l !! i = Some c /\ is_sep c = true /\ is_blank c = false.
Proof.
  revert i. induction l as [|c l IH]; intros i; cbn [scan_key]; [done|].
  destruct (is_blank c || bool_decide (c = b_cr)) eqn:Hb; [|destruct (is_sep c) eqn:Hs; [|destruct (key_byte c) eqn:Hk; [|done]]].
  - destruct (scan_key l) as [j|]; [|done]. intros [= <-]. by apply IH.
  - intros [= <-]. exists c. apply orb_false_elim in Hb as [Hb _]. done.
  - destruct (scan_key l) as [j|]; [|done]. intros [= <-]. by apply IH.
Qed.

Lemma cut_prefix_nl p a x : b_nl ∉ p -> cut_prefix p (a ++ b_nl :: x) = (fun r => r ++ b_nl :: x) <$> cut_prefix p a.
Proof.
  revert a. induction p as [|c p IH]; intros [|d a] Hp; cbn; try done.
  - destruct (Ascii.eqb_spec c b_nl) as [->|Hc]; [|done]. exfalso. apply Hp. by left.
  - apply not_elem_of_cons in Hp as [_ Hp]. destruct (Ascii.eqb c d); [by apply IH|done].
Qed.

Lemma skip_space_nl a x : skip_space is_blank (a ++ b_nl :: x) = skip_space is_blank a ++ b_nl :: x.
Proof. induction a as [|c a IH]; [done|]. cbn. by destruct (is_blank c). Qed.

Lemma after_export_nl a x : after_export (a ++ b_nl :: x) = (fun r => r ++ b_nl :: x) <$> after_export a.
Proof.
  unfold after_export. rewrite cut_prefix_nl by (apply (bool_decide_eq_true_1 (b_nl ∉ to_bytes "export")); vm_compute; reflexivity).
  destruct (cut_prefix _ a) as [[|c r]|]; [done| |done]. cbn. destruct (is_blank c); [|done]. cbn. by rewrite skip_space_nl.
Qed.

Lemma parse_key_nl a x : b_nl ∉ a -> parseKeyAndSep (a ++ b_nl :: x) = parseKeyAndSep a.
Proof.
  intros Ha. unfold parseKeyAndSep. rewrite after_export_nl.
  assert (Hgen : forall t, b_nl ∉ t -> (i ← scan_key (t ++ b_nl :: x); (if decide (trim_bytes (take i (t ++ b_nl :: x)) = []) then None
      else Some (trim_bytes (take i (t ++ b_nl :: x)), (length (a ++ b_nl :: x) - length (t ++ b_nl :: x) + i)%nat))) =
    (i ← scan_key t; if decide (trim_bytes (take i t) = []) then None else Some (trim_bytes (take i t), (length a - length t + i)%nat))).
  { intros t Ht. rewrite scan_key_nl by done. destruct (scan_key t) as [i|] eqn:Hi; cbn [mbind option_bind]; [|done].
    apply scan_key_bound in Hi. rewrite take_app_le by lia. rewrite !length_app. 
    replace (length a + length (b_nl :: x) - (length t + length (b_nl :: x)))%nat with (length a - length t)%nat by lia. done. }
  destruct (after_export a) as [t|] eqn:Ht; cbn [fmap option_fmap option_map default]; [|by apply Hgen].
  apply Hgen. revert Ht. unfold after_export. destruct (cut_prefix _ a) as [[|c r]|] eqn:Hc; [done| |done].
  apply cut_prefix_Some in Hc as ->. destruct (is_blank c); [|done]. intros [= <-]. intros Hin. apply Ha.
  apply elem_of_app; right. right. rewrite <- (take_skip is_blank r). apply elem_of_app. by right.
Qed.

(** The key and its separator are enough to recognize it. *)
Lemma parse_key_prefix body key off y : parseKeyAndSep body = Some (key, off) ->
  (off < length body)%nat /\ parseKeyAndSep (take (S off) body ++ y) = Some (key, off).
Proof.
  unfold parseKeyAndSep. destruct (after_export body) as [t|] eqn:Ht; cbn [from_option id].
  - revert Ht. unfold after_export. destruct (cut_prefix _ body) as [[|c r]|] eqn:Hc; [done| |done]. apply cut_prefix_Some in Hc as ->.
    destruct (is_blank c) eqn:Hbl; [|done]. intros [= <-]. set (t := skip_space is_blank r).
    destruct (scan_key t) as [i|] eqn:Hi; cbn [mbind option_bind]; [|done]. destruct (decide _) as [|Hne]; [done|]. intros Heq.
    apply (inj Some), pair_equal_spec in Heq as [<- <-]. pose proof (scan_key_bound _ _ Hi) as Hlt. set (pre := to_bytes "export" ++ c :: take_space is_blank r).
    assert (Hbody : to_bytes "export" ++ c :: r = pre ++ t) by (unfold pre, t; rewrite <- app_assoc; cbn; by rewrite take_skip).
    rewrite Hbody. replace (length (pre ++ t) - length t + i)%nat with (length pre + i)%nat by (rewrite length_app; lia).
    split; [rewrite length_app; lia|].
    replace (S (length pre + i)) with (length pre + S i)%nat by lia. rewrite take_app_add, <- app_assoc.
    assert (Hx : cut_prefix (to_bytes "export") (pre ++ take (S i) t ++ y) = Some (c :: take_space is_blank r ++ take (S i) t ++ y))
      by (apply cut_prefix_Some; unfold pre; by rewrite <- app_assoc).
    rewrite Hx, Hbl. assert (Hs : skip_space is_blank (take_space is_blank r ++ take (S i) t ++ y) = take (S i) t ++ y).
    { rewrite skip_space_all by apply take_space_all. destruct t as [|d t'] eqn:Et; [cbn in Hlt; lia|]. cbn [take app]. apply skip_space_head.
      by apply (skip_space_nonspace is_blank r d t'). }
    rewrite Hs. cbn [from_option id]. rewrite (scan_key_app t i y Hi). cbn [mbind option_bind].
    rewrite take_app_le by (rewrite length_take; lia). rewrite take_take, Nat.min_l by lia. rewrite decide_False by done. do 2 f_equal.
    rewrite !length_app. lia.
  - destruct (scan_key body) as [i|] eqn:Hi; cbn [mbind option_bind]; [|done]. destruct (decide _) as [|Hne]; [done|].
    rewrite Nat.sub_diag. cbn [Nat.add]. intros [= <- <-]. pose proof (scan_key_bound _ _ Hi) as Hlt. split; [done|].
    assert (Hnone : after_export (take (S i) body ++ y) = None).
    { destruct (after_export (take (S i) body ++ y)) as [t|] eqn:Hsome; [|done]. exfalso. revert Ht Hsome. unfold after_export.
      destruct (cut_prefix _ (take (S i) body ++ y)) as [[|c r]|] eqn:Hc; [done| |done]. apply cut_prefix_Some in Hc.
      destruct (is_blank c) eqn:Hbl; [|done]. intros Ht _. destruct (scan_key_sep _ _ Hi) as (d & Hd & Hsep & Hnb).
      assert (Hlook : (to_bytes "export" ++ c :: r) !! i = Some d) by (rewrite <- Hc, lookup_app_l by (rewrite length_take; lia); by rewrite lookup_take_lt by lia).
      destruct (decide (i < 7)%nat) as [Hi7|Hi7].
      + do 7 (destruct i as [|i]; [cbn in Hlook; injection Hlook as <-; revert Hsep Hnb; try (by vm_compute); congruence|]). lia.
      + assert (Hpre : body = to_bytes "export" ++ c :: drop 7 body).
        { rewrite <- (take_drop 7 body) at 1. change (to_bytes "export" ++ c :: drop 7 body) with ((to_bytes "export" ++ [c]) ++ drop 7 body). f_equal.
          assert (Htk : take 7 (take (S i) body ++ y) = take 7 (to_bytes "export" ++ c :: r)) by by rewrite Hc.
          rewrite take_app_le, take_take, Nat.min_l in Htk by (rewrite ?length_take; lia). exact Htk. }
        rewrite Hpre, cut_prefix_app, Hbl in Ht. done. }
    rewrite Hnone. cbn [from_option id]. rewrite (scan_key_app body i y Hi). cbn [mbind option_bind].
    rewrite take_app_le by (rewrite length_take; lia). rewrite take_take, Nat.min_l by lia. rewrite decide_False by done.
    by rewrite Nat.sub_diag.
Qed.

(** The key is not blank where it begins. *)
Definition line_start (body : text) : Prop := match body with c :: _ => is_space c = false /\ c <> b_hash | [] => False end.

Lemma take_head (c : ascii) (l : text) n y : exists r, take (S n) (c :: l) ++ y = c :: r.
Proof. by eexists. Qed.

Lemma read_step_keyed body key off bl w : line_start body -> parseKeyAndSep body = Some (key, off) ->
  Forall (fun c => is_blank c = true) bl -> skip_space is_blank w = w ->
  entries ((take (S off) body ++ bl) ++ w) = (key, (read_value w).1) :: entries (read_value w).2.
Proof.
  intros Hl Hk Hbl Hw. destruct body as [|c l]; [done|]. destruct Hl as [Hc Hh]. rewrite <- app_assoc.
  destruct (parse_key_prefix _ _ _ (bl ++ w) Hk) as [Hlt Hp]. rewrite entries_skip. destruct (take_head c l off (bl ++ w)) as [r Er].
  assert (Hd : drop (S off) (take (S off) (c :: l) ++ bl ++ w) = bl ++ w) by (apply drop_app_length'; rewrite length_take; lia).
  rewrite Er in *. rewrite skip_space_head by done. rewrite entries_step. unfold read_step. rewrite skip_space_head by done.
  rewrite bool_decide_eq_false_2 by done. rewrite Hp, Hd, skip_space_all, Hw by done. by destruct (read_value w).
Qed.

Lemma read_line a x : b_nl ∉ a -> (forall c r, a = c :: r -> is_quote c = false) -> read_value (a ++ b_nl :: x) = (a, x) /\ read_value a = (a, []).
Proof.
  intros Ha Hq. assert (Hs : forall l, b_nl ∉ l -> strip_nl (l ++ [b_nl]) = l /\ strip_nl l = l).
  { intros l Hl. unfold strip_nl, ends_with. rewrite last_snoc, bool_decide_eq_true_2, removelast_last by done. split; [done|].
    rewrite bool_decide_eq_false_2; [done|]. intros Hlast. apply Hl. by apply last_Some_elem_of. }
  destruct a as [|c r]; [done|]. unfold read_value. cbn [app]. rewrite (Hq c r eq_refl).
  change (c :: r ++ b_nl :: x) with ((c :: r) ++ b_nl :: x). rewrite cut_line_nl, cut_line_last by done. destruct (Hs _ Ha) as [-> ->]. done.
Qed.

(** A line that is no entry. *)
Lemma skipped_line c a y : is_space c = false -> c = b_hash \/ parseKeyAndSep (c :: a) = None -> b_nl ∉ c :: a ->
  entries (c :: a) = [] /\ entries ((c :: a) ++ b_nl :: y) = entries y.
Proof.
  intros Hc Hk Ha.
  assert (Hstep : forall l, l = c :: a \/ l = (c :: a) ++ b_nl :: y -> entries l = entries (cut_line l).2).
  { intros l Hl. assert (exists r, l = c :: r) as [r Er] by (destruct Hl as [->| ->]; by eexists).
    assert (Hp : c = b_hash \/ parseKeyAndSep l = None) by (destruct Hk as [Hk|Hk]; [by left|right]; destruct Hl as [->| ->]; by rewrite ?parse_key_nl by done).
    rewrite Er in *. rewrite entries_step. unfold read_step. rewrite skip_space_head by done. case_bool_decide; [done|].
    destruct Hp as [|Hp]; [done|]. by rewrite Hp. }
  rewrite (Hstep (c :: a)), (Hstep ((c :: a) ++ b_nl :: y)) by auto. rewrite cut_line_nl, cut_line_last by done. done.
Qed.

(** * Statements and entries *)

(** Whatever follows, the text reads as it does alone; so it does before a
    newline. *)
Definition closed (raw : text) : Prop := forall x, entries (raw ++ x) = entries raw ++ entries x.
Definition endable (raw : text) : Prop := forall x, entries (raw ++ b_nl :: x) = entries raw ++ entries x.

(** The entries of a statement: the one of its key, or none. *)
Definition fits (key : option text) (es : list (text * text)) : Prop :=
  match key with Some k => exists v, es = [(k, v)] | None => es = [] end.
Definition keyed (st : envStatement) : Prop := fits (st_key st) (entries (st_raw st)).

(** Statements one after another: only the last may lack its newline. *)
Inductive chain : list envStatement -> Prop :=
  | chain_nil : chain []
  | chain_last st : keyed st -> endable (st_raw st) -> HasSuffix_nl (st_raw st) = false -> chain [st]
  | chain_cons st l : keyed st -> closed (st_raw st) -> chain l -> chain (st :: l).

Definition linked (st : envStatement) (rest : text) : Prop :=
  keyed st /\ (closed (st_raw st) \/ rest = [] /\ endable (st_raw st) /\ HasSuffix_nl (st_raw st) = false).

Lemma linked_chain st rest l : linked st rest -> (rest = [] -> l = []) -> chain l -> chain (st :: l).
Proof. intros [Hk [Hc|(Hr & He & Hs)]] Hrl Hl; [by apply chain_cons|]. rewrite Hrl by done. by apply chain_last. Qed.

Lemma entries_newline x : entries (b_nl :: x) = entries x.
Proof. apply (entries_space [b_nl]). by constructor. Qed.

Lemma suffix_nl l c : HasSuffix_nl (l ++ [c]) = bool_decide (c = b_nl).
Proof. unfold HasSuffix_nl. rewrite last_snoc. apply bool_decide_ext. by split; [intros [= ->]|intros ->]. Qed.

Lemma suffix_nl_app l r : HasSuffix_nl (l ++ r) = if decide (r = []) then HasSuffix_nl l else HasSuffix_nl r.
Proof.
  destruct (decide (r = [])) as [->|Hr]; [by rewrite app_nil_r|]. destruct (exists_last Hr) as (r' & c & ->).
  by rewrite app_assoc, !suffix_nl.
Qed.

Lemma suffix_nl_none a : b_nl ∉ a -> HasSuffix_nl a = false.
Proof. intros Ha. apply bool_decide_eq_false_2. intros H. apply Ha. by apply last_Some_elem_of. Qed.

(** A statement that ends with its line. *)
Lemma line_linked key pre l : (l = [] -> HasSuffix_nl pre = false) ->
  (forall a, b_nl ∉ a -> l = a \/ (exists x, l = a ++ b_nl :: x) ->
     exists es, fits key es /\ entries (pre ++ a) = es /\ forall y, entries (pre ++ a ++ b_nl :: y) = es ++ entries y) ->
  linked {| st_raw := pre ++ (cut_line l).1; st_key := key |} (cut_line l).2.
Proof.
  intros Hpre H. destruct (line_cases l) as [(a & x & -> & Ha)|Hl].
  - destruct (H a Ha) as (es & Hf & Hend & Hnl); [right; by exists x|]. rewrite cut_line_nl by done. cbn [fst snd].
    assert (Hes : entries (pre ++ a ++ [b_nl]) = es) by (rewrite Hnl; apply app_nil_r).
    split; [unfold keyed; cbn [st_raw st_key]; by rewrite Hes|left]. intros y. cbn [st_raw]. rewrite Hes, <- !app_assoc. apply Hnl.
  - destruct (H l Hl) as (es & Hf & Hend & Hnl); [by left|]. rewrite cut_line_last by done. cbn [fst snd].
    split; [unfold keyed; cbn [st_raw st_key]; by rewrite Hend|right]. split; [done|]. split; [intros y; cbn [st_raw]; rewrite Hend, <- app_assoc; apply Hnl|].
    cbn [st_raw]. rewrite suffix_nl_app. case_decide; [by apply Hpre|by apply suffix_nl_none].
Qed.

Lemma cut_value_app v : (cut_value v).1 ++ (cut_value v).2 = v.
Proof.
  destruct v as [|q v]; [done|]. unfold cut_value. destruct (is_quote q); [|apply cut_line_app].
  assert (Hd : exists a b, default (v, []) (cut_quoted q q v) = (a, b) /\ a ++ b = v).
  { destruct (cut_quoted q q v) as [[a b]|] eqn:E; cbn; [exists a, b; split; [done|]; by apply cut_quoted_app in E as [? _]|].
    exists v, []. split; [done|apply app_nil_r]. }
  destruct Hd as (a & b & -> & Hab). pose proof (cut_line_app b) as Hb. destruct (cut_line b) as [l n]. cbn in Hb.
  destruct (skip_space is_space l); [|case_bool_decide]; cbn; by rewrite <- ?app_assoc, ?Hb, ?Hab.
Qed.

(** ** Nothing is lost *)

Lemma parse_one_lossless c content : let '(stmts, rest) := parse_one (c :: content) in
  concat (map st_raw stmts) ++ rest = c :: content /\ (length rest < length (c :: content))%nat.
Proof.
  unfold parse_one. pose proof (take_skip is_space (c :: content)) as Hts. destruct (skip_space is_space (c :: content)) as [|d body] eqn:Hb.
  { cbn. rewrite !app_nil_r. split; [done|lia]. }
  set (ws := take_space is_space (c :: content)) in *.
  assert (Hline : let '(stmts, rest) := ([other (ws ++ (cut_line (d :: body)).1)], (cut_line (d :: body)).2) in
     concat (map st_raw stmts) ++ rest = c :: content /\ (length rest < length (c :: content))%nat).
  { cbn [map concat st_raw other]. rewrite app_nil_r, <- app_assoc, cut_line_app, <- Hts. split; [done|].
    pose proof (cut_line_shorter d body). rewrite length_app. lia. }
  case_bool_decide; [done|]. destruct (parseKeyAndSep (d :: body)) as [[key off]|] eqn:Hk; [|done].
  destruct (parse_key_prefix _ _ _ [] Hk) as [Hlt _]. set (after := drop (S off) (d :: body)).
  pose proof (cut_value_app (skip_space is_blank after)) as Hv. destruct (cut_value (skip_space is_blank after)) as [v rest]. cbn [fst snd] in Hv.
  assert (Hraw : concat (map st_raw (if decide (ws = []) then [] else [other ws])) = ws) by (case_decide as E; [by rewrite E|cbn; apply app_nil_r]).
  assert (Hall : (ws ++ (take (S off) (d :: body) ++ take_space is_blank after) ++ v) ++ rest = c :: content).
  { rewrite <- !app_assoc, Hv, take_skip. unfold after. by rewrite take_drop. }
  rewrite map_app, concat_app, Hraw. cbn [map concat st_raw]. rewrite app_nil_r. split; [done|].
  apply (f_equal length) in Hall. rewrite <- Hall, !length_app, length_take. cbn [length] in *. lia.
Qed.

(** ** Every round adds statements to a chain *)

Lemma sep_at body key off : parseKeyAndSep body = Some (key, off) -> exists c, body !! off = Some c /\ is_sep c = true.
Proof.
  unfold parseKeyAndSep. set (t := default body (after_export body)). destruct (scan_key t) as [i|] eqn:Hi; cbn [mbind option_bind]; [|done].
  case_decide; [done|]. intros Heq. apply (inj Some), pair_equal_spec in Heq as [<- <-].
  destruct (scan_key_sep _ _ Hi) as (c & Hc & Hs & _). exists c. split; [|done].
  assert (Ht : exists p, body = p ++ t).
  { unfold t, after_export. destruct (cut_prefix _ body) as [[|d r]|] eqn:Hp; [by exists []| |by exists []]. apply cut_prefix_Some in Hp.
    destruct (is_blank d); [|by exists []]. exists (to_bytes "export" ++ d :: take_space is_blank r). cbn [from_option id].
    rewrite <- app_assoc. cbn [app]. by rewrite take_skip, Hp. }
  destruct Ht as [p Ep]. rewrite Ep at 2. rewrite Ep at 1. rewrite length_app. replace (length p + length t - length t + i)%nat with (length p + i)%nat by lia.
  by rewrite lookup_app_r, Nat.add_comm, Nat.add_sub by lia.
Qed.

Lemma byte_classes c : (is_quote c = true -> is_blank c = false /\ c <> b_nl) /\ (is_sep c = true -> c <> b_nl) /\ (is_blank c = true -> c <> b_nl).
Proof.
  assert (H : forallb (fun c => (negb (is_quote c) || negb (is_blank c) && negb (Ascii.eqb c b_nl)) && (negb (is_sep c) || negb (Ascii.eqb c b_nl)) &&
                                (negb (is_blank c) || negb (Ascii.eqb c b_nl))) all_bytes = true) by by vm_compute.
  pose proof (byte_forall _ H c) as Hc. cbn beta in Hc. destruct (Ascii.eqb_spec c b_nl), (is_quote c), (is_blank c), (is_sep c); cbn in Hc;
    try discriminate; repeat split; intros; congruence.
Qed.

Lemma quote_not_blank c : is_quote c = true -> is_blank c = false.
Proof. intros H. by apply (proj1 (byte_classes c) H). Qed.
Lemma quote_not_nl c : is_quote c = true -> c <> b_nl.
Proof. intros H. by apply (proj1 (byte_classes c) H). Qed.
Lemma sep_not_nl c : is_sep c = true -> c <> b_nl.
Proof. exact (proj1 (proj2 (byte_classes c))). Qed.
Lemma blank_not_nl c : is_blank c = true -> c <> b_nl.
Proof. exact (proj2 (proj2 (byte_classes c))). Qed.

Lemma prefix_suffix body key off bl : parseKeyAndSep body = Some (key, off) -> Forall (fun c => is_blank c = true) bl ->
  HasSuffix_nl (take (S off) body ++ bl) = false.
Proof.
  intros Hk Hbl. rewrite suffix_nl_app. case_decide as Hb.
  - destruct (sep_at _ _ _ Hk) as (c & Hc & Hs). rewrite (take_S_r _ _ c Hc), suffix_nl. apply bool_decide_eq_false_2. by apply sep_not_nl.
  - destruct (exists_last Hb) as (r & c & ->). rewrite suffix_nl. apply bool_decide_eq_false_2. apply Forall_app in Hbl as [_ Hc].
    inversion Hc. by apply blank_not_nl.
Qed.

Lemma cut_quoted_last quote prev l a b : cut_quoted quote prev l = Some (a, b) -> exists a', a = a' ++ [quote].
Proof.
  revert prev a b. induction l as [|c l IH]; intros prev a b; cbn; [done|]. destruct (_ && _) eqn:Hc.
  - intros [= <- <-]. apply andb_true_iff in Hc as [Hc _]. apply bool_decide_eq_true in Hc as ->. by exists [].
  - destruct (cut_quoted quote c l) as [[a' b']|] eqn:Hl; [|done]. intros [= <- <-]. destruct (IH _ _ _ Hl) as [r ->]. by exists (c :: r).
Qed.

(** What follows a quoted value on its line, if it is blank or a comment. *)
Lemma trailing a l y : b_nl ∉ a -> l = a \/ l = a ++ [b_nl] -> match skip_space is_space l with c :: _ => c = b_hash | [] => True end ->
  entries a = [] /\ entries (a ++ b_nl :: y) = entries y.
Proof.
  intros Ha Hl Hs. pose proof (take_skip is_space a) as Hts. pose proof (take_space_all is_space a) as Hws.
  destruct (skip_space is_space a) as [|c r] eqn:Hr.
  - rewrite app_nil_r in Hts. rewrite Hts in Hws. rewrite entries_blank, entries_space, entries_newline by done. done.
  - pose proof (skip_space_nonspace _ _ _ _ Hr) as Hc.
    assert (c = b_hash) as ->.
    { destruct Hl as [->| ->]; [by rewrite Hr in Hs|]. rewrite <- Hts, <- app_assoc, skip_space_all in Hs by done. cbn [app] in Hs.
      by rewrite skip_space_head in Hs by done. }
    assert (Hn : b_nl ∉ b_hash :: r) by (intros H; apply Ha; rewrite <- Hts; apply elem_of_app; by right).
    destruct (skipped_line b_hash r y Hc (or_introl eq_refl) Hn) as [H0 H1].
    rewrite <- Hts, <- app_assoc, !entries_space by done. done.
Qed.

Section keyed_statement.
Variables (body key bl : text) (off : nat).
Hypothesis (Hstart : line_start body) (Hkey : parseKeyAndSep body = Some (key, off)) (Hbl : Forall (fun c => is_blank c = true) bl).
Let pre := take (S off) body ++ bl.

Lemma pre_quoted q a b y : is_quote q = true -> cut_quoted q q b = Some (a, y) -> forall x,
  entries ((pre ++ q :: a) ++ x) = (key, q :: a) :: entries x.
Proof.
  intros Hq Hc x. pose proof (quote_not_blank _ Hq) as Hnb. rewrite <- app_assoc. cbn [app].
  unfold pre. rewrite (read_step_keyed _ _ _ _ _ Hstart Hkey Hbl) by by apply skip_space_head.
  apply cut_quoted_app in Hc as [_ Hx]. cbn [read_value]. rewrite Hq, Hx. done.
Qed.

Lemma pre_line a : b_nl ∉ a -> match a with c :: _ => is_quote c = false /\ is_blank c = false | [] => True end ->
  entries (pre ++ a) = [(key, a)] /\ forall y, entries (pre ++ a ++ b_nl :: y) = [(key, a)] ++ entries y.
Proof.
  intros Ha Hc. assert (Hskip : forall z, (a = [] -> z = [] \/ exists y, z = b_nl :: y) -> skip_space is_blank (a ++ z) = a ++ z).
  { intros z Hz. destruct a as [|c r]; [|apply (skip_space_head _ c (r ++ z)), Hc]. cbn [app]. by destruct (Hz eq_refl) as [->|[y ->]]. }
  assert (Hq : forall c r, a = c :: r -> is_quote c = false) by (intros c r ->; by destruct Hc).
  split.
  - unfold pre. rewrite (read_step_keyed _ _ _ _ _ Hstart Hkey Hbl). 2: { rewrite <- (app_nil_r a). apply Hskip. by left. }
    by destruct (read_line a [] Ha Hq) as [_ ->].
  - intros y. unfold pre. rewrite (read_step_keyed _ _ _ _ _ Hstart Hkey Hbl) by (apply Hskip; intros _; right; by exists y).
    by destruct (read_line a y Ha Hq) as [-> _].
Qed.

Lemma value_linked w : skip_space is_blank w = w -> let st := {| st_raw := pre ++ (cut_value w).1; st_key := Some key |} in
  terminated st = true -> linked st (cut_value w).2.
Proof.
  intros Hw st Ht. unfold st in *. clear st. destruct w as [|q v].
  { change (cut_value []) with (cut_line []). apply line_linked; [intros _; by eapply prefix_suffix|]. intros a Ha Hl. exists [(key, [])].
    assert (a = []) as -> by (destruct Hl as [<-|[x Hx]]; [done|by destruct a]). destruct (pre_line [] Ha I) as [H1 H2]. split; [by exists []|done]. }
  unfold cut_value in *. destruct (is_quote q) eqn:Hq.
  - destruct (cut_quoted q q v) as [[a b]|] eqn:Hc; cbn [from_option id] in *.
    + pose proof (pre_quoted _ _ _ _ Hq Hc) as Hread. destruct (cut_quoted_last _ _ _ _ _ Hc) as [a' Ea].
      assert (Hline : match skip_space is_space (cut_line b).1 with c :: _ => c = b_hash | [] => True end ->
        linked {| st_raw := pre ++ q :: a ++ (cut_line b).1; st_key := Some key |} (cut_line b).2).
      { intros Hs. change (pre ++ q :: a ++ (cut_line b).1) with (pre ++ (q :: a) ++ (cut_line b).1). rewrite app_assoc. apply line_linked.
        - intros _. rewrite Ea. change (q :: a' ++ [q]) with ((q :: a') ++ [q]). rewrite app_assoc, suffix_nl. apply bool_decide_eq_false_2. by apply quote_not_nl.
        - intros l Hl Hb. exists [(key, q :: a)]. split; [by exists (q :: a)|]. rewrite Hread.
          assert (Hcut : (cut_line b).1 = l \/ (cut_line b).1 = l ++ [b_nl]) by (destruct Hb as [->|[x ->]]; rewrite ?cut_line_last, ?cut_line_nl by done; auto).
          split; [by destruct (trailing l _ [] Hl Hcut Hs) as [-> _]|]. intros y. rewrite Hread. by destruct (trailing l _ y Hl Hcut Hs) as [_ ->]. }
      destruct (cut_line b) as [l n]. cbn [fst snd] in Hline. destruct (skip_space is_space l) as [|c r]; [by apply Hline|].
      case_bool_decide; [by apply Hline|]. cbn [fst snd]. pose proof (Hread []) as H0. rewrite app_nil_r in H0.
      split; [exists (q :: a); exact H0|left]. intros x. cbn [st_raw]. by rewrite H0, Hread.
    + exfalso. cbn in Ht. unfold terminated in Ht. cbn [st_key st_raw] in Ht. rewrite app_nil_r in Ht. unfold pre in Ht. rewrite <- app_assoc in Ht.
      destruct (parse_key_prefix _ _ _ (bl ++ q :: v) Hkey) as [Hlt Hp]. rewrite Hp in Ht.
      rewrite drop_app_length' in Ht by (rewrite length_take; lia). rewrite skip_space_all, Hw, Hq, Hc in Ht by done. done.
  - apply line_linked; [done|]. intros a Ha Hl.
    assert (Hhead : match a with c :: _ => is_quote c = false /\ is_blank c = false | [] => True end).
    { destruct a as [|c r]; [done|]. assert (q = c) as <- by (destruct Hl as [[= -> _]|[x [= -> _]]]; done).
      split; [done|]. apply (skip_space_nonspace _ (q :: v) q v Hw). }
    destruct (pre_line a Ha Hhead) as [H1 H2]. exists [(key, a)]. split; [by exists a|done].
Qed.
End keyed_statement.

Lemma parse_one_chain c content l : let '(stmts, rest) := parse_one (c :: content) in
  Forall (fun st => terminated st = true) stmts -> (rest = [] -> l = []) -> chain l -> chain (stmts ++ l).
Proof.
  unfold parse_one. pose proof (take_skip is_space (c :: content)) as Hts. pose proof (take_space_all is_space (c :: content)) as Hws.
  set (ws := take_space is_space (c :: content)) in *. destruct (skip_space is_space (c :: content)) as [|d body] eqn:Hb.
  { rewrite app_nil_r in Hts. rewrite <- Hts. intros _ _ Hl. apply chain_cons; [by apply entries_blank| |done].
    intros x. cbn [st_raw other]. rewrite entries_space, (entries_blank ws) by done. done. }
  pose proof (skip_space_nonspace _ _ _ _ Hb) as Hd.
  assert (Hline : d = b_hash \/ parseKeyAndSep (d :: body) = None -> (cut_line (d :: body)).2 = [] \/ True ->
    ((cut_line (d :: body)).2 = [] -> l = []) -> chain l -> chain ([other (ws ++ (cut_line (d :: body)).1)] ++ l)).
  { intros Hno _ Hrl Hl. apply (linked_chain _ (cut_line (d :: body)).2); [|done|done]. apply line_linked; [done|].
    intros a Ha Hal. exists []. split; [done|]. destruct a as [|e r].
    { destruct Hal as [?|[x [= -> _]]]; done. }
    assert (d = e) as <- by (destruct Hal as [[= -> _]|[x [= -> _]]]; done).
    assert (Hno' : d = b_hash \/ parseKeyAndSep (d :: r) = None).
    { destruct Hno as [|Hno]; [by left|right]. destruct Hal as [<-|[x Hx]]; [done|]. by rewrite <- (parse_key_nl _ x Ha), <- Hx. }
    rewrite entries_space by done. split; [by destruct (skipped_line d r [] Hd Hno' Ha)|]. intros y. rewrite entries_space by done.
    by destruct (skipped_line d r y Hd Hno' Ha). }
  case_bool_decide as Hh; [intros _; apply Hline; auto|]. destruct (parseKeyAndSep (d :: body)) as [[key off]|] eqn:Hk; [|intros _; apply Hline; auto].
  set (after := drop (S off) (d :: body)). pose proof (value_linked (d :: body) key (take_space is_blank after) off (conj Hd Hh) Hk
    (take_space_all _ _) (skip_space is_blank after) (skip_space_idemp _ _)) as Hv.
  destruct (cut_value (skip_space is_blank after)) as [v rest]. intros Ht Hrl Hl. apply Forall_app in Ht as [_ Ht]. rewrite <- app_assoc.
  assert (Hst : chain ([{| st_raw := (take (S off) (d :: body) ++ take_space is_blank after) ++ v; st_key := Some key |}] ++ l)).
  { apply (linked_chain _ rest); [|done|done]. apply Hv. by inversion Ht. }
  case_decide; [done|]. apply chain_cons; [by apply entries_blank| |done]. intros x. cbn [st_raw other]. rewrite entries_space, (entries_blank ws) by done. done.
Qed.

Lemma parse_loop_lossless fuel content : (length content <= fuel)%nat -> concat (map st_raw (parse_loop fuel content)) = content.
Proof.
  revert content. induction fuel as [|fuel IH]; intros [|c content] Hf; cbn in Hf; try done; [lia|]. cbn [parse_loop]. rewrite decide_False by done.
  pose proof (parse_one_lossless c content) as Hone. destruct (parse_one (c :: content)) as [stmts rest]. destruct Hone as [Hraw Hlt]. cbn in Hlt.
  rewrite map_app, concat_app, IH by lia. done.
Qed.

Lemma parse_loop_chain fuel content : (length content <= fuel)%nat -> Forall (fun st => terminated st = true) (parse_loop fuel content) ->
  chain (parse_loop fuel content).
Proof.
  revert content. induction fuel as [|fuel IH]; intros [|c content] Hf; cbn in Hf; try (intros; apply chain_nil).
  cbn [parse_loop]. rewrite decide_False by done. pose proof (parse_one_lossless c content) as Hone.
  pose proof (fun l => parse_one_chain c content l) as Hchain. destruct (parse_one (c :: content)) as [stmts rest]. destruct Hone as [_ Hlt]. cbn in Hlt.
  intros [Hs Hr]%Forall_app. apply Hchain; [done| |apply IH; [lia|done]]. intros ->. by destruct fuel.
Qed.

(** * Changing a statement *)

Definition raws (l : list envStatement) : text := concat (map st_raw l).
Definition read_all (l : list envStatement) : list (text * text) := concat (map (fun st => entries (st_raw st)) l).

Lemma raws_app l k : raws (l ++ k) = raws l ++ raws k.
Proof. unfold raws. by rewrite map_app, concat_app. Qed.

(** A chain followed by something reads as its statements do, if its last line is
    complete, or completed. *)
Lemma chain_reads l x : chain l ->
  (match last l with Some st => HasSuffix_nl (st_raw st) = true | None => True end -> entries (raws l ++ x) = read_all l ++ entries x) /\
  entries (raws l ++ b_nl :: x) = read_all l ++ entries x.
Proof.
  induction 1 as [|st Hk He Hs|st l Hk Hc Hl IH].
  - cbn [raws map concat read_all app]. by rewrite entries_newline.
  - unfold raws, read_all. cbn [map concat last]. rewrite !app_nil_r, Hs. split; [done|apply He].
  - unfold raws, read_all in *. cbn [map concat]. rewrite <- !app_assoc, !(Hc (_ ++ _)). destruct IH as [IH1 IH2]. rewrite IH2. split; [|done].
    intros Hlast. rewrite IH1; [done|]. by destruct l.
Qed.

Lemma chain_raws l : chain l -> entries (raws l) = read_all l.
Proof.
  induction 1 as [|st Hk He Hs|st l Hk Hc Hl IH]; [done|unfold raws, read_all; cbn [map concat]; by rewrite !app_nil_r|].
  unfold raws, read_all in *. cbn [map concat]. by rewrite Hc, IH.
Qed.

Lemma chain_render l : chain l -> entries (renderEnvStatements l) = read_all l.
Proof.
  intros Hl. unfold renderEnvStatements. fold (raws l). destruct (_ || _); [by apply chain_raws|].
  rewrite (proj2 (chain_reads l [] Hl)). apply app_nil_r.
Qed.

Lemma chain_keyed l : chain l -> Forall keyed l.
Proof. induction 1; repeat (done || constructor). Qed.

Lemma chain_filter (P : envStatement -> Prop) `{!forall st, Decision (P st)} l : chain l -> chain (filter P l).
Proof.
  induction 1 as [|st Hk He Hs|st l Hk Hc Hl IH]; [constructor|rewrite filter_cons; case_decide; [by constructor|constructor]|].
  rewrite filter_cons. case_decide; [by constructor|done].
Qed.

Lemma read_filter key l : Forall keyed l -> read_all (removeKeyFromStatements l key) = filter (fun e => e.1 <> key) (read_all l).
Proof.
  unfold removeKeyFromStatements, read_all. induction 1 as [|st l Hk Hl IH]; [done|]. rewrite filter_cons. cbn [map concat]. rewrite filter_app, <- IH.
  unfold keyed, fits in Hk. destruct (st_key st) as [k|].
  - destruct Hk as [v Hv]. rewrite Hv. rewrite filter_cons. cbn [fst]. destruct (decide (k = key)) as [->|Hne].
    + rewrite !decide_False by auto. by rewrite filter_nil.
    + rewrite !decide_True by congruence. cbn [map concat]. by rewrite Hv.
  - rewrite decide_True by done. cbn [map concat]. by rewrite Hk.
Qed.

Lemma replace_reads key formatted v l found : entries (formatted ++ [b_nl]) = [(key, v)] -> closed (formatted ++ [b_nl]) -> chain l ->
  let '(f, r) := replace_key found key formatted l in
  chain r /\ (if f then read_all r = set_entry found key v (read_all l)
              else found = false /\ r = l /\ set_entry false key v (read_all l) = read_all l ++ [(key, v)]).
Proof.
  intros Hread Hclosed Hl. assert (Hf : keyed {| st_raw := formatted ++ [b_nl]; st_key := Some key |}) by by exists v.
  assert (Hone : forall st found', keyed st -> st_key st <> Some key -> forall es, set_entry found' key v (entries (st_raw st) ++ es) =
    entries (st_raw st) ++ set_entry found' key v es).
  { intros st found' Hk Hne es. unfold keyed, fits in Hk. destruct (st_key st) as [k|]; [|by rewrite Hk]. destruct Hk as [v' ->]. cbn.
    rewrite decide_False by congruence. done. }
  assert (Hsame : forall st, keyed st -> st_key st = Some key -> exists v', entries (st_raw st) = [(key, v')]).
  { intros st Hk E. unfold keyed, fits in Hk. by rewrite E in Hk. }
  revert found. induction Hl as [|st Hk He Hs|st l Hk Hc Hl IH]; intros found; cbn [replace_key].
  - split; [constructor|]. destruct found; done.
  - unfold read_all. cbn [map concat]. rewrite app_nil_r. case_decide as Hkey.
    + destruct (Hsame st Hk Hkey) as [v' ->]. cbn. rewrite decide_True by done. destruct found; [by split; [constructor|]|].
      split; [by repeat constructor|]. cbn [map concat st_raw]. by rewrite app_nil_r, Hread.
    + split; [by constructor|]. pose proof (fun f => Hone st f Hk Hkey []) as Hno. rewrite app_nil_r in Hno. destruct found; rewrite Hno; cbn.
      * by rewrite !app_nil_r.
      * done.
  - unfold read_all in *. cbn [map concat]. case_decide as Hkey.
    + specialize (IH true). destruct (replace_key true key formatted l) as [f r]. destruct IH as [Hr IH]. destruct (Hsame st Hk Hkey) as [v' ->]. cbn.
      rewrite decide_True by done. destruct f; [|by destruct IH]. destruct found; [done|]. split; [by constructor|]. cbn [map concat st_raw].
      rewrite Hread, IH. done.
    + specialize (IH found). destruct (replace_key found key formatted l) as [f r]. destruct IH as [Hr IH]. split; [by constructor|].
      rewrite !Hone by done. destruct f; [cbn [map concat]; by rewrite IH|]. destruct IH as (-> & -> & IH). by rewrite IH, app_assoc.
Qed.

Lemma mutate_reads key formatted v l : entries (formatted ++ [b_nl]) = [(key, v)] -> closed (formatted ++ [b_nl]) -> chain l ->
  entries (renderEnvStatements (mutateEnvStatements l key formatted)) = set_entry false key v (read_all l).
Proof.
  intros Hread Hclosed Hl. pose proof (replace_reads key formatted v l false Hread Hclosed Hl) as Hrep. unfold mutateEnvStatements.
  destruct (replace_key false key formatted l) as [f r]. destruct Hrep as [Hr Hrep]. destruct f; [by rewrite chain_render|].
  destruct Hrep as (_ & -> & ->). set (new := {| st_raw := formatted ++ [b_nl]; st_key := Some key |}).
  assert (Hout : forall k, renderEnvStatements (k ++ [new]) = raws k ++ formatted ++ [b_nl]).
  { intros k. unfold renderEnvStatements. fold (raws (k ++ [new])). assert (Hnew : raws [new] = formatted ++ [b_nl]) by apply app_nil_r.
    rewrite raws_app, Hnew, (app_assoc (raws k)), suffix_nl, (bool_decide_eq_true_2 (b_nl = b_nl)), orb_true_r by done. done. }
  rewrite Hout. destruct (last l) as [st|] eqn:Hlast.
  - destruct (HasSuffix_nl (st_raw st)) eqn:Hs.
    + rewrite (proj1 (chain_reads l _ Hl)), Hread; [done|]. by rewrite Hlast.
    + rewrite raws_app, <- app_assoc. unfold raws at 2. cbn [map concat st_raw other app]. by rewrite (proj2 (chain_reads l _ Hl)), Hread.
  - rewrite (proj1 (chain_reads l _ Hl)), Hread; [done|]. by rewrite Hlast.
Qed.

(** * A written value *)

Lemma index_none_not_head (c : ascii) l : begins_with c l = false -> match l with d :: _ => d <> c | [] => True end.
Proof. unfold begins_with. destruct l as [|d l]; [done|]. intros H%bool_decide_eq_false. cbn in H. congruence. Qed.

Lemma cut_quoted_skip q prev a l : q ∉ a -> cut_quoted q prev (a ++ l) =
  (fun p => (a ++ p.1, p.2)) <$> cut_quoted q (default prev (last a)) l.
Proof.
  revert prev. induction a as [|c a IH]; intros prev Ha; [cbn; by destruct (cut_quoted q prev l) as [[? ?]|]|]. apply not_elem_of_cons in Ha as [Hc Ha]. cbn [app cut_quoted].
  rewrite bool_decide_eq_false_2 by done. cbn [andb]. rewrite IH by done. assert (Hl : default prev (last (c :: a)) = default c (last a)).
  { destruct a as [|d a]; [done|]. change (last (c :: d :: a)) with (last (d :: a)).
    destruct (last (d :: a)) eqn:E; [done|]. by apply last_None in E. }
  rewrite Hl. by destruct (cut_quoted q (default c (last a)) l) as [[? ?]|].
Qed.

(** Nothing closes a value before its own quote does. *)
Lemma cut_quoted_single q a : q ∉ a -> cut_quoted q q (a ++ [q]) = None \/ cut_quoted q q (a ++ [q]) = Some (a ++ [q], []).
Proof. intros Ha. rewrite cut_quoted_skip by done. cbn [cut_quoted]. destruct (_ && _); [by right|by left]. Qed.

(** Decides that a byte is none of a list. *)
Ltac not_listed := match goal with |- ?c ∉ ?l => apply (bool_decide_eq_true_1 (c ∉ l)); vm_compute; reflexivity end.

Lemma escaped_chunk r : one_rune r -> r = [b_dquote] \/ b_dquote ∉ escape_value_rune r.
Proof.
  intros Hr. destruct (decide (r = [b_dquote])) as [|Hne]; [by left|right]. unfold escape_value_rune.
  rewrite (decide_False (P := r = [b_dquote])) by done. repeat (case_decide; [not_listed|]).
  destruct (one_rune_short r Hr) as [_ [(a & -> & _)|Hhigh]]; [intros Hin%list_elem_of_singleton; by subst|].
  intros Hin. rewrite Forall_forall in Hhigh. by specialize (Hhigh _ Hin).
Qed.

Lemma cut_quoted_escaped rs prev : Forall one_rune rs ->
  cut_quoted b_dquote prev (concat (map escape_value_rune rs) ++ [b_dquote]) = None \/
  cut_quoted b_dquote prev (concat (map escape_value_rune rs) ++ [b_dquote]) = Some (concat (map escape_value_rune rs) ++ [b_dquote], []).
Proof.
  intros Hrs. revert prev. induction Hrs as [|r rs Hr Hrs IH]; intros prev; cbn [map concat].
  { cbn [app cut_quoted]. destruct (_ && _); [by right|by left]. }
  rewrite <- !app_assoc. destruct (escaped_chunk r Hr) as [->|Hno].
  - change (escape_value_rune [b_dquote]) with [b_backslash; b_dquote]. cbn [app cut_quoted].
    rewrite (bool_decide_eq_false_2 (b_backslash = b_dquote)) by done. cbn [andb].
    rewrite (bool_decide_eq_true_2 (b_backslash = b_backslash)) by done. rewrite andb_false_r. destruct (IH b_dquote) as [->| ->]; [by left|by right].
  - rewrite cut_quoted_skip by done. destruct (IH (default prev (last (escape_value_rune r)))) as [->| ->]; [by left|by right].
Qed.

(** What is written is a line, or a quoted text. *)
Lemma formatted_value_shape value : let v := formatted_value value in
  ((b_nl ∉ v) /\ match v with c :: _ => is_quote c = false /\ is_blank c = false | [] => True end) \/
  exists q a, v = q :: a /\ is_quote q = true /\ (cut_quoted q q a = None \/ cut_quoted q q a = Some (a, [])).
Proof.
  unfold formatted_value. cbn zeta. destruct (_ && _ && _ && _ && _ && _) eqn:Hplain; [left|destruct (_ && (_ || _)) eqn:Hsingle; right].
  - rewrite !andb_true_iff, !negb_true_iff, !orb_false_iff in Hplain. destruct Hplain as [[[[[_ [_ Hnl]] [[[Hsp Htab] _] _]] _] [Hdq Hsq]] _].
    split; [by apply bool_decide_eq_false in Hnl|]. apply index_none_not_head in Hsp, Htab, Hdq, Hsq. destruct value as [|c r]; [done|].
    unfold is_quote, is_blank. by rewrite !bool_decide_eq_false_2.
  - rewrite !andb_true_iff, !negb_true_iff in Hsingle. destruct Hsingle as [[[_ Hq] _] _]. apply bool_decide_eq_false in Hq.
    exists b_quote, (value ++ [b_quote]). split; [done|]. split; [done|]. by apply cut_quoted_single.
  - exists b_dquote, (concat (map escape_value_rune (runes (of_bytes value))) ++ [b_dquote]). split; [done|]. split; [done|].
    apply cut_quoted_escaped, runes_one.
Qed.

(** ** Keys of settings *)

Definition name_byte (c : ascii) : bool := in_range 65 90 c || in_range 97 122 c || bool_decide (c = byte_of 95) || in_range 48 57 c.

Lemma name_byte_class c : name_byte c = true -> is_blank c = false /\ c <> b_cr /\ is_sep c = false /\ key_byte c = true /\ plain_byte c = true /\ is_space c = false /\ c <> b_hash.
Proof.
  assert (H : forallb (fun c => negb (name_byte c) || negb (is_blank c) && negb (bool_decide (c = b_cr)) && negb (is_sep c) && key_byte c &&
    plain_byte c && negb (is_space c) && negb (bool_decide (c = b_hash))) all_bytes = true) by by vm_compute.
  intros Hn. pose proof (byte_forall _ H c) as Hc. cbn beta in Hc. rewrite Hn in Hc. cbn [negb orb] in Hc.
  rewrite !andb_true_iff, !negb_true_iff, !bool_decide_eq_false in Hc. tauto.
Qed.

Lemma keyPattern_names k : keyPattern k = true -> k <> [] /\ Forall (fun c => name_byte c = true) k.
Proof.
  unfold keyPattern. destruct k as [|c k]; [done|]. intros [Hc Hk]%andb_true_iff. split; [done|]. constructor.
  - unfold name_byte. by rewrite Hc.
  - apply Forall_forall. intros d Hd. rewrite forallb_forall in Hk. apply Hk. by apply list_elem_of_In.
Qed.

Lemma scan_name k y : Forall (fun c => name_byte c = true) k -> scan_key (k ++ b_equals :: y) = Some (length k).
Proof.
  induction 1 as [|c k Hc Hk IH]; [done|]. cbn [app scan_key length]. destruct (name_byte_class c Hc) as (-> & Hcr & -> & -> & _).
  rewrite bool_decide_eq_false_2 by done. cbn [orb]. by rewrite IH.
Qed.

Lemma export_name k y : Forall (fun c => name_byte c = true) k -> after_export (k ++ b_equals :: y) = None.
Proof.
  intros Hk. unfold after_export. destruct (cut_prefix _ _) as [[|c l]|] eqn:Hc; [done| |done]. apply cut_prefix_Some in Hc.
  destruct (is_blank c) eqn:Hb; [|done]. exfalso.
  assert (H6 : (k ++ b_equals :: y) !! 6%nat = Some c) by by rewrite Hc.
  destruct (decide (6 < length k)%nat) as [Hlt|Hge].
  - rewrite lookup_app_l in H6 by done. rewrite Forall_lookup in Hk. destruct (name_byte_class c (Hk _ _ H6)) as [Hn _]. congruence.
  - assert (Heq : (to_bytes "export" ++ c :: l) !! length k = Some b_equals) by (rewrite <- Hc; by apply list_lookup_middle).
    assert (Hlen : (length k <= 6)%nat) by lia. destruct (length k) as [|[|[|[|[|[|[|n]]]]]]]; cbn in Heq; try discriminate; try lia. injection Heq as ->. done.
Qed.

Lemma parse_name k y : keyPattern k = true -> parseKeyAndSep (k ++ b_equals :: y) = Some (k, length k).
Proof.
  intros Hk. destruct (keyPattern_names k Hk) as [Hne Hn]. unfold parseKeyAndSep. rewrite export_name by done. cbn [from_option id]. rewrite scan_name by done.
  cbn [mbind option_bind]. rewrite take_app_length. assert (Htrim : trim_bytes k = k).
  { apply trim_bytes_id. rewrite <- (to_of_bytes k). apply plain_trimmed. unfold plain. rewrite to_of_bytes, bool_decide_eq_false_2 by done.
    apply forallb_forall. intros c Hc. rewrite Forall_forall in Hn. apply name_byte_class, Hn. by apply list_elem_of_In. }
  rewrite Htrim, decide_False, Nat.sub_diag by done. done.
Qed.

Lemma name_starts k y : keyPattern k = true -> line_start (k ++ b_equals :: y).
Proof. intros Hk. destruct (keyPattern_names k Hk) as [Hne Hn]. destruct k as [|c k]; [done|]. inversion Hn as [|? ? Hc]. split; by apply name_byte_class. Qed.

Lemma FormatEnvEntry_Ok `{Dotenv} key value f : FormatEnvEntry key value = Ok f ->
  f = formatted_entry key value /\ exists m, Unmarshal (of_bytes f) = Ok m /\ m !! of_bytes key = Some (of_bytes value) /\ size m = 1%nat.
Proof.
  unfold FormatEnvEntry. case_bool_decide; [done|]. destruct (Unmarshal (of_bytes (formatted_entry key value))) as [m|] eqn:Hm; [|done].
  case_decide as Hv; [done|]. case_decide as Hs; [done|]. intros [= <-]. split; [done|]. exists m. split; [done|].
  done.
Qed.

Section edits.
Context `{DotenvLaws}.

(** A line that was written reads as its key and value, whatever follows. *)
Lemma formatted_reads key value m : keyPattern key = true -> Unmarshal (of_bytes (formatted_entry key value)) = Ok m ->
  entries (formatted_entry key value ++ [b_nl]) = [(key, formatted_value value)] /\ closed (formatted_entry key value ++ [b_nl]).
Proof.
  intros Hk Hm. unfold formatted_entry in *. pose proof (formatted_value_shape value) as Hshape. cbn zeta in Hshape. set (v := formatted_value value) in *.
  pose proof (name_starts key [] Hk) as Hst. pose proof (parse_name key [] Hk) as Hp. set (pre := take (S (length key)) (key ++ [b_equals]) ++ []).
  assert (Hpre : forall l, key ++ b_equals :: l = pre ++ l).
  { intros l. unfold pre. rewrite app_nil_r, take_ge, <- app_assoc by (rewrite length_app; cbn; lia). done. }
  assert (Hall : forall y, entries (key ++ b_equals :: v ++ b_nl :: y) = [(key, v)] ++ entries y).
  { intros y. rewrite Hpre. destruct Hshape as [[Hnl Hhead]|(q & a & -> & Hq & Hcut)].
    - destruct (pre_line _ key [] _ Hst Hp (Forall_nil_2 _) v Hnl Hhead) as [_ Hy]. apply Hy.
    - destruct Hcut as [Hcut|Hcut]; [destruct (unterminated_refused key q a Hk Hq Hcut); congruence|]. rewrite (app_assoc pre).
      unfold pre. rewrite (pre_quoted _ key [] _ Hst Hp (Forall_nil_2 _) q a a [] Hq Hcut). by rewrite entries_newline. }
  rewrite <- app_assoc. cbn [app]. split; [apply (Hall [])|]. intros x. rewrite <- app_assoc. cbn [app]. rewrite <- (app_assoc v), (Hall []). apply Hall.
Qed.

Lemma parse_reads raw : Forall (fun st => terminated st = true) (parseEnvStatements raw) ->
  chain (parseEnvStatements raw) /\ entries raw = read_all (parseEnvStatements raw).
Proof.
  intros Ht. assert (Hchain : chain (parseEnvStatements raw)) by by apply parse_loop_chain. split; [done|].
  rewrite <- (chain_raws _ Hchain). f_equal. symmetry. by apply parse_loop_lossless.
Qed.

Lemma removal_reads raw key value out : Forall (fun st => terminated st = true) (parseEnvStatements raw) -> MutateEnv raw key value true = Ok out ->
  entries out = filter (fun e => e.1 <> key) (entries raw).
Proof.
  intros Ht Hout. destruct (parse_reads raw Ht) as [Hchain ->]. injection Hout as <-. rewrite chain_render by by apply chain_filter.
  by apply read_filter, chain_keyed.
Qed.

Lemma setting_reads raw key value out : keyPattern key = true -> Forall (fun st => terminated st = true) (parseEnvStatements raw) ->
  MutateEnv raw key value false = Ok out -> entries out = set_entry false key (formatted_value value) (entries raw) /\
  exists m, Unmarshal (of_bytes (key ++ b_equals :: formatted_value value)) = Ok m /\ m !! of_bytes key = Some (of_bytes value).
Proof.
  intros Hk Ht Hout. destruct (parse_reads raw Ht) as [Hchain ->]. unfold MutateEnv in Hout.
  destruct (FormatEnvEntry key value) as [f|] eqn:Hf; [|done]. injection Hout as <-. apply FormatEnvEntry_Ok in Hf as (-> & m & Hm & Hv & _).
  destruct (formatted_reads key value m Hk Hm) as [H1 H2]. split; [by apply mutate_reads|by exists m].
Qed.

(** C11: an edit of the settings file changes one setting.  In a file whose quoted
    values are all closed, cutting into statements loses no byte; removing a key
    removes its entries and no other; setting it leaves one entry for it, where the
    first was or at the end, whose text means the value, and every other entry, in
    order, with the text it had. *)
Theorem edits_are_local raw key value remove out : keyPattern key = true ->
  Forall (fun st => terminated st = true) (parseEnvStatements raw) -> MutateEnv raw key value remove = Ok out ->
  concat (map st_raw (parseEnvStatements raw)) = raw /\
  if remove then entries out = filter (fun e => e.1 <> key) (entries raw)
  else entries out = set_entry false key (formatted_value value) (entries raw) /\
       exists m, Unmarshal (of_bytes (key ++ b_equals :: formatted_value value)) = Ok m /\ m !! of_bytes key = Some (of_bytes value).
Proof.
  intros Hk Ht Hout. split; [by apply parse_loop_lossless|]. destruct remove; [by eapply removal_reads|by apply setting_reads].
Qed.
End edits.

(** * A concrete reader *)

Module demo.

(** Quotes and escapes off. *)
Fixpoint unescape (l : text) : text :=
  match l with
  | [] => []
  | c :: l =>
      if bool_decide (c = b_backslash) then
        match l with
        | [] => [c]
        | d :: l => (if bool_decide (d = "n"%char) then b_nl else if bool_decide (d = "r"%char) then b_cr else d) :: unescape l
        end
      else c :: unescape l
  end.
Definition value_of (v : text) : text :=
  match v with
  | q :: l => if bool_decide (q = b_dquote) then unescape (removelast l) else if bool_decide (q = b_quote) then removelast l else v
  | [] => []
  end.

#[export] Instance reader : Dotenv := {|
  Unmarshal t := if forallb terminated (parseEnvStatements (to_bytes t))
                 then Ok (list_to_map (rev (map (fun e => (of_bytes e.1, of_bytes (value_of e.2))) (entries (to_bytes t)))))
                 else Err "unterminated quoted value" |}.

#[export] Instance reader_laws : DotenvLaws.
Proof.
  split. intros key q v Hk Hq Hcut. exists "unterminated quoted value". cbn [Unmarshal reader]. rewrite to_of_bytes.
  assert (Hbad : forallb terminated (parseEnvStatements (key ++ b_equals :: q :: v)) = false); [|by rewrite Hbad].
  pose proof (name_starts key (q :: v) Hk) as Hst. pose proof (parse_name key (q :: v) Hk) as Hp. set (content := key ++ b_equals :: q :: v) in *.
  assert (Hd : drop (S (length key)) content = q :: v) by (unfold content; rewrite (cons_middle b_equals), app_assoc; apply drop_app_length'; rewrite length_app; cbn; lia).
  unfold parseEnvStatements. destruct content as [|c l] eqn:Ec; [done|]. destruct Hst as [Hc Hh].
  cbn [length parse_loop]. rewrite decide_False by done. unfold parse_one. rewrite skip_space_head by done. rewrite bool_decide_eq_false_2 by done.
  cbn [take_space]. rewrite Hc, Hp, Hd. rewrite skip_space_head by by apply quote_not_blank. unfold cut_value. rewrite Hq, Hcut. cbn [from_option id cut_line skip_space].
  rewrite decide_True by done. cbn [app forallb]. apply andb_false_iff. left. unfold terminated. cbn [st_key st_raw take_space].
  assert (Hraw : (take (S (length key)) (c :: l) ++ []) ++ q :: v ++ [] = c :: l) by (rewrite !app_nil_r, <- Hd; apply take_drop).
  rewrite (quote_not_blank _ Hq), Hraw, Hp, Hd. rewrite skip_space_head by by apply quote_not_blank. by rewrite Hq, Hcut.
Qed.

Definition lines (l : list string) : text := concat (map (fun s => to_bytes s ++ [b_nl]) l).
Definition file : text := lines ["# settings"; "BOT_NAME=fox # a name"; "GREETING='hi there' # polite"; "export BOT_NAME = old"; "LAST=1"].

Definition edited : text := match MutateEnv file (to_bytes "BOT_NAME") (to_bytes " two  words") false with Ok out => out | Err _ => [] end.

Lemma edits_are_local_witness :
  concat (map st_raw (parseEnvStatements file)) = file /\
  (entries edited = set_entry false (to_bytes "BOT_NAME") (formatted_value (to_bytes " two  words")) (entries file) /\
   exists m, Unmarshal (of_bytes (to_bytes "BOT_NAME" ++ b_equals :: formatted_value (to_bytes " two  words"))) = Ok m /\ m !! of_bytes (to_bytes "BOT_NAME") = Some (of_bytes (to_bytes " two  words"))).
Proof.
  apply (edits_are_local file (to_bytes "BOT_NAME") (to_bytes " two  words") false edited); [by vm_compute| |by vm_compute].
  apply Forall_forall. intros st Hst. apply list_elem_of_In in Hst. revert st Hst. apply forallb_forall. by vm_compute.
Defined.

(** The two lines of a name become one; the rest keeps its bytes. *)
Example edited_text : map (fun e => of_bytes e.1) (entries edited) = ["BOT_NAME"; "GREETING"; "LAST"] /\
  is_Some (index_of (to_bytes "GREETING='hi there' # polite") edited).
Proof. split; [by vm_compute|by eexists; vm_compute]. Qed.

(** A value the reader would not read back is refused; in a file with an open
    quote, which no reader accepts, an appended line belongs to the open value. *)
Example refused : MutateEnv file (to_bytes "DIR") (to_bytes "$ \") false = Err "value cannot be safely represented in .env: unterminated quoted value".
Proof. by vm_compute. Qed.
Example swallowed : exists out, MutateEnv (to_bytes "A='x") (to_bytes "B") (to_bytes "1") false = Ok out /\ map fst (entries out) = [to_bytes "A"].
Proof. by eexists. Qed.

End demo.
