(* ===== verification/Settings.v ===== *)
(** Settings of an instance and of the process: [internal/instanceconfig], in
    [config.go] and [batch.go].

    A store is a cache of settings that live in a table of a database, or in a
    file ([EnvFile]).  Its mutex makes an operation one step; [ApplyDatabaseChanges]
    locks every store it touches, and a transaction of the database holds the
    changes together. *)

From S2P Require Import Prelude GoStrings SummaryStore EnvFile.

Local Open Scope string_scope.
Local Open Scope list_scope.
Local Open Scope frost_scope.

(** * Which settings belong where *)

Definition GlobalKeys : list string := [
  "LISTEN_ADDR"; "WS_LISTEN_ADDR"; "WS_ALLOWED_ORIGINS"; "HTTP_ALLOWED_ORIGINS"; "ALCYONE_BASE_URL"; "ALCYONE_SERVICE_TOKEN"; "ALCYONE_TIMEOUT";
  "SANDBOX_ENABLED"; "SANDBOX_BASE_URL"; "SANDBOX_AUTH_TOKEN"; "SANDBOX_SESSION_NAMESPACE"; "MCP_CONTROL_TOKEN"; "ADMIN_TOKEN";
  "ALLOW_REMOTE_MCP_MANAGEMENT"; "MCP_ENFORCE_LOCAL_TOKEN"; "DEFAULT_DIALOGUE_TEMPLATE"; "SECURITY_CONTROL_MODE"].
Definition InstanceRestartKeys : list string := [
  "ONEBOT_WS_ENABLED"; "ASTRBOT_WS_ENABLED"; "ONEBOT_WS_MODE"; "ONEBOT_WS_URL"; "ONEBOT_WS_TOKEN"; "ASTRBOT_WS_MODE"; "ASTRBOT_WS_URL"; "ASTRBOT_WS_TOKEN";
  "ONEBOT_WS_INBOUND_TOKEN"; "ASTRBOT_WS_INBOUND_TOKEN"; "MEMORY_REFLECTION_TIMEOUT"; "GROUP_COMPACT_BUFFER_SIZE"; "GROUP_COMPACT_MAX_BUFFER_SIZE";
  "GROUP_COMPACT_MIN_INTERVAL"; "BILLING_ENABLED"; "BILLING_MAX_OUTPUT_TOKENS"; "BILLING_SAFETY_MULTIPLIER"; "BILLING_PROMPT_PRICE_PER_MILLION";
  "BILLING_COMPLETION_PRICE_PER_MILLION"; "SECURITY_GATEWAY_TIMEOUT"; "SECURITY_CLASSIFIER_TIMEOUT"; "AGENT_MAX_ITERATIONS"].
Definition ControlPlaneRestartKeys : list string := [
  "LISTEN_ADDR"; "WS_LISTEN_ADDR"; "HTTP_ALLOWED_ORIGINS"; "ALCYONE_BASE_URL"; "ALCYONE_SERVICE_TOKEN"; "ALCYONE_TIMEOUT"; "SANDBOX_BASE_URL";
  "SANDBOX_AUTH_TOKEN"; "SANDBOX_SESSION_NAMESPACE"; "MCP_CONTROL_TOKEN"; "ADMIN_TOKEN"; "ALLOW_REMOTE_MCP_MANAGEMENT"; "MCP_ENFORCE_LOCAL_TOKEN";
  "SECURITY_GATEWAY_TIMEOUT"; "SECURITY_CLASSIFIER_TIMEOUT"].
Definition SharedKeys : list string := ["SECURITY_GATEWAY_TIMEOUT"; "SECURITY_CLASSIFIER_TIMEOUT"].

Definition allowed (k : string) (global : bool) : bool :=
  if negb (keyPattern (to_bytes k)) then false
  else if contains k SharedKeys then true
  else if global then contains k GlobalKeys
  else negb (contains k GlobalKeys) && negb (contains k ["BRAIN_PATH"; "DIALOGUE_PATH"; "ONEBOT_WS_PATH"; "ASTRBOT_WS_PATH"]).

Definition bot_loop_keys : list string := ["BOT_LOOP_USER_IDS"; "BOT_LOOP_MAX_TURNS"; "BOT_LOOP_MODE"].
Definition botLoopSetting (key : string) : bool := contains key bot_loop_keys.

(** * Stores *)

(** [st_file]: the path is not empty; [st_db]: the database is not nil. *)
Record Store := {
  st_values : gmap string string;
  st_overrides : gmap string string;
  st_global : bool;
  st_raw : string;
  st_loadErr : option error;
  st_accessErr : option error;
  st_db : bool;
  st_dbScope : string;
  st_dbID : string;
  st_botLoopRevision : Z;
}.

Definition with_values (values : gmap string string) (revision : Z) (s : Store) : Store := {|
  st_values := values; st_overrides := st_overrides s; st_global := st_global s; st_raw := st_raw s; st_loadErr := st_loadErr s;
  st_accessErr := st_accessErr s; st_db := st_db s; st_dbScope := st_dbScope s; st_dbID := st_dbID s; st_botLoopRevision := revision |}.
Definition with_file (values : gmap string string) (raw : string) (loadErr : option error) (revision : Z) (s : Store) : Store := {|
  st_values := values; st_overrides := st_overrides s; st_global := st_global s; st_raw := raw; st_loadErr := loadErr;
  st_accessErr := st_accessErr s; st_db := st_db s; st_dbScope := st_dbScope s; st_dbID := st_dbID s; st_botLoopRevision := revision |}.

Definition Get (s : Store) (k : string) : string :=
  match st_overrides s !! k with Some value => value | None => default "" (st_values s !! k) end.
Definition HasOverride (s : option Store) (k : string) : bool :=
  match s with None => false | Some s => bool_decide (is_Some (st_overrides s !! k)) end.
Definition Snapshot (s : Store) : gmap string string := st_overrides s ∪ st_values s.
Definition Raw (s : Store) : string * option error :=
  if st_db s then ("", Some "raw .env settings are unavailable with SQL storage") else (st_raw s, st_accessErr s).
Definition BotLoopRevision (s : option Store) : Z := match s with None => 0%Z | Some s => st_botLoopRevision s end.
Definition IsDatabase (s : option Store) : bool := match s with None => false | Some s => st_db s end.

Definition bumped (k : string) (revision : Z) : Z := if botLoopSetting k then u64_succ revision else revision.
Definition has_nul (v : string) : bool := bool_decide (byte_of 0 ∈ to_bytes v).

(** * The table of settings

    The database is not part of the repository: a type of its states, and what the
    statements of this package make of one.  [begin_tx] is the view of a new
    transaction; an error leaves the database as it is. *)

Abbreviation row := (string * string * string)%type (only parsing).
Abbreviation heap := (gmap nat Store) (only parsing).
Class Database := {
  Db : Type;
  select_settings : Db -> string -> string -> res error (list (string * string));
  delete_setting : Db -> row -> res error Db;
  upsert_setting : Db -> row -> string -> res error Db;
  insert_setting : Db -> row -> string -> res error Db;
  insert_missing : Db -> row -> string -> res error Db;
  begin_tx : Db -> res error Db;
  commit_tx : Db -> Db -> res error Db;
}.

(** What SQL says of them. *)
Class DatabaseLaws `{Database} := {
  table : Db -> gmap row string;
  select_rows db scope id l : select_settings db scope id = Ok l ->
    NoDup l.*1 /\ forall k v, (k, v) ∈ l <-> table db !! (scope, id, k) = Some v;
  delete_row db r db' : delete_setting db r = Ok db' -> table db' = delete r (table db);
  upsert_row db r v db' : upsert_setting db r v = Ok db' -> table db' = <[r := v]> (table db);
  insert_row db r v db' : insert_setting db r v = Ok db' -> table db !! r = None /\ table db' = <[r := v]> (table db);
  missing_row db r v db' : insert_missing db r v = Ok db' -> table db' = table db ∪ {[r := v]};
  begin_view db tx : begin_tx db = Ok tx -> table tx = table db;
  commit_all db tx db' : commit_tx db tx = Ok db' -> table db' = table tx;
}.

Section database.
Context `{Database} `{MapOrder}.

Fixpoint scan_rows (global : bool) (rows : list (string * string)) (values : gmap string string) : res error (gmap string string) :=
  match rows with
  | [] => Ok values
  | (key, value) :: rows =>
      if negb (allowed key global) then Err ("invalid database setting " +:+ key)
      else scan_rows global rows (<[key := value]> values)
  end.

Definition OpenDatabase (db : Db) (instanceID : string) (global : bool) : res error Store :=
  let scope := if global then "global" else "instance" in
  let instanceID := if global then "" else instanceID in
  let! rows := select_settings db scope instanceID in
  let! values := scan_rows global rows ∅ in
  Ok {| st_values := values; st_overrides := ∅; st_global := global; st_raw := ""; st_loadErr := None; st_accessErr := None;
        st_db := true; st_dbScope := scope; st_dbID := instanceID; st_botLoopRevision := 0 |}.

Fixpoint insert_defaults (tx : Db) (instanceID : string) (defaults : list (string * string)) : res error Db :=
  match defaults with
  | [] => Ok tx
  | (key, value) :: defaults =>
      if negb (allowed key false) then insert_defaults tx instanceID defaults else
      let! tx := insert_missing tx ("instance", instanceID, key) value in insert_defaults tx instanceID defaults
  end.

(** [template] is [Template]; [n] the order in which its settings are visited. *)
Definition InitializeInstanceSettings `{Dotenv} (n : nat) (template : string) (db : Db) (instanceID : string) : option error * Db :=
  match Unmarshal template with
  | Err err => (Some err, db)
  | Ok defaults =>
      match begin_tx db with
      | Err err => (Some err, db)
      | Ok tx =>
          match insert_defaults tx instanceID (range n defaults) with
          | Err err => (Some err, db)
          | Ok tx => match commit_tx db tx with Err err => (Some err, db) | Ok db => (None, db) end
          end
      end
  end.

(** [Update] of a store in a database. *)
Definition update_database (db : Db) (k v : string) (remove : bool) (s : Store) : option error * Store * Db :=
  if negb (allowed k (st_global s)) then (Some ("字段 " +:+ k +:+ " 不属于此配置"), s, db) else
  if has_nul v then (Some ("setting " +:+ k +:+ " contains NUL"), s, db) else
  let r := (st_dbScope s, st_dbID s, k) in
  match (if remove then delete_setting db r else upsert_setting db r v) with
  | Err err => (Some err, s, db)
  | Ok db =>
      let values := if remove then delete k (st_values s) else <[k := v]> (st_values s) in
      (None, with_values values (bumped k (st_botLoopRevision s)) s, db)
  end.

Fixpoint first_disallowed (global : bool) (keys : list string) : option string :=
  match keys with [] => None | key :: keys => if allowed key global then first_disallowed global keys else Some key end.
Fixpoint first_invalid (keys : gmap string bool) (values : list (string * string)) : option string :=
  match values with
  | [] => None
  | (key, value) :: values => if negb (default false (keys !! key)) || has_nul value then Some key else first_invalid keys values
  end.

Fixpoint replace_rows (tx : Db) (s : Store) (values : gmap string string) (keys : list string) : res error Db :=
  match keys with
  | [] => Ok tx
  | key :: keys =>
      let r := (st_dbScope s, st_dbID s, key) in
      let! tx := delete_setting tx r in
      match values !! key with
      | Some value => let! tx := insert_setting tx r value in replace_rows tx s values keys
      | None => replace_rows tx s values keys
      end
  end.

(** [n] numbers the four loops over maps. *)
Definition ReplaceDatabaseSubset (n : nat) (db : Db) (keys : gmap string bool) (values : gmap string string) (s : Store) : option error * Store * Db :=
  if negb (st_db s) then (Some "SQL settings are unavailable", s, db) else
  match first_disallowed (st_global s) (range n keys).*1 with
  | Some key => (Some ("字段 " +:+ key +:+ " 不属于此配置"), s, db)
  | None =>
      match first_invalid keys (range (n + 1) values) with
      | Some key => (Some ("invalid imported setting " +:+ key), s, db)
      | None =>
          match begin_tx db with
          | Err err => (Some err, s, db)
          | Ok tx =>
              match replace_rows tx s values (range (n + 2) keys).*1 with
              | Err err => (Some err, s, db)
              | Ok tx =>
                  match commit_tx db tx with
                  | Err err => (Some err, s, db)
                  | Ok db =>
                      let kept := foldl (fun m key => delete key m) (st_values s) (range (n + 3) keys).*1 in
                      let cache := foldl (fun m kv => <[kv.1 := kv.2]> m) kept (range (n + 4) values) in
                      let revision := if existsb botLoopSetting (range (n + 5) keys).*1 then u64_succ (st_botLoopRevision s) else st_botLoopRevision s in
                      (None, with_values cache revision s, db)
                  end
              end
          end
      end
  end.

(** ** A batch over several stores, which are named by their addresses *)

Record DatabaseChange := { dc_Store : option nat; dc_Key : string; dc_Value : string; dc_Clear : bool }.

Definition scope_of (s : Store) : string := st_dbScope s +:+ of_bytes [byte_of 0] +:+ st_dbID s.

(** Validation: the stores by scope, and the settings seen. *)
Fixpoint check_changes (h : heap) (stores : gmap string nat) (seen : gset string) (changes : list DatabaseChange) : res error (gmap string nat) :=
  match changes with
  | [] => Ok stores
  | change :: changes =>
      let invalid := Err ("invalid scoped setting change " +:+ dc_Key change) in
      match dc_Store change ≫= (fun a => (fun s => (a, s)) <$> h !! a) with
      | None => invalid
      | Some (a, s) =>
          if negb (st_db s) || negb (allowed (dc_Key change) (st_global s)) || has_nul (dc_Value change) then invalid else
          let scope := scope_of s in
          if match stores !! scope with Some previous => bool_decide (previous <> a) | None => false end
          then Err ("duplicate settings store for scope " +:+ st_dbScope s) else
          let identity := scope +:+ of_bytes [byte_of 0] +:+ dc_Key change in
          if decide (identity ∈ seen) then Err ("duplicate setting " +:+ dc_Key change)
          else check_changes h (<[scope := a]> stores) ({[identity]} ∪ seen) changes
      end
  end.

(** The order in which the stores are locked: [sort.Strings] of the scopes. *)
Definition scope_le (s t : string) : Prop := string_less t s = false.
#[export] Instance scope_le_dec s t : Decision (scope_le s t).
Proof. unfold scope_le. apply _. Defined.
Definition lock_order (n : nat) (stores : gmap string nat) : list string := merge_sort scope_le (range n stores).*1.

Fixpoint exec_changes (h : heap) (tx : Db) (changes : list DatabaseChange) : res error Db :=
  match changes with
  | [] => Ok tx
  | change :: changes =>
      match dc_Store change ≫= (fun a => h !! a) with
      | None => Ok tx
      | Some s =>
          let r := (st_dbScope s, st_dbID s, dc_Key change) in
          let! tx := (if dc_Clear change then delete_setting tx r else upsert_setting tx r (dc_Value change)) in
          exec_changes h tx changes
      end
  end.

Definition cache_change (change : DatabaseChange) (h : heap) : heap :=
  match dc_Store change with
  | None => h
  | Some a =>
      alter (fun s => with_values
        (if dc_Clear change then delete (dc_Key change) (st_values s) else <[dc_Key change := dc_Value change]> (st_values s))
        (bumped (dc_Key change) (st_botLoopRevision s)) s) a h
  end.

Definition ApplyDatabaseChanges (db : Db) (changes : list DatabaseChange) (h : heap) : option error * heap * Db :=
  match changes with
  | [] => (None, h, db)
  | first :: _ =>
      if negb (default false (st_db <$> (dc_Store first ≫= (fun a => h !! a)))) then (Some "SQL settings are unavailable", h, db) else
      match check_changes h ∅ ∅ changes with
      | Err err => (Some err, h, db)
      | Ok _ =>
          match begin_tx db with
          | Err err => (Some err, h, db)
          | Ok tx =>
              match exec_changes h tx changes with
              | Err err => (Some err, h, db)
              | Ok tx =>
                  match commit_tx db tx with
                  | Err err => (Some err, h, db)
                  | Ok db => (None, foldl (fun h change => cache_change change h) h changes, db)
                  end
              end
          end
      end
  end.
End database.

(** * Settings in a file

    The file of a store is its content, if there is one. *)

(** What may go wrong while a file is written; none of it leaves the target
    changed, since the new content is renamed over it last. *)
Record write_faults := {
  wf_MkdirAll : option error; wf_CreateTemp : option error; wf_Chmod : option error; wf_Write : option error;
  wf_Sync : option error; wf_Close : option error; wf_Rename : option error; wf_syncDirectory : option error }.
Definition no_write_faults : write_faults := Build_write_faults None None None None None None None None.

Fixpoint first_error (l : list (option error)) : option error :=
  match l with [] => None | Some err :: _ => Some err | None :: l => first_error l end.

Definition WriteAtomic (env : write_faults) (data : string) (file : option string) : option error * option string :=
  match first_error [wf_MkdirAll env; wf_CreateTemp env; wf_Chmod env; wf_Write env; wf_Sync env; wf_Close env; wf_Rename env] with
  | Some err => (Some err, file)
  | None => (None, Some data)
  end.
Definition WriteAtomicDurable (env : write_faults) (data : string) (file : option string) : bool * option error * option string :=
  match WriteAtomic env data file with
  | (Some err, file) => (false, Some err, file)
  | (None, file) => (true, wf_syncDirectory env, file)
  end.

(** What may go wrong while it is read. *)
Record open_faults := { of_Stat : option error; of_regular : bool; of_Chmod : option error; of_ReadFile : option error }.
Definition no_open_faults : open_faults := {| of_Stat := None; of_regular := true; of_Chmod := None; of_ReadFile := None |}.

Definition only_allowed (global : bool) (m : gmap string string) : gmap string string := filter (fun kv => allowed kv.1 global = true) m.

Definition env_overrides (environ : string -> option string) (global : bool) : gmap string string :=
  if global then list_to_map (omap (fun key => (fun v => (key, v)) <$> environ key) GlobalKeys) else ∅.

Section file.
Context `{Dotenv}.

Definition Open (env : open_faults) (environ : string -> option string) (global : bool) (file : option string) : Store * option error :=
  let s values raw loadErr accessErr := {|
    st_values := values; st_overrides := env_overrides environ global; st_global := global; st_raw := raw; st_loadErr := loadErr;
    st_accessErr := accessErr; st_db := false; st_dbScope := ""; st_dbID := ""; st_botLoopRevision := 0 |} in
  let failed err := (s ∅ "" (Some err) (Some err), Some err) in
  let err := match of_Stat env, file with
             | Some err, _ => Some err
             | None, None => None
             | None, Some _ => if of_regular env then of_Chmod env else Some "配置路径不是普通文件"
             end in
  match err with
  | Some err => failed err
  | None =>
      match (match file with None => Ok "" | Some content => match of_ReadFile env with Some err => Err err | None => Ok content end end) with
      | Err err => failed err
      | Ok raw =>
          match Unmarshal raw with
          | Err err => (s ∅ raw (Some err) None, Some err)
          | Ok values => (s (only_allowed global values) raw None None, None)
          end
      end
  end.

Definition has_line_break (v : string) : bool := bool_decide (b_cr ∈ to_bytes v) || bool_decide (b_nl ∈ to_bytes v).

(** [Update] of a store in a file. *)
Definition update_file (env : write_faults) (k v : string) (remove : bool) (s : Store) (file : option string) : option error * Store * option string :=
  if negb (allowed k (st_global s)) then (Some ("字段 " +:+ k +:+ " 不属于此配置"), s, file) else
  match st_loadErr s with
  | Some err => (Some ("配置文件不可解析，请通过原始 .env 编辑修复: " +:+ err), s, file)
  | None =>
      if has_nul v || negb (bool_decide (k = "SYSTEM_PROMPT")) && has_line_break v then (Some ("字段 " +:+ k +:+ " 不允许 NUL 或换行"), s, file) else
      match MutateEnv (to_bytes (st_raw s)) (to_bytes k) (to_bytes v) remove with
      | Err err => (Some err, s, file)
      | Ok out =>
          let raw := of_bytes out in
          match Unmarshal raw with
          | Err err => (Some err, s, file)
          | Ok next =>
              if (if remove then bool_decide (is_Some (next !! k)) else bool_decide (next !! k <> Some v))
              then (Some ("字段 " +:+ k +:+ " 无法安全写入配置"), s, file) else
              match WriteAtomic env raw file with
              | (Some err, file) => (Some err, s, file)
              | (None, file) =>
                  (None, with_file (only_allowed (st_global s) next) raw (st_loadErr s) (bumped k (st_botLoopRevision s)) s, file)
              end
          end
      end
  end.

(** [n] is the order in which the new settings are checked. *)
Definition Replace `{MapOrder} (n : nat) (env : write_faults) (raw : string) (s : Store) (file : option string) : option error * Store * option string :=
  if st_db s then (Some "raw .env replacement is unavailable with SQL storage", s, file) else
  match Unmarshal raw with
  | Err err => (Some err, s, file)
  | Ok next =>
      match first_disallowed (st_global s) (range n next).*1 with
      | Some k => (Some ("字段 " +:+ k +:+ " 不属于此配置"), s, file)
      | None =>
          match st_accessErr s with
          | Some err => (Some err, s, file)
          | None =>
              match WriteAtomic env raw file with
              | (Some err, file) => (Some err, s, file)
              | (None, file) =>
                  let changed := existsb (fun key => bool_decide (default "" (st_values s !! key) <> default "" (next !! key))) bot_loop_keys in
                  (None, with_file next raw None (if changed then u64_succ (st_botLoopRevision s) else st_botLoopRevision s) s, file)
              end
          end
      end
  end.
End file.

(** [Update] decides by what the store is kept in. *)
Definition Update `{Database} `{Dotenv} (env : write_faults) (k v : string) (remove : bool) (s : Store) (db : Db) (file : option string)
    : option error * Store * Db * option string :=
  if st_db s then let '(err, s, db) := update_database db k v remove s in (err, s, db, file)
  else let '(err, s, file) := update_file env k v remove s file in (err, s, db, file).

(** * The cache and the table *)

(** The rows of a scope of settings. *)
Definition in_scope (s : Store) (k : string) : row := (st_dbScope s, st_dbID s, k).
Definition same_place (s t : Store) : Prop :=
  st_global s = st_global t /\ st_db s = st_db t /\ st_dbScope s = st_dbScope t /\ st_dbID s = st_dbID t /\
  st_overrides s = st_overrides t.

Lemma in_scope_place s t k : same_place s t -> in_scope s k = in_scope t k.
Proof. intros (_ & _ & H1 & H2 & _). unfold in_scope. by rewrite H1, H2. Qed.

Section coherence.
Context `{DatabaseLaws} `{MapOrder}.

(** A store of the database holds its rows, and none that is not allowed; nothing
    overrides it. *)
Definition coherent (db : Db) (s : Store) : Prop :=
  st_overrides s = ∅ /\
  forall k, st_values s !! k = table db !! in_scope s k /\ (is_Some (st_values s !! k) -> allowed k (st_global s) = true).

Lemma scan_rows_Ok global rows values m : NoDup rows.*1 -> scan_rows global rows values = Ok m ->
  forall k, (forall v, (k, v) ∈ rows -> m !! k = Some v /\ allowed k global = true) /\ (k ∉ rows.*1 -> m !! k = values !! k).
Proof.
  revert values. induction rows as [|[key value] rows IH]; intros values Hnd; cbn [scan_rows].
  - intros [= <-] k. split; [by intros v ?%elem_of_nil|done].
  - cbn in Hnd. apply NoDup_cons in Hnd as [Hkey Hnd]. destruct (allowed key global) eqn:Ha; cbn [negb]; [|done]. intros Hm k.
    destruct (IH _ Hnd Hm k) as [IH1 IH2]. split.
    + intros v [[= -> ->]|Hin]%elem_of_cons; [|by apply IH1]. rewrite IH2 by done. by rewrite lookup_insert_eq.
    + cbn. intros [Hne Hk]%not_elem_of_cons. rewrite IH2 by done. by rewrite lookup_insert_ne.
Qed.

Lemma open_coherent db id global s : OpenDatabase db id global = Ok s -> coherent db s.
Proof.
  unfold OpenDatabase. set (scope := if global then "global" else "instance"). set (i := if global then "" else id).
  destruct (select_settings db scope i) as [rows|] eqn:Hrows; [|done]. destruct (scan_rows global rows ∅) as [m|] eqn:Hm; [|done]. intros [= <-]. split; [done|]. intros k.
  destruct (select_rows _ _ _ _ Hrows) as [Hnd Hiff]. destruct (scan_rows_Ok _ _ _ _ Hnd Hm k) as [Hin Hout]. cbn [st_values st_global in_scope st_dbScope st_dbID].
  assert (Hcases : (exists v, (k, v) ∈ rows) \/ k ∉ rows.*1).
  { destruct (decide (k ∈ rows.*1)) as [Hk|]; [left|by right]. apply list_elem_of_fmap in Hk as ([k' v] & -> & Hk). by exists v. }
  destruct Hcases as [[v Hv]|Hno].
  - destruct (Hin v Hv) as [-> Ha]. split; [|done]. symmetry. by apply Hiff.
  - rewrite Hout by done. split; [|intros [? [=]]]. symmetry. apply eq_None_not_Some. intros [v Hv]. apply Hno.
    apply list_elem_of_fmap. exists (k, v). split; [done|]. by apply Hiff.
Qed.

(** A change of the rows of one store's scope, as the cache sees it. *)
Definition patched (p : string -> option (option string)) (m m' : gmap string string) : Prop :=
  forall k, m' !! k = match p k with Some o => o | None => m !! k end.
Definition patched_rows (p : string -> option (option string)) (s : Store) (db db' : Db) : Prop :=
  (forall k, table db' !! in_scope s k = match p k with Some o => o | None => table db !! in_scope s k end) /\
  forall r, (forall k, r <> in_scope s k) -> table db' !! r = table db !! r.

(** One store changed as its rows did. *)
Record moved (s s' : Store) (db db' : Db) : Prop := {
  mv_place : same_place s' s;
  mv_patch : exists p, patched p (st_values s) (st_values s') /\ patched_rows p s db db' /\
                       forall k v, p k = Some (Some v) -> allowed k (st_global s) = true;
}.

Lemma moved_refl s db : moved s s db db.
Proof. split; [done|]. by exists (fun _ => None). Qed.

Lemma moved_coherent s s' db db' : moved s s' db db' -> coherent db s -> coherent db' s'.
Proof.
  intros [Hp (p & Hv & [Hr _] & Ha)] [Ho Hc]. split; [destruct Hp as (_ & _ & _ & _ & E); congruence|]. intros k. rewrite (in_scope_place s' s) by done. rewrite Hv, Hr. destruct (Hc k) as [Hk Hal].
  destruct Hp as (-> & _). destruct (p k) as [[v|]|] eqn:Hpk; [split; [done|]|split; [done|]|done]; [|by intros [? [=]]].
  intros _. by apply (Ha k v).
Qed.

Lemma moved_elsewhere s s' t db db' : moved s s' db db' -> (st_dbScope t, st_dbID t) <> (st_dbScope s, st_dbID s) -> coherent db t -> coherent db' t.
Proof.
  intros [_ (p & _ & [_ Hr] & _)] Hne [Ho Hc]. split; [done|]. intros k. destruct (Hc k) as [Hk Ha]. split; [|done]. rewrite Hk. symmetry. apply Hr.
  intros k'. unfold in_scope. intros [= E1 E2 _]. apply Hne. congruence.
Qed.

Lemma update_database_moves db k v remove s err s' db' : update_database db k v remove s = (err, s', db') -> moved s s' db db'.
Proof.
  unfold update_database. destruct (allowed k (st_global s)) eqn:Ha; cbn [negb]; [|by intros [= <- <- <-]; apply moved_refl].
  destruct (has_nul v); [by intros [= <- <- <-]; apply moved_refl|]. set (r := (st_dbScope s, st_dbID s, k)).
  destruct (if remove then _ else _) as [tx|e] eqn:Hx; [|by intros [= <- <- <-]; apply moved_refl]. intros [= <- <- <-]. split; [done|].
  exists (fun j => if decide (j = k) then Some (if remove then None else Some v) else None). split; [|split; [split|]].
  - intros j. cbn [with_values st_values]. destruct remove, (decide (j = k)) as [->|Hne];
      rewrite ?lookup_delete_eq, ?lookup_insert_eq, ?lookup_delete_ne, ?lookup_insert_ne by done; done.
  - intros j. assert (Hj : in_scope s j = r <-> j = k) by (unfold in_scope, r; split; congruence).
    destruct remove; [apply delete_row in Hx|apply upsert_row in Hx]; rewrite Hx; destruct (decide (j = k)) as [->|Hne];
      rewrite ?lookup_delete_eq, ?lookup_insert_eq, ?lookup_delete_ne, ?lookup_insert_ne by (intros E; symmetry in E; by apply Hj in E); done.
  - intros r' Hr'. specialize (Hr' k). destruct remove; [apply delete_row in Hx|apply upsert_row in Hx]; rewrite Hx;
      by rewrite ?lookup_delete_ne, ?lookup_insert_ne by (intros E; by apply Hr').
  - intros j w Hj. by case_decide as E; [subst|].
Qed.

(** ** Replacing a subset *)

Lemma replace_rows_Ok tx s values keys tx' : replace_rows tx s values keys = Ok tx' ->
  patched_rows (fun k => if decide (k ∈ keys) then Some (values !! k) else None) s tx tx'.
Proof.
  revert tx. induction keys as [|key keys IH]; intros tx; cbn [replace_rows].
  { intros [= <-]. split; [|done]. intros k. by rewrite decide_False by apply not_elem_of_nil. }
  fold (in_scope s key). destruct (delete_setting tx (in_scope s key)) as [tx1|] eqn:Hd; [|done]. apply delete_row in Hd. intros Hrest.
  assert (exists tx2, replace_rows tx2 s values keys = Ok tx' /\ (forall r, table tx2 !! r = if decide (r = in_scope s key) then values !! key else table tx !! r))
    as (tx2 & Hrest' & Htx2).
  { destruct (values !! key) as [v|] eqn:Hv.
    - destruct (insert_setting tx1 (in_scope s key) v) as [tx2|] eqn:Hi; [|done]. apply insert_row in Hi as [_ Hi]. exists tx2. split; [done|].
      intros r. rewrite Hi, Hd. case_decide as E; [rewrite E; apply lookup_insert_eq|]. by rewrite lookup_insert_ne, lookup_delete_ne by done.
    - exists tx1. split; [done|]. intros r. rewrite Hd. case_decide as E; [rewrite E; apply lookup_delete_eq|]. by rewrite lookup_delete_ne by done. }
  destruct (IH _ Hrest') as [Hl Hr2]. split.
  - intros k. rewrite Hl, Htx2. destruct (decide (k ∈ keys)) as [Hk|Hk]; [by rewrite decide_True by by right|].
    destruct (decide (k = key)) as [->|Hne]; [by rewrite (decide_True (P := in_scope s key = in_scope s key)), decide_True by first [by left|done]|].
    rewrite (decide_False (P := in_scope s k = in_scope s key)) by (unfold in_scope; congruence). by rewrite decide_False by by apply not_elem_of_cons.
  - intros r Hr. rewrite Hr2, Htx2 by done. by rewrite decide_False by apply Hr.
Qed.

Lemma foldl_delete (keys : list string) (m : gmap string string) k :
  foldl (fun m key => delete key m) m keys !! k = if decide (k ∈ keys) then None else m !! k.
Proof.
  revert m. induction keys as [|key keys IH]; intros m; cbn [foldl]; [by rewrite decide_False by apply not_elem_of_nil|]. rewrite IH.
  destruct (decide (k ∈ keys)) as [Hk|Hk]; [by rewrite decide_True by by right|]. destruct (decide (k = key)) as [->|Hne].
  - by rewrite lookup_delete_eq, decide_True by by left.
  - by rewrite lookup_delete_ne, decide_False by (done || by apply not_elem_of_cons).
Qed.

Lemma foldl_insert (l : list (string * string)) (m : gmap string string) k : NoDup l.*1 ->
  (forall v, (k, v) ∈ l -> foldl (fun m kv => <[kv.1 := kv.2]> m) m l !! k = Some v) /\
  (k ∉ l.*1 -> foldl (fun m kv => <[kv.1 := kv.2]> m) m l !! k = m !! k).
Proof.
  revert m. induction l as [|[key value] l IH]; intros m Hnd; cbn [foldl fst snd]; [split; [by intros v ?%elem_of_nil|done]|].
  cbn in Hnd. apply NoDup_cons in Hnd as [Hkey Hnd]. destruct (IH (<[key := value]> m) Hnd) as [IH1 IH2]. split.
  - intros v [[= -> ->]|Hin]%elem_of_cons; [|by apply IH1]. rewrite IH2 by done. by rewrite lookup_insert_eq.
  - cbn. intros [Hne Hk]%not_elem_of_cons. rewrite IH2 by done. by rewrite lookup_insert_ne.
Qed.

(** A map inserted, in any order. *)
Lemma foldl_range n (values m : gmap string string) k :
  foldl (fun m kv => <[kv.1 := kv.2]> m) m (range n values) !! k = match values !! k with Some v => Some v | None => m !! k end.
Proof.
  assert (Hnd : NoDup (range n values).*1) by (rewrite range_perm; apply NoDup_fst_map_to_list).
  destruct (foldl_insert (range n values) m k Hnd) as [Hl Hr2]. destruct (values !! k) as [v|] eqn:Hv.
  - apply Hl. rewrite range_perm. by apply elem_of_map_to_list.
  - apply Hr2. intros ([k' v] & -> & Hin)%list_elem_of_fmap. rewrite range_perm in Hin. apply elem_of_map_to_list in Hin. cbn in Hv. congruence.
Qed.

Lemma elem_of_range_keys {A} n (m : gmap string A) k : k ∈ (range n m).*1 <-> is_Some (m !! k).
Proof.
  rewrite range_perm. split.
  - intros ([k' v] & -> & Hin)%list_elem_of_fmap. apply elem_of_map_to_list in Hin. by exists v.
  - intros [v Hv]. apply list_elem_of_fmap. exists (k, v). split; [done|]. by apply elem_of_map_to_list.
Qed.

Lemma first_disallowed_None global keys : first_disallowed global keys = None -> forall k, k ∈ keys -> allowed k global = true.
Proof.
  induction keys as [|key keys IH]; cbn; [by intros _ k ?%elem_of_nil|]. destruct (allowed key global) eqn:Ha; [|done].
  intros Hn k [->|Hk]%elem_of_cons; [done|by apply IH].
Qed.

Lemma first_invalid_None keys values : first_invalid keys values = None -> forall k v, (k, v) ∈ values -> is_Some (keys !! k).
Proof.
  induction values as [|[key value] values IH]; cbn; [by intros _ k v ?%elem_of_nil|]. destruct (negb _ || _) eqn:Hb; [done|].
  apply orb_false_elim in Hb as [Hb _]. apply negb_false_iff in Hb. intros Hn k v [[= -> ->]|Hin]%elem_of_cons; [|by eapply IH].
  destruct (keys !! key); [by eexists|done].
Qed.

Lemma replace_subset_moves n db keys values s err s' db' : ReplaceDatabaseSubset n db keys values s = (err, s', db') -> moved s s' db db'.
Proof.
  assert (Hsame : forall e : error, (Some e, s, db) = (err, s', db') -> moved s s' db db') by (intros e [= _ <- <-]; apply moved_refl).
  unfold ReplaceDatabaseSubset. destruct (negb (st_db s)); [apply Hsame|]. destruct (first_disallowed _ _) as [?|] eqn:Hallowed; [apply Hsame|].
  destruct (first_invalid _ _) as [?|] eqn:Hvalid; [apply Hsame|]. destruct (begin_tx db) as [tx|] eqn:Hb; [|apply Hsame].
  destruct (replace_rows tx s values _) as [tx'|] eqn:Hr; [|apply Hsame]. destruct (commit_tx db tx') as [db1|] eqn:Hc; [|apply Hsame].
  intros [= _ <- <-]. split; [done|]. exists (fun k => if decide (is_Some (keys !! k)) then Some (values !! k) else None).
  assert (Hsub : forall k v, values !! k = Some v -> is_Some (keys !! k)).
  { intros k v Hv. apply (first_invalid_None _ _ Hvalid k v). rewrite range_perm. by apply elem_of_map_to_list. }
  split; [|split].
  - intros k. cbn [with_values st_values]. rewrite foldl_range, foldl_delete. destruct (decide (is_Some (keys !! k))) as [Hk|Hk].
    + rewrite decide_True by by apply elem_of_range_keys. by destruct (values !! k).
    + rewrite decide_False by by rewrite elem_of_range_keys. destruct (values !! k) as [v|] eqn:Hv; [|done]. exfalso. by eapply Hk, Hsub.
  - apply replace_rows_Ok in Hr as [Hl Hr2]. apply begin_view in Hb. apply commit_all in Hc. unfold patched_rows. rewrite <- Hb, Hc. split; [|done].
    intros k. rewrite Hl. destruct (decide (k ∈ _)) as [Hk|Hk]; rewrite elem_of_range_keys in Hk; [by rewrite decide_True|by rewrite decide_False].
  - intros k v. case_decide as Hk; [|done]. intros _. apply (first_disallowed_None _ _ Hallowed). by apply elem_of_range_keys.
Qed.

(** ** Many stores *)

Definition place (s : Store) := (st_global s, st_db s, (st_dbScope s, st_dbID s), st_overrides s).

Lemma same_place_iff s t : same_place s t <-> place s = place t.
Proof. unfold same_place, place. split; [by intros (-> & -> & -> & -> & ->)|by intros [= -> -> -> -> ->]]. Qed.

(** Every store of the database is coherent, and has a scope of its own. *)
Definition all_coherent (db : Db) (h : heap) : Prop := forall a s, h !! a = Some s -> st_db s = true -> coherent db s.
Definition distinct (h : heap) : Prop := forall a b s t, h !! a = Some s -> h !! b = Some t -> st_db s = true -> st_db t = true ->
  (st_dbScope s, st_dbID s) = (st_dbScope t, st_dbID t) -> a = b.

Lemma distinct_insert h a s s' : h !! a = Some s -> place s' = place s -> distinct h -> distinct (<[a := s']> h).
Proof.
  intros Ha Hp Hd b c t u Hb Hc Htd Hud Heq. unfold place in Hp. injection Hp as Eg Ed E3 E4 E5.
  destruct (decide (b = a)) as [->|Hb'], (decide (c = a)) as [->|Hc']; [done| | |]; rewrite ?lookup_insert_eq in *; rewrite ?lookup_insert_ne in * by done; simplify_eq.
  - apply (Hd a c s u); congruence.
  - apply (Hd b a t s); congruence.
  - apply (Hd b c t u); congruence.
Qed.

Lemma moved_heap h a s s' db db' : h !! a = Some s -> st_db s = true -> moved s s' db db' -> distinct h -> all_coherent db h ->
  distinct (<[a := s']> h) /\ all_coherent db' (<[a := s']> h).
Proof.
  intros Ha Hdb Hm Hd Hc. pose proof (mv_place _ _ _ _ Hm) as Hp. split; [apply (distinct_insert _ _ s); [done|by apply same_place_iff|done]|].
  intros b t Hb Ht. destruct (decide (b = a)) as [->|Hne].
  - rewrite lookup_insert_eq in Hb. injection Hb as <-. apply (moved_coherent _ _ _ _ Hm). by apply (Hc a).
  - rewrite lookup_insert_ne in Hb by done. apply (moved_elsewhere _ _ _ _ _ Hm); [|by apply (Hc b)]. intros E. apply Hne. by apply (Hd b a t s).
Qed.

(** What a validated change is about, and what it leaves. *)
Definition valid_change (h : heap) (c : DatabaseChange) : Prop :=
  exists a s, dc_Store c = Some a /\ h !! a = Some s /\ st_db s = true /\ allowed (dc_Key c) (st_global s) = true.
Definition outcome (c : DatabaseChange) : option string := if dc_Clear c then None else Some (dc_Value c).
Definition row_of (h : heap) (c : DatabaseChange) : option row := a ← dc_Store c; s ← h !! a; Some (in_scope s (dc_Key c)).

Lemma exec_change_moves (h : heap) tx c a s tx' : dc_Store c = Some a -> allowed (dc_Key c) (st_global s) = true ->
  (if dc_Clear c then delete_setting tx (in_scope s (dc_Key c)) else upsert_setting tx (in_scope s (dc_Key c)) (dc_Value c)) = Ok tx' ->
  (forall r, table tx' !! r = if decide (r = in_scope s (dc_Key c)) then outcome c else table tx !! r) /\
  forall s0, place s0 = place s -> h !! a = Some s0 -> exists s1, cache_change c h = <[a := s1]> h /\ moved s0 s1 tx tx' /\
    forall k, st_values s1 !! k = if decide (k = dc_Key c) then outcome c else st_values s0 !! k.
Proof.
  intros Ha Hal Hx. assert (Hrow : forall r, table tx' !! r = if decide (r = in_scope s (dc_Key c)) then outcome c else table tx !! r).
  { intros r. unfold outcome. destruct (dc_Clear c); [apply delete_row in Hx|apply upsert_row in Hx]; rewrite Hx; case_decide as E;
      rewrite ?E, ?lookup_delete_eq, ?lookup_insert_eq, ?lookup_delete_ne, ?lookup_insert_ne by done; done. }
  split; [done|]. intros s0 Hp Hs0. apply same_place_iff in Hp. unfold cache_change. rewrite Ha.
  set (f := fun s => with_values _ _ s). exists (f s0). assert (Hval : forall k, st_values (f s0) !! k = if decide (k = dc_Key c) then outcome c else st_values s0 !! k).
  { intros k. unfold f, outcome. cbn [with_values st_values]. destruct (dc_Clear c); case_decide as E;
      rewrite ?E, ?lookup_delete_eq, ?lookup_insert_eq, ?lookup_delete_ne, ?lookup_insert_ne by done; done. }
  split; [|split; [split; [done|]|done]].
  - apply map_eq. intros b. destruct (decide (b = a)) as [->|Hne]; [by rewrite lookup_alter_eq, lookup_insert_eq, Hs0|by rewrite lookup_alter_ne, lookup_insert_ne].
  - exists (fun k => if decide (k = dc_Key c) then Some (outcome c) else None). split; [|split; [split|]].
    + intros k. rewrite Hval. by case_decide.
    + intros k. rewrite Hrow, (in_scope_place s0 s) by done. destruct (decide (k = dc_Key c)) as [->|Hne]; [by rewrite decide_True|].
      rewrite decide_False; [done|]. unfold in_scope. congruence.
    + intros r Hr. rewrite Hrow. rewrite decide_False; [done|]. rewrite <- (in_scope_place s0 s) by done. apply Hr.
    + intros k v. case_decide as E; [|done]. rewrite E. destruct Hp as (-> & _). done.
Qed.

Lemma exec_coherent h0 h tx changes tx' : Forall (valid_change h0) changes -> (forall a, place <$> h !! a = place <$> h0 !! a) ->
  exec_changes h0 tx changes = Ok tx' -> distinct h -> all_coherent tx h ->
  let h' := foldl (fun h change => cache_change change h) h changes in distinct h' /\ all_coherent tx' h'.
Proof.
  intros Hv. revert h tx. induction Hv as [|c changes (a & s & Ha & Hs & Hdb & Hal) Hv IH]; intros h tx Hp; cbn [exec_changes foldl].
  { by intros [= <-] Hd Hc. }
  rewrite Ha. cbn [mbind option_bind]. rewrite Hs. destruct (if dc_Clear c then _ else _) as [tx1|] eqn:Hx; [|done]. intros Hrest Hd Hc.
  destruct (exec_change_moves h tx c a s tx1 Ha Hal Hx) as [_ Hcache]. pose proof (Hp a) as Hpa. rewrite Hs in Hpa.
  destruct (h !! a) as [s0|] eqn:Hs0; [|done]. injection Hpa as Eg Ed E1 E2 E3. assert (Hps : place s0 = place s) by (unfold place; congruence).
  destruct (Hcache s0 Hps eq_refl) as (s1 & -> & Hm & _).
  destruct (moved_heap h a s0 s1 tx tx1 Hs0 (eq_trans Ed Hdb) Hm Hd Hc) as [Hd1 Hc1]. apply (IH _ tx1); [|done|done|done].
  intros b. destruct (decide (b = a)) as [->|Hne]; [|by rewrite lookup_insert_ne by done]. rewrite lookup_insert_eq, Hs. cbn [fmap option_fmap option_map].
  f_equal. rewrite <- Hps. apply same_place_iff, (mv_place _ _ _ _ Hm).
Qed.

Lemma check_changes_valid h stores seen changes m : check_changes h stores seen changes = Ok m -> Forall (valid_change h) changes.
Proof.
  revert stores seen. induction changes as [|c changes IH]; intros stores seen; cbn [check_changes]; [by constructor|].
  destruct (dc_Store c) as [a|] eqn:Ha; [|done]. cbn [mbind option_bind]. destruct (h !! a) as [s|] eqn:Hs; [|done]. cbn [fmap option_fmap option_map].
  destruct (_ || _ || _) eqn:Hb; [done|]. destruct (match stores !! scope_of s with Some _ => _ | None => _ end); [done|]. case_decide; [done|].
  intros Hrest. constructor; [|by eapply IH]. rewrite !orb_false_iff, !negb_false_iff in Hb. exists a, s. tauto.
Qed.

Lemma apply_coherent db changes h err h' db' : ApplyDatabaseChanges db changes h = (err, h', db') -> distinct h -> all_coherent db h ->
  distinct h' /\ all_coherent db' h'.
Proof.
  intros Ha Hd Hc. assert (Hsame : forall e : option error, (e, h, db) = (err, h', db') -> distinct h' /\ all_coherent db' h') by (intros e [= _ <- <-]; done).
  unfold ApplyDatabaseChanges in Ha. destruct changes as [|first changes]; [by apply Hsame in Ha|]. destruct (negb _); [by apply Hsame in Ha|].
  destruct (check_changes h ∅ ∅ (first :: changes)) as [m|] eqn:Hv; [|by apply Hsame in Ha]. destruct (begin_tx db) as [tx|] eqn:Hb; [|by apply Hsame in Ha].
  destruct (exec_changes h tx (first :: changes)) as [tx'|] eqn:Hx; [|by apply Hsame in Ha]. destruct (commit_tx db tx') as [db1|] eqn:Hcm; [|by apply Hsame in Ha].
  injection Ha as _ <- <-. apply check_changes_valid in Hv. apply begin_view in Hb. apply commit_all in Hcm.
  assert (Htx : all_coherent tx h) by (intros a s Hs Hdb; destruct (Hc a s Hs Hdb) as [Ho Hk]; split; [done|]; intros k; rewrite Hb; apply Hk).
  destruct (exec_coherent h h tx _ tx' Hv (fun _ => eq_refl) Hx Hd Htx) as [Hd' Hc']. split; [done|].
  intros a s Hs Hdb. destruct (Hc' a s Hs Hdb) as [Ho Hk]. split; [done|]. intros k. rewrite Hcm. apply Hk.
Qed.

Lemma insert_defaults_Ok tx id defaults tx' : insert_defaults tx id defaults = Ok tx' ->
  forall r, table tx' !! r = match table tx !! r with Some v => Some v | None => table tx' !! r end /\
            ((forall k, r <> ("instance", id, k)) -> table tx' !! r = table tx !! r).
Proof.
  revert tx. induction defaults as [|[key value] defaults IH]; intros tx; cbn [insert_defaults].
  { intros [= ->] r. split; [by destruct (table tx' !! r)|done]. }
  destruct (negb _); [apply IH|]. destruct (insert_missing tx _ value) as [tx1|] eqn:Hi; [|done]. apply missing_row in Hi. intros Hrest r.
  destruct (IH _ Hrest r) as [IH1 IH2]. split.
  - destruct (table tx !! r) as [v|] eqn:Hv; [|done]. rewrite IH1, Hi. by rewrite (lookup_union_Some_l _ _ _ _ Hv).
  - intros Hr. rewrite IH2, Hi by done. apply option_eq. intros v. destruct (table tx !! r) as [w|] eqn:Hw.
    + by rewrite (lookup_union_Some_l _ _ _ _ Hw).
    + rewrite lookup_union_r by done. rewrite lookup_singleton_ne; [done|]. intros E. by apply (Hr key).
Qed.

(** Defaults fill gaps, in their scope only. *)
Lemma initialize_fills `{Dotenv} n template db id err db' : InitializeInstanceSettings n template db id = (err, db') ->
  forall r, (forall v, table db !! r = Some v -> table db' !! r = Some v) /\
            ((forall k, r <> ("instance", id, k)) -> table db' !! r = table db !! r).
Proof.
  unfold InitializeInstanceSettings. intros Hi r. assert (Hsame : forall e : option error, (e, db) = (err, db') ->
    (forall v, table db !! r = Some v -> table db' !! r = Some v) /\ ((forall k, r <> ("instance", id, k)) -> table db' !! r = table db !! r))
    by (intros e [= _ <-]; done).
  destruct (Unmarshal template) as [defaults|]; [|by apply Hsame in Hi]. destruct (begin_tx db) as [tx|] eqn:Hb; [|by apply Hsame in Hi].
  destruct (insert_defaults tx id _) as [tx'|] eqn:Hd; [|by apply Hsame in Hi]. destruct (commit_tx db tx') as [db1|] eqn:Hc; [|by apply Hsame in Hi].
  injection Hi as _ <-. apply begin_view in Hb. apply commit_all in Hc. destruct (insert_defaults_Ok _ _ _ _ Hd r) as [Hl Hr2].
  rewrite Hc, <- Hb. split; [|done]. intros v Hv. by rewrite Hl, Hv.
Qed.
End coherence.

(** * A running system

    The stores that are open, by their addresses, and the database.  A scope is
    opened once ([buildFresh] of the instance manager keeps the store), and the
    settings of an instance are initialized before it is opened. *)

Inductive settings_op :=
  | OpInitialize (n : nat) (id : string)
  | OpOpen (a : nat) (id : string) (global : bool)
  | OpUpdate (a : nat) (k v : string) (remove : bool)
  | OpReplaceSubset (a n : nat) (keys : gmap string bool) (values : gmap string string)
  | OpApply (changes : list DatabaseChange)
  | OpClose (a : nat).

Definition scope_open (h : heap) (scope id : string) : bool :=
  existsb (fun x => st_db x.2 && bool_decide ((st_dbScope x.2, st_dbID x.2) = (scope, id))) (map_to_list h).

Definition settings_step `{Database} `{Dotenv} `{MapOrder} (template : string) (x : Db * heap) (op : settings_op) : Db * heap :=
  let '(db, h) := x in
  match op with
  | OpInitialize n id => if scope_open h "instance" id then x else ((InitializeInstanceSettings n template db id).2, h)
  | OpOpen a id global =>
      if scope_open h (if global then "global" else "instance") (if global then "" else id) || bool_decide (is_Some (h !! a)) then x
      else match OpenDatabase db id global with Ok s => (db, <[a := s]> h) | Err _ => x end
  | OpUpdate a k v remove =>
      match h !! a with
      | Some s => if st_db s then let '(_, s, db) := update_database db k v remove s in (db, <[a := s]> h) else x
      | None => x
      end
  | OpReplaceSubset a n keys values =>
      match h !! a with
      | Some s => if st_db s then let '(_, s, db) := ReplaceDatabaseSubset n db keys values s in (db, <[a := s]> h) else x
      | None => x
      end
  | OpApply changes => let '(_, h, db) := ApplyDatabaseChanges db changes h in (db, h)
  | OpClose a => (db, delete a h)
  end.

Section system.
Context `{DatabaseLaws} `{Dotenv} `{MapOrder} (template : string).

Lemma scope_closed h scope id : scope_open h scope id = false -> forall a s, h !! a = Some s -> st_db s = true -> (st_dbScope s, st_dbID s) <> (scope, id).
Proof.
  unfold scope_open. intros Hx a s Hs Hdb E. apply not_true_iff_false in Hx. apply Hx. apply existsb_exists. exists (a, s).
  split; [by apply list_elem_of_In, elem_of_map_to_list|]. cbn. rewrite Hdb. by apply bool_decide_eq_true_2.
Qed.

Lemma step_coherent x op : distinct x.2 -> all_coherent x.1 x.2 -> distinct (settings_step template x op).2 /\
  all_coherent (settings_step template x op).1 (settings_step template x op).2.
Proof.
  destruct x as [db h]. cbn [fst snd]. intros Hd Hc. destruct op as [n id|a id global|a k v remove|a n keys values|changes|a]; cbn [settings_step].
  - destruct (scope_open h "instance" id) eqn:Ho; [done|]. destruct (InitializeInstanceSettings n template db id) as [err db'] eqn:Hi. split; [done|].
    intros a s Hs Hdb. destruct (Hc a s Hs Hdb) as [Hov Hk]. split; [done|]. intros k. destruct (Hk k) as [Hk1 Hk2]. split; [|done]. cbn [fst snd].
    rewrite Hk1. symmetry. apply (initialize_fills _ _ _ _ _ _ Hi). intros k' E. apply (scope_closed _ _ _ Ho a s Hs Hdb). unfold in_scope in E. congruence.
  - destruct (scope_open _ _ _) eqn:Ho; [done|]. case_bool_decide as Ha; [done|]. apply eq_None_not_Some in Ha. cbn [orb].
    destruct (OpenDatabase db id global) as [s|] eqn:Hs; [|done]. pose proof (open_coherent _ _ _ _ Hs) as Hcs.
    assert (Hplace : (st_dbScope s, st_dbID s) = (if global then "global" else "instance", if global then "" else id)).
    { unfold OpenDatabase in Hs. destruct (select_settings _ _ _); [|done]. destruct (scan_rows _ _ _); [|done]. by injection Hs as <-. }
    cbn [fst snd]. split.
    + intros b c t u Hb Hcu Ht Hu E. destruct (decide (b = a)) as [->|Hb'], (decide (c = a)) as [->|Hc']; [done| | |];
        rewrite ?lookup_insert_eq in *; rewrite ?lookup_insert_ne in * by done.
      * injection Hb as <-. exfalso. apply (scope_closed _ _ _ Ho c u Hcu Hu). congruence.
      * injection Hcu as <-. exfalso. apply (scope_closed _ _ _ Ho b t Hb Ht). congruence.
      * by apply (Hd b c t u).
    + intros b t Hb Ht. destruct (decide (b = a)) as [->|Hb']; [rewrite lookup_insert_eq in Hb; by injection Hb as <-|].
      rewrite lookup_insert_ne in Hb by done. by apply (Hc b).
  - destruct (h !! a) as [s|] eqn:Hs; [|done]. destruct (st_db s) eqn:Hdb; [|done]. destruct (update_database db k v remove s) as [[err s'] db'] eqn:Hu.
    apply (moved_heap h a s s' db db'); [done|done| |done|done]. by eapply update_database_moves.
  - destruct (h !! a) as [s|] eqn:Hs; [|done]. destruct (st_db s) eqn:Hdb; [|done]. destruct (ReplaceDatabaseSubset n db keys values s) as [[err s'] db'] eqn:Hu.
    apply (moved_heap h a s s' db db'); [done|done| |done|done]. by eapply replace_subset_moves.
  - destruct (ApplyDatabaseChanges db changes h) as [[err h'] db'] eqn:Ha. by apply (apply_coherent _ _ _ _ _ _ Ha).
  - cbn [fst snd]. split.
    + intros b c t u Hb Hcu. apply lookup_delete_Some in Hb as [_ Hb], Hcu as [_ Hcu]. by apply (Hd b c).
    + intros b t Hb. apply lookup_delete_Some in Hb as [_ Hb]. by apply (Hc b).
Qed.

End system.

(** * A batch, change by change *)

Section batch.
Context `{DatabaseLaws}.

Definition identity_of_row (r : row) : string := (r.1.1 +:+ of_bytes [byte_of 0] +:+ r.1.2) +:+ of_bytes [byte_of 0] +:+ r.2.

Lemma check_changes_fresh h stores seen changes m : check_changes h stores seen changes = Ok m ->
  NoDup (identity_of_row <$> omap (row_of h) changes) /\ forall i, i ∈ seen -> i ∉ identity_of_row <$> omap (row_of h) changes.
Proof.
  revert stores seen. induction changes as [|c changes IH]; intros stores seen; cbn [check_changes]; [intros _; split; [by apply NoDup_nil|by intros i _ ?%elem_of_nil]|].
  destruct (dc_Store c) as [a|] eqn:Ha; [|done]. cbn [mbind option_bind]. destruct (h !! a) as [s|] eqn:Hs; [|done].
  assert (Hrc : row_of h c = Some (in_scope s (dc_Key c))) by (unfold row_of; rewrite Ha; cbn [mbind option_bind]; by rewrite Hs).
  cbn [fmap option_fmap option_map]. destruct (_ || _ || _); [done|]. destruct (match stores !! scope_of s with Some _ => _ | None => _ end); [done|].
  case_decide as Hseen; [done|]. intros Hrest. destruct (IH _ _ Hrest) as [Hnd Hdis]. cbn [omap list_omap]. rewrite Hrc. cbn [fmap list_fmap]. change (identity_of_row (in_scope s (dc_Key c)))
    with (scope_of s +:+ of_bytes [byte_of 0] +:+ dc_Key c). split.
  - apply NoDup_cons. split; [|done]. apply Hdis. set_solver.
  - intros i Hi [->|Hin]%elem_of_cons; [done|]. by apply (Hdis i); [set_solver|].
Qed.

Lemma row_of_places h h' c : (forall a, place <$> h !! a = place <$> h' !! a) -> row_of h c = row_of h' c.
Proof.
  intros Hp. unfold row_of. destruct (dc_Store c) as [a|]; [|done]. cbn [mbind option_bind]. specialize (Hp a).
  destruct (h !! a) as [s|], (h' !! a) as [t|]; try done. cbn [mbind option_bind]. injection Hp as E1 E2 E3 E4 E5. unfold in_scope. congruence.
Qed.

Definition targets (a : nat) (k : string) (c : DatabaseChange) : Prop := dc_Store c = Some a /\ dc_Key c = k.

(** What a list of changes has done to the stores and the rows. *)
Record done_all (h h' : heap) (tx tx' : Db) (changes : list DatabaseChange) : Prop := {
  da_set c : c ∈ changes -> exists a s s', dc_Store c = Some a /\ h !! a = Some s /\ h' !! a = Some s' /\ allowed (dc_Key c) (st_global s) = true /\
    st_values s' !! dc_Key c = outcome c /\ table tx' !! in_scope s (dc_Key c) = outcome c;
  da_kept a s : h !! a = Some s -> exists s', h' !! a = Some s' /\ same_place s' s /\
    forall k, (forall c, c ∈ changes -> ~ targets a k c) -> st_values s' !! k = st_values s !! k;
  da_rows r : r ∉ omap (row_of h) changes -> table tx' !! r = table tx !! r;
}.

Lemma exec_done h0 h tx changes tx' : Forall (valid_change h0) changes -> (forall a, place <$> h !! a = place <$> h0 !! a) ->
  NoDup (omap (row_of h) changes) -> exec_changes h0 tx changes = Ok tx' ->
  done_all h (foldl (fun h change => cache_change change h) h changes) tx tx' changes.
Proof.
  intros Hv. revert h tx. induction Hv as [|c changes (a & s & Ha & Hs & Hdb & Hal) Hv IH]; intros h tx Hp Hnd; cbn [exec_changes foldl].
  { intros [= <-]. split; [by intros c ?%elem_of_nil| |done]. intros a s Hs. by exists s. }
  rewrite Ha. cbn [mbind option_bind]. rewrite Hs. destruct (if dc_Clear c then _ else _) as [tx1|] eqn:Hx; [|done]. intros Hrest.
  destruct (exec_change_moves h tx c a s tx1 Ha Hal Hx) as [Hrow Hcache]. pose proof (Hp a) as Hpa. rewrite Hs in Hpa.
  destruct (h !! a) as [s0|] eqn:Hs0; [|done]. cbn [fmap option_fmap option_map] in Hpa. assert (Hps : place s0 = place s) by congruence.
  destruct (Hcache s0 Hps eq_refl) as (s1 & Hcc & Hm & Hval). rewrite Hcc. pose proof (mv_place _ _ _ _ Hm) as Hp1.
  assert (Hp' : forall b, place <$> (<[a := s1]> h) !! b = place <$> h !! b).
  { intros b. destruct (decide (b = a)) as [->|Hne]; [|by rewrite lookup_insert_ne]. rewrite lookup_insert_eq, Hs0. cbn. f_equal. by apply same_place_iff. }
  assert (Hscope : forall k, in_scope s0 k = in_scope s k) by (intros k; by apply in_scope_place, same_place_iff).
  assert (Hrc : row_of h c = Some (in_scope s (dc_Key c))) by (unfold row_of; rewrite Ha; cbn [mbind option_bind]; rewrite Hs0; cbn [mbind option_bind]; by rewrite Hscope).
  cbn [omap list_omap] in Hnd. rewrite Hrc in Hnd. apply NoDup_cons in Hnd as [Hfresh Hnd].
  assert (Hrows : omap (row_of (<[a := s1]> h)) changes = omap (row_of h) changes).
  { clear -Hp'. induction changes as [|d changes IH]; [done|]. cbn [omap list_omap]. rewrite (row_of_places _ h d) by done. by rewrite IH. }
  destruct (IH (<[a := s1]> h) tx1) as [Hset Hkept Hother]; [intros b; by rewrite Hp'|by rewrite Hrows|done|].
  split.
  - intros d [->|Hd]%elem_of_cons.
    + destruct (Hkept a s1 (lookup_insert_eq _ _ _)) as (s' & Hs' & _ & Hsame). exists a, s0, s'. split; [done|]. split; [done|]. split; [done|].
      split; [by injection Hps as ->|]. split.
      * rewrite Hsame, Hval, decide_True; [done|done|]. intros d Hd [Hda Hdk]. apply Hfresh. apply list_elem_of_omap. exists d. split; [done|].
        unfold row_of. rewrite Hda. cbn [mbind option_bind]. rewrite Hs0. cbn [mbind option_bind]. by rewrite Hdk, Hscope.
      * rewrite Hscope, Hother by by rewrite Hrows. by rewrite Hrow, decide_True.
    + destruct (Hset d Hd) as (b & t & t' & Hb & Ht & Ht' & Hrest'). destruct (decide (b = a)) as [->|Hne].
      * rewrite lookup_insert_eq in Ht. injection Ht as <-. exists a, s0, t'. rewrite <- (in_scope_place s1 s0) by done.
        destruct Hp1 as (<- & _). done.
      * rewrite lookup_insert_ne in Ht by done. by exists b, t, t'.
  - intros b t Ht. destruct (decide (b = a)) as [->|Hne].
    + rewrite Hs0 in Ht. injection Ht as <-. destruct (Hkept a s1 (lookup_insert_eq _ _ _)) as (s' & Hs' & Hps' & Hsame). exists s'. split; [done|].
      split; [apply same_place_iff; apply same_place_iff in Hps', Hp1; congruence|]. intros k Hk. rewrite Hsame, Hval by (intros d Hd; apply Hk; by right).
      rewrite decide_False; [done|]. intros ->. apply (Hk c); [by left|done].
    + destruct (Hkept b t) as (t' & Ht' & Hpt & Hsame); [by rewrite lookup_insert_ne|]. exists t'. split; [done|]. split; [done|].
      intros k Hk. apply Hsame. intros d Hd. apply Hk. by right.
  - intros r. cbn [omap list_omap]. rewrite Hrc. intros [Hne Hr]%not_elem_of_cons. rewrite Hother by by rewrite Hrows. by rewrite Hrow, decide_False.
Qed.

End batch.

(** * The file of a store *)

Section files.
Context `{Dotenv} `{MapOrder}.

(** A store that could read its file holds what the file says. *)
Definition file_ok (s : Store) (file : option string) : Prop :=
  st_db s = false /\
  (st_loadErr s = None -> default "" file = st_raw s /\ exists m, Unmarshal (st_raw s) = Ok m /\ st_values s = only_allowed (st_global s) m).

Lemma open_file_ok env environ global file s err : Open env environ global file = (s, err) ->
  file_ok s file /\ st_global s = global /\ st_overrides s = env_overrides environ global.
Proof.
  unfold Open. destruct (match of_Stat env, file with Some _, _ => _ | None, _ => _ end); [by intros [= <- <-]|].
  destruct file as [content|]; [destruct (of_ReadFile env); [by intros [= <- <-]|]|].
  - destruct (Unmarshal content) as [m|] eqn:Hm; intros [= <- <-]; [|done]. split; [|done]. split; [done|]. intros _. split; [done|]. by exists m.
  - destruct (Unmarshal "") as [m|] eqn:Hm; intros [= <- <-]; [|done]. split; [|done]. split; [done|]. intros _. split; [done|]. by exists m.
Qed.

Lemma WriteAtomic_cases env data file err file' : WriteAtomic env data file = (err, file') ->
  (err = None /\ file' = Some data) \/ (err <> None /\ file' = file).
Proof. unfold WriteAtomic. destruct (first_error _); intros [= <- <-]; [by right|by left]. Qed.

(** A step that fails leaves everything; one that succeeds keeps the store in step
    with its file. *)
Record file_moved (s s' : Store) (err : option error) (file file' : option string) : Prop := {
  fm_fail : err <> None -> s' = s /\ file' = file;
  fm_place : st_global s' = st_global s /\ st_overrides s' = st_overrides s /\ st_db s' = st_db s;
  fm_ok : err = None -> st_loadErr s' = None /\ file' = Some (st_raw s') /\
          exists m, Unmarshal (st_raw s') = Ok m /\ st_values s' = only_allowed (st_global s') m;
}.

Lemma file_moved_fail s e file : file_moved s s (Some e) file file.
Proof. by split. Qed.

Lemma only_allowed_all global m : (forall k, is_Some (m !! k) -> allowed k global = true) -> only_allowed global m = m.
Proof. intros Ha. apply map_filter_id. intros k v Hk. apply Ha. by exists v. Qed.

Lemma update_file_moves env k v remove s file err s' file' : update_file env k v remove s file = (err, s', file') -> file_moved s s' err file file'.
Proof.
  unfold update_file. assert (Hfail : forall e : error, (Some e, s, file) = (err, s', file') -> file_moved s s' err file file')
    by (intros e [= <- <- <-]; apply file_moved_fail).
  destruct (negb _); [apply Hfail|]. destruct (st_loadErr s) eqn:Hl; [apply Hfail|]. destruct (_ || _); [apply Hfail|].
  destruct (MutateEnv _ _ _ _) as [out|]; [|apply Hfail]. destruct (Unmarshal (of_bytes out)) as [next|] eqn:Hn; [|apply Hfail].
  destruct (if remove then _ else _); [apply Hfail|]. destruct (WriteAtomic env (of_bytes out) file) as [e f] eqn:Hw.
  destruct (WriteAtomic_cases _ _ _ _ _ Hw) as [[-> ->]|[He ->]]; [|destruct e; [apply Hfail|done]].
  intros [= <- <- <-]. split; [done|done|]. intros _. split; [done|]. split; [done|]. by exists next.
Qed.

Lemma replace_moves n env raw s file err s' file' : Replace n env raw s file = (err, s', file') -> file_moved s s' err file file'.
Proof.
  unfold Replace. assert (Hfail : forall e : error, (Some e, s, file) = (err, s', file') -> file_moved s s' err file file')
    by (intros e [= <- <- <-]; apply file_moved_fail).
  destruct (st_db s); [apply Hfail|]. destruct (Unmarshal raw) as [next|] eqn:Hn; [|apply Hfail]. destruct (first_disallowed _ _) as [?|] eqn:Ha; [apply Hfail|].
  destruct (st_accessErr s); [apply Hfail|]. destruct (WriteAtomic env raw file) as [e f] eqn:Hw.
  destruct (WriteAtomic_cases _ _ _ _ _ Hw) as [[-> ->]|[He ->]]; [|destruct e; [apply Hfail|done]].
  intros [= <- <- <-]. split; [done|done|]. intros _. split; [done|]. split; [done|]. exists next. split; [done|]. cbn [with_file st_values st_global].
  symmetry. apply only_allowed_all. intros k Hk. apply (first_disallowed_None _ _ Ha). by apply elem_of_range_keys.
Qed.

(** ** Restarts *)

Inductive file_op :=
  | FUpdate (env : write_faults) (k v : string) (remove : bool)
  | FReplace (n : nat) (env : write_faults) (raw : string).

Definition file_step (x : Store * option string) (op : file_op) : Store * option string :=
  let '(s, file) := x in
  match op with
  | FUpdate env k v remove => let '(_, s, file) := update_file env k v remove s file in (s, file)
  | FReplace n env raw => let '(_, s, file) := Replace n env raw s file in (s, file)
  end.

Lemma file_step_moves s file op : exists err, file_moved s (file_step (s, file) op).1 err file (file_step (s, file) op).2.
Proof.
  destruct op as [env k v remove|n env raw]; cbn [file_step].
  - destruct (update_file env k v remove s file) as [[err s'] file'] eqn:Hu. exists err. by eapply update_file_moves.
  - destruct (Replace n env raw s file) as [[err s'] file'] eqn:Hr. exists err. by eapply replace_moves.
Qed.

Lemma run_file s file ops : let '(s', file') := foldl file_step (s, file) ops in
  (s' = s /\ file' = file) \/
  (st_loadErr s' = None /\ file' = Some (st_raw s') /\ st_global s' = st_global s /\ st_overrides s' = st_overrides s /\
   exists m, Unmarshal (st_raw s') = Ok m /\ st_values s' = only_allowed (st_global s') m).
Proof.
  induction ops as [|op ops IH] using rev_ind; [by left|]. rewrite foldl_app. cbn [foldl]. destruct (foldl file_step (s, file) ops) as [s1 file1].
  destruct (file_step_moves s1 file1 op) as [err [Hfail (Hg & Hov & _) Hok]]. destruct (file_step (s1, file1) op) as [s2 file2]. cbn [fst snd] in *.
  destruct err as [e|].
  - destruct Hfail as [-> ->]; [done|]. done.
  - right. destruct (Hok eq_refl) as (Hl & Hf & Hm). split; [done|]. split; [done|]. split; [|split; [|done]].
    + destruct IH as [[? _]|(_ & _ & ? & _)]; congruence.
    + destruct IH as [[? _]|(_ & _ & _ & ? & _)]; congruence.
Qed.

(** C14: settings in a file survive a restart.  Open a store, update and replace its
    settings with any faults of the file system in between: if it can read its
    settings at the end, a store opened anew, in the same environment, answers
    every key as it does, from the same text; and if it cannot, nothing was ever
    written over the file it could not read. *)
Theorem settings_survive_restart env environ global file ops : let '(s0, _) := Open env environ global file in
  let '(s, file') := foldl file_step (s0, file) ops in
  match st_loadErr s with
  | None => exists s', Open no_open_faults environ global file' = (s', None) /\ st_raw s' = st_raw s /\ Snapshot s' = Snapshot s /\ forall k, Get s' k = Get s k
  | Some _ => s = s0 /\ file' = file
  end.
Proof.
  destruct (Open env environ global file) as [s0 err] eqn:Ho. destruct (open_file_ok _ _ _ _ _ _ Ho) as (Hok & Hg & Hov).
  pose proof (run_file s0 file ops) as Hrun. destruct (foldl file_step (s0, file) ops) as [s file'].
  destruct (st_loadErr s) as [e|] eqn:Hl; [destruct Hrun as [Hsame|[Hno _]]; [done|congruence]|].
  assert (Hfin : default "" file' = st_raw s /\ st_global s = global /\ st_overrides s = env_overrides environ global /\
    exists m, Unmarshal (st_raw s) = Ok m /\ st_values s = only_allowed (st_global s) m).
  { destruct Hrun as [[-> ->]|(_ & -> & Hg' & Hov' & Hm)]; [destruct Hok as [_ Hok]; destruct (Hok Hl) as [Hraw Hm]; done|]. split; [done|]. split; [congruence|]. split; [congruence|done]. }
  destruct Hfin as (Hraw & Hgs & Hovs & m & Hm & Hv). assert (Hopen : exists s', Open no_open_faults environ global file' = (s', None) /\ st_raw s' = st_raw s /\
    st_values s' = st_values s /\ st_overrides s' = st_overrides s).
  { unfold Open. cbn [of_Stat of_regular of_Chmod of_ReadFile no_open_faults]. destruct file' as [content|]; cbn [from_option id] in Hraw; rewrite Hraw, Hm;
      eexists; (split; [reflexivity|]); cbn [st_raw st_values st_overrides]; by rewrite Hv, Hgs. }
  destruct Hopen as (s' & Hs' & Hr' & Hv' & Ho'). exists s'. split; [done|]. split; [done|]. unfold Snapshot, Get. by rewrite Hv', Ho'.
Qed.
End files.

(** * One setting of a file *)

Section locality.
Context `{DotenvLaws} (value_of : text -> string).

(** The map of a list of entries: a later one wins. *)
Definition meaning (es : list (text * text)) : gmap string string := list_to_map (rev (map (fun e => (of_bytes e.1, value_of e.2)) es)).

(** The dotenv library reads a text entry by entry, as [EnvFile] does.  It need not:
    a value may refer to another setting, an unusual white space may start a line. *)
Definition reads_entries (t : string) : Prop :=
  forall m, Unmarshal t = Ok m -> Forall (fun st => terminated st = true) (parseEnvStatements (to_bytes t)) /\ m = meaning (entries (to_bytes t)).

Lemma meaning_cons e es k : meaning (e :: es) !! k = match meaning es !! k with Some v => Some v | None => if decide (of_bytes e.1 = k) then Some (value_of e.2) else None end.
Proof.
  unfold meaning. cbn [map rev]. rewrite list_to_map_app. destruct (list_to_map (rev _) !! k) as [v|] eqn:Hv; [by apply lookup_union_Some_l|].
  rewrite lookup_union_r by done. cbn [list_to_map foldr fst snd]. case_decide as E; [rewrite <- E; apply lookup_insert_eq|by rewrite lookup_insert_ne].
Qed.

Lemma of_bytes_ne l k : l <> k -> of_bytes l <> of_bytes k.
Proof. intros Hne E. apply Hne. rewrite <- (to_of_bytes l), <- (to_of_bytes k). by rewrite E. Qed.

Lemma meaning_filter key es k : meaning (filter (fun e => e.1 <> key) es) !! k = if decide (k = of_bytes key) then None else meaning es !! k.
Proof.
  induction es as [|[j v] es IH]; [by case_decide|]. rewrite filter_cons. cbn [fst]. destruct (decide (j <> key)) as [Hj|Hj].
  - rewrite !meaning_cons, IH. cbn [fst]. destruct (decide (k = of_bytes key)) as [->|Hk]; [by rewrite decide_False by by apply of_bytes_ne|done].
  - apply dec_stable in Hj as ->. rewrite IH, meaning_cons. cbn [fst]. case_decide as Hk; [done|]. rewrite (decide_False (P := of_bytes key = k)) by congruence.
    by destruct (meaning es !! k).
Qed.

Lemma meaning_set found key v es k : meaning (set_entry found key v es) !! k =
  if decide (k = of_bytes key) then if found then None else Some (value_of v) else meaning es !! k.
Proof.
  revert found. induction es as [|[j w] es IH]; intros found; cbn [set_entry].
  - destruct found; [by case_decide|]. rewrite meaning_cons. cbn [fst snd]. change (meaning [] !! k) with (@None string).
    destruct (decide (k = of_bytes key)) as [->|Hk]; [by rewrite decide_True|]. by rewrite decide_False by congruence.
  - destruct (decide (j = key)) as [->|Hj].
    + rewrite (meaning_cons (key, w)). cbn [fst]. destruct found; [|rewrite meaning_cons; cbn [fst snd]]; rewrite IH;
        (destruct (decide (k = of_bytes key)) as [->|Hk]; [by rewrite ?decide_True|]); rewrite ?(decide_False (P := of_bytes key = k)) by congruence; by destruct (meaning es !! k).
    + rewrite !meaning_cons, IH. cbn [fst snd]. destruct (decide (k = of_bytes key)) as [->|Hk]; [|done].
      destruct found; [by rewrite decide_False by by apply of_bytes_ne|done].
Qed.

Lemma allowed_keyPattern k global : allowed k global = true -> keyPattern (to_bytes k) = true.
Proof. unfold allowed. by destruct (keyPattern (to_bytes k)). Qed.

Lemma only_allowed_lookup global m k : only_allowed global m !! k = if allowed k global then m !! k else None.
Proof.
  unfold only_allowed. destruct (allowed k global) eqn:Ha.
  - destruct (m !! k) as [v|] eqn:Hv; [by apply map_lookup_filter_Some_2|]. apply map_lookup_filter_None_2. by left.
  - apply map_lookup_filter_None_2. right. intros v _. cbn. by rewrite Ha.
Qed.

(** An update in a file sets one setting.  Where the dotenv library reads the
    text before and after entry by entry, an update that reports success has
    written the new text, answers the key with the new value, or as if it had
    never been set where it was removed, and every other key as before; one that
    fails has changed neither the store nor the file. *)
Theorem update_sets_one_setting env k v remove s file err s' file' : file_ok s file -> reads_entries (st_raw s) -> reads_entries (st_raw s') ->
  update_file env k v remove s file = (err, s', file') ->
  match err with
  | Some _ => s' = s /\ file' = file
  | None => file' = Some (st_raw s') /\ st_values s' !! k = (if remove then None else Some v) /\
            (forall j, j <> k -> st_values s' !! j = st_values s !! j) /\ st_overrides s' = st_overrides s
  end.
Proof.
  intros Hok Hread Hread' Hu. destruct (update_file_moves _ _ _ _ _ _ _ _ _ Hu) as [Hfail (Hg & Hov & _) Hdone].
  destruct err as [e|]; [by apply Hfail|]. destruct (Hdone eq_refl) as (_ & Hf & m' & Hm' & Hv'). split; [done|].
  unfold update_file in Hu. destruct (allowed k (st_global s)) eqn:Ha; cbn [negb] in Hu; [|done]. destruct (st_loadErr s) eqn:Hl; [done|].
  destruct Hok as [_ Hok]. destruct (Hok Hl) as (_ & m & Hm & Hv). destruct (_ || _); [done|].
  destruct (MutateEnv _ _ _ _) as [out|] eqn:Hout; [|done]. destruct (Unmarshal (of_bytes out)) as [next|] eqn:Hn; [|done].
  destruct (if remove then bool_decide _ else _) eqn:Hcheck; [done|]. destruct (WriteAtomic env (of_bytes out) file) as [[?|] f]; [done|].
  injection Hu as <- _. cbn [with_file st_raw st_values st_global st_overrides] in *. assert (m' = next) as -> by congruence.
  destruct (Hread m Hm) as [Hterm Em]. destruct (Hread' next Hn) as [_ En]. rewrite to_of_bytes in En.
  split; [|split; [|done]].
  - rewrite only_allowed_lookup, Ha. destruct remove; apply bool_decide_eq_false in Hcheck; [by apply eq_None_not_Some|by apply dec_stable].
  - intros j Hj. rewrite Hv, !only_allowed_lookup. destruct (allowed j (st_global s)); [|done]. rewrite Em, En.
    destruct remove; [rewrite (removal_reads _ _ _ _ Hterm Hout), meaning_filter
      |destruct (setting_reads _ _ _ _ (allowed_keyPattern _ _ Ha) Hterm Hout) as [-> _]; rewrite meaning_set]; by rewrite of_to_bytes, decide_False.
Qed.
End locality.

(** * A concrete database and file *)

Module demo.
#[export] Existing Instance list_order.
#[export] Existing Instance EnvFile.demo.reader.
#[export] Existing Instance EnvFile.demo.reader_laws.

(** A table in memory that never fails, but for rows that exist. *)
#[export] Instance memory : Database := {|
  Db := gmap row string;
  select_settings db scope id := Ok (omap (fun x => if decide (x.1.1 = (scope, id)) then Some (x.1.2, x.2) else None) (map_to_list db));
  delete_setting db r := Ok (delete r db);
  upsert_setting db r v := Ok (<[r := v]> db);
  insert_setting db r v := if decide (is_Some (db !! r)) then Err "unique constraint" else Ok (<[r := v]> db);
  insert_missing db r v := Ok (db ∪ {[r := v]});
  begin_tx db := Ok db;
  commit_tx _ tx := Ok tx |}.

#[export] Instance memory_laws : DatabaseLaws.
Proof.
  refine {| table db := db |}; cbn; try (intros; congruence).
  - intros db scope id l [= <-]. split.
    + pose proof (NoDup_fst_map_to_list db) as Hnd. revert Hnd. generalize (map_to_list db). clear. induction l as [|[[[s i] k] v] l IH]; [constructor|].
      cbn [fmap list_fmap fst omap list_omap snd]. intros [Hno Hnd]%NoDup_cons. case_decide as E; [|by apply IH]. cbn. apply NoDup_cons. split; [|by apply IH].
      intros ([k' w] & -> & ([[p j] u] & Hin & Hx)%list_elem_of_omap)%list_elem_of_fmap. cbn in Hx. case_decide as E'; [|done]. injection Hx as <- <-.
      apply Hno. apply list_elem_of_fmap. exists ((p, j), u). split; [cbn; congruence|done].
    + intros k v. rewrite list_elem_of_omap. split.
      * intros ([[p j] u] & Hin & Hx). cbn in Hx. case_decide as E; [|done]. injection Hx as <- <-. cbn in E. subst p. by apply elem_of_map_to_list.
      * intros Hv. exists ((scope, id, k), v). split; [by apply elem_of_map_to_list|]. cbn. by rewrite decide_True.
  - intros db r v db'. case_decide as Hr; [done|]. intros [= <-]. split; [by apply eq_None_not_Some|done].
Qed.

Definition template : string := of_bytes (EnvFile.demo.lines ["BOT_NAME=fox"; "BOT_LOOP_MAX_TURNS=3"; "ADMIN_TOKEN=never"]).
Definition ops : list settings_op := [
  OpInitialize 0 "a"; OpOpen 0 "" true; OpOpen 1 "a" false; OpUpdate 1 "BOT_NAME" "owl" false; OpUpdate 1 "ADMIN_TOKEN" "x" false;
  OpApply [{| dc_Store := Some 1; dc_Key := "BOT_LOOP_MAX_TURNS"; dc_Value := "7"; dc_Clear := false |};
           {| dc_Store := Some 0; dc_Key := "ADMIN_TOKEN"; dc_Value := "secret"; dc_Clear := false |}]].
Definition final := foldl (settings_step template) (∅ : Db, ∅) ops.

Definition renamed : Store := default {| st_values := ∅; st_overrides := ∅; st_global := true; st_raw := ""; st_loadErr := None; st_accessErr := None;
  st_db := true; st_dbScope := ""; st_dbID := ""; st_botLoopRevision := 0 |} (final.2 !! 1).
Example renamed_bot : Get renamed "BOT_NAME" = "owl" /\ Get renamed "ADMIN_TOKEN" = "" /\ Get renamed "BOT_LOOP_MAX_TURNS" = "7".
Proof. by vm_compute. Qed.


(** One change of the instance and one of the process; the second of a store that
    does not own its key undoes both. *)
Definition batch (key : string) : list DatabaseChange := [
  {| dc_Store := Some 1; dc_Key := "BOT_NAME"; dc_Value := ""; dc_Clear := true |};
  {| dc_Store := Some 0; dc_Key := key; dc_Value := "1"; dc_Clear := false |}].
Definition applied (key : string) := ApplyDatabaseChanges final.1 (batch key) final.2.

Example batch_refused : (applied "BOT_ALIASES").1.1 = Some "invalid scoped setting change BOT_ALIASES".
Proof. by vm_compute. Qed.

(** A file, opened, changed and opened again. *)
Definition meaning_of (v : text) : string := of_bytes (EnvFile.demo.value_of v).
Lemma reader_reads t : reads_entries meaning_of t.
Proof.
  intros m. cbn [Unmarshal EnvFile.demo.reader]. destruct (forallb _ _) eqn:Ht; [|done]. intros [= <-]. split; [|done].
  apply Forall_forall. intros st Hst. rewrite forallb_forall in Ht. apply Ht. by apply list_elem_of_In.
Qed.

Definition disk : option string := Some (of_bytes EnvFile.demo.file).
Definition opened : Store := (Open no_open_faults (fun _ => None) false disk).1.
Definition changed := update_file no_write_faults "BOT_NAME" "two words" false opened disk.

Lemma update_sets_one_setting_witness : changed.1.1 = None /\
  (changed.2 = Some (st_raw changed.1.2) /\ st_values changed.1.2 !! "BOT_NAME" = Some "two words" /\
   (forall j, j <> "BOT_NAME" -> st_values changed.1.2 !! j = st_values opened !! j) /\ st_overrides changed.1.2 = st_overrides opened).
Proof.
  split; [by vm_compute|]. apply (update_sets_one_setting meaning_of no_write_faults "BOT_NAME" "two words" false opened disk None);
    [|apply reader_reads|apply reader_reads|by vm_compute].
  by apply (open_file_ok no_open_faults (fun _ => None) false disk opened None).
Defined.

Example others_kept : Get changed.1.2 "GREETING" = Get opened "GREETING" /\ Get changed.1.2 "LAST" = "1" /\
  update_file no_write_faults "BOT_NAME" (of_bytes [b_nl]) false opened disk = (Some "字段 BOT_NAME 不允许 NUL 或换行", opened, disk).
Proof. by vm_compute. Qed.

End demo.
