(* ===== verification/Admin.v ===== *)
(** Administrator commands: [internal/admincmd], and the [admin_command.go] of both
    adapters.

    An administrator who mentions the bot may reset a conversation, ban and unban
    users, and start a compaction or a reflection.  A command is cut out of a
    message by the adapter, admitted, and executed in the background; what it does
    is done to the access store ([Controller]), to the conversation's session
    ([SessionManager], [History]) and to the summaries ([SummaryStore]). *)

From S2P Require Import Prelude GoStrings SessionKey SummaryStore GroupMessage SessionState History.
From S2P Require Import SessionManager Access AuditLog Watchdog Controller Writer.
From Stdlib Require Import Ascii.

Local Open Scope string_scope.
Local Open Scope list_scope.

(** * Who is an administrator *)

Definition id_separators : list (list ascii) := [[","%char]; [";"%char]] ++ space_encodings.
Definition IsAdmin (rawIDs callerUserID : string) : bool :=
  let callerUserID := TrimSpace callerUserID in
  if decide (callerUserID = "") then false else contains callerUserID (FieldsFunc id_separators rawIDs).

(** * Commands *)

Definition CmdReset := "reset".
Definition CmdBan := "ban".
Definition CmdUnban := "unban".
Definition CmdCompact := "compact".
Definition CmdReflect := "reflect".

Record ParsedCommand := { pc_Type : string; pc_Args : list string; pc_RawArgs : string }.
Definition no_command : ParsedCommand := {| pc_Type := ""; pc_Args := []; pc_RawArgs := "" |}.

Definition DefaultPrefix : string := "/".
Definition NormalizePrefix (prefix : string) : string := let p := TrimSpace prefix in if decide (p = "") then DefaultPrefix else p.

(** [unicode.IsDigit] of a rune, by its encoding. *)
Class UnicodeDigit := { IsDigit : list ascii -> bool }.

(** The first of some runes in a text, as the index of its first byte. *)
Fixpoint index_any (encs : list (list ascii)) (l : list ascii) : option nat :=
  match strip_one encs l with
  | Some _ => Some O
  | None => match l with [] => None | _ :: l => S <$> index_any encs l end
  end.
Definition mention_ends : list (list ascii) := map (map byte_of) [[32]; [9]; [13]; [10]; [227; 128; 128]].

Definition StripLeadingMention (text : string) : string :=
  let text := TrimSpace text in
  match (if HasPrefix text "[@" then Cut text "]" else None) with
  | Some (_, after) => TrimSpace after
  | None =>
      if HasPrefix text "@" then
        match index_any mention_ends (to_bytes text) with
        | Some idx => TrimSpace (sdrop (S idx) text)
        | None => text
        end
      else text
  end.

Definition HasSuffix (s p : string) : bool := bool_decide (is_Some (cut_prefix (rev (to_bytes p)) (rev (to_bytes s)))).
Definition id_byte (c : ascii) : bool :=
  in_range 97 122 c || in_range 65 90 c || in_range 48 57 c || bool_decide (c ∈ ["-"%char; "_"%char; "."%char]).
Definition illegal_bytes : list ascii := map byte_of [32; 9; 13; 10; 0; 91; 93; 58; 64; 60; 62; 47; 92; 34; 39].

Section commands.
Context `{UnicodeCase} `{UnicodeLetter} `{UnicodeDigit}.

Definition IsWordPrefix (prefix : string) : bool :=
  let p := TrimSpace prefix in
  if decide (p = "") then false else
  match last (runes p) with Some r => IsLetter r || IsDigit r || bool_decide (r = ["_"%char]) | None => false end.
Definition PrefixSeparator (prefix : string) : string := if IsWordPrefix prefix then " " else "".

Definition newline_ : string := of_bytes [byte_of 10].
Definition FormatUsage (prefix : string) : string :=
  let p := NormalizePrefix prefix in
  let sep := PrefixSeparator p in
  "管理员指令使用指南：" +:+ newline_ +:+
  p +:+ sep +:+ "reset - 重置当前会话与上下文" +:+ newline_ +:+
  p +:+ sep +:+ "ban <userID> - 全局安全封禁用户" +:+ newline_ +:+
  p +:+ sep +:+ "unban <userID> - 解除用户全局安全封禁" +:+ newline_ +:+
  p +:+ sep +:+ "compact - 立即压缩总结当前会话上下文" +:+ newline_ +:+
  p +:+ sep +:+ "reflect - 触发记忆反思".

Definition without_args (cmd : ParsedCommand) : option error :=
  if (length (pc_Args cmd) =? 0)%nat then None else Some (pc_Type cmd +:+ " 指令不需要任何参数").
Definition with_user (cmd : ParsedCommand) : option error :=
  if (length (pc_Args cmd) =? 1)%nat then None
  else Some (pc_Type cmd +:+ " 指令格式错误，需要指定一个用户ID：" +:+ pc_Type cmd +:+ " <userID>").
Definition check_command (cmd : ParsedCommand) : option error :=
  if decide (pc_Type cmd ∈ [CmdReset; CmdCompact; CmdReflect]) then without_args cmd
  else if decide (pc_Type cmd ∈ [CmdBan; CmdUnban]) then with_user cmd
  else Some ("未知指令：" +:+ pc_Type cmd).

(** What follows the prefix, if the text begins with it; [None] is no candidate. *)
Definition after_prefix (text prefix : string) : option (res error string) :=
  if (slen text <? slen prefix)%nat then None else
  if negb (EqualFold (stake (slen prefix) text) prefix) then None else
  let afterPrefix := sdrop (slen prefix) text in
  if IsWordPrefix prefix then
    if decide (afterPrefix = "") then Some (Err "缺少指令名称") else
    match strip_one space_encodings (to_bytes afterPrefix) with
    | None => None
    | Some _ => Some (Ok (TrimSpace afterPrefix))
    end
  else Some (Ok (TrimSpace afterPrefix)).

Definition ParseCandidate (text prefix : string) : ParsedCommand * bool * option error :=
  let prefix := NormalizePrefix prefix in
  let text := TrimSpace text in
  if decide (text = "") then (no_command, false, None) else
  match after_prefix text prefix with
  | None => (no_command, false, None)
  | Some (Err err) => (no_command, true, Some err)
  | Some (Ok remainder) =>
      if decide (remainder = "") then (no_command, true, Some "缺少指令名称") else
      match FieldsFunc space_encodings remainder with
      | [] => (no_command, true, None)
      | name :: args =>
          let rawArgs := match args with [] => "" | _ => TrimSpace (sdrop (slen name) remainder) end in
          let cmd := {| pc_Type := ToLower name; pc_Args := args; pc_RawArgs := rawArgs |} in
          (cmd, true, check_command cmd)
      end
  end.

(** Without the brackets around it, if there are any. *)
Definition unbracketed (trimmed : string) : string :=
  if HasPrefix trimmed "[@" && HasSuffix trimmed "]" then stake (slen trimmed - 3) (sdrop 2 trimmed)
  else if HasPrefix trimmed "[" && HasSuffix trimmed "]" then stake (slen trimmed - 2) (sdrop 1 trimmed) else trimmed.
(** Without the raw input that some errors quote. *)
Definition checked_id (trimmed : string) : res error string :=
  if decide (trimmed = "") then Err "目标用户ID不能为空" else
  if EqualFold trimmed "all" || bool_decide (trimmed = "全体成员") || bool_decide (trimmed = "0") then Err "不支持对全体成员或全局通配符执行该操作" else
  if existsb (fun c => bool_decide (c ∈ illegal_bytes)) (to_bytes trimmed) then Err "目标用户ID 包含非法字符" else
  if negb (forallb id_byte (to_bytes trimmed)) then Err "目标用户ID 包含非法字符或非ASCII字符（禁止使用昵称）" else
  if (256 <? slen trimmed)%nat then Err "目标用户ID过长" else Ok trimmed.

Definition CleanTargetID (raw : string) : res error string :=
  let trimmed := TrimSpace raw in
  if decide (trimmed = "") then Err "目标用户ID不能为空" else
  let trimmed := unbracketed trimmed in
  checked_id (TrimSpace (default trimmed (CutPrefix trimmed "@"))).
End commands.

(** * Executing a command *)

(** What is sent: a reply, or AstrBot's message that nothing will be. *)
Inductive outgoing := Say (text : string) (isIntermediate : bool) | Noop.

Record CommandContext := { cc_SessionID : string; cc_Owner : string; cc_IsGroup : bool; cc_CallerUserID : string; cc_Platform : string; cc_GroupID : string }.

(** The engine, as far as commands use it. *)
Record adm_engine := {
  ad_Security : option Controller;
  ad_AdminIDs : string;
  ad_CommandPrefix : string;
  ad_GroupCompactor : bool;
  ad_MemoryReflections : bool;
}.

(** What the surroundings answer: the access store at each check and change, each
    reply by its number, whether the instance still starts goroutines, for a
    compaction and for a command, whether the
    router disables compaction, what [ForceCompact] and [Start] say. *)
Inductive force_error := ForceCompacting | ForceNothing | ForceFailed (e : error).
Record adm_env := {
  ae_check : faults;
  ae_execute_check : faults;
  ae_change : eval_env;
  ae_reply : nat -> option error;
  ae_go : bool;
  ae_run : bool;
  ae_compact_disabled : bool;
  ae_force : option force_error;
  ae_reflect_started : bool;
  ae_reflect_running : bool;
  ae_reflect_error : option error;
  ae_now : Z;
  ae_saveHook : gmap string SummaryRecord -> option string;
  ae_save : gmap string SummaryRecord -> option string;
}.

Record adm_world := {
  aw_stores : Stores;
  aw_heap : Heap;
  aw_sessions : SessionManager;
  aw_out : list outgoing;
  aw_jobs : list (Z * PrivateCompactSnapshot);
}.

Definition with_stores (st : Stores) (w : adm_world) : adm_world := {|
  aw_stores := st; aw_heap := aw_heap w; aw_sessions := aw_sessions w; aw_out := aw_out w; aw_jobs := aw_jobs w |}.
Definition with_manager (h : Heap) (sm : SessionManager) (w : adm_world) : adm_world := {|
  aw_stores := aw_stores w; aw_heap := h; aw_sessions := sm; aw_out := aw_out w; aw_jobs := aw_jobs w |}.
Definition send (o : outgoing) (w : adm_world) : adm_world := {|
  aw_stores := aw_stores w; aw_heap := aw_heap w; aw_sessions := aw_sessions w; aw_out := aw_out w ++ [o]; aw_jobs := aw_jobs w |}.
Definition with_jobs (jobs : list (Z * PrivateCompactSnapshot)) (w : adm_world) : adm_world := {|
  aw_stores := aw_stores w; aw_heap := aw_heap w; aw_sessions := aw_sessions w; aw_out := aw_out w; aw_jobs := jobs |}.

Inductive exec_error := ExecLocked | ExecError (e : error).

Definition Reply (env : adm_env) (text : string) (isIntermediate : bool) (w : adm_world) : option exec_error * adm_world :=
  (ExecError <$> ae_reply env (length (aw_out w)), send (Say text isIntermediate) w).

Section executor.
Context `{UnicodeCase} `{Externals} (e : adm_engine) (env : adm_env) (cmdCtx : CommandContext).

(** The summaries of a conversation under one of its names. *)
Definition delete_summary (id : string) (x : list error * SessionManager) : list error * SessionManager :=
  match groupSummaryStore x.2 with
  | None => x
  | Some store =>
      let '(err, store) := SummaryStore.Delete (ae_saveHook env) (ae_save env) id store in
      (x.1 ++ match err with Some err => [err] | None => [] end, SetGroupSummaryStore (Some store) x.2)
  end.

Definition executeReset (w : adm_world) : option exec_error * adm_world :=
  let id := cc_SessionID cmdCtx in
  let '(err, h, sm) := SessionManager.ResetSession (ae_saveHook env) (ae_save env) id (ae_now env) (aw_heap w) (aw_sessions w) in
  let errs := match err with Some err => [err] | None => [] end in
  let canonicalID := CanonicalSessionKey id in
  let names := (if decide (canonicalID = "") then [] else [canonicalID]) ++ [id] ++ SessionKeyAliases id in
  let '(errs, sm) := foldl (fun x id => delete_summary id x) (errs, sm) names in
  let w := with_manager h sm w in
  match errs with
  | [] => Reply env "当前会话已重置。" false w
  | _ => Reply env ("当前会话已重置，但持久化总结清理失败：" +:+ Join errs newline_) false w
  end.

Definition target_platform : string := if decide (cc_Platform cmdCtx = "") then "qq" else cc_Platform cmdCtx.

Definition executeBan (cmd : ParsedCommand) (w : adm_world) : option exec_error * adm_world :=
  match pc_Args cmd with
  | [arg] =>
      let rawTarget := TrimSpace arg in
      if decide (rawTarget = "") then (Some (ExecError "ban 指令目标用户ID不能为空"), w) else
      match CleanTargetID rawTarget with
      | Err err => (Some (ExecError ("无效的目标用户ID: " +:+ err)), w)
      | Ok targetID =>
          if decide (targetID = cc_CallerUserID cmdCtx) then Reply env "无法封禁当前调用者账号。" false w else
          if IsAdmin (ad_AdminIDs e) targetID then Reply env "无法封禁管理员账号。" false w else
          match ad_Security e with
          | None => (Some (ExecError "安全控制器不可用"), w)
          | Some c =>
              match NewPrincipal target_platform targetID with
              | Err err => (Some (ExecError ("无效的用户ID: " +:+ err)), w)
              | Ok principal =>
                  match Controller_Lock (Some c) (ae_change env) principal "Admin ban" (aw_stores w) with
                  | (Some err, st) => (Some (ExecError ("封禁失败: " +:+ err)), with_stores st w)
                  | (None, st) => Reply env ("已成功封禁用户 " +:+ targetID +:+ "。") false (with_stores st w)
                  end
              end
          end
      end
  | _ => (Some (ExecError "ban 指令格式错误，需要指定一个用户ID：ban <userID>"), w)
  end.

Definition executeUnban (cmd : ParsedCommand) (w : adm_world) : option exec_error * adm_world :=
  match pc_Args cmd with
  | [arg] =>
      let rawTarget := TrimSpace arg in
      if decide (rawTarget = "") then (Some (ExecError "unban 指令目标用户ID不能为空"), w) else
      match CleanTargetID rawTarget with
      | Err err => (Some (ExecError ("无效的目标用户ID: " +:+ err)), w)
      | Ok targetID =>
          match ad_Security e with
          | None => (Some (ExecError "安全控制器不可用"), w)
          | Some c =>
              match NewPrincipal target_platform targetID with
              | Err err => (Some (ExecError ("无效的用户ID: " +:+ err)), w)
              | Ok principal =>
                  match Controller_Unlock (Some c) (ae_change env) principal (aw_stores w) with
                  | (Some err, st) => (Some (ExecError ("解封失败: " +:+ err)), with_stores st w)
                  | (None, st) => Reply env ("已成功解封用户 " +:+ targetID +:+ "。") false (with_stores st w)
                  end
              end
          end
      end
  | _ => (Some (ExecError "unban 指令格式错误，需要指定一个用户ID：unban <userID>"), w)
  end.

(** A compaction of a private conversation is left to a goroutine. *)
Definition executeCompact (w : adm_world) : option exec_error * adm_world :=
  if ae_compact_disabled env then Reply env "上下文压缩功能已被禁用。" false w else
  let '(p, h, sm) := GetOrCreate (cc_SessionID cmdCtx) (ae_now env) (aw_heap w) (aw_sessions w) in
  let w := with_manager h sm w in
  if cc_IsGroup cmdCtx then
    if negb (ad_GroupCompactor e) then (Some (ExecError "群聊压缩器未启用"), w) else
    match ae_force env with
    | Some ForceCompacting => Reply env "压缩正在进行中，请勿重复触发。" false w
    | Some ForceNothing => Reply env "当前会话没有需要压缩的内容。" false w
    | Some (ForceFailed err) => Reply env ("触发群聊上下文压缩失败：" +:+ err) false w
    | None => Reply env "已开始群聊上下文压缩总结..." true w
    end
  else
    match cells h !! p with
    | None => (None, w)
    | Some s =>
        match SnapshotPrivateCompact s with
        | (Err ErrAlreadyCompacting, _) => Reply env "压缩正在进行中，请勿重复触发。" false w
        | (Err ErrNothingToCompact, _) => Reply env "当前会话没有需要压缩的内容。" false w
        | (Ok snapshot, s) =>
            if negb (ae_go env)
            then Reply env "实例未就绪，无法执行私聊压缩。" false (with_manager (update_cell p (fun _ => CancelPrivateCompact s) h) sm w)
            else Reply env "已开始私聊上下文压缩总结..." true
                   (with_jobs (aw_jobs w ++ [(p, snapshot)]) (with_manager (update_cell p (fun _ => s) h) sm w))
        end
    end.

Definition executeReflect (w : adm_world) : option exec_error * adm_world :=
  if negb (ad_MemoryReflections e) then (Some (ExecError "记忆反思未启用或不可用"), w) else
  if negb (ae_reflect_started env) && ae_reflect_running env then Reply env "记忆反思任务正在执行中，请勿重复触发。" false w else
  match ae_reflect_error env with
  | Some err => Reply env ("触发记忆反思失败：" +:+ err) false w
  | None => Reply env "已开始记忆反思任务..." true w
  end.

Definition dispatch (cmd : ParsedCommand) (w : adm_world) : option exec_error * adm_world :=
  if decide (pc_Type cmd = CmdReset) then executeReset w
  else if decide (pc_Type cmd = CmdBan) then executeBan cmd w
  else if decide (pc_Type cmd = CmdUnban) then executeUnban cmd w
  else if decide (pc_Type cmd = CmdCompact) then executeCompact w
  else if decide (pc_Type cmd = CmdReflect) then executeReflect w
  else (Some (ExecError ("未知指令：" +:+ pc_Type cmd)), w).

Definition Execute (cmd : ParsedCommand) (w : adm_world) : option exec_error * adm_world :=
  match ad_Security e with
  | Some c =>
      if decide (cc_CallerUserID cmdCtx = "") then dispatch cmd w else
      match NewPrincipal target_platform (cc_CallerUserID cmdCtx) with
      | Err err => (Some (ExecError ("无效的调用者ID: " +:+ err)), w)
      | Ok principal =>
          match CheckAccess (Some c) (ae_execute_check env) principal (st_access (aw_stores w)) with
          | Some ErrLocked => (Some ExecLocked, (Reply env RejectGatewayMsg false w).2)
          | Some (AccessUnavailable err) => (Some (ExecError ("安全访问检查失败: " +:+ err)), w)
          | None => dispatch cmd w
          end
      end
  | None => dispatch cmd w
  end.
End executor.

(** The goroutine of a private compaction, when the model has answered: no
    provider, an error, or a text if the content was one. *)
Inductive compact_answer := NoProvider | ChatFailed (e : error) | ChatAnswered (content : option string).

Definition runPrivateCompact (sprint_parts : list ContentPart -> string) (env : adm_env) (answer : compact_answer) (job : Z * PrivateCompactSnapshot)
    (w : adm_world) : adm_world :=
  let '(p, snapshot) := job in
  let cancelled text := (Reply env text false (with_manager (update_cell p CancelPrivateCompact (aw_heap w)) (aw_sessions w) w)).2 in
  match answer with
  | NoProvider => cancelled "私聊上下文压缩总结失败：未配置可用的压缩模型 Provider"
  | ChatFailed err => cancelled ("私聊上下文压缩总结失败：" +:+ err)
  | ChatAnswered content =>
      let summary := TrimSpace (default "" content) in
      if decide (summary = "") then cancelled "私聊上下文压缩总结失败：模型返回了空总结" else
      match cells (aw_heap w) !! p with
      | None => w
      | Some s =>
          let '(committed, s) := CommitPrivateCompact sprint_parts snapshot summary (ae_now env) s in
          let w := with_manager (update_cell p (fun _ => s) (aw_heap w)) (aw_sessions w) w in
          (Reply env (if committed : bool then "私聊上下文压缩总结完成。" else "已丢弃失效的私聊上下文压缩总结（会话已被重置或变更）。") false w).2
      end
  end.

(** The completion callbacks of a compaction of a group and of a reflection. *)
Definition group_compact_done (env : adm_env) (compErr : option error) (w : adm_world) : adm_world :=
  (Reply env (match compErr with None => "群聊上下文压缩总结完成。" | Some err => "群聊上下文压缩总结失败：" +:+ err end) false w).2.
Definition reflect_done (env : adm_env) (reflectErr : option error) (w : adm_world) : adm_world :=
  (Reply env (match reflectErr with None => "记忆反思任务已完成。" | Some err => "记忆反思任务失败：" +:+ err end) false w).2.

(** * The adapters *)

Section adapters.
Context `{UnicodeCase} `{UnicodeLetter} `{UnicodeDigit} `{Externals}.

(** What both do with a candidate: admission, then the command in the background.
    [dropped] is what is sent to those who are no administrators, [platform] the
    one of the access check. *)
Definition admit_command (e : adm_engine) (env : adm_env) (dropped : list outgoing) (platform : string) (cmdCtx : CommandContext)
    (cmd : ParsedCommand) (parseErr : option error) (w : adm_world) : adm_world :=
  let callerID := cc_CallerUserID cmdCtx in
  if negb (IsAdmin (ad_AdminIDs e) callerID) then foldl (fun w o => send o w) w dropped else
  let admitted :=
    match parseErr with
    | Some err => send (Say (err +:+ newline_ +:+ newline_ +:+ FormatUsage (ad_CommandPrefix e)) false) w
    | None =>
        if negb (ae_run env) then send (Say "实例未就绪，无法执行指令。" false) w else
        match Execute e env cmdCtx cmd w with
        | (Some (ExecError err), w) => send (Say ("执行指令失败：" +:+ err) false) w
        | (_, w) => w
        end
    end in
  match ad_Security e with
  | None => admitted
  | Some c =>
      match NewPrincipal platform callerID with
      | Err _ => w
      | Ok principal =>
          match CheckAccess (Some c) (ae_check env) principal (st_access (aw_stores w)) with
          | Some ErrLocked => send (Say RejectGatewayMsg false) w
          | Some _ => w
          | None => admitted
          end
      end
  end.

(** ** AstrBot *)

Inductive mentions := NoMentions | MentionStrings (l : list string) | MentionValues (l : list (option string)).
Definition extractMentionedUserIDs (m : mentions) : list string :=
  match m with
  | NoMentions => []
  | MentionStrings l => l
  | MentionValues l => omap (fun v => match v with Some s => if decide (TrimSpace s = "") then None else Some (TrimSpace s) | None => None end) l
  end.

Record Event := {
  ev_IsAt : bool; ev_Content : string; ev_Mentioned : mentions; ev_Platform : string; ev_MessageType : string;
  ev_UserID : string; ev_GroupID : string; ev_SessionID : string }.

(** The user a ban or its end is about, when it is mentioned; of a conflict, the
    error leaves out the argument. *)
Definition mention_target (cmd : ParsedCommand) (mentioned : list string) (err : option error) : ParsedCommand * option error :=
  let named target := {| pc_Type := pc_Type cmd; pc_Args := [target]; pc_RawArgs := target |} in
  match mentioned with
  | [] => (cmd, err)
  | [target] =>
      if EqualFold target "all" || bool_decide (target = "全体成员") || bool_decide (target = "0")
      then (cmd, Some (pc_Type cmd +:+ " 指令不支持对全体成员执行操作")) else
      match pc_Args cmd with
      | [] => (named target, None)
      | [arg0] =>
          let arg := TrimSpace arg0 in
          if HasPrefix arg "@" || HasPrefix arg "[" || bool_decide (arg = target) then (named target, None)
          else (cmd, Some (pc_Type cmd +:+ " 指令目标冲突：文本参数与提及目标不一致"))
      | _ => (cmd, Some (pc_Type cmd +:+ " 指令格式错误，不能同时指定多个目标或参数"))
      end
  | _ => (cmd, Some (pc_Type cmd +:+ " 指令格式错误，不能同时指定多个提及目标"))
  end.

Definition extractAstrBotAdminCommand (event : Event) (prefix : string) : ParsedCommand * bool * option error :=
  if negb (ev_IsAt event) then (no_command, false, None) else
  let '(cmd, isCandidate, err) := ParseCandidate (StripLeadingMention (ev_Content event)) prefix in
  if negb isCandidate then (cmd, false, None) else
  if decide (pc_Type cmd ∈ [CmdBan; CmdUnban]) then
    let '(cmd, err) := mention_target cmd (extractMentionedUserIDs (ev_Mentioned event)) err in (cmd, true, err)
  else (cmd, true, err).

Definition event_platform (event : Event) : string := if decide (ev_Platform event = "") then "astrbot" else ev_Platform event.
Definition sessionKey (event : Event) : string :=
  if decide (ev_SessionID event = "") then
    if decide (ev_MessageType event = "group") then event_platform event +:+ ":group:" +:+ ev_GroupID event
    else event_platform event +:+ ":private:" +:+ ev_UserID event
  else ev_SessionID event.

(** [mock] connections take no commands.  The result says whether the message was
    one. *)
Definition handleAstrBotCommand (e : adm_engine) (env : adm_env) (mock : bool) (event : Event) (w : adm_world) : bool * adm_world :=
  if mock then (false, w) else
  let '(cmd, isCandidate, parseErr) := extractAstrBotAdminCommand event (ad_CommandPrefix e) in
  if negb isCandidate then (false, w) else
  let platform := event_platform event in
  let callerID := TrimSpace (ev_UserID event) in
  let group := bool_decide (ev_MessageType event = "group") in
  let cmdCtx := {|
    cc_SessionID := sessionKey event;
    cc_Owner := if group then (OwnerForPlatformGroup platform (ev_GroupID event)).1 else (OwnerForPlatformPrivate platform callerID).1;
    cc_IsGroup := group; cc_CallerUserID := callerID; cc_Platform := platform;
    cc_GroupID := if group then ev_GroupID event else "" |} in
  (true, admit_command e env [Noop] platform cmdCtx cmd parseErr w).

(** ** OneBot *)

(** The value of [qq]: a string, a number by its decimal text, or something else. *)
Inductive at_qq := QQString (s : string) | QQNumber (text : string) | QQOther.
Inductive MessageSegment := SegAt (qq : at_qq) | SegText (text : option string) | SegOther (type : string).

Record OneBotEvent := { ob_SelfID : Z; ob_Message : list MessageSegment; ob_MessageType : string; ob_UserID : Z; ob_GroupID : Z }.

Definition at_text (qq : at_qq) : string := match qq with QQString s => s | QQNumber text => text | QQOther => "" end.
Definition names_self (self : string) (seg : MessageSegment) : bool := match seg with SegAt qq => bool_decide (at_text qq = self) | _ => false end.
Definition segment_text (seg : MessageSegment) : string :=
  match seg with
  | SegText text => default "" text
  | SegAt qq => " " +:+ match qq with QQString s => TrimSpace s | _ => at_text qq end +:+ " "
  | SegOther type => " [" +:+ type +:+ "] "
  end.

Definition extractOneBotAdminCommand (event : OneBotEvent) (prefix : string) : ParsedCommand * bool * option error :=
  let selfIDStr := pretty (ob_SelfID event) in
  if bool_decide (selfIDStr = "0") || bool_decide (selfIDStr = "") then (no_command, false, None) else
  if negb (existsb (names_self selfIDStr) (ob_Message event)) then (no_command, false, None) else
  let remainingSegments := filter (fun seg => names_self selfIDStr seg = false) (ob_Message event) in
  ParseCandidate (TrimSpace (foldr (fun seg text => segment_text seg +:+ text) "" remainingSegments)) prefix.

Definition historyKey (event : OneBotEvent) : string :=
  if decide (ob_MessageType event = "group") then "group:" +:+ pretty (ob_GroupID event) else "private:" +:+ pretty (ob_UserID event).

(** A reply that cannot be sent is no error here. *)
Definition handleOneBotCommand (e : adm_engine) (env : adm_env) (mock : bool) (event : OneBotEvent) (w : adm_world) : bool * adm_world :=
  if mock then (false, w) else
  let '(cmd, isCandidate, parseErr) := extractOneBotAdminCommand event (ad_CommandPrefix e) in
  if negb isCandidate then (false, w) else
  let callerID := pretty (ob_UserID event) in
  let group := bool_decide (ob_MessageType event = "group") in
  let cmdCtx := {|
    cc_SessionID := historyKey event;
    cc_Owner := if group then (OwnerForGroup (ob_GroupID event)).1 else (OwnerForPrivate callerID).1;
    cc_IsGroup := group; cc_CallerUserID := callerID; cc_Platform := "onebot";
    cc_GroupID := if group && negb (ob_GroupID event =? 0)%Z then pretty (ob_GroupID event) else "" |} in
  (true, admit_command e env [] "onebot" cmdCtx cmd parseErr w).
End adapters.

(** * Usage *)

(** Folding the case of a text against itself. *)
Class FoldLaws `{UnicodeCase} := { unicode_equal_fold_refl s : unicode_equal_fold s s = true }.

Lemma EqualFold_refl `{FoldLaws} s : EqualFold s s = true.
Proof. unfold EqualFold. destruct (_ && _); [by apply bool_decide_eq_true_2|apply unicode_equal_fold_refl]. Qed.

(** A trimmed text stays so with more after it that starts in ASCII and ends in
    print. *)
Lemma trimmed_append p c m m' d : trimmed p -> p <> "" -> ascii_byte c = true -> plain_byte d = true -> c :: m = m' ++ [d] ->
  trimmed (p +:+ of_bytes (c :: m)).
Proof.
  intros [Hl _] Hne Hc Hd E. unfold trimmed, trimmed_bytes. rewrite to_bytes_app, to_of_bytes. split.
  - apply clean_app_ascii; [apply encodings_shape|done| |done]. intros Ep. apply Hne, (inj to_bytes). by rewrite Ep.
  - rewrite E, app_assoc, rev_app_distr. by apply clean_rev_plain.
Qed.

Lemma strip_one_plain c l : plain_byte c = true -> strip_one space_encodings (c :: l) = None.
Proof.
  intros Hc. change (GoStrings.clean space_encodings (c :: l)). apply clean_spec. intros e r He Heq.
  pose proof (space_encodings_nonempty e He). apply encodings_not_plain in He. destruct e as [|d e]; [done|]. injection Heq as <- _.
  apply Forall_cons in He as [Hd _]. congruence.
Qed.

(** The fields of a word, and of two words. *)
Lemma fields_word fuel w cur rest : Forall (fun c => plain_byte c = true) w ->
  fields_bytes (length w + fuel) space_encodings cur (w ++ rest) = fields_bytes fuel space_encodings (rev w ++ cur) rest.
Proof.
  intros Hw. revert cur. induction Hw as [|c w Hc Hw IH]; intros cur; [done|]. cbn [length Nat.add app fields_bytes]. rewrite strip_one_plain by done.
  rewrite IH. cbn [rev]. by rewrite <- app_assoc.
Qed.

Lemma fields_one w : plain w = true -> FieldsFunc space_encodings w = [w].
Proof.
  intros [Hne Hw]%plain_forall. unfold FieldsFunc, slen. rewrite <- (app_nil_r (to_bytes w)) at 2. rewrite <- Nat.add_1_r, fields_word by done.
  cbn [fields_bytes]. rewrite app_nil_r. change (strip_one space_encodings []) with (@None (list ascii)). cbn [fields_bytes].
  destruct (rev (to_bytes w)) as [|c l] eqn:E; [by apply (f_equal (@rev ascii)) in E; rewrite rev_involutive in E|].
  change (of_bytes <$> [rev ((c :: l) ++ [])] = [w]). rewrite app_nil_r, <- E, rev_involutive. cbn. by rewrite of_to_bytes.
Qed.

Lemma fields_two a b : plain a = true -> plain b = true -> FieldsFunc space_encodings (a +:+ " " +:+ b) = [a; b].
Proof.
  intros [Hna Ha]%plain_forall Hb. pose proof (fields_one b Hb) as Hone. unfold FieldsFunc in *. rewrite !to_bytes_app. unfold slen in *. rewrite !to_bytes_app, !length_app.
  change (to_bytes " ") with [" "%char]. change (length [" "%char]) with 1%nat.
  replace (S (length (to_bytes a) + (1 + length (to_bytes b)))) with (length (to_bytes a) + S (S (length (to_bytes b))))%nat by lia.
  rewrite fields_word by done. cbn [app]. rewrite app_nil_r.
  change (fields_bytes (S (S (length (to_bytes b)))) space_encodings (rev (to_bytes a)) (" "%char :: to_bytes b))
    with (match rev (to_bytes a) with [] => [] | _ => [rev (rev (to_bytes a))] end ++ fields_bytes (S (length (to_bytes b))) space_encodings [] (to_bytes b)).
  rewrite fmap_app, Hone. destruct (rev (to_bytes a)) as [|c l] eqn:E; [by apply (f_equal (@rev ascii)) in E; rewrite rev_involutive in E|].
  rewrite <- E, rev_involutive. cbn. by rewrite of_to_bytes.
Qed.

(** * Targets *)

Section targets.
Context `{UnicodeCase} `{UnicodeLetter} `{UnicodeDigit}.

(** What a ban can name. *)
Definition id_ok (id : string) : Prop :=
  id <> "" /\ forallb id_byte (to_bytes id) = true /\ (slen id <= 256)%nat /\ EqualFold id "all" = false /\ id <> "0".

Lemma id_byte_class c : id_byte c = true -> plain_byte c = true /\ c ∉ illegal_bytes.
Proof.
  assert (Hall : forallb (fun c => negb (id_byte c) || plain_byte c && negb (bool_decide (c ∈ illegal_bytes))) all_bytes = true) by by vm_compute.
  intros Hc. pose proof (byte_forall _ Hall c) as Hb. cbn beta in Hb. rewrite Hc in Hb. cbn [negb orb] in Hb.
  rewrite andb_true_iff, negb_true_iff, bool_decide_eq_false in Hb. done.
Qed.

Lemma id_bytes id : forallb id_byte (to_bytes id) = true -> forall c, c ∈ to_bytes id -> plain_byte c = true /\ c ∉ illegal_bytes.
Proof. intros Hid c Hc. apply id_byte_class. rewrite forallb_forall in Hid. apply Hid. by apply list_elem_of_In. Qed.

Lemma id_plain id : id_ok id -> plain id = true.
Proof.
  intros (Hne & Hb & _). unfold plain. rewrite bool_decide_eq_false_2 by (intros E; apply Hne, (inj to_bytes); by rewrite E).
  apply forallb_forall. intros c Hc. apply (id_bytes id Hb). by apply list_elem_of_In.
Qed.

Lemma checked_id_Ok t id : checked_id t = Ok id <-> t = id /\ id_ok id.
Proof.
  unfold checked_id, id_ok. split.
  - destruct (decide (t = "")) as [|Hne]; [done|]. destruct (EqualFold t "all" || bool_decide (t = "全体成员") || bool_decide (t = "0")) eqn:Ha; [done|].
    destruct (existsb _ _); [done|]. destruct (forallb id_byte (to_bytes t)) eqn:Hb; [|done]. cbn [negb]. destruct (256 <? slen t)%nat eqn:Hl; [done|].
    intros [= <-]. apply Nat.ltb_ge in Hl. rewrite !orb_false_iff in Ha. destruct Ha as [[Ha _] Hz]. apply bool_decide_eq_false in Hz. done.
  - intros (-> & Hne & Hb & Hl & Hall & Hz). rewrite decide_False, Hall by done. cbn [orb].
    rewrite bool_decide_eq_false_2 by (intros ->; by vm_compute in Hb). rewrite bool_decide_eq_false_2 by done. cbn [orb].
    assert (Hno : existsb (fun c => bool_decide (c ∈ illegal_bytes)) (to_bytes id) = false).
    { apply not_true_iff_false. intros (c & Hc & Hill)%existsb_exists. apply bool_decide_eq_true in Hill. apply list_elem_of_In in Hc.
      by apply (id_bytes id Hb c Hc). }
    rewrite Hno, Hb. cbn [negb]. destruct (256 <? slen id)%nat eqn:Hlt; [apply Nat.ltb_lt in Hlt; lia|done].
Qed.

Lemma CleanTargetID_ok raw id : CleanTargetID raw = Ok id -> id_ok id.
Proof. unfold CleanTargetID. case_decide; [done|]. intros Hc. by apply checked_id_Ok in Hc as [_ Hc]. Qed.

Lemma HasPrefix_app p s : HasPrefix (p +:+ s) p = true.
Proof. unfold HasPrefix. by rewrite CutPrefix_app. Qed.

Lemma HasSuffix_app s p : HasSuffix (s +:+ p) p = true.
Proof. unfold HasSuffix. rewrite to_bytes_app, rev_app_distr, cut_prefix_app. by apply bool_decide_eq_true_2. Qed.

Lemma HasPrefix_other c d s t : c <> d -> HasPrefix (String.String c s) (String.String d t) = false.
Proof. intros Hne. unfold HasPrefix, CutPrefix. cbn. destruct (Ascii.eqb_spec d c) as [->|]; [done|done]. Qed.

Lemma at_illegal : "@"%char ∈ illegal_bytes.
Proof. apply (bool_decide_eq_true_1 ("@"%char ∈ illegal_bytes)). by vm_compute. Qed.

(** An identifier may be written bare, or as any kind of mention. *)
Lemma CleanTargetID_forms id : id_ok id -> forall form, form ∈ [id; "@" +:+ id; "[" +:+ id +:+ "]"; "[@" +:+ id +:+ "]"] -> CleanTargetID form = Ok id.
Proof.
  intros Hid. pose proof (id_plain id Hid) as Hplain. pose proof (plain_forall id Hplain) as [Hne Hp].
  assert (Hdone : forall t, t = id -> checked_id (TrimSpace t) = Ok id).
  { intros t ->. rewrite TrimSpace_id by by apply plain_trimmed. by apply checked_id_Ok. }
  assert (Hends : exists c l, id = String.String c l /\ c ∉ illegal_bytes).
  { destruct id as [|c l]; [done|]. exists c, l. split; [done|]. destruct Hid as (_ & Hb & _). apply (id_bytes _ Hb c). by left. }
  destruct Hends as (c & l & E & Hc).
  assert (Hbare : CutPrefix id "@" = None /\ HasPrefix id "[@" = false /\ HasPrefix id "[" = false).
  { rewrite E. rewrite !HasPrefix_other by (intros ->; apply Hc; unfold illegal_bytes; by vm_compute; set_solver).
    split; [|done]. apply CutPrefix_None. intros r [= -> _]. apply Hc. unfold illegal_bytes. set_solver. }
  destruct Hbare as (Hb1 & Hb2 & Hb3).
  assert (Htrim : forall f, plain f = true -> TrimSpace f = f /\ f <> "") by (intros f Hf; split; [by apply TrimSpace_id, plain_trimmed|by intros ->]).
  assert (Hplains : plain ("@" +:+ id) = true /\ plain ("[" +:+ id +:+ "]") = true /\ plain ("[@" +:+ id +:+ "]") = true).
  { unfold plain in *. rewrite !to_bytes_app. cbn [to_bytes]. apply andb_true_iff in Hplain as [_ Hplain]. rewrite !forallb_app, Hplain.
    rewrite !bool_decide_eq_false_2 by done. by vm_compute. }
  destruct Hplains as (Hp1 & Hp2 & Hp3). assert (Hsuffix : forall x, HasSuffix (x +:+ "]") "]" = true) by (intros x; apply HasSuffix_app).
  intros form Hform. unfold CleanTargetID. unfold unbracketed.
  rewrite !elem_of_cons, elem_of_nil in Hform. destruct Hform as [->|[->|[->|[->|[]]]]].
  - destruct (Htrim id Hplain) as [-> Hn]. rewrite decide_False, Hb2, Hb3 by done. cbn [andb]. rewrite Hb1. by apply Hdone.
  - destruct (Htrim _ Hp1) as [-> Hn]. rewrite decide_False by done.
    assert (Hno : HasPrefix ("@" +:+ id) "[@" = false /\ HasPrefix ("@" +:+ id) "[" = false) by (split; reflexivity). destruct Hno as [-> ->].
    cbn [andb]. rewrite CutPrefix_app. by apply Hdone.
  - destruct (Htrim _ Hp2) as [-> Hn]. rewrite decide_False by done.
    assert (Hno : HasPrefix ("[" +:+ id +:+ "]") "[@" = false) by (unfold HasPrefix; destruct (CutPrefix ("[" +:+ id +:+ "]") "[@") as [r|] eqn:Hcp;
      [apply CutPrefix_Some in Hcp; rewrite E in Hcp; injection Hcp as -> _; exfalso; exact (Hc at_illegal)|done]).
    rewrite Hno, HasPrefix_app. rewrite (assoc_L String.append "[" id "]"), Hsuffix. cbn [andb]. rewrite <- (assoc_L String.append).
    assert (Ht : stake (slen ("[" +:+ id +:+ "]") - 2) (sdrop 1 ("[" +:+ id +:+ "]")) = id).
    { change 1%nat with (slen "["). rewrite sdrop_app, !slen_app. change (slen "[") with 1%nat. change (slen "]") with 1%nat.
      replace (1 + (slen id + 1) - 2)%nat with (slen id) by lia. apply stake_app. }
    rewrite Ht, Hb1. by apply Hdone.
  - destruct (Htrim _ Hp3) as [-> Hn]. rewrite decide_False by done. rewrite HasPrefix_app. rewrite (assoc_L String.append "[@" id "]"), Hsuffix. cbn [andb]. rewrite <- (assoc_L String.append).
    assert (Ht : stake (slen ("[@" +:+ id +:+ "]") - 3) (sdrop 2 ("[@" +:+ id +:+ "]")) = id).
    { change 2%nat with (slen "[@"). rewrite sdrop_app, !slen_app. change (slen "[@") with 2%nat. change (slen "]") with 1%nat.
      replace (2 + (slen id + 1) - 3)%nat with (slen id) by lia. apply stake_app. }
    rewrite Ht, Hb1. by apply Hdone.
Qed.

(** The target of a ban is who was meant.  What is accepted is an identifier of
    at most 256 safe bytes, never everybody; and an identifier may be written bare
    or as a mention, with or without brackets, and is understood as itself. *)
Theorem targets_are_understood raw id : (CleanTargetID raw = Ok id -> id_ok id) /\
  (id_ok id -> Forall (fun form => CleanTargetID form = Ok id) [id; "@" +:+ id; "[" +:+ id +:+ "]"; "[@" +:+ id +:+ "]"]).
Proof. split; [apply CleanTargetID_ok|]. intros Hid. apply Forall_forall. by apply CleanTargetID_forms. Qed.

(** ** The usage text *)

Lemma NormalizePrefix_ok prefix : let p := NormalizePrefix prefix in p <> "" /\ trimmed p /\ NormalizePrefix p = p.
Proof.
  cbn zeta. unfold NormalizePrefix. destruct (decide (TrimSpace prefix = "")) as [|Hne].
  - split; [done|]. split; [by apply plain_trimmed; vm_compute|by vm_compute].
  - split; [done|]. split; [apply TrimSpace_trimmed|]. rewrite TrimSpace_idemp. by rewrite decide_False.
Qed.

(** A command line: a name, and for some a user. *)
Definition command_line (name : string) (user : option string) : string :=
  match user with None => name | Some id => name +:+ " " +:+ id end.

Lemma command_line_ends name user : plain name = true -> (forall id, user = Some id -> plain id = true) ->
  exists c m m' d, to_bytes (command_line name user) = c :: m /\ c :: m = m' ++ [d] /\ plain_byte c = true /\ plain_byte d = true.
Proof.
  intros Hn Hu. pose proof (plain_forall name Hn) as [Hne Hp].
  destruct (to_bytes name) as [|c n] eqn:En; [done|]. assert (Hc : plain_byte c = true) by by inversion Hp.
  assert (Hlast : forall w : string, plain w = true -> exists k d, to_bytes w = k ++ [d] /\ plain_byte d = true).
  { intros w [Hw0 Hw]%plain_forall. destruct (exists_last Hw0) as (k & d & Ek). exists k, d. split; [done|]. rewrite Ek in Hw.
    apply Forall_app in Hw as [_ Hw]. by inversion Hw. }
  destruct user as [id|]; unfold command_line.
  - destruct (Hlast id (Hu id eq_refl)) as (k & d & Ek & Hd). exists c, (n ++ " "%char :: k ++ [d]), (c :: n ++ " "%char :: k), d.
    rewrite !to_bytes_app, En, Ek. split; [done|]. split; [cbn [app]; by rewrite <- app_assoc|done].
  - destruct (Hlast name Hn) as (k & d & Ek & Hd). rewrite En in Ek. by exists c, n, k, d.
Qed.

Lemma sdrop_0 s : sdrop 0 s = s.
Proof. unfold sdrop. cbn. apply of_to_bytes. Qed.

Lemma after_prefix_line `{!FoldLaws} p line c m m' d : p <> "" -> to_bytes line = c :: m -> c :: m = m' ++ [d] -> plain_byte c = true -> plain_byte d = true ->
  after_prefix (p +:+ (if IsWordPrefix p then " " else "") +:+ line) p = Some (Ok line).
Proof.
  intros Hne E E' Hc Hd. assert (Hline : trimmed line) by (apply (plain_ends_trimmed line c m d m'); [done|by rewrite E|done|done]). unfold after_prefix. rewrite slen_app.
  destruct (slen p + _ <? slen p)%nat eqn:Hlt; [apply Nat.ltb_lt in Hlt; lia|]. rewrite stake_app, EqualFold_refl. cbn [negb]. rewrite sdrop_app.
  destruct (IsWordPrefix p).
  - change (" " +:+ line) with (String.String " " line). rewrite decide_False by done.
    change (to_bytes (String.String " " line)) with (" "%char :: to_bytes line). rewrite (proj1 (strip_one_space _)). by rewrite TrimSpace_cons_space.
  - change ("" +:+ line) with line. by rewrite TrimSpace_id.
Qed.

Lemma ParseCandidate_line `{!FoldLaws} prefix name user : plain name = true -> (forall id, user = Some id -> plain id = true) ->
  let p := NormalizePrefix prefix in
  let cmd := {| pc_Type := ToLower name; pc_Args := match user with Some id => [id] | None => [] end; pc_RawArgs := default "" user |} in
  ParseCandidate (p +:+ PrefixSeparator p +:+ command_line name user) prefix = (cmd, true, check_command cmd).
Proof.
  intros Hn Hu p cmd. destruct (NormalizePrefix_ok prefix) as (Hne & Htrim & _). fold p in Hne, Htrim.
  destruct (command_line_ends name user Hn Hu) as (c & m & m' & d & E & E' & Hc & Hd). set (line := command_line name user) in *.
  assert (Hcx : exists x xs, to_bytes (PrefixSeparator p +:+ line) = x :: xs /\ ascii_byte x = true /\ exists k, x :: xs = k ++ [d]).
  { unfold PrefixSeparator. destruct (IsWordPrefix p).
    - exists " "%char, (c :: m). rewrite to_bytes_app, E. split; [done|]. split; [done|]. exists (" "%char :: m'). by rewrite E'.
    - exists c, m. split; [done|]. split; [|by exists m']. assert (Hall : forallb (fun c => negb (plain_byte c) || ascii_byte c) all_bytes = true) by by vm_compute.
      pose proof (byte_forall _ Hall c) as Hb. cbn beta in Hb. by rewrite Hc in Hb. }
  destruct Hcx as (x & xs & Ex & Hx & k & Ek).
  assert (Htext : trimmed (p +:+ PrefixSeparator p +:+ line)).
  { rewrite <- (of_to_bytes (PrefixSeparator p +:+ line)), Ex. by apply (trimmed_append p x xs k d). }
  unfold ParseCandidate. fold p. rewrite (TrimSpace_id _ Htext). rewrite decide_False.
  2:{ intros Hz. apply Hne. destruct p; [done|]. by cbn in Hz. }
  unfold PrefixSeparator. rewrite (after_prefix_line p line c m m' d) by done. rewrite decide_False by (intros Hz; by rewrite Hz in E).
  unfold line, cmd, command_line. destruct user as [id|]; [|by rewrite fields_one].
  rewrite fields_two by (try done; by apply Hu). cbn [default]. rewrite sdrop_app. change (" " +:+ id) with (String.String " " id).
  rewrite TrimSpace_cons_space by (apply plain_trimmed; by apply Hu). done.
Qed.

End targets.

(** * What a command can do *)

Section effects.
Context `{UnicodeCase} `{UnicodeLetter} `{UnicodeDigit} `{Externals}.

Lemma Access_update_frame {A} (env : faults) (fn : _ -> A * _) zero file k : (fn file).2 !! k = file !! k -> (update env fn zero file).2 !! k = file !! k.
Proof. unfold update. destruct (load_error env); [done|]. destruct (fn file) as [a f]. by destruct (save_error env). Qed.

Lemma Lock_frame c env p reason st k : k <> Key p -> st_access (Controller_Lock (Some c) env p reason st).2 !! k = st_access st !! k.
Proof.
  intros Hk. unfold Controller_Lock, LockWithMeta. destruct (negb (c_Access c)); [done|]. destruct (Access.Lock _ _ _ _ _) as [err file] eqn:Hl.
  assert (Hf : file !! k = st_access st !! k).
  { unfold Access.Lock in Hl. pose proof (Access_update_frame (en_record env) (fun f => (tt, <[Key p := lock_record p reason (en_recorded env) (default zero_record (f !! Key p))]> f)) tt (st_access st) k) as Hfr.
    destruct (update _ _ _ _) as [[u e2] f2]. injection Hl as <- <-. apply Hfr. cbn. by rewrite lookup_insert_ne. }
  destruct err; [done|]. cbn [snd]. by rewrite append_event_access.
Qed.

Lemma Unlock_frame c env p st k : k <> Key p -> st_access (Controller_Unlock (Some c) env p st).2 !! k = st_access st !! k.
Proof.
  intros Hk. unfold Controller_Unlock. destruct (negb (c_Access c)); [done|]. destruct (Access.Unlock _ _ _ _) as [err file] eqn:Hl.
  assert (Hf : file !! k = st_access st !! k).
  { unfold Access.Unlock in Hl. match type of Hl with context [update _ ?fn _ _] => pose proof (Access_update_frame (en_record env) fn tt (st_access st) k) as Hfr end.
    destruct (update _ _ _ _) as [[u e2] f2]. injection Hl as <- <-. apply Hfr. cbn. destruct (st_access st !! Key p); [by rewrite lookup_insert_ne|done]. }
  destruct err; [done|]. cbn [snd]. by rewrite append_event_access.
Qed.

Definition locked (k : string) (st : Stores) : Prop := exists r, st_access st !! k = Some r /\ ar_State r = AccessLocked.

Lemma Unlock_locks c env p st k : locked k (Controller_Unlock (Some c) env p st).2 -> locked k st.
Proof.
  unfold Controller_Unlock. destruct (negb (c_Access c)); [done|]. destruct (Access.Unlock _ _ _ _) as [err file] eqn:Hl.
  assert (Hf : forall rec, file !! k = Some rec -> ar_State rec = AccessLocked -> locked k st).
  { intros rec Hrec Hst. unfold Access.Unlock, update in Hl. destruct (load_error (en_record env)); [injection Hl as _ <-; by exists rec|].
    destruct (save_error (en_record env)); injection Hl as _ <-; [by exists rec|].
    destruct (st_access st !! Key p) as [old|] eqn:Hold; [|by exists rec]. destruct (decide (k = Key p)) as [->|Hne].
    - rewrite lookup_insert_eq in Hrec. by injection Hrec as <-.
    - rewrite lookup_insert_ne in Hrec by done. by exists rec. }
  destruct err; intros (rec & Hrec & Hst); cbn [snd] in Hrec; [by apply (Hf rec)|]. rewrite append_event_access in Hrec. by apply (Hf rec).
Qed.

(** The session of the conversation. *)
Definition own_session (cmdCtx : CommandContext) (env : adm_env) (w : adm_world) : Z :=
  (GetOrCreate (cc_SessionID cmdCtx) (ae_now env) (aw_heap w) (aw_sessions w)).1.1.

(** A ban or its end, of a user who may be banned. *)
Definition may_change (e : adm_engine) (cmdCtx : CommandContext) (cmd : ParsedCommand) (k : string) : Prop :=
  exists target p, id_ok target /\ NewPrincipal (target_platform cmdCtx) target = Ok p /\ k = Key p /\
    (exists arg, pc_Args cmd = [arg] /\ CleanTargetID (TrimSpace arg) = Ok target) /\
    (pc_Type cmd = CmdUnban \/ pc_Type cmd = CmdBan /\ IsAdmin (ad_AdminIDs e) target = false /\ target <> cc_CallerUserID cmdCtx).

Record confined (e : adm_engine) (env : adm_env) (cmdCtx : CommandContext) (cmd : ParsedCommand) (w w' : adm_world) : Prop := {
  cf_access k : st_access (aw_stores w') !! k <> st_access (aw_stores w) !! k -> may_change e cmdCtx cmd k;
  cf_locks k : locked k (aw_stores w') -> ~ locked k (aw_stores w) -> pc_Type cmd <> CmdUnban;
  cf_cells q : cells (aw_heap w') !! q <> cells (aw_heap w) !! q -> q = own_session cmdCtx env w;
}.

(** What leaves stores and sessions alone. *)
Lemma confined_same e env cmdCtx cmd w w' : st_access (aw_stores w') = st_access (aw_stores w) -> cells (aw_heap w') = cells (aw_heap w) -> confined e env cmdCtx cmd w w'.
Proof. intros Ea Eh. split; [by rewrite Ea| |by rewrite Eh]. unfold locked. rewrite Ea. by intros k Hl Hn; destruct (Hn Hl). Qed.

Section one.
Variables (e : adm_engine) (env : adm_env) (cmdCtx : CommandContext) (cmd : ParsedCommand).
Abbreviation fine w r := (confined e env cmdCtx cmd w r.2).


Lemma reset_confined w : fine w (executeReset env cmdCtx w).
Proof.
  unfold executeReset. destruct (SessionManager.ResetSession _ _ _ _ _ _) as [[err h] sm] eqn:Hr.
  destruct (foldl _ _ _) as [errs sm']. assert (Hh : forall q, cells h !! q <> cells (aw_heap w) !! q -> q = own_session cmdCtx env w).
  { unfold own_session, GetOrCreate. unfold SessionManager.ResetSession in Hr. destruct (find_session _ _) as [p|] eqn:Hf.
    - destruct (cells (aw_heap w) !! p) as [s|] eqn:Hs; [|by injection Hr as _ <- _]. destruct (Session.ResetSession _ _ _ _ _) as [[er s'] st]. injection Hr as _ <- _.
      intros q Hq. cbn [update_cell cells] in Hq. destruct (decide (q = p)) as [->|Hne]; [done|]. by rewrite lookup_alter_ne in Hq.
    - destruct (groupSummaryStore (aw_sessions w)); [destruct (SummaryStore.Delete _ _ _ _)|]; by injection Hr as _ <- _. }
  destruct errs; (split; [done|by intros k Hl Hn; destruct (Hn Hl)|exact Hh]).
Qed.

Lemma targeted (arg target : string) p : CleanTargetID (TrimSpace arg) = Ok target -> pc_Args cmd = [arg] ->
  NewPrincipal (target_platform cmdCtx) target = Ok p ->
  (pc_Type cmd = CmdUnban \/ pc_Type cmd = CmdBan /\ IsAdmin (ad_AdminIDs e) target = false /\ target <> cc_CallerUserID cmdCtx) ->
  forall w st r, (forall k, k <> Key p -> st_access st !! k = st_access (aw_stores w) !! k) -> (pc_Type cmd = CmdUnban -> forall k, locked k st -> locked k (aw_stores w)) -> st_access (aw_stores r) = st_access st -> cells (aw_heap r) = cells (aw_heap w) ->
  confined e env cmdCtx cmd w r.
Proof.
  intros Hc Ha Hp Hallowed w st r Hk Hun Er Eh. split; [| |rewrite Eh; done].
  2:{ intros k Hl Hn Hty. apply Hn, (Hun Hty). unfold locked in *. by rewrite <- Er. }
  intros k Hne. rewrite Er in Hne.
  destruct (decide (k = Key p)) as [->|Hkp]; [|by destruct (Hne (Hk k Hkp))]. exists target, p. split; [by eapply CleanTargetID_ok|]. split; [done|]. split; [done|].
  split; [by exists arg|done].
Qed.

Lemma ban_confined w : pc_Type cmd = CmdBan -> fine w (executeBan e env cmdCtx cmd w).
Proof.
  intros Ht. unfold executeBan. assert (Hno : forall err : option exec_error, fine w (err, w)) by (intros err; by apply confined_same).
  assert (Hsay : forall t, fine w (Reply env t false w)) by (intros t; by apply confined_same).
  destruct (pc_Args cmd) as [|arg [|? ?]] eqn:Ha; [apply Hno| |apply Hno]. case_decide; [apply Hno|].
  destruct (CleanTargetID (TrimSpace arg)) as [target|] eqn:Hc; [|apply Hno]. destruct (decide (target = _)) as [|Hself]; [apply Hsay|].
  destruct (IsAdmin _ _) eqn:Hadm; [apply Hsay|]. destruct (ad_Security e) as [c|]; [|apply Hno].
  destruct (NewPrincipal _ _) as [p|] eqn:Hp; [|apply Hno]. pose proof (Lock_frame c (ae_change env) p "Admin ban" (aw_stores w)) as Hf.
  destruct (Controller_Lock (Some c) _ p _ _) as [err st].
  destruct err; (apply (targeted arg target p Hc Ha Hp) with (st := st); [by right|exact Hf|by rewrite Ht|done|done]).
Qed.

Lemma unban_confined w : pc_Type cmd = CmdUnban -> fine w (executeUnban e env cmdCtx cmd w).
Proof.
  intros Ht. unfold executeUnban. assert (Hno : forall err : option exec_error, fine w (err, w)) by (intros err; by apply confined_same).
  destruct (pc_Args cmd) as [|arg [|? ?]] eqn:Ha; [apply Hno| |apply Hno]. case_decide; [apply Hno|].
  destruct (CleanTargetID (TrimSpace arg)) as [target|] eqn:Hc; [|apply Hno]. destruct (ad_Security e) as [c|]; [|apply Hno].
  destruct (NewPrincipal _ _) as [p|] eqn:Hp; [|apply Hno]. pose proof (Unlock_frame c (ae_change env) p (aw_stores w)) as Hf.
  pose proof (Unlock_locks c (ae_change env) p (aw_stores w)) as Hu.
  destruct (Controller_Unlock (Some c) _ p _) as [err st]. destruct err; apply (targeted arg target p Hc Ha Hp) with (st := st); auto.
Qed.

Lemma compact_confined w : fine w (executeCompact e env cmdCtx w).
Proof.
  unfold executeCompact. destruct (ae_compact_disabled env); [by apply confined_same|].
  destruct (GetOrCreate _ _ _ _) as [[p h] sm] eqn:Hg. assert (Hp : p = own_session cmdCtx env w) by (unfold own_session; by rewrite Hg).
  assert (Hh : forall q, q <> p -> cells h !! q = cells (aw_heap w) !! q).
  { intros q Hq. unfold GetOrCreate, create_locked in Hg. destruct (find_session _ _); [by injection Hg as _ <- _|].
    destruct (first_key _ _) as [[k p']|]; injection Hg as <- <- _; [done|]. cbn [cells]. by rewrite lookup_insert_ne. }
  assert (Hcells : forall r, st_access (aw_stores r) = st_access (aw_stores w) -> (forall q, q <> p -> cells (aw_heap r) !! q = cells h !! q) -> confined e env cmdCtx cmd w r).
  { intros r Ea Er. split; [by rewrite Ea|by unfold locked; rewrite Ea; intros k Hl Hn; destruct (Hn Hl)|]. intros q Hq. destruct (decide (q = p)) as [->|Hne]; [done|]. by rewrite Er, Hh in Hq. }
  destruct (cc_IsGroup cmdCtx).
  - destruct (negb (ad_GroupCompactor e)); [by apply Hcells|]. destruct (ae_force env) as [[| |?]|]; by apply Hcells.
  - destruct (cells h !! p) as [s|]; [|by apply Hcells]. destruct (SnapshotPrivateCompact s) as [[snapshot|[|]] s']; [|by apply Hcells..].
    destruct (negb (ae_go env)); (apply Hcells; [done|]); intros q Hq; cbn; by rewrite lookup_alter_ne.
Qed.

Lemma dispatch_confined w : fine w (dispatch e env cmdCtx cmd w).
Proof.
  unfold dispatch. case_decide; [apply reset_confined|]. case_decide; [by apply ban_confined|]. case_decide; [by apply unban_confined|].
  case_decide; [apply compact_confined|]. case_decide; [|by apply confined_same].
  unfold executeReflect. destruct (negb _); [by apply confined_same|]. destruct (_ && _); [by apply confined_same|].
  destruct (ae_reflect_error env); by apply confined_same.
Qed.

Lemma Execute_confined w : fine w (Execute e env cmdCtx cmd w).
Proof.
  unfold Execute. destruct (ad_Security e) as [c|]; [|apply dispatch_confined]. case_decide; [apply dispatch_confined|].
  destruct (NewPrincipal _ _) as [p|]; [|by apply confined_same]. destruct (CheckAccess _ _ _ _) as [[|err]|]; [by apply confined_same..|apply dispatch_confined].
Qed.
End one.

Lemma IsAdmin_trim ids id : IsAdmin ids (TrimSpace id) = IsAdmin ids id.
Proof. unfold IsAdmin. by rewrite TrimSpace_idemp. Qed.

Lemma NewPrincipal_Ok platform id p : NewPrincipal platform id = Ok p -> pr_Platform p = CanonicalPlatform platform /\ pr_UserID p = TrimSpace id.
Proof. unfold NewPrincipal. destruct (_ || _); [done|]. by intros [= <-]. Qed.

(** C15: administrators cannot be banned by command, nor anybody who was not named.
    Whatever a command is and whatever fails: the access store changes at most for
    the one user that a ban, or its end, names by a well-formed identifier; neither
    an administrator nor the caller becomes locked by it; and of the sessions only
    that of the conversation is touched. *)
Theorem commands_are_confined e env cmdCtx cmd w err w' : Execute e env cmdCtx cmd w = (err, w') ->
  confined e env cmdCtx cmd w w' /\
  forall id p, NewPrincipal (target_platform cmdCtx) id = Ok p -> IsAdmin (ad_AdminIDs e) id = true \/ TrimSpace id = cc_CallerUserID cmdCtx ->
    locked (Key p) (aw_stores w') -> locked (Key p) (aw_stores w).
Proof.
  intros Hx. pose proof (Execute_confined e env cmdCtx cmd w) as Hc. rewrite Hx in Hc. cbn [snd] in Hc. split; [done|]. intros id p Hp Hspared Hl.
  destruct Hc as [Hacc Hlocks _].
  assert (Hdec : locked (Key p) (aw_stores w) \/ ~ locked (Key p) (aw_stores w)).
  { unfold locked. destruct (st_access (aw_stores w) !! Key p) as [r|]; [|right; by intros (? & ? & _)].
    destruct (decide (ar_State r = AccessLocked)); [left; by exists r|right; intros (r' & [= <-] & ?); done]. }
  destruct Hdec as [|Hn]; [done|]. exfalso.
  assert (Hne : st_access (aw_stores w') !! Key p <> st_access (aw_stores w) !! Key p) by (intros E; apply Hn; unfold locked; by rewrite <- E).
  destruct (Hacc _ Hne) as (target & q & Hok & Hq & Ekey & _ & Hban). destruct Hban as [Hun|(_ & Hadm & Hself)]; [by apply (Hlocks _ Hl Hn)|].
  apply NewPrincipal_Ok in Hp as [Epl Eid], Hq as [Epl' Eid']. unfold Key in Ekey. rewrite Epl, Epl' in Ekey. apply (inj _), (inj _) in Ekey.
  assert (Et : TrimSpace target = target) by by apply TrimSpace_id, plain_trimmed, id_plain.
  assert (TrimSpace id = target) as E by congruence. destruct Hspared as [Ha|Ha]; [|congruence]. rewrite <- IsAdmin_trim, E in Ha. congruence.
Qed.
End effects.

(** * Who may command *)

Section authority.
Context `{UnicodeCase} `{UnicodeLetter} `{UnicodeDigit} `{Externals}.

(** Nothing but messages. *)
Definition quiet (w w' : adm_world) : Prop :=
  aw_stores w' = aw_stores w /\ aw_heap w' = aw_heap w /\ aw_sessions w' = aw_sessions w /\ aw_jobs w' = aw_jobs w.

(** The access store lets the caller through. *)
Definition admitted (e : adm_engine) (env : adm_env) (platform caller : string) (w : adm_world) : Prop :=
  forall c, ad_Security e = Some c -> exists p, NewPrincipal platform caller = Ok p /\ CheckAccess (Some c) (ae_check env) p (st_access (aw_stores w)) = None.

Lemma send_all_quiet os w : quiet w (foldl (fun w o => send o w) w os) /\ aw_out (foldl (fun w o => send o w) w os) = aw_out w ++ os.
Proof.
  revert w. induction os as [|o os IH]; intros w; cbn [foldl]; [by rewrite app_nil_r|]. destruct (IH (send o w)) as [Hq ->]. split; [done|]. cbn. by rewrite <- app_assoc.
Qed.

Lemma admit_cases e env dropped platform cmdCtx cmd parseErr w : let w' := admit_command e env dropped platform cmdCtx cmd parseErr w in
  if IsAdmin (ad_AdminIDs e) (cc_CallerUserID cmdCtx) then quiet w w' \/ parseErr = None /\ admitted e env platform (cc_CallerUserID cmdCtx) w
  else quiet w w' /\ aw_out w' = aw_out w ++ dropped.
Proof.
  cbn zeta. unfold admit_command. destruct (IsAdmin _ _); cbn [negb]; [|apply send_all_quiet].
  set (yes := match parseErr with Some _ => _ | None => _ end). assert (Hyes : quiet w yes \/ parseErr = None).
  { unfold yes. destruct parseErr; [by left|by right]. }
  destruct (ad_Security e) as [c|] eqn:Hs.
  - destruct (NewPrincipal platform _) as [p|] eqn:Hp; [|by left]. destruct (CheckAccess _ _ _ _) as [[|err]|] eqn:Hc; [by left..|].
    destruct Hyes as [|Herr]; [by left|right]. split; [done|]. intros c' Hc'. exists p. split; [done|]. rewrite Hs in Hc'. by injection Hc' as <-.
  - destruct Hyes as [|Herr]; [by left|right]. split; [done|]. intros c' Hc'. by rewrite Hs in Hc'.
Qed.

(** C16: commands need authority.  A message is taken for a command only if it
    mentions the bot.  If the caller is not an administrator nothing happens and
    nothing is said; if they are, nothing but a message is sent unless the access
    store has just let them through and the command could be read. *)
Theorem commands_need_authority e env w mock :
  (forall event, let '(handled, w') := handleAstrBotCommand e env mock event w in
    if handled then mock = false /\ ev_IsAt event = true /\
      (if IsAdmin (ad_AdminIDs e) (TrimSpace (ev_UserID event))
       then quiet w w' \/ (extractAstrBotAdminCommand event (ad_CommandPrefix e)).2 = None /\ admitted e env (event_platform event) (TrimSpace (ev_UserID event)) w
       else quiet w w' /\ aw_out w' = aw_out w ++ [Noop])
    else w' = w) /\
  (forall event, let '(handled, w') := handleOneBotCommand e env mock event w in
    if handled then mock = false /\ (exists seg, seg ∈ ob_Message event /\ names_self (pretty (ob_SelfID event)) seg = true) /\
      (if IsAdmin (ad_AdminIDs e) (pretty (ob_UserID event))
       then quiet w w' \/ (extractOneBotAdminCommand event (ad_CommandPrefix e)).2 = None /\ admitted e env "onebot" (pretty (ob_UserID event)) w
       else quiet w w' /\ aw_out w' = aw_out w)
    else w' = w).
Proof.
  split; intros event.
  - unfold handleAstrBotCommand. destruct mock; [done|]. destruct (extractAstrBotAdminCommand event (ad_CommandPrefix e)) as [[cmd cand] err] eqn:Hx.
    destruct cand; cbn [negb]; [|done]. split; [done|]. split; [unfold extractAstrBotAdminCommand in Hx; by destruct (ev_IsAt event)|].
    match goal with |- context [admit_command e env [Noop] ?pl ?ctx cmd err w] => pose proof (admit_cases e env [Noop] pl ctx cmd err w) as Hc end.
    cbn [cc_CallerUserID] in Hc. cbn zeta in Hc. cbn [snd]. exact Hc.
  - unfold handleOneBotCommand. destruct mock; [done|]. destruct (extractOneBotAdminCommand event (ad_CommandPrefix e)) as [[cmd cand] err] eqn:Hx.
    destruct cand; cbn [negb]; [|done]. split; [done|]. split.
    + unfold extractOneBotAdminCommand in Hx. destruct (_ || _); [done|]. destruct (existsb _ _) eqn:Hex; [|done].
      apply existsb_exists in Hex as (seg & Hin & Hs). exists seg. split; [by apply list_elem_of_In|done].
    + match goal with |- context [admit_command e env [] "onebot" ?ctx cmd err w] => pose proof (admit_cases e env [] "onebot" ctx cmd err w) as Hc end.
      cbn [cc_CallerUserID] in Hc. cbn zeta in Hc. destruct (IsAdmin _ _); [done|]. by rewrite app_nil_r in Hc.
Qed.
End authority.

(** * Runs *)

Module demo.
#[local] Existing Instance ascii_case.
#[local] Instance ascii_letter : UnicodeLetter := {|
  IsLetter r := match r with [a] => in_range 65 90 a || in_range 97 122 a | _ => false end |}.
#[local] Instance ascii_digit : UnicodeDigit := {| IsDigit r := match r with [a] => in_range 48 57 a | _ => false end |}.
#[local] Instance outside : Externals := {|
  ReplaceAllString _ _ s := s; ContentHash s := s; time_String _ := ""; ErrorType _ := "error"; json_event := encode_event |}.
#[local] Instance fold_laws : FoldLaws.
Proof. split. intros s. cbn. by apply bool_decide_eq_true_2. Qed.

Definition engine1 : adm_engine := {|
  ad_Security := Some {| c_Access := true; c_Audit := Some 2%Z; c_Watchdog := None; c_mode := None |};
  ad_AdminIDs := "777, 42;43"; ad_CommandPrefix := " bot "; ad_GroupCompactor := true; ad_MemoryReflections := true |}.
Definition env1 : adm_env := {|
  ae_check := no_faults; ae_execute_check := no_faults; ae_change := at_time 5; ae_reply _ := None; ae_go := true; ae_run := true;
  ae_compact_disabled := false; ae_force := None; ae_reflect_started := true; ae_reflect_running := false; ae_reflect_error := None;
  ae_now := 5; ae_saveHook _ := None; ae_save _ := None |}.
Definition world1 : adm_world := {|
  aw_stores := {| st_access := ∅; st_audit := "" |}; aw_heap := empty_heap; aw_sessions := NewSessionManager None false; aw_out := []; aw_jobs := [] |}.
Definition ctx1 : CommandContext := {|
  cc_SessionID := "group:9"; cc_Owner := "group:9"; cc_IsGroup := true; cc_CallerUserID := "777"; cc_Platform := "qq"; cc_GroupID := "9" |}.
Definition ban (id : string) : ParsedCommand := {| pc_Type := CmdBan; pc_Args := [id]; pc_RawArgs := id |}.

(** After the mention, the prefix and the command. *)
Example command_of_a_mention : ParseCandidate (StripLeadingMention "@helper BOT ban @666") " bot " = (ban "@666" , true, None).
Proof. by vm_compute. Qed.

(** An ideographic space has three bytes, of which two are left over. *)
Example stray_bytes : let text := "@helper" +:+ of_bytes (map byte_of [227; 128; 128]) +:+ "/reset" in
  StripLeadingMention text = of_bytes (map byte_of [128; 128]) +:+ "/reset" /\ (ParseCandidate (StripLeadingMention text) "/").1.2 = false /\
  ParseCandidate (StripLeadingMention "@helper /reset") "/" = ({| pc_Type := CmdReset; pc_Args := []; pc_RawArgs := "" |}, true, None).
Proof. by vm_compute. Qed.

(** A ban locks its target out; one of an administrator is only answered. *)
Example ban_locks : ar_State <$> st_access (aw_stores (Execute engine1 env1 ctx1 (ban "[@666]") world1).2) !! "qq:666" = Some AccessLocked.
Proof. by vm_compute. Qed.


Lemma commands_are_confined_witness : let w' := (Execute engine1 env1 ctx1 (ban "43") world1).2 in
  confined engine1 env1 ctx1 (ban "43") world1 w' /\ aw_out w' = [Say "无法封禁管理员账号。" false] /\ ~ locked "qq:43" (aw_stores w').
Proof.
  destruct (Execute engine1 env1 ctx1 (ban "43") world1) as [err w'] eqn:E. cbn zeta. cbn [snd].
  destruct (commands_are_confined engine1 env1 ctx1 (ban "43") world1 err w' E) as [Hc Hs]. split; [exact Hc|]. split.
  - change w' with (err, w').2. rewrite <- E. by vm_compute.
  - intros Hl. assert (Hno : locked "qq:43" (aw_stores world1)).
    { apply (Hs "43" {| pr_Platform := "qq"; pr_UserID := "43" |}); [by vm_compute|left; by vm_compute|exact Hl]. }
    destruct Hno as (r & Hr & _). vm_compute in Hr. discriminate Hr.
Defined.
End demo.
